(* ===== verification/_CoqProject ===== *)
-Q . S2P
Prelude.v
CLib.v
Posix.v
Names.v
Common.v
Broker.v
Ipc.v
IpcStream.v
Exchange.v
Agentfs.v
Profiles.v
Tasks.v
Enforcement.v
Lifecycle.v
Agentd.v
AgentdSpec.v
BrokerSpec.v
Transport.v
AgentdMain.v
Runtime.v
Fanout.v
FanoutSpec.v
Reviewer.v
Agentctl.v
AgentctlSpec.v
Control.v
BrokerClients.v
Psa.v
Platform.v
AgentfsModule.v
