(* ===== verification/Prelude.v ===== *)
(** * agentctl: a verification development

    agentctl runs and supervises small programs called agents on one machine.
    An operator's command (agentctl.c) and a supervisor daemon (agentd.c)
    share a data root on disk; per-agent runtimes (reviewer-agent.c,
    fanout-agent.c) exchange framed messages over Unix sockets (ipc.c) or
    through a kernel file system of mailboxes (kernel/agentfs.c).  The daemon
    is also a broker: an agent asks it for a channel to another agent and
    gets one if its policy file allows it (broker.c).  Agents keep their work
    in a store of tasks (tasks.c), are configured by profiles (profiles.c) and
    confined by cgroups, Landlock and seccomp (enforcement.c).  psa.c lists
    them.

    ** The files and the sources they transcribe

    - [Prelude]: byte strings, scanning combinators, automation.
    - [CLib]: the C library functions used ([strtol], [printf]'s integers,
      [snprintf], [gmtime_r]).
    - [Posix]: errors, the world (files, descriptors, sockets, processes,
      clock), the monad [M], system calls, and the calculi [confined] (which
      paths a computation may change) and [shrinks] (what it leaves alone).
    - [Names]: the validators of common.c, tasks.c, profiles.c and agentfs.c;
      the class [PathSafe] is what they promise to the code that builds paths.
    - [Common]: common.c, the data root, the layout of an agent's directories
      and its migration, atomic writes, settings, logs, limits, transport
      configuration, signal-requested work.
    - [Broker]: broker.c.  [Ipc], [IpcStream]: ipc.c, packet sockets and the
      byte stream of the macOS build.  [Exchange]: the broker channel shared
      by threads and processes, as a step relation.
    - [Agentfs]: kernel/agentfs.c and the client side in common.c;
      [AgentfsModule]: module load, mounts, unload, and the three tools of
      kernel/.
    - [Profiles], [Tasks], [Enforcement]: the files of these names.
    - [Lifecycle]: the process functions of common.c, [spawn_agent_runtime]
      included, parent and child side.
    - [Agentd], [AgentdMain]: agentd.c; the daemon's globals are [dstate] and
      its functions run in the monad [D].  [AgentdSpec] holds the first
      properties, [BrokerSpec] the broker service as a pure function of the
      request, [AgentdMain] start-up, signals, main and theirs.
    - [Transport]: a class of message transports with its laws, and the three
      transports of the system as its instances.
    - [Runtime]: what the two runtimes share; [Fanout], [FanoutSpec] and
      [Reviewer] the runtimes.
    - [Agentctl], [AgentctlSpec]: agentctl.c in the monad [Cli] (standard
      streams over the world).  [Control]: client and daemon together.
    - [BrokerClients]: the runtimes of examples/ that exercise the broker
      (broker-test.c, broker-fault.c, broker-concurrency.c), alone and together
      with the daemon.
    - [Psa]: psa.c.
    - [Platform]: what the preprocessor selects on other systems (peer
      credentials, enforcement and process-information stubs), signal set-up,
      and small helpers of common.c and ipc.c.

    A definition has the name of the C function it transcribes; a struct is a
    record with the same fields, an enum an inductive type.  A C function that
    fails with [errno] is a computation of [M] that ends in [inl errno].
    Every system call takes the next outcome of the schedule [w_sched]
    (success, an error, a short transfer), so a theorem that does not fix the
    schedule holds for every pattern of failures.

    ** What the theorems show

    - Storage: an atomic write replaces a file completely or changes nothing
      ([Common.atomic_write_file_atomic]); the state of one agent is never
      changed by writes for, or the removal of, another
      ([Common.agent_writes_isolated], [AgentctlSpec.agent_removal_isolated],
      [AgentctlSpec.remove_tree_complete]); key-value upserts and profile
      parsing have their functional specification ([Profiles]); task ids are
      valid and fresh and task states are read back ([Tasks]).
    - Messages: what one side sends the other receives, over packet sockets
      ([Ipc.ipc_send_recv_round_trip]), a byte stream cut in any way
      ([IpcStream.stream_round_trip]) and the kernel mailboxes
      ([Agentfs.agentfs_send_recv]); all three refine one queue, so a
      conversation looks the same over each ([Transport.transports_agree]);
      sends are all or nothing, parsers strict,
      and exchanges with the broker never overlap
      ([Exchange.exchange_serialized]).
    - The kernel module: an invariant of every reachable state, mailboxes
      refine a queue, dead owners are noticed, names have one owner, and
      registration is safe with one mount at a time ([AgentfsModule]).
    - Authority: the broker is deny-by-default and hands out descriptors only
      for requests the policy allows ([Broker.broker_policy_check_spec],
      [AgentdSpec.broker_mediates], [AgentctlSpec.grant_reaches_broker]); the
      control socket needs the token ([AgentdSpec.control_requires_token])
      and a client that has it gets its answer
      ([Control.control_round_trip]); the Landlock ruleset keeps the
      configuration read-only and the seccomp program is its allow-list
      ([Enforcement]), and neither is reported active unless it is in force
      ([Platform.enforcement_honest]).
    - The broker end to end: its handler refines a pure verdict
      ([BrokerSpec.broker_refines]); a message sent through an issued channel
      arrives with the sender's true identity and leaves no descriptor behind
      ([BrokerClients.brokered_message_delivered]); malformed requests are
      answered and too many descriptors end the channel
      ([BrokerClients.malformed_survives], [BrokerClients.many_fds_closes]).
    - The daemon: one per root ([AgentdMain.daemon_singleton]), no signal is
      lost ([AgentdMain.self_pipe_no_lost_wakeup]), its tables are never
      overrun ([AgentdMain.daemon_tables_invariant]), it ends when asked
      ([AgentdMain.agentd_graceful]), reaps every child
      ([AgentdSpec.reap_zombies_complete]) and backs off as computed in
      [AgentdSpec.restart_backoff].
    - The runtimes: delegation targets, the completion rule and graceful
      shutdown of fanout ([FanoutSpec]), counts and complete artifacts of the
      reviewer ([Reviewer]).
    - Listing: psa reads the kernel's process line whatever the command is
      called and prints a table whatever fails ([Psa]).

    Several theorems describe defects exactly: where the code falls short of
    its intent, the statement says what it does
    ([Lifecycle.spawn_never_filtered], [AgentctlSpec.grant_reaches_broker],
    [FanoutSpec.fanout_result_spec], [AgentfsModule.register_mount_discipline],
    [AgentdMain.released_slot_served], [Exchange.exchange_desync],
    [BrokerClients.many_fds_closes], [Platform.cgroup_overreported] and others).

    ** Bounds and fuel

    Loops that are not structural carry fuel, chosen so that it never runs
    out, which the specification lemmas use: [line_loop] one unit per byte of
    the text and one more ([line_loop_spec]); [read_all] and [write_all] one
    per byte and per scheduled outcome ([read_all_loop_spec],
    [write_all_loop_spec]); [retry_eintr] one per scheduled outcome
    ([eintr_sys]); [reap_loop] one per zombie; [remove_tree_] one per byte of
    the longest path, since each level adds at least two bytes; [header_loop]
    and [payload_loop] of the stream one per byte still to come; symbolic
    links 40, as the kernel.  The waiting loops ([await_exit],
    [status_rounds], [gone_rounds]) have the number of rounds the code
    computes from its timeouts (50 ms each).  The main loops run over the list
    of what [poll] reported, of any length.  Decimal conversion has 20 digits,
    enough for 64 bits.  Integers are [Z] with the wrap-around of their C type
    written out where the code can reach it.

    ** Limits of the model

    Path resolution follows a link in the last component only, and
    [sys_readdir] none.  Writes to the standard streams succeed.  An error
    number that the code reports without a failing call having set it is
    [E0].  The diagnostics of [refuse_root] and of the resolution of the data
    root are not printed (the exit code is).  Descriptors of regular files are
    represented by their resolved path; close-on-exec flags are not modelled.
    Reading from a socket whose other end is closed is end of file in
    [BrokerClients.sys_recv]; elsewhere a closed peer shows as the error the
    schedule gives.
    Calls to the world outside the sources are arguments: [bind], [connect],
    [accept], peer credentials, [fork] and [wait] of broker-concurrency, the
    entropy source, the numbers of system
    calls, the kernel's Landlock version, the reading of standard input, the
    printed CPU percentage of psa (a floating-point quotient) and the measured
    time of ping.

    ** Not modelled

    Of the macOS branches: the process information of psa and inspect, which
    is read through libproc and floating point, and the drain before close of
    [ipc_send_oneshot].  bench/bench-pingpong.c, whose result is measured time
    (the calls it measures are in [Ipc]).  tests/, sdk/ and docs/: scripts,
    Python and text. *)

From Stdlib Require Export Ascii String ZArith Lia.
From stdpp Require Export base list gmap strings sorting.

#[global] Open Scope Z_scope.

(** ** Byte strings

    A C buffer is a list of 8-bit characters; a C string (a [const char *]
    argument) is the list of its characters before the terminating NUL. *)

Abbreviation bytes := (list ascii).

Declare Scope bytes_scope.
Delimit Scope bytes_scope with bytes.

(** [#"text"] is the byte list of a string literal. *)
Notation "# s" := (list_ascii_of_string s%string)
  (at level 8, s at level 0, format "# s") : bytes_scope.
#[global] Open Scope bytes_scope.

Definition NUL : ascii := "000"%char.
Definition TAB : ascii := "009"%char.
Definition NL  : ascii := "010"%char.
Definition CR  : ascii := "013"%char.
Definition SP  : ascii := " "%char.
Definition nl : bytes := [NL].

(** Lengths are [Z], as C sizes: the caps of the code (1 MiB and more) are
    unusable as unary numbers. *)
Definition blen {A} (l : list A) : Z := Z.of_nat (length l).

Definition bytes_eqb (a b : bytes) : bool := bool_decide (a = b).

(** ** Scanning combinators (the pointer loops of the C code) *)

Section scanning.
Context {A : Type} (f : A → bool).

Fixpoint drop_while (l : list A) : list A :=
  match l with
  | [] => []
  | x :: l' => if f x then drop_while l' else l
  end.

Fixpoint take_while (l : list A) : list A :=
  match l with
  | [] => []
  | x :: l' => if f x then x :: take_while l' else []
  end.

(** Trailing trim: [while (n > 0 && f(s[n-1])) n--]. *)
Definition rtrim (l : list A) : list A := reverse (drop_while (reverse l)).
End scanning.

(** [memchr]/[strchr]: the part before the first occurrence and the part
    after it. *)
Fixpoint split_at (c : ascii) (l : bytes) : option (bytes * bytes) :=
  match l with
  | [] => None
  | x :: l' =>
      if Ascii.eqb x c then Some ([], l')
      else match split_at c l' with
           | Some (p, r) => Some (x :: p, r)
           | None => None
           end
  end.

(** [strrchr]: the part before the last occurrence and the part after it. *)
Definition split_last (c : ascii) (l : bytes) : option (bytes * bytes) :=
  match split_at c (reverse l) with
  | Some (p, r) => Some (reverse r, reverse p)
  | None => None
  end.

(** [memcmp(s, p, strlen p) == 0] under the length guard, with the rest. *)
Fixpoint strip_prefix (p s : bytes) : option bytes :=
  match p, s with
  | [], _ => Some s
  | a :: p', b :: s' => if Ascii.eqb a b then strip_prefix p' s' else None
  | _ :: _, [] => None
  end.

Definition has_prefix (p s : bytes) : bool :=
  match strip_prefix p s with Some _ => true | None => false end.

(** ** The line loop

    [while ( *p ) { eol = strchr(p, '\n'); llen = ...; BODY; if (!eol) break;
    p = eol + 1; }] occurs in nine functions of the code.  [line_loop] is that
    loop with the body as a function on the line; [text_lines] is the
    sequence of lines it visits. *)

Fixpoint text_lines (s : bytes) : list bytes :=
  match s with
  | [] => []
  | c :: s' =>
      if Ascii.eqb c NL then [] :: text_lines s'
      else match text_lines s' with
           | [] => [[c]]
           | l :: ls => (c :: l) :: ls
           end
  end.

Fixpoint line_loop {St} (body : St → bytes → St) (fuel : nat) (st : St) (p : bytes) : St :=
  match fuel with
  | O => st
  | S fuel' =>
      match p with
      | [] => st
      | _ =>
          match split_at NL p with
          | None => body st p
          | Some (line, rest) => line_loop body fuel' (body st line) rest
          end
      end
  end.

(** ** Automation *)

(** [lia] with division and remainder by constants. *)
Ltac Zify.zify_post_hook ::= Z.to_euclidean_division_equations.

(** Turn boolean tests into propositions, everywhere. *)
Ltac bool_simpl :=
  repeat match goal with
  | H : Ascii.eqb _ _ = true |- _ => apply Ascii.eqb_eq in H; try subst
  | H : Ascii.eqb _ _ = false |- _ => apply Ascii.eqb_neq in H
  | H : (_ && _)%bool = true |- _ => apply andb_true_iff in H as [? ?]
  | H : (_ || _)%bool = false |- _ => apply orb_false_iff in H as [? ?]
  | H : negb _ = true |- _ => apply negb_true_iff in H
  | H : negb _ = false |- _ => apply negb_false_iff in H
  | H : (_ <? _) = true |- _ => apply Z.ltb_lt in H
  | H : (_ <? _) = false |- _ => apply Z.ltb_ge in H
  | H : (_ <=? _) = true |- _ => apply Z.leb_le in H
  | H : (_ <=? _) = false |- _ => apply Z.leb_gt in H
  | H : (_ =? _) = true |- _ => apply Z.eqb_eq in H
  | H : (_ =? _) = false |- _ => apply Z.eqb_neq in H
  | H : bool_decide _ = true |- _ => apply bool_decide_eq_true in H
  | H : bool_decide _ = false |- _ => apply bool_decide_eq_false in H
  | H : bytes_eqb _ _ = true |- _ => unfold bytes_eqb in H
  | H : bytes_eqb _ _ = false |- _ => unfold bytes_eqb in H
  end.

(** Case on the innermost scrutinee of a [match] in a hypothesis or in the
    goal, keeping the equation. *)
Ltac step_in H :=
  match type of H with
  | context [match ?x with _ => _ end] =>
      lazymatch x with
      | context [match _ with _ => _ end] => fail
      | _ => let E := fresh "E" in destruct x eqn:E; simplify_eq/=
      end
  end.
Ltac step_goal :=
  match goal with
  | |- context [match ?x with _ => _ end] =>
      lazymatch x with
      | context [match _ with _ => _ end] => fail
      | _ => let E := fresh "E" in destruct x eqn:E; simplify_eq/=
      end
  end.

(** [x ∉ [a; b; ...]] for distinct constructor terms. *)
Ltac not_in_list :=
  let H := fresh in
  intros H; repeat (apply elem_of_cons in H as [H|H]; [discriminate H|]); by apply not_elem_of_nil in H.

Create Rewrite HintDb bytes.
Create Rewrite HintDb sizes.
Create HintDb sizes.

(** ** Lemmas: lengths *)

Lemma blen_nil {A} : blen (@nil A) = 0.
Proof. reflexivity. Qed.
Lemma blen_cons {A} (x : A) l : blen (x :: l) = 1 + blen l.
Proof. unfold blen. cbn [length]. lia. Qed.
Lemma blen_app {A} (a b : list A) : blen (a ++ b) = blen a + blen b.
Proof. unfold blen. rewrite length_app. lia. Qed.
Lemma blen_nonneg {A} (l : list A) : 0 ≤ blen l.
Proof. unfold blen. lia. Qed.
Lemma blen_reverse {A} (l : list A) : blen (reverse l) = blen l.
Proof. unfold blen. by rewrite length_reverse. Qed.
Lemma blen_take {A} n (l : list A) : blen (take n l) ≤ Z.of_nat n.
Proof. unfold blen. rewrite length_take. lia. Qed.
Lemma blen_zero {A} (l : list A) : blen l = 0 ↔ l = [].
Proof. unfold blen. destruct l; cbn [length]; split; intros; try done; lia. Qed.
#[export] Hint Rewrite @blen_nil @blen_cons @blen_app @blen_reverse : sizes.
#[export] Hint Resolve blen_nonneg : sizes.

(** [solve_len]: arithmetic on list lengths. *)
Ltac solve_len :=
  autorewrite with sizes in *;
  repeat match goal with
  | |- context [blen ?l] => lazymatch goal with
        | _ : 0 ≤ blen l |- _ => fail | _ => pose proof (blen_nonneg l) end
  | _ : context [blen ?l] |- _ => lazymatch goal with
        | _ : 0 ≤ blen l |- _ => fail | _ => pose proof (blen_nonneg l) end
  end; lia.

(** [fit_len]: the same with the literals measured. *)
Ltac fit_len :=
  repeat match goal with
  | |- context [blen (?a ++ ?b)] => rewrite (blen_app a b)
  | |- context [blen (?a :: ?b)] => rewrite (blen_cons a b)
  | |- context [blen (list_ascii_of_string ?s)] =>
      let n := eval vm_compute in (blen (list_ascii_of_string s)) in
      change (blen (list_ascii_of_string s)) with n
  | |- context [blen nl] => change (blen nl) with 1
  | |- context [blen (@nil ?A)] => change (blen (@nil A)) with 0
  end; lia.

(** ** Lemmas: scanning *)

Section scanning_lemmas.
Context {A : Type} (f : A → bool).
Implicit Types l : list A.

Lemma drop_while_suffix l : ∃ p, l = p ++ drop_while f l ∧ Forall (λ x, f x = true) p.
Proof.
  induction l as [|x l [p [Hp HF]]]; simpl; [by exists []|].
  destruct (f x) eqn:Hx; [|by exists []].
  exists (x :: p). split; [by rewrite Hp at 1|by constructor].
Qed.

Lemma drop_while_head l x r : drop_while f l = x :: r → f x = false.
Proof.
  induction l as [|y l IH]; simpl; [done|].
  destruct (f y) eqn:Hy; [exact IH|]. intros; by simplify_eq.
Qed.

Lemma drop_while_id x l : f x = false → drop_while f (x :: l) = x :: l.
Proof. simpl. by intros ->. Qed.

Lemma drop_while_all p l : Forall (λ x, f x = true) p →
  drop_while f (p ++ l) = drop_while f l.
Proof. induction 1 as [|x p Hx _ IH]; simpl; [done|]. by rewrite Hx. Qed.

Lemma drop_while_length l : blen (drop_while f l) ≤ blen l.
Proof.
  destruct (drop_while_suffix l) as (p & Hp & _).
  rewrite Hp at 2. rewrite blen_app. solve_len.
Qed.

Lemma take_while_Forall l : Forall (λ x, f x = true) (take_while f l).
Proof.
  induction l as [|x l IH]; simpl; [done|].
  destruct (f x) eqn:Hx; [by constructor|done].
Qed.

Lemma take_while_app p l : Forall (λ x, f x = true) p →
  take_while f (p ++ l) = p ++ take_while f l.
Proof. induction 1 as [|x p Hx _ IH]; simpl; [done|]. by rewrite Hx, IH. Qed.

Lemma take_while_drop_while l : take_while f l ++ drop_while f l = l.
Proof.
  induction l as [|x l IH]; simpl; [done|].
  destruct (f x); simpl; [by rewrite IH|done].
Qed.

Lemma rtrim_id l x : f x = false → rtrim f (l ++ [x]) = l ++ [x].
Proof.
  intros Hx. unfold rtrim. rewrite reverse_app. simpl. rewrite Hx.
  change (x :: reverse l) with ([x] ++ reverse l).
  by rewrite reverse_app, reverse_involutive.
Qed.

Lemma rtrim_app l p : Forall (λ x, f x = true) p → rtrim f (l ++ p) = rtrim f l.
Proof.
  intros Hp. unfold rtrim. rewrite reverse_app.
  rewrite drop_while_all; [done|]. by apply Forall_reverse.
Qed.

Lemma rtrim_nil : rtrim f [] = [].
Proof. reflexivity. Qed.

Lemma rtrim_prefix l : ∃ p, l = rtrim f l ++ p ∧ Forall (λ x, f x = true) p.
Proof.
  destruct (drop_while_suffix (reverse l)) as (p & Hp & HF).
  exists (reverse p). split; [|by apply Forall_reverse].
  unfold rtrim. rewrite <-reverse_app, <-Hp. by rewrite reverse_involutive.
Qed.
End scanning_lemmas.

Lemma Forall_ne_not_elem (c : ascii) (l : bytes) :
  Forall (λ x, Ascii.eqb x c = false) l ↔ c ∉ l.
Proof.
  rewrite Forall_forall. split.
  - intros H Hin. apply H in Hin. by rewrite Ascii.eqb_refl in Hin.
  - intros H x Hx. apply Ascii.eqb_neq. by intros ->.
Qed.

Lemma split_at_app (c : ascii) (p r : bytes) : c ∉ p → split_at c (p ++ c :: r) = Some (p, r).
Proof.
  induction p as [|x p IH]; simpl; intros Hc.
  - by rewrite Ascii.eqb_refl.
  - rewrite not_elem_of_cons in Hc. destruct Hc as [Hne Hc].
    rewrite (proj2 (Ascii.eqb_neq x c)) by congruence. by rewrite IH.
Qed.

Lemma split_at_Some (c : ascii) (l p r : bytes) :
  split_at c l = Some (p, r) → l = p ++ c :: r ∧ c ∉ p.
Proof.
  revert p r. induction l as [|x l IH]; simpl; intros p r H; [done|].
  destruct (Ascii.eqb x c) eqn:Hx.
  - bool_simpl. simplify_eq. split; [done|by apply not_elem_of_nil].
  - destruct (split_at c l) as [[p' r']|] eqn:E; simplify_eq.
    destruct (IH p' r eq_refl) as [-> Hn]. bool_simpl.
    split; [done|]. by rewrite not_elem_of_cons.
Qed.

Lemma split_at_None (c : ascii) (l : bytes) : split_at c l = None ↔ c ∉ l.
Proof.
  split.
  - intros H Hin. apply list_elem_of_split in Hin as (p & r & ->).
    induction p as [|x p IH]; simpl in H.
    + by rewrite Ascii.eqb_refl in H.
    + destruct (Ascii.eqb x c); [done|].
      destruct (split_at c (p ++ c :: r)) as [[??]|]; [done|]. by apply IH.
  - intros Hn. destruct (split_at c l) as [[p r]|] eqn:E; [|done].
    apply split_at_Some in E as [-> _]. exfalso. apply Hn. set_solver.
Qed.

Lemma strip_prefix_app (p r : bytes) : strip_prefix p (p ++ r) = Some r.
Proof. induction p as [|a p IH]; simpl; [done|]. by rewrite Ascii.eqb_refl. Qed.

Lemma strip_prefix_Some (p s r : bytes) : strip_prefix p s = Some r ↔ s = p ++ r.
Proof.
  split; [|intros ->; apply strip_prefix_app].
  revert s. induction p as [|a p IH]; simpl; intros s H; [by simplify_eq|].
  destruct s as [|b s]; [done|]. destruct (Ascii.eqb a b) eqn:E; [|done].
  bool_simpl. by rewrite (IH s H).
Qed.

Lemma has_prefix_spec (p s : bytes) : has_prefix p s = true ↔ ∃ r, s = p ++ r.
Proof.
  unfold has_prefix. destruct (strip_prefix p s) as [r|] eqn:E.
  - split; [|done]. intros _. exists r. by apply strip_prefix_Some.
  - split; [done|]. intros [r Hr]. apply strip_prefix_Some in Hr. congruence.
Qed.

Lemma has_prefix_app (p r : bytes) : has_prefix p (p ++ r) = true.
Proof. apply has_prefix_spec. by exists r. Qed.

Lemma bytes_eqb_refl (a : bytes) : bytes_eqb a a = true.
Proof. by apply bool_decide_eq_true. Qed.
Lemma bytes_eqb_eq (a b : bytes) : bytes_eqb a b = true ↔ a = b.
Proof. apply bool_decide_eq_true. Qed.
Lemma bytes_eqb_neq (a b : bytes) : bytes_eqb a b = false ↔ a ≠ b.
Proof. apply bool_decide_eq_false. Qed.

#[export] Hint Rewrite split_at_app using assumption : bytes.
#[export] Hint Rewrite strip_prefix_app has_prefix_app bytes_eqb_refl Ascii.eqb_refl : bytes.

(** ** Lemmas: the line loop *)

Lemma text_lines_cons (l r : bytes) : NL ∉ l → text_lines (l ++ NL :: r) = l :: text_lines r.
Proof.
  induction l as [|c l IH]; intros Hl; simpl; [done|].
  rewrite not_elem_of_cons in Hl. destruct Hl as [Hc Hl].
  rewrite (proj2 (Ascii.eqb_neq c NL)) by congruence. by rewrite IH.
Qed.

Lemma text_lines_last (l : bytes) : NL ∉ l → l ≠ [] → text_lines l = [l].
Proof.
  induction l as [|c l IH]; intros Hl Hne; [done|]. simpl.
  rewrite not_elem_of_cons in Hl. destruct Hl as [Hc Hl].
  rewrite (proj2 (Ascii.eqb_neq c NL)) by congruence.
  destruct l as [|d l]; [done|]. by rewrite IH.
Qed.

(** The loop terminates and visits exactly [text_lines p]: one unit of fuel
    per byte (plus one) is enough. *)
Lemma line_loop_spec {St} (body : St → bytes → St) (fuel : nat) (st : St) (p : bytes) :
  (length p < fuel)%nat →
  line_loop body fuel st p = foldl body st (text_lines p).
Proof.
  revert st p. induction fuel as [|fuel IH]; intros st p Hf; [lia|].
  destruct p as [|c p]; [done|]. cbn [line_loop].
  destruct (split_at NL (c :: p)) as [[line rest]|] eqn:E.
  - apply split_at_Some in E as [Heq Hn]. rewrite Heq, text_lines_cons by done.
    simpl. apply IH. apply (f_equal length) in Heq.
    rewrite length_app in Heq. simpl in Heq, Hf. lia.
  - apply split_at_None in E. by rewrite text_lines_last.
Qed.

Lemma text_lines_no_nl (s l : bytes) : l ∈ text_lines s → NL ∉ l.
Proof.
  revert l. induction s as [|c s IH]; simpl; intros l Hl; [by apply not_elem_of_nil in Hl|].
  destruct (Ascii.eqb c NL) eqn:E; bool_simpl.
  - apply elem_of_cons in Hl as [->|Hl]; [apply not_elem_of_nil|by apply IH].
  - destruct (text_lines s) as [|l0 ls] eqn:Els.
    + apply list_elem_of_singleton in Hl as ->. set_solver.
    + apply elem_of_cons in Hl as [->|Hl].
      * apply not_elem_of_cons. split; [done|]. apply IH. set_solver.
      * apply IH. set_solver.
Qed.

(** Lines of a text appended to one that ends in a newline. *)
Lemma text_lines_app (a b : bytes) :
  text_lines (a ++ NL :: b) = text_lines (a ++ [NL]) ++ text_lines b.
Proof.
  induction a as [|c a IH]; [done|]. simpl. destruct (Ascii.eqb c NL); [by rewrite IH|].
  rewrite IH. assert (text_lines (a ++ [NL]) ≠ []) as Hne.
  { destruct a as [|d a]; [done|]. simpl. destruct (Ascii.eqb d NL); [done|].
    by destruct (text_lines (a ++ [NL])). }
  by destruct (text_lines (a ++ [NL])).
Qed.

Lemma take_elem {A} (x : A) n (l : list A) : x ∈ take n l → x ∈ l.
Proof. intros H. rewrite <-(take_drop n l). set_solver. Qed.

(** Two keys that differ at some position are never prefixes of one string. *)
Fixpoint clash (p q : bytes) : bool :=
  match p, q with
  | a :: p', b :: q' => if Ascii.eqb a b then clash p' q' else true
  | _, _ => false
  end.

Lemma strip_prefix_clash p q s r :
  clash p q = true → strip_prefix p s = Some r → strip_prefix q s = None.
Proof.
  revert q s. induction p as [|a p IH]; intros [|b q] [|c s] Hc Hs; simpl in *; try done.
  destruct (Ascii.eqb a c) eqn:E1; [|done]. destruct (Ascii.eqb b c) eqn:E2; [|done].
  bool_simpl. rewrite Ascii.eqb_refl in Hc. by eapply IH.
Qed.

#[global] Arguments strip_prefix : simpl never.
#[global] Arguments has_prefix : simpl never.
#[global] Arguments split_at : simpl never.
#[global] Arguments list_ascii_of_string : simpl never.
