(* ===== verification/CLib.v ===== *)
(** * The C library functions the code uses

    Character classes of the "C" locale, [strtol]/[atoi], the integer
    conversions of [printf], [snprintf] and [gmtime_r], as executable
    functions on byte lists.  Integers are [Z]; the width of [long] (64) and
    [int] (32) is explicit where the code can reach it. *)

From S2P Require Import Prelude.

(** ** Character classes *)

Definition code (c : ascii) : Z := Z.of_N (N_of_ascii c).
Definition between (lo hi : Z) (c : ascii) : bool := (lo <=? code c) && (code c <=? hi).
Definition isdigit (c : ascii) : bool := between 48 57 c.
Definition isalnum (c : ascii) : bool :=
  isdigit c || between 65 90 c || between 97 122 c.
Definition isspace (c : ascii) : bool := between 9 13 c || Ascii.eqb c SP.
Definition is_blank (c : ascii) : bool := Ascii.eqb c SP || Ascii.eqb c TAB.

(** The C string held by a buffer: what [strlen], ["%s"] and [strcmp] see. *)
Definition cstr (buf : bytes) : bytes := take_while (λ c, negb (Ascii.eqb c NUL)) buf.

(** ** Integers *)

Definition INT_MAX : Z := 2147483647.
Definition LONG_MAX : Z := 9223372036854775807.
Definition LONG_MIN : Z := -9223372036854775808.

(** Conversion of a [long] to [int] (wrap-around). *)
Definition to_int32 (z : Z) : Z := (z + 2147483648) mod 4294967296 - 2147483648.

Definition digit_char (d : Z) : ascii := ascii_of_N (Z.to_N (48 + d)).
Definition digit_val (c : ascii) : Z := code c - 48.
Definition digits_val (ds : bytes) : Z := foldl (λ a c, a * 10 + digit_val c) 0 ds.

(** Decimal digits of a nonnegative number; every C integer has at most 20
    digits, which is the fuel. *)
Fixpoint dec_loop (fuel : nat) (n : Z) (acc : bytes) : bytes :=
  match fuel with
  | O => acc
  | S f => let acc' := digit_char (n mod 10) :: acc in
           if n <? 10 then acc' else dec_loop f (n / 10) acc'
  end.
Definition dec (n : Z) : bytes := dec_loop 20 n [].

(** ["%ld"], ["%d"], ["%zu"]. *)
Definition fmt_d (n : Z) : bytes := if n <? 0 then "-"%char :: dec (- n) else dec n.

(** ["%0<w>d"] on a nonnegative number. *)
Definition fmt_0d (w : nat) (n : Z) : bytes :=
  let d := dec n in replicate (w - length d) "0"%char ++ d.

(** [strtol(s, &end, 10)] on the C string [s]. *)
Record strtol_res := StrtolRes {
  st_val : Z;          (** returned value, clamped to the range of [long] *)
  st_end : bytes;      (** the string at [end] *)
  st_conv : bool;      (** [end != s]: a conversion was made *)
  st_erange : bool     (** [errno == ERANGE] *)
}.

Definition strtol (s : bytes) : strtol_res :=
  let s1 := drop_while isspace s in
  let '(neg, s2) :=
    match s1 with
    | c :: r => if Ascii.eqb c "-" then (true, r)
                else if Ascii.eqb c "+" then (false, r) else (false, s1)
    | [] => (false, s1)
    end in
  let ds := take_while isdigit s2 in
  match ds with
  | [] => StrtolRes 0 s false false
  | _ =>
      let v := if neg then - digits_val ds else digits_val ds in
      let rest := drop_while isdigit s2 in
      if LONG_MAX <? v then StrtolRes LONG_MAX rest true true
      else if v <? LONG_MIN then StrtolRes LONG_MIN rest true true
      else StrtolRes v rest true false
  end.

(** [atoi] as glibc defines it. *)
Definition atoi (s : bytes) : Z := to_int32 (st_val (strtol s)).

(** ** [snprintf] *)

(** [n = snprintf(buf, cap, ...); if (n < 0 || n >= cap) fail]: the text when
    it fits with its NUL. *)
Definition snprintf_ok (cap : Z) (s : bytes) : option bytes :=
  if blen s <? cap then Some s else None.

(** [snprintf] whose result is not checked: silent truncation. *)
Definition snprintf_trunc (cap : nat) (s : bytes) : bytes := take (cap - 1) s.

(** [%-<n>s] and [%<n>d]; a text in double quotes. *)
Definition pad_right (n : nat) (s : bytes) : bytes := s ++ replicate (n - length s) SP.
Definition pad_left (n : nat) (s : bytes) : bytes := replicate (n - length s) SP ++ s.
Definition QUOTE : ascii := ascii_of_nat 34.
Definition quoted (s : bytes) : bytes := QUOTE :: s ++ [QUOTE].

(** ** Calendar time *)

Record tm := Tm { tm_year : Z; tm_mon : Z; tm_mday : Z; tm_hour : Z; tm_min : Z; tm_sec : Z }.

(** [gmtime_r], with [tm_year] and [tm_mon] as printed by the code
    ([tm_year + 1900], [tm_mon + 1]). *)
Definition gmtime (t : Z) : tm :=
  let days := t / 86400 in
  let secs := t mod 86400 in
  let z := days + 719468 in
  let era := z / 146097 in
  let doe := z mod 146097 in
  let yoe := (doe - doe / 1460 + doe / 36524 - doe / 146096) / 365 in
  let doy := doe - (365 * yoe + yoe / 4 - yoe / 100) in
  let mp := (5 * doy + 2) / 153 in
  let d := doy - (153 * mp + 2) / 5 + 1 in
  let m := if mp <? 10 then mp + 3 else mp - 9 in
  let y := yoe + era * 400 + (if m <=? 2 then 1 else 0) in
  Tm y m d (secs / 3600) (secs mod 3600 / 60) (secs mod 60).

(** ["%04d%02d%02dT%02d%02d%02dZ"] *)
Definition stamp_compact (t : Z) : bytes :=
  let k := gmtime t in
  fmt_0d 4 (tm_year k) ++ fmt_0d 2 (tm_mon k) ++ fmt_0d 2 (tm_mday k) ++ #"T" ++
  fmt_0d 2 (tm_hour k) ++ fmt_0d 2 (tm_min k) ++ fmt_0d 2 (tm_sec k) ++ #"Z".

(** ["%04d-%02d-%02dT%02d:%02d:%02dZ"] *)
Definition stamp_iso (t : Z) : bytes :=
  let k := gmtime t in
  fmt_0d 4 (tm_year k) ++ #"-" ++ fmt_0d 2 (tm_mon k) ++ #"-" ++ fmt_0d 2 (tm_mday k) ++ #"T" ++
  fmt_0d 2 (tm_hour k) ++ #":" ++ fmt_0d 2 (tm_min k) ++ #":" ++ fmt_0d 2 (tm_sec k) ++ #"Z".

Example stamp_iso_ex : stamp_iso 1788350400 = #"2026-09-02T12:00:00Z".
Proof. vm_compute. reflexivity. Qed.
Example stamp_leap_ex : stamp_compact 951782400 = #"20000229T000000Z".
Proof. vm_compute. reflexivity. Qed.
Example strtol_ex : strtol #" -42x" = StrtolRes (-42) #"x" true false.
Proof. vm_compute. reflexivity. Qed.
Example fmt_ex : fmt_0d 4 7 = #"0007".
Proof. vm_compute. reflexivity. Qed.

(** ** Lemmas: characters *)

Lemma code_range c : 0 ≤ code c < 256.
Proof. unfold code. pose proof (N_ascii_bounded c). lia. Qed.

Lemma code_digit_char d : 0 ≤ d < 10 → code (digit_char d) = 48 + d.
Proof. intros. unfold code, digit_char. rewrite N_ascii_embedding; lia. Qed.

Lemma isdigit_digit_char d : 0 ≤ d < 10 → isdigit (digit_char d) = true.
Proof.
  intros. unfold isdigit, between. rewrite code_digit_char by done.
  apply andb_true_iff. split; apply Z.leb_le; lia.
Qed.

Lemma digit_val_char d : 0 ≤ d < 10 → digit_val (digit_char d) = d.
Proof. intros. unfold digit_val. rewrite code_digit_char; lia. Qed.

(** Disjointness of a class and a character outside it, by evaluation. *)
Lemma class_ne (f : ascii → bool) c d : f c = true → f d = false → c ≠ d.
Proof. intros Hc Hd ->. congruence. Qed.

Lemma isdigit_alnum c : isdigit c = true → isalnum c = true.
Proof. unfold isalnum. by intros ->. Qed.

Lemma cstr_id s : NUL ∉ s → cstr s = s.
Proof.
  intros Hn. unfold cstr. rewrite <-(app_nil_r s) at 1.
  rewrite take_while_app; [by rewrite app_nil_r|].
  apply Forall_forall. intros x Hx. apply negb_true_iff, Ascii.eqb_neq. by intros ->.
Qed.

Lemma cstr_nul_free s : NUL ∉ cstr s.
Proof.
  intros Hin. pose proof (take_while_Forall (λ c, negb (Ascii.eqb c NUL)) s) as HF.
  rewrite Forall_forall in HF. by apply HF in Hin.
Qed.

Lemma cstr_length s : blen (cstr s) ≤ blen s.
Proof.
  unfold cstr. rewrite <-(take_while_drop_while (λ c, negb (Ascii.eqb c NUL)) s) at 2.
  solve_len.
Qed.

(** ** Lemmas: decimal conversion *)

Lemma digits_val_foldl a ds :
  foldl (λ a c, a * 10 + digit_val c) a ds = a * 10 ^ blen ds + digits_val ds.
Proof.
  unfold digits_val. revert a. induction ds as [|c ds IH]; intros a.
  - cbn. rewrite blen_nil. lia.
  - cbn [foldl]. rewrite IH, (IH (0 * 10 + digit_val c)), blen_cons.
    rewrite Z.pow_add_r by solve_len. ring.
Qed.

Lemma digits_val_cons c ds : digits_val (c :: ds) = digit_val c * 10 ^ blen ds + digits_val ds.
Proof. unfold digits_val at 1. cbn [foldl]. rewrite digits_val_foldl. lia. Qed.

Lemma dec_loop_val fuel n acc :
  0 ≤ n < 10 ^ Z.of_nat fuel → (0 < fuel)%nat →
  digits_val (dec_loop fuel n acc) = n * 10 ^ blen acc + digits_val acc.
Proof.
  revert n acc. induction fuel as [|f IH]; intros n acc Hn Hf; [lia|].
  cbn [dec_loop]. destruct (n <? 10) eqn:E; bool_simpl.
  - rewrite digits_val_cons, digit_val_char by lia. rewrite Z.mod_small by lia. lia.
  - assert (f ≠ 0%nat) by (intros ->; change (Z.of_nat 1) with 1 in Hn; lia).
    rewrite Nat2Z.inj_succ, Z.pow_succ_r in Hn by lia.
    rewrite IH by lia. rewrite digits_val_cons, blen_cons, digit_val_char by lia.
    rewrite Z.pow_add_r by solve_len.
    rewrite (Z.div_mod n 10) at 3 by lia. ring.
Qed.

Lemma dec_val n : 0 ≤ n < 10 ^ 20 → digits_val (dec n) = n.
Proof.
  intros Hn. unfold dec. rewrite dec_loop_val by lia.
  rewrite blen_nil. unfold digits_val. cbn. lia.
Qed.

Lemma dec_loop_digits fuel n acc :
  0 ≤ n → Forall (λ c, isdigit c = true) acc →
  Forall (λ c, isdigit c = true) (dec_loop fuel n acc).
Proof.
  revert n acc. induction fuel as [|f IH]; intros n acc Hn Hacc; [done|]. cbn [dec_loop].
  assert (Forall (λ c, isdigit c = true) (digit_char (n mod 10) :: acc)).
  { constructor; [apply isdigit_digit_char; lia|done]. }
  destruct (n <? 10); [done|]. apply IH; [apply Z.div_pos; lia|done].
Qed.

Lemma dec_digits n : 0 ≤ n → Forall (λ c, isdigit c = true) (dec n).
Proof. intros. by apply dec_loop_digits. Qed.

Lemma dec_loop_length fuel n acc (w : nat) :
  0 ≤ n < 10 ^ Z.of_nat w → (0 < w)%nat →
  (length (dec_loop fuel n acc) ≤ w + length acc)%nat.
Proof.
  revert n acc w. induction fuel as [|f IH]; intros n acc w Hn Hw; cbn [dec_loop]; [lia|].
  destruct (n <? 10) eqn:E; bool_simpl; [cbn [length]; lia|].
  destruct w as [|w]; [lia|].
  assert (w ≠ 0%nat) by (intros ->; change (Z.of_nat 1) with 1 in Hn; lia).
  rewrite Nat2Z.inj_succ, Z.pow_succ_r in Hn by lia.
  specialize (IH (n / 10) (digit_char (n mod 10) :: acc) w). cbn [length] in IH. lia.
Qed.

Lemma dec_length n w : 0 ≤ n < 10 ^ Z.of_nat w → (0 < w)%nat → (length (dec n) ≤ w)%nat.
Proof. intros. unfold dec. pose proof (dec_loop_length 20 n [] w). cbn [length] in *. lia. Qed.

Lemma dec_loop_nonempty fuel n acc : acc ≠ [] → dec_loop fuel n acc ≠ [].
Proof.
  revert n acc. induction fuel as [|f IH]; intros n acc Ha; cbn [dec_loop]; [done|].
  destruct (n <? 10); [done|]. by apply IH.
Qed.

Lemma dec_nonempty n : dec n ≠ [].
Proof.
  unfold dec. change 20%nat with (S 19). generalize 19%nat as f. intros f.
  cbn [dec_loop]. destruct (n <? 10); [done|]. by apply dec_loop_nonempty.
Qed.

Lemma dec_not_elem n c : 0 ≤ n → isdigit c = false → c ∉ dec n.
Proof.
  intros Hn Hc Hin. pose proof (dec_digits n Hn) as HF.
  rewrite Forall_forall in HF. apply HF in Hin. congruence.
Qed.

(** [fmt_0d w] is exactly [w] digits when the number has at most [w]. *)
Lemma fmt_0d_length w n : 0 ≤ n < 10 ^ Z.of_nat w → (0 < w)%nat → length (fmt_0d w n) = w.
Proof.
  intros Hn Hw. unfold fmt_0d. rewrite length_app, length_replicate.
  pose proof (dec_length n w Hn Hw). lia.
Qed.

Lemma fmt_0d_digits w n : 0 ≤ n → Forall (λ c, isdigit c = true) (fmt_0d w n).
Proof.
  intros Hn. unfold fmt_0d. apply Forall_app. split; [|by apply dec_digits].
  by apply Forall_replicate.
Qed.

Lemma digits_val_zeros k ds : digits_val (replicate k "0"%char ++ ds) = digits_val ds.
Proof.
  induction k as [|k IH]; [done|]. cbn [replicate app]. rewrite digits_val_cons, IH.
  change (digit_val "0") with 0. lia.
Qed.

Lemma fmt_0d_val w n : 0 ≤ n < 10 ^ 20 → digits_val (fmt_0d w n) = n.
Proof. intros. unfold fmt_0d. rewrite digits_val_zeros. by apply dec_val. Qed.

(** ** Lemmas: [strtol] *)

Lemma isdigit_not_space c : isdigit c = true → isspace c = false.
Proof.
  unfold isdigit, isspace, between. intros H. bool_simpl.
  apply orb_false_iff. split.
  - apply andb_false_iff. right. apply Z.leb_gt. lia.
  - apply Ascii.eqb_neq. intros ->. by vm_compute in H.
Qed.

Lemma isdigit_not_sign c : isdigit c = true →
  Ascii.eqb c "-" = false ∧ Ascii.eqb c "+" = false.
Proof. intros H. split; apply Ascii.eqb_neq; intros ->; by vm_compute in H. Qed.

(** A digit string followed by a non-digit is read back exactly. *)
Lemma strtol_digits ds r :
  ds ≠ [] → Forall (λ c, isdigit c = true) ds →
  match r with [] => True | c :: _ => isdigit c = false end →
  0 ≤ digits_val ds ≤ LONG_MAX →
  strtol (ds ++ r) = StrtolRes (digits_val ds) r true false.
Proof.
  intros Hne HF Hr Hv. unfold strtol.
  destruct ds as [|c ds]; [done|]. inversion HF as [|?? Hc HF']; subst.
  cbn [app]. rewrite drop_while_id by by apply isdigit_not_space.
  destruct (isdigit_not_sign c Hc) as [-> ->].
  change (c :: ds ++ r) with ((c :: ds) ++ r).
  rewrite take_while_app, drop_while_all by done.
  assert (take_while isdigit r = []) as -> by (destruct r; [done|simpl; by rewrite Hr]).
  assert (drop_while isdigit r = r) as -> by (destruct r; [done|simpl; by rewrite Hr]).
  rewrite app_nil_r. cbn -[digits_val LONG_MAX LONG_MIN].
  rewrite (proj2 (Z.ltb_ge LONG_MAX _)) by lia.
  rewrite (proj2 (Z.ltb_ge _ LONG_MIN)) by (unfold LONG_MIN; lia). done.
Qed.

Lemma strtol_dec n r :
  0 ≤ n ≤ LONG_MAX → match r with [] => True | c :: _ => isdigit c = false end →
  strtol (dec n ++ r) = StrtolRes n r true false.
Proof.
  intros Hn Hr. assert (digits_val (dec n) = n) as Hv by (apply dec_val; unfold LONG_MAX in *; lia).
  rewrite strtol_digits; rewrite ?Hv; auto using dec_nonempty.
  apply dec_digits; lia.
Qed.

(** ** Lemmas: calendar *)

Lemma gmtime_ranges t : 0 ≤ t < 253402300800 →
  let k := gmtime t in
  0 ≤ tm_year k < 10000 ∧ 1 ≤ tm_mon k ≤ 12 ∧ 1 ≤ tm_mday k ≤ 31 ∧
  0 ≤ tm_hour k < 24 ∧ 0 ≤ tm_min k < 60 ∧ 0 ≤ tm_sec k < 60.
Proof.
  intros Ht. unfold gmtime. cbn [tm_year tm_mon tm_mday tm_hour tm_min tm_sec].
  set (z := t / 86400 + 719468). set (doe := z mod 146097).
  assert (0 ≤ doe < 146097) by (apply Z.mod_pos_bound; lia).
  set (yoe := (doe - doe / 1460 + doe / 36524 - doe / 146096) / 365).
  assert (0 ≤ yoe ≤ 399) by (unfold yoe; lia).
  set (doy := doe - (365 * yoe + yoe / 4 - yoe / 100)).
  assert (0 ≤ doy ≤ 365) by (unfold doy, yoe; lia).
  set (mp := (5 * doy + 2) / 153).
  assert (0 ≤ mp ≤ 11) by (unfold mp; lia).
  assert (1 ≤ doy - (153 * mp + 2) / 5 + 1 ≤ 31) by (unfold mp; lia).
  assert (0 ≤ z / 146097 ≤ 25) by (unfold z; lia).
  assert (z / 146097 * 400 + yoe < 9999 ∨ (z / 146097 * 400 + yoe = 9999 ∧ doy ≤ 305)).
  { unfold doy, yoe, doe. lia. }
  destruct (mp <? 10) eqn:Em; bool_simpl;
    match goal with |- context [if ?b then 1 else 0] => destruct b eqn:Ey end; bool_simpl;
    repeat split; unfold mp in *; lia.
Qed.

(** Evaluate the powers of ten of literal widths. *)
Ltac pow10 :=
  repeat match goal with
  | |- context [10 ^ Z.of_nat ?w] =>
      let v := eval vm_compute in (10 ^ Z.of_nat w) in change (10 ^ Z.of_nat w) with v
  end.

(** A compact time stamp is 16 alphanumeric characters up to the year 9999. *)
Lemma stamp_compact_shape t : 0 ≤ t < 253402300800 →
  length (stamp_compact t) = 16%nat ∧ Forall (λ c, isalnum c = true) (stamp_compact t).
Proof.
  intros Ht. pose proof (gmtime_ranges t Ht) as (?&?&?&?&?&?). unfold stamp_compact.
  split.
  - rewrite !length_app, !fmt_0d_length by (pow10; lia). reflexivity.
  - assert (∀ w n, 0 ≤ n → Forall (λ c, isalnum c = true) (fmt_0d w n)) as HD.
    { intros w n Hn. eapply Forall_impl; [by apply fmt_0d_digits|apply isdigit_alnum]. }
    rewrite !Forall_app. repeat split; try (apply HD; lia); by repeat constructor.
Qed.

Lemma snprintf_ok_Some cap s r : snprintf_ok cap s = Some r ↔ r = s ∧ blen s < cap.
Proof.
  unfold snprintf_ok. destruct (blen s <? cap) eqn:E; bool_simpl; split; intros H.
  - by simplify_eq.
  - by destruct H as [-> _].
  - done.
  - lia.
Qed.

Lemma snprintf_trunc_id cap s : (length s < cap)%nat → snprintf_trunc cap s = s.
Proof. intros. unfold snprintf_trunc. apply take_ge. lia. Qed.
