(* ===== verification/Posix.v ===== *)
(** * The operating-system interface

    The code is written against POSIX system calls.  This file fixes the
    world they act on (file system, process table, descriptor table, clock)
    and a state-and-error monad [M] in which the code is transcribed: a
    function returning [-1] with [errno] set is [inl errno].

    Failures are not assumed away: the world carries a schedule [w_sched] of
    outcomes, one consumed per system call, and a theorem about a function
    quantifies over all schedules.  An empty schedule means "no more
    failures".  Path resolution follows a symbolic link in the last component
    only; the code opens no path with a link in the middle. *)

From S2P Require Import Prelude CLib.

(** ** Errors *)

Inductive errno :=
| E0 | ENOENT | EEXIST | ENOTDIR | EISDIR | EINVAL | ENAMETOOLONG | EINTR | EAGAIN
| EPIPE | ECONNRESET | ECONNREFUSED | EMSGSIZE | EOVERFLOW | EPROTO | EACCES | EIO
| ESRCH | EPERM | ENOSYS | EBADF | E2BIG | ENOTEMPTY | ENOBUFS | ENOMEM | ENOSPC
| ESHUTDOWN | EFAULT | EMFILE | ELOOP | ECHILD | ETIMEDOUT | EADDRINUSE | ENOTSUP.
#[export] Instance errno_eq_dec : EqDecision errno.
Proof. solve_decision. Defined.

Definition strerror (e : errno) : bytes :=
  match e with
  | E0 => #"Success" | ENOENT => #"No such file or directory" | EEXIST => #"File exists"
  | ENOTDIR => #"Not a directory" | EISDIR => #"Is a directory"
  | EINVAL => #"Invalid argument" | ENAMETOOLONG => #"File name too long"
  | EINTR => #"Interrupted system call" | EAGAIN => #"Resource temporarily unavailable"
  | EPIPE => #"Broken pipe" | ECONNRESET => #"Connection reset by peer"
  | ECONNREFUSED => #"Connection refused" | EMSGSIZE => #"Message too long"
  | EOVERFLOW => #"Value too large for defined data type" | EPROTO => #"Protocol error"
  | EACCES => #"Permission denied" | EIO => #"Input/output error"
  | ESRCH => #"No such process" | EPERM => #"Operation not permitted"
  | ENOSYS => #"Function not implemented" | EBADF => #"Bad file descriptor"
  | E2BIG => #"Argument list too long" | ENOTEMPTY => #"Directory not empty"
  | ENOBUFS => #"No buffer space available" | ENOMEM => #"Cannot allocate memory"
  | ENOSPC => #"No space left on device"
  | ESHUTDOWN => #"Cannot send after transport endpoint shutdown"
  | EFAULT => #"Bad address" | EMFILE => #"Too many open files"
  | ELOOP => #"Too many levels of symbolic links" | ECHILD => #"No child processes"
  | ETIMEDOUT => #"Connection timed out" | EADDRINUSE => #"Address already in use"
  | ENOTSUP => #"Operation not supported"
  end.

(** ** The world *)

Inductive kind := KDir | KReg (content : bytes) | KLnk (target : bytes).
Record node := Node { n_kind : kind; n_mode : Z; n_uid : Z }.

(** What the next system call does: succeed, fail, or transfer fewer bytes
    than asked ([read]/[write] only). *)
Inductive outcome := Pass | Fail (e : errno) | Short (k : nat).

(** Kernel objects behind descriptors of the process being modelled. *)
Inductive fdobj := FdSock (endpoint : Z) | FdPid (pid : Z) | FdOther.
#[export] Instance fdobj_eq_dec : EqDecision fdobj.
Proof. solve_decision. Defined.

(** Process table entries: a running child, a child that exited and is not yet
    reaped, a running process that is not a child. *)
Inductive exit_status := Exited (code : Z) | Signaled (sig : Z).
Inductive pstate := PLive | PZombie (st : exit_status) | PForeign.

(** A message queued on a socket. *)
Record packet := Packet { pk_data : bytes; pk_fds : list fdobj }.

(** Observable actions, newest first. *)
Inductive event :=
| EvSend (endpoint : Z) (p : packet)
| EvKill (pid : Z) (sig : Z)
| EvKillGroup (pgid : Z) (sig : Z)
| EvCgroupKill (path : bytes)
| EvSpawn (name : bytes) (pid : Z).

Record world := World {
  w_fs : gmap bytes node;
  w_sched : list outcome;
  w_now : Z;
  w_self : Z;                          (** getpid() *)
  w_uid : Z;                           (** geteuid() = getuid() *)
  w_env : gmap bytes bytes;            (** environment variables *)
  w_uniq : nat;                        (** mkstemp names and socket pairs made so far *)
  w_fds : gmap Z fdobj;                (** descriptor table *)
  w_inq : gmap Z (list packet);        (** packets waiting at an endpoint *)
  w_procs : gmap Z pstate;             (** process table *)
  w_exits : list (list (Z * exit_status)); (** exits during the coming sleeps *)
  w_trace : list event
}.

Definition set_fs (f : gmap bytes node → gmap bytes node) (w : world) : world :=
  World (f (w_fs w)) (w_sched w) (w_now w) (w_self w) (w_uid w) (w_env w) (w_uniq w)
        (w_fds w) (w_inq w) (w_procs w) (w_exits w) (w_trace w).
Definition set_sched (s : list outcome) (w : world) : world :=
  World (w_fs w) s (w_now w) (w_self w) (w_uid w) (w_env w) (w_uniq w)
        (w_fds w) (w_inq w) (w_procs w) (w_exits w) (w_trace w).
Definition set_env (f : gmap bytes bytes → gmap bytes bytes) (w : world) : world :=
  World (w_fs w) (w_sched w) (w_now w) (w_self w) (w_uid w) (f (w_env w)) (w_uniq w)
        (w_fds w) (w_inq w) (w_procs w) (w_exits w) (w_trace w).
Definition set_uniq (n : nat) (w : world) : world :=
  World (w_fs w) (w_sched w) (w_now w) (w_self w) (w_uid w) (w_env w) n
        (w_fds w) (w_inq w) (w_procs w) (w_exits w) (w_trace w).
Definition set_fds (f : gmap Z fdobj → gmap Z fdobj) (w : world) : world :=
  World (w_fs w) (w_sched w) (w_now w) (w_self w) (w_uid w) (w_env w) (w_uniq w)
        (f (w_fds w)) (w_inq w) (w_procs w) (w_exits w) (w_trace w).
Definition set_inq (f : gmap Z (list packet) → gmap Z (list packet)) (w : world) : world :=
  World (w_fs w) (w_sched w) (w_now w) (w_self w) (w_uid w) (w_env w) (w_uniq w)
        (w_fds w) (f (w_inq w)) (w_procs w) (w_exits w) (w_trace w).
Definition set_procs (f : gmap Z pstate → gmap Z pstate) (w : world) : world :=
  World (w_fs w) (w_sched w) (w_now w) (w_self w) (w_uid w) (w_env w) (w_uniq w)
        (w_fds w) (w_inq w) (f (w_procs w)) (w_exits w) (w_trace w).
Definition set_exits (x : list (list (Z * exit_status))) (w : world) : world :=
  World (w_fs w) (w_sched w) (w_now w) (w_self w) (w_uid w) (w_env w) (w_uniq w)
        (w_fds w) (w_inq w) (w_procs w) x (w_trace w).
Definition push_trace (ev : event) (w : world) : world :=
  World (w_fs w) (w_sched w) (w_now w) (w_self w) (w_uid w) (w_env w) (w_uniq w)
        (w_fds w) (w_inq w) (w_procs w) (w_exits w) (ev :: w_trace w).

(** ** The monad *)

Definition M (A : Type) : Type := world → (errno + A) * world.

#[export] Instance M_ret : MRet M := λ A a w, (inr a, w).
#[export] Instance M_bind : MBind M := λ A B f m w,
  match m w with
  | (inr a, w') => f a w'
  | (inl e, w') => (inl e, w')
  end.
Definition throw {A} (e : errno) : M A := λ w, (inl e, w).
(** The result as a value: [if (f() != 0) ...]. *)
Definition attempt {A} (m : M A) : M (errno + A) := λ w,
  match m w with (r, w') => (inr r, w') end.
(** [(void)f();] *)
Definition ignore {A} (m : M A) : M unit := λ w,
  match m w with (_, w') => (inr tt, w') end.
Definition gets {A} (f : world → A) : M A := λ w, (inr (f w), w).
Definition modify (f : world → world) : M unit := λ w, (inr tt, f w).
Definition of_option {A} (e : errno) (o : option A) : M A :=
  match o with Some a => mret a | None => throw e end.
Definition guard_ (e : errno) (b : bool) : M unit := if b then mret tt else throw e.

(** Run [f] on every element, in order. *)
Fixpoint for_each {A} (l : list A) (f : A → M unit) : M unit :=
  match l with
  | [] => mret tt
  | x :: l' => f x ;; for_each l' f
  end.

Definition run {A} (m : M A) (w : world) : errno + A := (m w).1.
Definition exec {A} (m : M A) (w : world) : world := (m w).2.

(** ** System calls *)

Definition pop : M outcome := λ w,
  match w_sched w with
  | [] => (inr Pass, w)
  | o :: s => (inr o, set_sched s w)
  end.

(** A call that either fails as scheduled, with no effect, or runs. *)
Definition sys {A} (m : M A) : M A :=
  o ← pop; match o with Fail e => throw e | _ => m end.

Definition SLASH : ascii := "/"%char.
Definition dirname (p : bytes) : bytes :=
  match split_last SLASH p with Some (d, _) => d | None => [] end.

Definition is_dir (fs : gmap bytes node) (p : bytes) : bool :=
  match p with
  | [] => true                     (* "/" (or the working directory) *)
  | _ => match fs !! p with
         | Some n => match n_kind n with KDir => true | _ => false end
         | None => false
         end
  end.

(** Follow a link in the last component, as [open] and [stat] do. *)
Fixpoint follow (fuel : nat) (fs : gmap bytes node) (p : bytes) : bytes :=
  match fuel with
  | O => p
  | S f => match fs !! p with
           | Some (Node (KLnk t) _ _) =>
               follow f fs (match t with
                            | c :: _ => if Ascii.eqb c SLASH then t else dirname p ++ SLASH :: t
                            | [] => dirname p
                            end)
           | _ => p
           end
  end.
Definition MAXSYMLINKS : nat := 40.

Definition sys_lstat (p : bytes) : M node :=
  sys (fs ← gets w_fs; of_option ENOENT (fs !! p)).
Definition sys_stat (p : bytes) : M node :=
  sys (fs ← gets w_fs; of_option ENOENT (fs !! follow MAXSYMLINKS fs p)).

Definition sys_mkdir (p : bytes) (mode : Z) : M unit :=
  sys (fs ← gets w_fs; uid ← gets w_uid;
       match fs !! p with
       | Some _ => throw EEXIST
       | None => if is_dir fs (dirname p)
                 then modify (set_fs (<[p := Node KDir mode uid]>))
                 else throw ENOENT
       end).

Definition sys_symlink (target p : bytes) : M unit :=
  sys (fs ← gets w_fs; uid ← gets w_uid;
       match fs !! p with
       | Some _ => throw EEXIST
       | None => if is_dir fs (dirname p)
                 then modify (set_fs (<[p := Node (KLnk target) 511 uid]>))
                 else throw ENOENT
       end).

Definition sys_unlink (p : bytes) : M unit :=
  sys (fs ← gets w_fs;
       match fs !! p with
       | None => throw ENOENT
       | Some (Node KDir _ _) => throw EISDIR
       | Some _ => modify (set_fs (delete p))
       end).

(** Paths strictly below a directory. *)
Definition below (d p : bytes) : bool := has_prefix (d ++ [SLASH]) p.

Definition sys_rmdir (p : bytes) : M unit :=
  sys (fs ← gets w_fs;
       match fs !! p with
       | None => throw ENOENT
       | Some (Node KDir _ _) =>
           if existsb (below p) (map_to_list fs).*1 then throw ENOTEMPTY
           else modify (set_fs (delete p))
       | Some _ => throw ENOTDIR
       end).

(** [rename] of a file or link onto a non-directory, or of a whole directory
    onto a free name. *)
Definition subtree (d p : bytes) : bool := bytes_eqb p d || below d p.
Definition rebase (old new p : bytes) : bytes :=
  match strip_prefix old p with Some r => new ++ r | None => p end.
Definition move_tree (old new : bytes) (fs : gmap bytes node) : gmap bytes node :=
  list_to_map ((λ e, (rebase old new e.1, e.2)) <$>
               map_to_list (filter (λ e, subtree old e.1 = true) fs))
  ∪ filter (λ e, subtree old e.1 = false) fs.
Definition sys_rename (old new : bytes) : M unit :=
  sys (fs ← gets w_fs;
       match fs !! old with
       | None => throw ENOENT
       | Some (Node KDir _ _) =>
           match fs !! new with
           | Some _ => throw EEXIST
           | None => if is_dir fs (dirname new)
                     then modify (set_fs (move_tree old new)) else throw ENOENT
           end
       | Some n =>
           match fs !! new with
           | Some (Node KDir _ _) => throw EISDIR
           | _ => if is_dir fs (dirname new)
                  then modify (set_fs (λ fs, <[new := n]> (delete old fs)))
                  else throw ENOENT
           end
       end).

(** [open(p, O_RDONLY)]: the resolved path stands for the descriptor. *)
Definition sys_open_read (p : bytes) : M bytes :=
  sys (fs ← gets w_fs;
       let q := follow MAXSYMLINKS fs p in
       match fs !! q with
       | None => throw ENOENT
       | Some (Node (KReg _) _ _) => mret q
       | Some (Node KDir _ _) => throw EISDIR
       | Some (Node (KLnk _) _ _) => throw ELOOP
       end).

(** [open(p, O_WRONLY | O_CREAT [| O_TRUNC], mode)]. *)
Definition sys_open_create (p : bytes) (trunc : bool) (mode : Z) : M bytes :=
  sys (fs ← gets w_fs; uid ← gets w_uid;
       let q := follow MAXSYMLINKS fs p in
       match fs !! q with
       | Some (Node (KReg c) m u) =>
           modify (set_fs (<[q := Node (KReg (if trunc then [] else c)) m u]>)) ;; mret q
       | Some (Node KDir _ _) => throw EISDIR
       | Some (Node (KLnk _) _ _) => throw ELOOP
       | None => if is_dir fs (dirname q)
                 then modify (set_fs (<[q := Node (KReg []) mode uid]>)) ;; mret q
                 else throw ENOENT
       end).

Definition append_at (q d : bytes) (fs : gmap bytes node) : gmap bytes node :=
  match fs !! q with
  | Some (Node (KReg c) m u) => <[q := Node (KReg (c ++ d)) m u]> fs
  | _ => fs
  end.

(** [write(fd, data, n)] at the end of the file (all the code's writes are
    sequential from offset 0 or [O_APPEND]); returns the count. *)
Definition sys_write (q : bytes) (data : bytes) : M nat :=
  o ← pop;
  match o with
  | Fail e => throw e
  | _ =>
      let k := match o with Short k => Nat.max 1 (Nat.min k (length data)) | _ => length data end in
      modify (set_fs (append_at q (take k data))) ;;
      mret k
  end.

Definition file_content (fs : gmap bytes node) (q : bytes) : bytes :=
  match fs !! q with Some (Node (KReg c) _ _) => c | _ => [] end.

(** [read(fd, buf, n)] of a regular file from offset [off]. *)
Definition sys_read (q : bytes) (off n : nat) : M bytes :=
  o ← pop;
  match o with
  | Fail e => throw e
  | _ =>
      fs ← gets w_fs;
      let avail := take n (drop off (file_content fs q)) in
      mret (match o with Short k => take (Nat.max 1 k) avail | _ => avail end)
  end.

(** [mkstemp("<p>XXXXXX")]: an exclusively created file, mode 0600. *)
Definition suffix6 (n : nat) : bytes := fmt_0d 6 (Z.of_nat n).
Definition sys_mkstemp (prefix : bytes) : M bytes :=
  sys (fs ← gets w_fs; uid ← gets w_uid; n ← gets w_uniq;
       modify (set_uniq (S n)) ;;
       let p := prefix ++ suffix6 n in
       match fs !! p with
       | Some _ => throw EEXIST
       | None => if is_dir fs (dirname p)
                 then modify (set_fs (<[p := Node (KReg []) 384 uid]>)) ;; mret p
                 else throw ENOENT
       end).

Definition sys_fchmod (q : bytes) (mode : Z) : M unit :=
  sys (modify (set_fs (alter (λ n, Node (n_kind n) mode (n_uid n)) q))).

(** [close] and [fcntl] on a private file descriptor: may fail, no effect. *)
Definition sys_plain : M unit := sys (mret tt).

(** [opendir] + [readdir] to the end: the names in the directory. *)
Definition entries (fs : gmap bytes node) (d : bytes) : list bytes :=
  omap (λ p, match strip_prefix (d ++ [SLASH]) p with
             | Some r => if bool_decide (SLASH ∈ r) then None else Some r
             | None => None
             end) (map_to_list fs).*1.
Definition sys_readdir (d : bytes) : M (list bytes) :=
  sys (fs ← gets w_fs;
       match fs !! d with
       | Some (Node KDir _ _) => mret (entries fs d)
       | Some _ => throw ENOTDIR
       | None => throw ENOENT
       end).

Definition sys_time : M Z := gets w_now.
Definition sys_getenv (v : bytes) : M (option bytes) := gets (λ w, w_env w !! v).

(** *** Descriptors and sockets

    An AF_UNIX socket pair is two endpoints [2n], [2n + 1]; a packet sent on
    one is queued at the other, with the kernel objects behind the descriptors
    it carries.  Descriptors are the lowest free numbers. *)

Definition fd_alloc (fds : gmap Z fdobj) : Z :=
  default 0 (head (filter (λ k, fds !! k = None) (seqZ 0 (Z.of_nat (size fds) + 1)))).

Definition install (o : fdobj) : M Z :=
  fds ← gets w_fds;
  let fd := fd_alloc fds in
  modify (set_fds (<[fd := o]>)) ;; mret fd.

Definition peer_end (e : Z) : Z := Z.lxor e 1.

Definition sys_socketpair : M (Z * Z) :=
  sys (n ← gets w_uniq;
       modify (set_uniq (S n)) ;;
       a ← install (FdSock (2 * Z.of_nat n));
       b ← install (FdSock (2 * Z.of_nat n + 1));
       mret (a, b)).

(** [close] frees the number even when it reports an error. *)
Definition sys_close (fd : Z) : M unit :=
  o ← pop;
  modify (set_fds (delete fd)) ;;
  match o with Fail e => throw e | _ => mret tt end.

Definition enqueue (e : Z) (p : packet) (q : gmap Z (list packet)) : gmap Z (list packet) :=
  <[e := default [] (q !! e) ++ [p]]> q.

(** [sendmsg(fd, data, SCM_RIGHTS fds)] on a packet socket: all or nothing. *)
Definition sys_sendmsg (fd : Z) (data : bytes) (pass : list Z) : M unit :=
  sys (fds ← gets w_fds;
       match fds !! fd, mapM (λ k, fds !! k) pass with
       | Some (FdSock e), Some objs =>
           modify (set_inq (enqueue (peer_end e) (Packet data objs))) ;;
           modify (push_trace (EvSend e (Packet data objs)))
       | _, _ => throw EBADF
       end).

Record recvd := Recvd {
  rc_data : bytes;           (** the first [cap] bytes; [] is end of file *)
  rc_fds : list Z;           (** descriptors installed by SCM_RIGHTS *)
  rc_trunc : bool;           (** MSG_TRUNC *)
  rc_ctrunc : bool           (** MSG_CTRUNC *)
}.

Fixpoint install_all (os : list fdobj) : M (list Z) :=
  match os with
  | [] => mret []
  | o :: os' => k ← install o; ks ← install_all os'; mret (k :: ks)
  end.

(** The descriptors that fit a control buffer of [CMSG_SPACE(n * sizeof(int))]
    bytes: its data part is rounded up to eight bytes, that is to two
    descriptors, and the kernel fills it. *)
Definition cmsg_room (n : nat) : nat := 2 * ((n + 1) / 2).

(** [recvmsg(fd)] with room for [cap] bytes and [fdcap] descriptors; an empty
    queue times out. *)
Definition sys_recvmsg (fd : Z) (cap fdcap : nat) : M recvd :=
  sys (fds ← gets w_fds; inq ← gets w_inq;
       match fds !! fd with
       | Some (FdSock e) =>
           match default [] (inq !! e) with
           | [] => throw EAGAIN
           | p :: q =>
               modify (set_inq (<[e := q]>)) ;;
               ks ← install_all (take fdcap (pk_fds p));
               mret (Recvd (take cap (pk_data p)) ks
                           (cap <? length (pk_data p))%nat (fdcap <? length (pk_fds p))%nat)
           end
       | _ => throw EBADF
       end).

(** [do { r = call; } while (r < 0 && errno == EINTR);]  Each retry consumes
    an outcome of the schedule, which bounds the loop. *)
Fixpoint eintr_loop {A} (fuel : nat) (m : M A) : M A :=
  match fuel with
  | O => throw EINTR
  | S fuel' =>
      r ← attempt m;
      match r with
      | inl EINTR => eintr_loop fuel' m
      | inl e => throw e
      | inr a => mret a
      end
  end.
Definition retry_eintr {A} (m : M A) : M A :=
  s ← gets w_sched; eintr_loop (S (length s)) m.

(** ** Reasoning about [M] *)

Lemma bind_unfold {A B} (m : M A) (f : A → M B) w :
  (m ≫= f) w = match m w with (inr a, w') => f a w' | (inl e, w') => (inl e, w') end.
Proof. reflexivity. Qed.

Lemma run_exec {A} (m : M A) w r : run m w = r → m w = (r, exec m w).
Proof. intros <-. apply surjective_pairing. Qed.

Lemma bind_ret {A B} (a : A) (f : A → M B) w : (mret a ≫= f) w = f a w.
Proof. reflexivity. Qed.
Lemma bind_throw {A B} e (f : A → M B) w : (throw e ≫= f) w = (inl e, w).
Proof. reflexivity. Qed.
Lemma bind_gets {A B} (g : world → A) (f : A → M B) w : (gets g ≫= f) w = f (g w) w.
Proof. reflexivity. Qed.
Lemma bind_modify {B} g (f : unit → M B) w : (modify g ≫= f) w = f tt (g w).
Proof. reflexivity. Qed.
Lemma bind_guard {B} e b (f : unit → M B) w :
  (guard_ e b ≫= f) w = if b then f tt w else (inl e, w).
Proof. by destruct b. Qed.
Lemma bind_of_option {A B} e (o : option A) (f : A → M B) w :
  (of_option e o ≫= f) w = match o with Some a => f a w | None => (inl e, w) end.
Proof. by destruct o. Qed.
Lemma bind_attempt {A B} (m : M A) (f : errno + A → M B) w :
  (attempt m ≫= f) w = let '(r, w') := m w in f r w'.
Proof. unfold attempt. rewrite bind_unfold. by destruct (m w). Qed.
Lemma bind_ignore {A B} (m : M A) (f : unit → M B) w :
  (ignore m ≫= f) w = f tt (m w).2.
Proof. unfold ignore. rewrite bind_unfold. by destruct (m w). Qed.
Lemma bind_assoc {A B C} (m : M A) (f : A → M B) (g : B → M C) w :
  ((m ≫= f) ≫= g) w = (m ≫= (λ a, f a ≫= g)) w.
Proof. rewrite !bind_unfold. by destruct (m w) as [[]]. Qed.

Create Rewrite HintDb run.
#[export] Hint Rewrite @bind_ret @bind_throw @bind_gets @bind_modify @bind_guard @bind_of_option
  @bind_attempt @bind_ignore @bind_assoc : run.

Lemma follow_id fuel fs p :
  (∀ t m u, fs !! p ≠ Some (Node (KLnk t) m u)) → follow fuel fs p = p.
Proof.
  intros H. destruct fuel as [|fuel]; [done|]. simpl.
  destruct (fs !! p) as [[[|c|t] m u]|] eqn:E; try done. by destruct (H t m u).
Qed.

Lemma follow_reg fuel fs p c m u : fs !! p = Some (Node (KReg c) m u) → follow fuel fs p = p.
Proof. intros H. apply follow_id. congruence. Qed.

(** Run a computation step by step on a world, splitting on every scheduled
    outcome and every lookup. *)
Ltac run_step :=
  match goal with
  | H : context [(?m ≫= ?f) ?w] |- _ => rewrite (bind_unfold m f w) in H
  | |- context [(?m ≫= ?f) ?w] => rewrite (bind_unfold m f w)
  end.

(** *** Frames: which paths a computation may change

    [confined S m]: whatever the schedule, [m] leaves every path outside [S]
    alone.  The lemmas are a small calculus, applied by [confine]. *)

Definition confined {A} (S : bytes → Prop) (m : M A) : Prop :=
  ∀ w p, ¬ S p → w_fs (m w).2 !! p = w_fs w !! p.

Create HintDb confine.

Section confined_lemmas.
Context (S : bytes → Prop).

Lemma confined_ret {A} (a : A) : confined S (mret a).
Proof. by intros w p. Qed.
Lemma confined_throw {A} e : confined S (@throw A e).
Proof. by intros w p. Qed.
Lemma confined_gets {A} (f : world → A) : confined S (gets f).
Proof. by intros w p. Qed.
Lemma confined_bind {A B} (m : M A) (f : A → M B) :
  confined S m → (∀ a, confined S (f a)) → confined S (m ≫= f).
Proof.
  intros Hm Hf w p Hp. rewrite bind_unfold. specialize (Hm w p Hp).
  destruct (m w) as [[e|a] w'] eqn:E; simpl in *; [done|].
  by rewrite (Hf a w' p Hp).
Qed.
Lemma confined_attempt {A} (m : M A) : confined S m → confined S (attempt m).
Proof. intros Hm w p Hp. specialize (Hm w p Hp). unfold attempt. by destruct (m w). Qed.
Lemma confined_ignore {A} (m : M A) : confined S m → confined S (ignore m).
Proof. intros Hm w p Hp. specialize (Hm w p Hp). unfold ignore. by destruct (m w). Qed.
Lemma confined_of_option {A} e (o : option A) : confined S (of_option e o).
Proof. by destruct o. Qed.
Lemma confined_guard e b : confined S (guard_ e b).
Proof. by destruct b. Qed.
Lemma confined_if {A} (b : bool) (m1 m2 : M A) :
  confined S m1 → confined S m2 → confined S (if b then m1 else m2).
Proof. by destruct b. Qed.
Lemma confined_for_each {A} (l : list A) f :
  (∀ x, confined S (f x)) → confined S (for_each l f).
Proof. intros Hf. induction l; simpl; [apply confined_ret|by apply confined_bind]. Qed.
Lemma confined_pop : confined S pop.
Proof. intros w p _. unfold pop. by destruct (w_sched w). Qed.
Lemma confined_sys {A} (m : M A) : confined S m → confined S (sys m).
Proof.
  intros Hm. apply confined_bind; [apply confined_pop|].
  intros [|e|k]; auto using confined_throw.
Qed.
(** An update of the rest of the world. *)
Lemma confined_modify f : (∀ w, w_fs (f w) = w_fs w) → confined S (modify f).
Proof. intros Hf w p _. unfold modify. simpl. by rewrite Hf. Qed.
(** An update of the file system. *)
Lemma confined_set_fs f :
  (∀ fs p, ¬ S p → f fs !! p = fs !! p) → confined S (modify (set_fs f)).
Proof. intros Hf w p Hp. unfold modify. simpl. by apply Hf. Qed.
Lemma confined_insert q n : S q → confined S (modify (set_fs (<[q := n]>))).
Proof.
  intros Hq. apply confined_set_fs. intros fs p Hp. apply lookup_insert_ne.
  by intros ->.
Qed.
End confined_lemmas.

#[export] Hint Resolve confined_ret confined_throw confined_gets confined_attempt
  confined_ignore confined_of_option confined_guard confined_for_each confined_pop
  confined_sys : confine.

(** Structural steps of the calculus; what is left are leaf obligations. *)
Ltac confine_step :=
  match goal with
  | |- confined _ (mbind _ _) => apply confined_bind
  | |- confined _ (if _ then _ else _) => apply confined_if
  | |- confined _ (match ?x with _ => _ end) => destruct x
  | |- confined _ (let _ := _ in _) => cbv zeta
  | |- confined _ (for_each _ _) => apply confined_for_each
  | |- confined _ (attempt _) => apply confined_attempt
  | |- confined _ (ignore _) => apply confined_ignore
  | |- confined _ (sys _) => apply confined_sys
  | |- confined _ (modify (set_fs (insert _ _))) => apply confined_insert
  | |- ∀ _, confined _ _ => intros ?
  | |- confined _ _ => progress eauto with confine nocore
  end.
Ltac confine := repeat confine_step.

Lemma subtree_prefix (d p : bytes) :
  subtree d p = true ↔ p = d ∨ ∃ r, p = d ++ SLASH :: r.
Proof.
  unfold subtree, below. rewrite orb_true_iff, bytes_eqb_eq, has_prefix_spec.
  setoid_rewrite <-app_assoc. done.
Qed.

Lemma rebase_subtree (old new p : bytes) :
  subtree old p = true → subtree new (rebase old new p) = true.
Proof.
  rewrite !subtree_prefix. unfold rebase. intros [->|[r ->]].
  - rewrite <-(app_nil_r old) at 2. rewrite strip_prefix_app, app_nil_r. by left.
  - rewrite strip_prefix_app. right. by exists r.
Qed.

Lemma move_tree_outside old new fs p :
  subtree old p = false → subtree new p = false → move_tree old new fs !! p = fs !! p.
Proof.
  intros Ho Hn. unfold move_tree. rewrite lookup_union_r.
  - destruct (fs !! p) as [n|] eqn:E.
    + by apply map_lookup_filter_Some.
    + apply map_lookup_filter_None. by left.
  - apply not_elem_of_list_to_map_1. rewrite <-list_fmap_compose.
    intros ([q n] & -> & Hin)%list_elem_of_fmap. simpl in *.
    apply elem_of_map_to_list, map_lookup_filter_Some in Hin as [_ Hin]. simpl in Hin.
    apply (rebase_subtree old new) in Hin. congruence.
Qed.

Section syscall_frames.
Context (S : bytes → Prop).

Lemma confined_lstat p : confined S (sys_lstat p).
Proof. unfold sys_lstat. confine. Qed.
Lemma confined_stat p : confined S (sys_stat p).
Proof. unfold sys_stat. confine. Qed.
Lemma confined_mkdir p mode : S p → confined S (sys_mkdir p mode).
Proof. intros. unfold sys_mkdir. confine; done. Qed.
Lemma confined_symlink t p : S p → confined S (sys_symlink t p).
Proof. intros. unfold sys_symlink. confine; done. Qed.
Lemma confined_delete p : S p → confined S (modify (set_fs (delete p))).
Proof.
  intros Hp. apply confined_set_fs. intros fs q Hq. apply lookup_delete_ne. by intros ->.
Qed.
Lemma confined_unlink p : S p → confined S (sys_unlink p).
Proof. intros. unfold sys_unlink. confine; by apply confined_delete. Qed.
Lemma confined_rmdir p : S p → confined S (sys_rmdir p).
Proof. intros. unfold sys_rmdir. confine; by apply confined_delete. Qed.
(** Renaming within a set closed under descendants stays in the set. *)
Lemma confined_rename old new :
  (∀ p, subtree old p = true → S p) → (∀ p, subtree new p = true → S p) →
  confined S (sys_rename old new).
Proof.
  intros Ho Hn. unfold sys_rename.
  assert (S old ∧ S new) as [So Sn].
  { split; [apply Ho|apply Hn]; apply subtree_prefix; by left. }
  confine; apply confined_set_fs; intros fs q Hq;
    first [ apply move_tree_outside; apply not_true_iff_false; by auto
          | rewrite lookup_insert_ne, lookup_delete_ne; [done| |]; by intros -> ].
Qed.
Lemma confined_open_read p : confined S (sys_open_read p).
Proof. unfold sys_open_read. confine. Qed.
Lemma confined_readdir p : confined S (sys_readdir p).
Proof. unfold sys_readdir. confine. Qed.
Lemma confined_plain : confined S sys_plain.
Proof. unfold sys_plain. confine. Qed.
Lemma confined_time : confined S sys_time.
Proof. unfold sys_time. confine. Qed.
Lemma confined_getenv v : confined S (sys_getenv v).
Proof. unfold sys_getenv. confine. Qed.
Lemma confined_fchmod q mode : S q → confined S (sys_fchmod q mode).
Proof.
  intros Hq. unfold sys_fchmod. confine. apply confined_set_fs. intros fs p Hp.
  apply lookup_alter_ne. by intros ->.
Qed.
Lemma confined_read q off n : confined S (sys_read q off n).
Proof. unfold sys_read. confine. Qed.
Lemma confined_write q data : S q → confined S (sys_write q data).
Proof.
  intros Hq. unfold sys_write. confine;
    apply confined_set_fs; intros fs p Hp; unfold append_at;
    destruct (fs !! q) as [[[|c|t] m u]|]; try done;
    apply lookup_insert_ne; by intros ->.
Qed.
Lemma confined_mkstemp prefix :
  (∀ s, S (prefix ++ s)) → confined S (sys_mkstemp prefix).
Proof.
  intros Hp. unfold sys_mkstemp. confine; [|by auto].
  by apply confined_modify.
Qed.
End syscall_frames.

#[export] Hint Resolve confined_lstat confined_stat confined_mkdir confined_symlink
  confined_unlink confined_rmdir confined_rename confined_open_read confined_readdir
  confined_plain confined_time confined_getenv confined_fchmod confined_read
  confined_write confined_mkstemp : confine.

(** *** Inversion of system calls *)

#[global] Arguments suffix6 : simpl never.
#[global] Arguments dirname : simpl never.
#[global] Arguments is_dir : simpl never.
#[global] Arguments follow : simpl never.
#[global] Arguments file_content : simpl never.

(** Unfold the monad (not the operations) in a hypothesis or the goal. *)
Ltac run_in H :=
  cbv [mbind M_bind mret M_ret gets modify throw of_option guard_ attempt ignore] in H;
  simpl in H.
Ltac run_goal :=
  cbv [mbind M_bind mret M_ret gets modify throw of_option guard_ attempt ignore]; simpl.

(** A call fails as scheduled and does nothing, or runs on the same world
    with a shorter schedule. *)
Lemma sys_inv {A} (m : M A) w r w' :
  sys m w = (r, w') →
  (∃ e s, r = inl e ∧ w' = set_sched s w ∧ w_sched w = Fail e :: s) ∨
  (∃ s, suffix s (w_sched w) ∧ m (set_sched s w) = (r, w')).
Proof.
  unfold sys. rewrite bind_unfold. unfold pop.
  destruct (w_sched w) as [|o s] eqn:E; intros H.
  - right. exists []. split; [done|]. destruct w; simpl in *. by subst.
  - assert (suffix s (o :: s)) by (by exists [o]).
    destruct o as [|e|k]; [right; by exists s| |right; by exists s].
    left. unfold throw in H. simplify_eq. by exists e, s.
Qed.

Lemma sys_plain_fs w r w' : sys_plain w = (r, w') → w_fs w' = w_fs w.
Proof. intros [(e & s & -> & -> & _)|(s & _ & H)]%sys_inv; [done|]. by inversion H. Qed.

Lemma sys_mkstemp_ok prefix w p w' :
  sys_mkstemp prefix w = (inr p, w') →
  p = prefix ++ suffix6 (w_uniq w) ∧ w_fs w !! p = None ∧
  w_fs w' = <[p := Node (KReg []) 384 (w_uid w)]> (w_fs w).
Proof.
  intros [(e & s & ? & _)|(s & _ & H)]%sys_inv; [done|].
  run_in H. destruct (w_fs w !! _) eqn:E; [done|].
  destruct (is_dir _ _); [|done]. by simplify_eq.
Qed.

Lemma sys_mkstemp_err prefix w e w' :
  sys_mkstemp prefix w = (inl e, w') → w_fs w' = w_fs w.
Proof.
  intros [(e' & s & _ & -> & _)|(s & _ & H)]%sys_inv; [done|].
  run_in H. destruct (w_fs w !! _) eqn:E; [by simplify_eq|].
  destruct (is_dir _ _); by simplify_eq.
Qed.

Lemma sys_fchmod_inv q mode w r w' :
  sys_fchmod q mode w = (r, w') →
  match r with
  | inl _ => w_fs w' = w_fs w
  | inr _ => w_fs w' = alter (λ n, Node (n_kind n) mode (n_uid n)) q (w_fs w)
  end.
Proof. intros [(e & s & -> & -> & _)|(s & _ & H)]%sys_inv; [done|]. by inversion H. Qed.

Lemma sys_rename_file old new c m u w r w' :
  w_fs w !! old = Some (Node (KReg c) m u) → sys_rename old new w = (r, w') →
  match r with
  | inl _ => w_fs w' = w_fs w
  | inr _ => w_fs w' = <[new := Node (KReg c) m u]> (delete old (w_fs w))
  end.
Proof.
  intros Hold [(e & s & -> & -> & _)|(s & _ & H)]%sys_inv; [done|].
  run_in H. rewrite Hold in H.
  destruct (w_fs w !! new) as [[[|c'|t] m' u']|]; try destruct (is_dir _ _); by simplify_eq.
Qed.

Lemma confined_run {A} (S : bytes → Prop) (m : M A) w r w' p :
  confined S m → m w = (r, w') → ¬ S p → w_fs w' !! p = w_fs w !! p.
Proof. intros Hm E Hp. specialize (Hm w p Hp). by rewrite E in Hm. Qed.

(** A computation confined to nothing leaves the file system alone. *)
Lemma confined_none {A} (m : M A) w r w' :
  confined (λ _, False) m → m w = (r, w') → w_fs w' = w_fs w.
Proof.
  intros Hm E. apply map_eq. intros p. eapply confined_run; [exact Hm|exact E|]. by intros [].
Qed.

Lemma sys_write_inv q data w r w' c m u :
  w_fs w !! q = Some (Node (KReg c) m u) → data ≠ [] → sys_write q data w = (r, w') →
  match r with
  | inl e => ∃ s, w_sched w = Fail e :: s ∧ w' = set_sched s w
  | inr k => (1 ≤ k ≤ length data)%nat ∧ suffix (w_sched w') (w_sched w) ∧
             w_fs w' !! q = Some (Node (KReg (c ++ take k data)) m u)
  end.
Proof.
  intros Hq Hd. assert (1 ≤ length data)%nat by (destruct data; simpl; [done|lia]).
  unfold sys_write. rewrite bind_unfold. unfold pop.
  destruct (w_sched w) as [|o s] eqn:Es; [|destruct o as [|e|k]]; run_goal; intros H0; simplify_eq/=;
    try (unfold append_at; rewrite Hq, lookup_insert_eq; split; [lia|]; rewrite ?Es; split; [|done];
         by apply suffix_cons_r).
  - unfold append_at. rewrite Hq, lookup_insert_eq, Es. by split.
  - by exists s.
Qed.

Lemma sys_read_inv q off n w r w' :
  sys_read q off n w = (r, w') →
  w_fs w' = w_fs w ∧
  match r with
  | inl e => ∃ s, w_sched w = Fail e :: s ∧ w' = set_sched s w
  | inr d => suffix (w_sched w') (w_sched w) ∧
             ∃ k, d = take k (take n (drop off (file_content (w_fs w) q))) ∧ (1 ≤ k)%nat ∧
                  (length (w_sched w') < length (w_sched w) ∨ (n ≤ k))%nat
  end.
Proof.
  unfold sys_read. rewrite bind_unfold. unfold pop.
  destruct (w_sched w) as [|o s] eqn:Es; [|destruct o as [|e|k]]; run_goal; intros H0; simplify_eq/=.
  - split; [done|]. rewrite Es. split; [done|]. exists (S n).
    split; [|lia]. symmetry. apply take_ge. rewrite length_take. lia.
  - split; [done|]. split; [by exists [Pass]|]. exists (S n).
    split; [|lia]. symmetry. apply take_ge. rewrite length_take. lia.
  - split; [done|]. by exists s.
  - split; [done|]. split; [by exists [Short k]|]. exists (Nat.max 1 k). split; [done|]. lia.
Qed.

(** *** Descriptors *)

Lemma fd_alloc_fresh fds : fds !! fd_alloc fds = None.
Proof.
  unfold fd_alloc. set (l := seqZ 0 (Z.of_nat (size fds) + 1)).
  destruct (head (filter _ l)) as [k|] eqn:E.
  - simpl. apply head_Some_elem_of, list_elem_of_filter in E. tauto.
  - exfalso. destruct (filter _ l) as [|? ?] eqn:Ef; [|done].
    assert (list_to_set l ⊆ dom fds) as Hsub.
    { intros k Hk. apply elem_of_list_to_set in Hk. apply elem_of_dom.
      destruct (fds !! k) eqn:Ek; [done|]. exfalso.
      assert (k ∈ filter (λ k, fds !! k = None) l) as Hin by by apply list_elem_of_filter.
      rewrite Ef in Hin. by apply not_elem_of_nil in Hin. }
    apply subseteq_size in Hsub. rewrite size_list_to_set in Hsub by apply NoDup_seqZ.
    rewrite size_dom in Hsub. unfold l in Hsub. rewrite length_seqZ in Hsub. lia.
Qed.

(** A call that may be interrupted either succeeds on some later world with
    the same state, or fails with an error other than [EINTR]. *)
Lemma eintr_sys {A} (m : M A) fuel w r w' :
  (length (w_sched w) < fuel)%nat → eintr_loop fuel (sys m) w = (r, w') →
  (∀ s e w2, m (set_sched s w) = (inl e, w2) → e ≠ EINTR) →
  (∃ e s, r = inl e ∧ e ≠ EINTR ∧ w' = set_sched s w ∧ suffix s (w_sched w) ∧
          Fail e ∈ w_sched w) ∨
  (∃ s, suffix s (w_sched w) ∧ m (set_sched s w) = (r, w')).
Proof.
  intros Hf H Hm. revert w Hf H Hm. induction fuel as [|fuel IH]; intros w Hf H Hm; [lia|].
  cbn [eintr_loop] in H. rewrite bind_attempt in H.
  destruct (sys m w) as [r1 w1] eqn:E.
  apply sys_inv in E as [(e & s & -> & -> & Es)|(s & Hs & E)].
  - destruct (decide (e = EINTR)) as [->|Hne].
    + apply IH in H; [|rewrite Es in Hf; simpl in *; lia|by intros; eapply (Hm s0)].
      rewrite Es. destruct H as [(e & s' & -> & ? & -> & Hs' & Hin)|(s' & Hs' & H)].
      * left. exists e, s'. simpl in *. repeat split; try done; [by apply suffix_cons_r|by right].
      * right. exists s'. split; [|done]. simpl in Hs'. by apply suffix_cons_r.
    + left. exists e, s. rewrite Es. destruct e; try done; simpl in H; run_in H; simplify_eq;
        repeat split; try done; (by left) || by apply suffix_cons_r.
  - right. exists s. split; [done|]. destruct r1 as [e|a]; [|by run_in H; simplify_eq].
    pose proof (Hm _ _ _ E). destruct e; try done; by run_in H; simplify_eq.
Qed.

(** Installing descriptors never fails, keeps the others, and the new ones
    are fresh and name the objects. *)
Lemma install_all_spec os w :
  ∃ ks fds', install_all os w = (inr ks, set_fds (λ _, fds') w) ∧
    Forall2 (λ k o, fds' !! k = Some o ∧ w_fds w !! k = None) ks os ∧
    ∀ k, k ∉ ks → fds' !! k = w_fds w !! k.
Proof.
  revert w. induction os as [|o os IH]; intros w.
  { exists [], (w_fds w). split; [by destruct w|]. by split; [constructor|]. }
  set (k := fd_alloc (w_fds w)). pose proof (fd_alloc_fresh (w_fds w)) as Hk. fold k in Hk.
  destruct (IH (set_fds (<[k := o]>) w)) as (ks & fds' & E & HF & Hother). simpl in HF, Hother.
  exists (k :: ks), fds'. split.
  { cbn [install_all]. rewrite bind_unfold. unfold install. run_goal. fold k.
    rewrite E. by destruct w. }
  assert (∀ x, x ∈ ks → (<[k := o]> (w_fds w)) !! x = None) as Hks.
  { intros x Hx. apply list_elem_of_lookup in Hx as [i Hi].
    eapply Forall2_lookup_l in HF as (y & _ & _ & Hn); [exact Hn|exact Hi]. }
  assert (k ∉ ks) as Hnk.
  { intros Hx. apply Hks in Hx. by rewrite lookup_insert_eq in Hx. }
  split.
  - constructor.
    + split; [|done]. rewrite Hother by done. by rewrite lookup_insert_eq.
    + eapply Forall2_impl; [exact HF|]. intros x y [Hx Hy]. split; [done|].
      destruct (decide (x = k)) as [->|]; [done|]. by rewrite lookup_insert_ne in Hy.
  - intros x [Hne Hx]%not_elem_of_cons. rewrite Hother by done. by rewrite lookup_insert_ne.
Qed.

Lemma sys_quiet {A} (m : M A) w : w_sched w = [] → sys m w = m w.
Proof. intros Hs. unfold sys. rewrite bind_unfold. unfold pop. by rewrite Hs. Qed.

(** With no failure ahead, [retry_eintr] is the call itself. *)
Lemma retry_quiet {A} (m : M A) w :
  w_sched w = [] → (∀ w2, m w ≠ (inl EINTR, w2)) → retry_eintr (sys m) w = m w.
Proof.
  intros Hs Hm. unfold retry_eintr. rewrite bind_gets, Hs. cbn [length eintr_loop].
  rewrite bind_attempt, sys_quiet by done. destruct (m w) as [[e|a] w1] eqn:E; [|done].
  destruct e; try done.
Qed.

(** *** What no file operation changes

    Every computation below consumes a prefix of the schedule and leaves the
    clock, the process's identity, its descriptors and sockets, the process
    table and the trace alone; the supply of fresh names only grows. *)

Definition later (w w' : world) : Prop :=
  suffix (w_sched w') (w_sched w) ∧ w_now w' = w_now w ∧ w_uid w' = w_uid w ∧
  w_self w' = w_self w ∧ w_env w' = w_env w ∧ w_fds w' = w_fds w ∧ w_inq w' = w_inq w ∧
  w_procs w' = w_procs w ∧ w_exits w' = w_exits w ∧ w_trace w' = w_trace w ∧
  (w_uniq w ≤ w_uniq w')%nat.
#[export] Instance later_preorder : PreOrder later.
Proof.
  split; [intros w; repeat split; done || lia|].
  intros a b c (?&?&?&?&?&?&?&?&?&?&?) (?&?&?&?&?&?&?&?&?&?&?).
  split; [by etrans|]. repeat split; congruence || lia.
Qed.

Definition shrinks {A} (m : M A) : Prop := ∀ w, later w (m w).2.

Create HintDb shrink.

Lemma shrinks_pure {A} (m : M A) : (∀ w, (m w).2 = w) → shrinks m.
Proof. intros H w. by rewrite H. Qed.
Lemma shrinks_ret {A} (a : A) : shrinks (mret a).
Proof. by apply shrinks_pure. Qed.
Lemma shrinks_throw {A} e : shrinks (@throw A e).
Proof. by apply shrinks_pure. Qed.
Lemma shrinks_gets {A} (f : world → A) : shrinks (gets f).
Proof. by apply shrinks_pure. Qed.
Lemma shrinks_bind {A B} (m : M A) (f : A → M B) :
  shrinks m → (∀ a, shrinks (f a)) → shrinks (m ≫= f).
Proof.
  intros Hm Hf w. rewrite bind_unfold. specialize (Hm w).
  destruct (m w) as [[e|a] w'] eqn:E; simpl in *; [done|]. etrans; [done|apply Hf].
Qed.
Lemma shrinks_attempt {A} (m : M A) : shrinks m → shrinks (attempt m).
Proof. intros Hm w. specialize (Hm w). unfold attempt. by destruct (m w). Qed.
Lemma shrinks_ignore {A} (m : M A) : shrinks m → shrinks (ignore m).
Proof. intros Hm w. specialize (Hm w). unfold ignore. by destruct (m w). Qed.
Lemma shrinks_of_option {A} e (o : option A) : shrinks (of_option e o).
Proof. by destruct o; apply shrinks_pure. Qed.
Lemma shrinks_guard e b : shrinks (guard_ e b).
Proof. by destruct b; apply shrinks_pure. Qed.
Lemma shrinks_if {A} (b : bool) (m1 m2 : M A) :
  shrinks m1 → shrinks m2 → shrinks (if b then m1 else m2).
Proof. by destruct b. Qed.
Lemma shrinks_for_each {A} (l : list A) f : (∀ x, shrinks (f x)) → shrinks (for_each l f).
Proof. intros Hf. induction l; simpl; [apply shrinks_ret|by apply shrinks_bind]. Qed.
Lemma shrinks_pop : shrinks pop.
Proof.
  intros w. unfold pop. destruct (w_sched w) as [|o s] eqn:E; simpl; [done|].
  split; [|done]. rewrite E. by exists [o].
Qed.
Lemma shrinks_sys {A} (m : M A) : shrinks m → shrinks (sys m).
Proof.
  intros Hm. apply shrinks_bind; [apply shrinks_pop|]. intros []; auto using shrinks_throw.
Qed.
Lemma shrinks_modify f : (∀ w, later w (f w)) → shrinks (modify f).
Proof. intros Hf w. apply Hf. Qed.
#[export] Hint Resolve shrinks_ret shrinks_throw shrinks_gets shrinks_of_option shrinks_guard
  shrinks_pop : shrink.

Ltac shrink_step :=
  match goal with
  | |- shrinks (mbind _ _) => apply shrinks_bind
  | |- shrinks (if _ then _ else _) => apply shrinks_if
  | |- shrinks (match ?x with _ => _ end) => destruct x
  | |- shrinks (let _ := _ in _) => cbv zeta
  | |- shrinks (for_each _ _) => apply shrinks_for_each
  | |- shrinks (attempt _) => apply shrinks_attempt
  | |- shrinks (ignore _) => apply shrinks_ignore
  | |- shrinks (sys _) => apply shrinks_sys
  | |- shrinks (modify _) => by apply shrinks_modify
  | |- ∀ _, shrinks _ => intros ?
  | |- shrinks _ => progress eauto with shrink nocore
  end.
Ltac shrink := repeat shrink_step.

Lemma shrinks_lstat p : shrinks (sys_lstat p).
Proof. unfold sys_lstat. shrink. Qed.
Lemma shrinks_stat p : shrinks (sys_stat p).
Proof. unfold sys_stat. shrink. Qed.
Lemma shrinks_mkdir p m : shrinks (sys_mkdir p m).
Proof. unfold sys_mkdir. shrink. Qed.
Lemma shrinks_symlink t p : shrinks (sys_symlink t p).
Proof. unfold sys_symlink. shrink. Qed.
Lemma shrinks_unlink p : shrinks (sys_unlink p).
Proof. unfold sys_unlink. shrink. Qed.
Lemma shrinks_rmdir p : shrinks (sys_rmdir p).
Proof. unfold sys_rmdir. shrink. Qed.
Lemma shrinks_rename a b : shrinks (sys_rename a b).
Proof. unfold sys_rename. shrink. Qed.
Lemma shrinks_open_read p : shrinks (sys_open_read p).
Proof. unfold sys_open_read. shrink. Qed.
Lemma shrinks_open_create p t m : shrinks (sys_open_create p t m).
Proof. unfold sys_open_create. shrink. Qed.
Lemma shrinks_readdir p : shrinks (sys_readdir p).
Proof. unfold sys_readdir. shrink. Qed.
Lemma shrinks_plain : shrinks sys_plain.
Proof. unfold sys_plain. shrink. Qed.
Lemma shrinks_write q d : shrinks (sys_write q d).
Proof. unfold sys_write. shrink. Qed.
Lemma shrinks_read q o n : shrinks (sys_read q o n).
Proof. unfold sys_read. shrink. Qed.
Lemma shrinks_mkstemp p : shrinks (sys_mkstemp p).
Proof.
  intros w. destruct (sys_mkstemp p w) as [r w'] eqn:E. simpl.
  apply sys_inv in E as [(e & s & -> & -> & Es)|(s & Hs & E)].
  - repeat split; try done || lia. simpl. rewrite Es. by exists [Fail e].
  - run_in E. repeat case_match; simplify_eq; repeat split; try done; simpl; lia.
Qed.
Lemma shrinks_fchmod q m : shrinks (sys_fchmod q m).
Proof. unfold sys_fchmod. shrink. Qed.
Lemma shrinks_time : shrinks sys_time.
Proof. unfold sys_time. shrink. Qed.
Lemma shrinks_getenv v : shrinks (sys_getenv v).
Proof. unfold sys_getenv. shrink. Qed.
#[export] Hint Resolve shrinks_lstat shrinks_stat shrinks_mkdir shrinks_symlink shrinks_unlink
  shrinks_rmdir shrinks_rename shrinks_open_read shrinks_open_create shrinks_readdir shrinks_plain
  shrinks_write shrinks_read shrinks_mkstemp shrinks_fchmod shrinks_time shrinks_getenv : shrink.

Lemma shrinks_run {A} (m : M A) w r w' : shrinks m → m w = (r, w') → later w w'.
Proof. intros Hm E. specialize (Hm w). by rewrite E in Hm. Qed.

(** What a directory lists. *)
Lemma elem_of_entries fs d e :
  e ∈ entries fs d ↔ is_Some (fs !! (d ++ SLASH :: e)) ∧ SLASH ∉ e.
Proof.
  unfold entries. rewrite list_elem_of_omap. split.
  - intros (p & Hp & He). apply list_elem_of_fmap in Hp as ([q n] & -> & Hin). simpl in He.
    apply elem_of_map_to_list in Hin. destruct (strip_prefix _ q) as [r|] eqn:E; [|done].
    apply strip_prefix_Some in E as ->. destruct (bool_decide (SLASH ∈ r)) eqn:Eb; [done|].
    bool_simpl. simplify_eq. rewrite <-app_assoc in Hin. split; [by exists n|done].
  - intros [[n Hn] He]. exists (d ++ SLASH :: e). split.
    + apply list_elem_of_fmap. exists (d ++ SLASH :: e, n). split; [done|].
      by apply elem_of_map_to_list.
    + replace (d ++ SLASH :: e) with ((d ++ [SLASH]) ++ e) by by rewrite <-app_assoc.
      rewrite strip_prefix_app. by rewrite bool_decide_eq_false_2.
Qed.
