(* ===== verification/Names.v ===== *)
(** * Name validation

    The five validators of the code base for names that become path
    components: agents ([validate_name]), tasks and artifacts
    ([validate_path_component] and its two callers), profile artifacts
    ([valid_artifact_name]) and kernel registrations ([agentfs_valid_name]).
    [PathSafe] is what they promise to the code that builds paths. *)

From S2P Require Import Prelude CLib Posix.

Definition MAX_NAME : Z := 64.
Definition MAX_TASK_ID : Z := 32.
Definition AGENTFS_MAX_NAME : Z := 64.

Definition name_char (c : ascii) : bool :=
  isalnum c || Ascii.eqb c "_" || Ascii.eqb c "-" || Ascii.eqb c ".".

Definition first_is (c : ascii) (s : bytes) : bool :=
  match s with x :: _ => Ascii.eqb x c | [] => false end.

Definition validate_name (name : bytes) : bool :=
  if (blen name =? 0) || (MAX_NAME <? blen name) then false
  else if first_is "." name || first_is "-" name then false
  else forallb name_char name.

Definition validate_path_component (value : bytes) (max_len : Z) : bool :=
  if (blen value =? 0) || (max_len <? blen value) || first_is "." value then false
  else forallb name_char value.

Definition task_validate_id (task_id : bytes) : bool :=
  validate_path_component task_id (MAX_TASK_ID - 1).

Definition task_validate_artifact_name (filename : bytes) : bool :=
  validate_path_component filename 127.

Definition valid_artifact_name (name : bytes) : bool :=
  if (blen name =? 0) || (127 <? blen name) || first_is "." name then false
  else forallb name_char name.

Definition agentfs_valid_name (s : bytes) : bool :=
  if (blen s =? 0) || (AGENTFS_MAX_NAME <=? blen s) then false
  else if first_is "." s || first_is "-" s then false
  else forallb name_char s.

(** ** The interface *)

Class PathSafe (v : bytes → bool) := path_safe :
  ∀ s, v s = true → s ≠ [] ∧ Forall (λ c, name_char c = true) s ∧ first_is "." s = false.

Lemma forallb_chars s : forallb name_char s = true ↔ Forall (λ c, name_char c = true) s.
Proof. rewrite forallb_forall, Forall_forall. by setoid_rewrite list_elem_of_In. Qed.

Ltac solve_path_safe :=
  intros s Hs; repeat step_in Hs; bool_simpl;
  split; [intros ->; by rewrite blen_nil in *|split; [by apply forallb_chars|done]].

#[export] Instance validate_name_safe : PathSafe validate_name.
Proof. unfold validate_name. solve_path_safe. Qed.
#[export] Instance task_validate_id_safe : PathSafe task_validate_id.
Proof. unfold task_validate_id, validate_path_component. solve_path_safe. Qed.
#[export] Instance task_validate_artifact_name_safe : PathSafe task_validate_artifact_name.
Proof. unfold task_validate_artifact_name, validate_path_component. solve_path_safe. Qed.
#[export] Instance valid_artifact_name_safe : PathSafe valid_artifact_name.
Proof. unfold valid_artifact_name. solve_path_safe. Qed.
#[export] Instance agentfs_valid_name_safe : PathSafe agentfs_valid_name.
Proof. unfold agentfs_valid_name. solve_path_safe. Qed.

(** ** What clients get from the interface *)

Lemma name_char_space c : isspace c = true → name_char c = false.
Proof. by destruct c as [[] [] [] [] [] [] [] []]; vm_compute. Qed.

Section path_safe.
Context {v : bytes → bool} `{!PathSafe v}.

(** A character that no validator accepts does not occur. *)
Lemma safe_not_elem s c : v s = true → name_char c = false → c ∉ s.
Proof.
  intros Hs Hc Hin. destruct (path_safe s Hs) as (_ & HF & _).
  rewrite Forall_forall in HF. apply HF in Hin. congruence.
Qed.
Lemma safe_no_slash s : v s = true → SLASH ∉ s.
Proof. intros. by eapply safe_not_elem. Qed.
Lemma safe_no_nl s : v s = true → NL ∉ s.
Proof. intros. by eapply safe_not_elem. Qed.
Lemma safe_no_nul s : v s = true → NUL ∉ s.
Proof. intros. by eapply safe_not_elem. Qed.
Lemma safe_nonempty s : v s = true → s ≠ [].
Proof. intros Hs. by destruct (path_safe s Hs). Qed.
(** Neither ["."] nor [".."] nor a hidden name. *)
Lemma safe_not_dot s : v s = true → ∀ r, s ≠ "."%char :: r.
Proof. intros Hs r ->. by destruct (path_safe _ Hs) as (_ & _ & ?). Qed.
Lemma safe_char s x : v s = true → x ∈ s → name_char x = true.
Proof.
  intros Hs Hx. destruct (path_safe s Hs) as (_ & HF & _).
  rewrite Forall_forall in HF. by apply HF.
Qed.
Lemma safe_not_space s : v s = true → Forall (λ c, isspace c = false) s.
Proof.
  intros Hs. apply Forall_forall. intros c Hc. apply (safe_char s c Hs) in Hc.
  destruct (isspace c) eqn:E; [|done]. by rewrite (name_char_space c E) in Hc.
Qed.
Lemma safe_cstr s : v s = true → cstr s = s.
Proof. intros. by apply cstr_id, safe_no_nul. Qed.
End path_safe.

Lemma validate_name_length s : validate_name s = true → 0 < blen s ≤ MAX_NAME.
Proof.
  unfold validate_name. intros H. repeat step_in H. bool_simpl. solve_len.
Qed.

Lemma task_validate_id_length s : task_validate_id s = true → 0 < blen s ≤ 31.
Proof.
  unfold task_validate_id, validate_path_component, MAX_TASK_ID. intros H.
  repeat step_in H. bool_simpl. solve_len.
Qed.

(** Sufficient conditions, for names the code itself produces. *)
Lemma validate_path_component_intro s max_len :
  s ≠ [] → blen s ≤ max_len → first_is "." s = false →
  Forall (λ c, name_char c = true) s → validate_path_component s max_len = true.
Proof.
  intros Hne Hl Hd HF. unfold validate_path_component.
  rewrite Hd, orb_false_r.
  assert ((blen s =? 0) = false) as -> by (apply Z.eqb_neq; by rewrite blen_zero).
  rewrite (proj2 (Z.ltb_ge max_len (blen s))) by lia. simpl. by apply forallb_chars.
Qed.

Lemma name_char_alnum c : isalnum c = true → name_char c = true.
Proof. unfold name_char. by intros ->. Qed.

(** The two artifact validators agree, and the kernel accepts the names that
    user space does except those of the full length 64. *)
Lemma artifact_validators_agree s : valid_artifact_name s = task_validate_artifact_name s.
Proof. reflexivity. Qed.

Lemma agentfs_name_iff s :
  agentfs_valid_name s = true ↔ validate_name s = true ∧ blen s ≠ 64.
Proof.
  unfold agentfs_valid_name, validate_name, AGENTFS_MAX_NAME, MAX_NAME.
  destruct (blen s =? 0) eqn:E0; bool_simpl; simpl; [naive_solver|].
  destruct (64 <=? blen s) eqn:E1, (64 <? blen s) eqn:E2; bool_simpl; simpl;
    try (split; [done|intros [? ?]; lia || done]); try lia.
  split; [intros H; split; [done|lia]|naive_solver].
Qed.
