(* ===== verification/Common.v ===== *)
(** * common.c: data root, paths, file I/O, settings

    The state tree under the data root and the helpers every program of the
    system uses to read and write it.  [root] is the value of
    [agentctl_root()] after its first (cached) resolution, which is modelled
    by [agentctl_root]. *)

From S2P Require Import Prelude CLib Posix Names.

Definition MAX_PATHBUF : Z := 4096.
Definition MAX_PAYLOAD : Z := 1048576.

(** ** I/O helpers *)

(** [read_all]: [read] until [n] bytes or end of file, retrying [EINTR].  One
    unit of fuel per byte and per scheduled outcome is enough
    ([read_all_spec]). *)
Fixpoint read_all_loop (fuel : nat) (q : bytes) (off n : nat) (acc : bytes) : M bytes :=
  match fuel with
  | O => throw EIO
  | S fuel' =>
      if (off <? n)%nat then
        r ← attempt (sys_read q off (n - off));
        match r with
        | inl EINTR => read_all_loop fuel' q off n acc
        | inl e => throw e
        | inr [] => mret acc
        | inr d => read_all_loop fuel' q (off + length d)%nat n (acc ++ d)
        end
      else mret acc
  end.
Definition read_all (q : bytes) (n : nat) : M bytes :=
  s ← gets w_sched;
  fs ← gets w_fs;
  read_all_loop (S (length s + length (file_content fs q))) q 0 n [].

(** [write_all]: [write] until everything is out, retrying [EINTR]. *)
Fixpoint write_all_loop (fuel : nat) (q : bytes) (data : bytes) : M unit :=
  match fuel with
  | O => throw EIO
  | S fuel' =>
      match data with
      | [] => mret tt
      | _ =>
          r ← attempt (sys_write q data);
          match r with
          | inl EINTR => write_all_loop fuel' q data
          | inl e => throw e
          | inr k => write_all_loop fuel' q (drop k data)
          end
      end
  end.
Definition write_all (q : bytes) (data : bytes) : M unit :=
  s ← gets w_sched;
  write_all_loop (S (length s + length data)) q data.

Definition ensure_dir (path : bytes) (mode : Z) : M unit :=
  r ← attempt (sys_mkdir path mode);
  match r with
  | inr _ => mret tt
  | inl EEXIST =>
      st ← sys_stat path;
      match n_kind st with KDir => mret tt | _ => throw ENOTDIR end
  | inl e => throw e
  end.

(** The bytes of the file, at most [n - 1] of them. *)
Definition read_small_file (path : bytes) (n : nat) : M bytes :=
  guard_ EINVAL (negb (n =? 0)%nat) ;;
  q ← sys_open_read path;
  r ← attempt (read_all q (n - 1));
  ignore sys_plain ;;
  match r with inl e => throw e | inr d => mret d end.

Definition atomic_write_file (path : bytes) (buf : bytes) (mode : Z) : M unit :=
  guard_ ENAMETOOLONG (blen path + 11 <? MAX_PATHBUF) ;;
  tmp ← sys_mkstemp (path ++ #".tmp.");
  r ← attempt (sys_plain ;; sys_plain ;; sys_fchmod tmp mode);
  match r with
  | inl e => ignore sys_plain ;; ignore (sys_unlink tmp) ;; throw e
  | inr _ =>
      r ← attempt (write_all tmp buf);
      match r with
      | inl e => ignore sys_plain ;; ignore (sys_unlink tmp) ;; throw e
      | inr _ =>
          r ← attempt sys_plain;
          match r with
          | inl e => ignore (sys_unlink tmp) ;; throw e
          | inr _ =>
              r ← attempt (sys_rename tmp path);
              match r with
              | inl e => ignore (sys_unlink tmp) ;; throw e
              | inr _ => mret tt
              end
          end
      end
  end.

Definition append_file (path : bytes) (buf : bytes) (mode : Z) : M unit :=
  q ← sys_open_create path false mode;
  r ← attempt (write_all q buf);
  match r with
  | inl e => ignore sys_plain ;; throw e
  | inr _ => sys_plain
  end.

(** ** The data root *)

Definition S_IRWXGO : Z := 63.      (* 0077 *)

Definition validate_root_ownership_path (path : bytes) : M unit :=
  st ← sys_stat path;
  match n_kind st with KDir => mret tt | _ => throw ENOTDIR end ;;
  uid ← gets w_uid;
  guard_ EPERM (n_uid st =? uid) ;;
  guard_ EPERM (Z.land (n_mode st) S_IRWXGO =? 0).

(** First resolution; [throw] stands for the diagnostic and [exit(1)]. *)
Definition agentctl_root : M bytes :=
  override ← sys_getenv #"AGENTCTL_ROOT";
  xdg ← sys_getenv #"XDG_RUNTIME_DIR";
  uid ← gets w_uid;
  let path :=
    match override with
    | Some (c :: o) => c :: o
    | _ => match xdg with
           | Some (c :: x) => (c :: x) ++ #"/agentctl"
           | _ => #"/tmp/agentctl-" ++ fmt_d uid
           end
    end in
  path ← of_option ENAMETOOLONG (snprintf_ok MAX_PATHBUF path);
  ensure_dir path 448 ;;
  validate_root_ownership_path path ;;
  mret path.

Definition refuse_root : M unit :=
  uid ← gets w_uid;
  if uid =? 0 then
    ov ← sys_getenv #"AGENT_ALLOW_ROOT";
    match ov with
    | Some v => guard_ EPERM (bytes_eqb v #"1")
    | None => throw EPERM
    end
  else mret tt.

(** ** Classes of leaves *)

Definition config_leaves : list bytes :=
  [ #"goal"; #"policy"; #"limits"; #"profile"; #"config"; #"exec"; #"runtime";
   #"desired_state"; #"enabled"; #"restart_policy"; #"transport"].
Definition runtime_leaves : list bytes :=
  [ #"pid"; #"status"; #"supervisor"; #"restart_count"; #"enforcement.req";
   #"enforcement.applied"].
Definition leaf_class (leaf : bytes) : bytes :=
  if existsb (bytes_eqb leaf) config_leaves then #"config"
  else if existsb (bytes_eqb leaf) runtime_leaves then #"runtime"
  else #"data".

(** ** The agent tree *)

Section agent_tree.
Context (root : bytes).

(** [root_child_path] and the paths built with it; [throw] stands for the
    diagnostic and [exit(1)]. *)
Definition root_child_path (leaf : bytes) : M bytes :=
  of_option ENAMETOOLONG (snprintf_ok MAX_PATHBUF (root ++ SLASH :: leaf)).

(** The cached value of [agent_root()], and its first call, which fills the
    cache and creates the directory. *)
Definition agent_root : bytes := root ++ #"/agents".
Definition agent_root_init : M bytes :=
  path ← root_child_path #"agents";
  ensure_dir path 448 ;;
  mret path.

Definition agentd_sock_path : M bytes := root_child_path #"agentd.sock".
Definition agentd_pid_path : M bytes := root_child_path #"agentd.pid".
Definition agentd_log_path : M bytes := root_child_path #"agentd.log".
Definition agentd_token_path : M bytes := root_child_path #"agentd.token".

Definition agent_dir (name : bytes) : M bytes :=
  guard_ EINVAL (validate_name name) ;;
  of_option ENAMETOOLONG (snprintf_ok MAX_PATHBUF (agent_root ++ SLASH :: name)).

Definition agent_subdir (name subdir : bytes) : M bytes :=
  guard_ EINVAL (validate_name name) ;;
  of_option ENAMETOOLONG
    (snprintf_ok MAX_PATHBUF (agent_root ++ SLASH :: name ++ SLASH :: subdir)).
Definition agent_config_dir (name : bytes) : M bytes := agent_subdir name #"config".
Definition agent_runtime_dir (name : bytes) : M bytes := agent_subdir name #"runtime".
Definition agent_data_dir (name : bytes) : M bytes := agent_subdir name #"data".

Definition ensure_legacy_link (base leaf klass : bytes) : M unit :=
  if bool_decide (SLASH ∈ leaf) then mret tt
  else match snprintf_ok MAX_PATHBUF (base ++ SLASH :: leaf),
             snprintf_ok MAX_PATHBUF (klass ++ SLASH :: leaf) with
       | Some oldp, Some target =>
           r ← attempt (sys_lstat oldp);
           match r with
           | inl ENOENT => ignore (sys_symlink target oldp)
           | _ => mret tt
           end
       | _, _ => mret tt
       end.

(** One directory entry of the migration loop of [agent_ensure_layout]. *)
Definition migrate_entry (base e : bytes) : M unit :=
  if first_is "." e || bytes_eqb e #"config" || bytes_eqb e #"runtime" || bytes_eqb e #"data"
  then mret tt
  else
    let klass := leaf_class e in
    oldp ← of_option ENAMETOOLONG (snprintf_ok MAX_PATHBUF (base ++ SLASH :: e));
    newp ← of_option ENAMETOOLONG
             (snprintf_ok MAX_PATHBUF (base ++ SLASH :: klass ++ SLASH :: e));
    r ← attempt (sys_lstat newp);
    match r with
    | inr _ => mret tt
    | inl ENOENT => sys_rename oldp newp
    | inl er => throw er
    end ;;
    ensure_legacy_link base e klass.

Definition agent_ensure_layout (name : bytes) : M unit :=
  base ← agent_dir name;
  config ← agent_config_dir name;
  runtime ← agent_runtime_dir name;
  data ← agent_data_dir name;
  st ← sys_stat base;
  match n_kind st with KDir => mret tt | _ => throw ENOTDIR end ;;
  ensure_dir config 448 ;;
  ensure_dir runtime 448 ;;
  ensure_dir data 448 ;;
  es ← sys_readdir base;
  for_each es (migrate_entry base).

Definition agent_path (name leaf : bytes) : M bytes :=
  guard_ EINVAL (validate_name name) ;;
  base ← agent_dir name;
  config_dir ← agent_config_dir name;
  st ← attempt (sys_stat config_dir);
  match st with
  | inl ENOENT => agent_ensure_layout name
  | _ => mret tt
  end ;;
  let klass := leaf_class leaf in
  out ← of_option ENAMETOOLONG
          (snprintf_ok MAX_PATHBUF (base ++ SLASH :: klass ++ SLASH :: leaf));
  ensure_legacy_link base leaf klass ;;
  mret out.

(** ** Status, pid file, audit, settings *)

Definition write_status (name status : bytes) : M unit :=
  path ← agent_path name #"status";
  guard_ EINVAL (blen status + 2 <=? 64) ;;
  atomic_write_file path (status ++ nl) 384.

Definition parse_pid (buf : bytes) : option Z :=
  let r := strtol (cstr buf) in
  let rest := drop_while (λ c, is_blank c || Ascii.eqb c CR || Ascii.eqb c NL) (st_end r) in
  if st_erange r || negb (st_conv r) || negb (bytes_eqb rest []) ||
     (st_val r <=? 0) || (INT_MAX <? st_val r)
  then None else Some (st_val r).

Definition read_pid_file (name : bytes) : M Z :=
  path ← agent_path name #"pid";
  buf ← read_small_file path 32;
  of_option EINVAL (parse_pid buf).

(** [snprintf] of the prefix and [vsnprintf] of the message into
    [line[cap]]; the line is cut at [cap - 2] and always ends in a newline. *)
Definition log_line (cap : nat) (now pid : Z) (msg : bytes) : bytes :=
  take (cap - 2) (stamp_iso now ++ #" pid=" ++ fmt_d pid ++ #" " ++ msg) ++ nl.

Definition audit_log (name msg : bytes) : M unit :=
  path ← agent_path name #"audit.log";
  now ← sys_time;
  pid ← gets w_self;
  append_file path (log_line 1024 now pid msg) 384.

Definition read_agent_setting (agent leaf : bytes) (n : Z) : M bytes :=
  guard_ EINVAL (negb (n =? 0)) ;;
  path ← agent_path agent leaf;
  buf ← read_small_file path 256;
  let line := take_while (λ c, negb (Ascii.eqb c NL)) (cstr buf) in
  let v := rtrim (λ c, is_blank c || Ascii.eqb c CR) line in
  guard_ ENAMETOOLONG (blen v + 1 <=? n) ;;
  mret v.

Definition write_agent_setting (agent leaf value : bytes) : M unit :=
  path ← agent_path agent leaf;
  guard_ E2BIG (blen value + 2 <=? 512) ;;
  atomic_write_file path (value ++ nl) 384.
End agent_tree.

(** ** More of the agent's files *)

Inductive transport_t := TRANSPORT_UDS | TRANSPORT_AGENTFS.
#[export] Instance transport_t_eq_dec : EqDecision transport_t.
Proof. solve_decision. Defined.
Record transport_cfg_t := TransportCfg { tc_kind : transport_t; tc_mount : bytes }.
Definition default_mount : bytes := #"/mnt/agentfs".

Definition transport_name (k : transport_t) : bytes :=
  match k with TRANSPORT_AGENTFS => #"agentfs" | TRANSPORT_UDS => #"uds" end.

(** The decision on the text of the [transport] file. *)
Definition transport_parse (buf : bytes) : transport_cfg_t :=
  let b := rtrim (λ c, is_blank c || Ascii.eqb c CR || Ascii.eqb c NL) (cstr buf) in
  match strip_prefix #"agentfs" b with
  | None => TransportCfg TRANSPORT_UDS []
  | Some r =>
      match drop_while is_blank r with
      | [] => TransportCfg TRANSPORT_AGENTFS default_mount
      | p => TransportCfg TRANSPORT_AGENTFS (snprintf_trunc 4096 p)
      end
  end.

Definition recv_line_denies (sender_name line : bytes) : bool :=
  match strip_prefix #"deny recv:" (drop_while is_blank line) with
  | Some t => let t := rtrim is_blank t in
              bytes_eqb t #"*" || bytes_eqb t sender_name
  | None => false
  end.
Definition recv_is_denied (caps_text sender_name : bytes) : bool :=
  match sender_name with
  | [] => false
  | _ => line_loop (λ denied line, denied || recv_line_denies sender_name line)
                   (S (length caps_text)) false caps_text
  end.

(** [apply_limits_from_file]: the [setrlimit] calls, in order. *)
Inductive rlimit_t := RLIMIT_CPU | RLIMIT_AS | RLIMIT_NOFILE | RLIMIT_FSIZE.
Definition rlimit_of (key : bytes) : option rlimit_t :=
  if bytes_eqb key #"CPU" then Some RLIMIT_CPU
  else if bytes_eqb key #"AS" then Some RLIMIT_AS
  else if bytes_eqb key #"NOFILE" then Some RLIMIT_NOFILE
  else if bytes_eqb key #"FSIZE" then Some RLIMIT_FSIZE
  else None.
Definition limits_line (calls : list (rlimit_t * Z)) (line : bytes) : list (rlimit_t * Z) :=
  let p := drop_while is_blank line in
  if bytes_eqb p [] || first_is "#" p then calls
  else match split_at "=" p with
       | None => calls
       | Some (key, val) =>
           let v := strtol val in
           if negb (st_erange v) && (0 <=? st_val v) then
             match rlimit_of key with
             | Some which => calls ++ [(which, st_val v)]
             | None => calls
             end
           else calls
       end.
Definition apply_limits_from_file (path : bytes) : M (list (rlimit_t * Z)) :=
  r ← attempt (sys_open_read path);
  match r with
  | inl _ => mret []
  | inr q =>
      d ← attempt (sys_read q 0 1023);
      ignore sys_plain ;;
      match d with
      | inl _ | inr [] => mret []
      | inr buf => mret (line_loop limits_line (S (length (cstr buf))) [] (cstr buf))
      end
  end.

Section agent_files.
Context (root : bytes).

Definition transport_resolve (agent : bytes) : M transport_cfg_t :=
  path ← agent_path root agent #"transport";
  r ← attempt (read_small_file path 256);
  match r with
  | inl _ => mret (TransportCfg TRANSPORT_UDS [])
  | inr buf => mret (transport_parse buf)
  end.

Definition transport_write (agent : bytes) (kind : transport_t) (mount : bytes) : M unit :=
  path ← agent_path root agent #"transport";
  let text := match kind with
              | TRANSPORT_AGENTFS =>
                  #"agentfs " ++ (if bytes_eqb mount [] then default_mount else mount) ++ nl
              | TRANSPORT_UDS => #"uds" ++ nl
              end in
  buf ← of_option ENAMETOOLONG (snprintf_ok 256 text);
  atomic_write_file path buf 384.

(** The directory scan of [resolve_agent_by_pid]; [inl] on no match stands
    for the [-1] whose [errno] no caller reads. *)
Fixpoint resolve_scan (names : list bytes) (pid : Z) (n : nat) : M bytes :=
  match names with
  | [] => throw ENOENT
  | e :: names' =>
      if first_is "." e || negb (validate_name e) then resolve_scan names' pid n
      else
        p ← attempt (read_pid_file root e);
        match p with
        | inl _ => resolve_scan names' pid n
        | inr p => if p =? pid then mret (take (n - 1) e) else resolve_scan names' pid n
        end
  end.
Definition resolve_agent_by_pid (pid : Z) (n : nat) : M bytes :=
  guard_ EINVAL (negb (pid <=? 0) && negb (n =? 0)%nat) ;;
  names ← sys_readdir (agent_root root);
  resolve_scan names pid n.

Definition do_reload (name : bytes) : M unit :=
  ignore (audit_log root name #"SIGHUP: reload acknowledged").

Definition do_rotate_artifacts (name : bytes) : M unit :=
  base ← agent_dir root name;
  dir ← agent_path root name #"artifacts";
  t ← sys_time;
  newdir ← of_option ENAMETOOLONG
             (snprintf_ok MAX_PATHBUF (base ++ #"/artifacts." ++ stamp_compact t));
  r ← attempt (sys_rename dir newdir);
  match r with
  | inl e => ignore (audit_log root name (#"SIGUSR2: rotate failed: " ++ strerror e)) ;; throw e
  | inr _ =>
      r ← attempt (sys_mkdir dir 448);
      match r with
      | inl e =>
          ignore (audit_log root name
                    (#"SIGUSR2: mkdir new artifacts/ failed: " ++ strerror e)) ;; throw e
      | inr _ => ignore (audit_log root name (#"SIGUSR2: artifacts rotated -> " ++ newdir))
      end
  end.

(** [start] is [runtime_start_time], [ppid] is [getppid()]. *)
Definition snapshot_state (start ppid : Z) (name extra_fields : bytes) : M unit :=
  path ← agent_path root name #"outbox/state.snapshot";
  status ← (sp ← attempt (agent_path root name #"status");
            match sp with
            | inl _ => mret #"?"
            | inr sp =>
                sb ← attempt (read_small_file sp 64);
                match sb with
                | inl _ => mret #"?"
                | inr sb => mret (take_while (λ c, negb (Ascii.eqb c NL)) (cstr sb))
                end
            end);
  now ← sys_time;
  pid ← gets w_self;
  let text := #"agent: " ++ name ++ nl ++ #"pid: " ++ fmt_d pid ++ nl ++
              #"ppid: " ++ fmt_d ppid ++ nl ++ #"status: " ++ status ++ nl ++
              #"started_at: " ++ stamp_iso start ++ nl ++
              #"uptime_sec: " ++ fmt_d (now - start) ++ nl in
  text ← of_option EOVERFLOW (snprintf_ok 4096 text);
  guard_ EOVERFLOW (bytes_eqb extra_fields [] || (blen text + blen extra_fields <? 4096)) ;;
  r ← attempt (atomic_write_file path (text ++ extra_fields) 384);
  match r with
  | inr _ => ignore (audit_log root name #"SIGUSR1: state snapshot -> outbox/state.snapshot")
  | inl e =>
      ignore (audit_log root name (#"SIGUSR1: snapshot failed: " ++ strerror e)) ;; throw e
  end.
End agent_files.

(** ** Lemmas: I/O loops

    Under every schedule the loops end, and they fail only with an error the
    schedule contains: [EINTR] and short transfers are absorbed. *)

Lemma write_all_loop_spec fuel q data w c m u :
  w_fs w !! q = Some (Node (KReg c) m u) →
  (length (w_sched w) + length data < fuel)%nat →
  ∃ k r w', write_all_loop fuel q data w = (r, w') ∧
    w_fs w' !! q = Some (Node (KReg (c ++ take k data)) m u) ∧
    match r with
    | inr _ => (length data ≤ k)%nat
    | inl e => e ≠ EINTR ∧ Fail e ∈ w_sched w
    end.
Proof.
  revert data w c. induction fuel as [|fuel IH]; intros data w c Hq Hf; [lia|].
  cbn [write_all_loop]. destruct data as [|x data].
  { exists 0%nat, (inr tt), w. rewrite take_nil, app_nil_r. done. }
  set (d := x :: data) in *. rewrite bind_unfold. unfold attempt.
  destruct (sys_write q d w) as [r w1] eqn:E. eapply sys_write_inv in E; [|done..].
  destruct r as [e|k].
  - destruct E as (s & Es & ->). destruct (decide (e = EINTR)) as [->|Hne].
    + destruct (IH d (set_sched s w) c) as (k & r & w' & Hr & Hc & Hd);
        [done|rewrite Es in Hf; simpl in *; lia|].
      exists k, r, w'. rewrite Es. split; [done|]. split; [done|].
      destruct r as [e|?]; [|done]. destruct Hd as [? Hd]. split; [done|by right].
    + exists 0%nat, (inl e), (set_sched s w). rewrite take_0, app_nil_r, Es.
      split; [by destruct e|]. split; [done|]. split; [done|by left].
  - destruct E as (Hk & Hs & Hq1).
    destruct (IH (drop k d) w1 (c ++ take k d)) as (k' & r & w' & Hr & Hc & Hd); [done| |].
    { apply suffix_length in Hs. rewrite length_drop. lia. }
    exists (k + k')%nat, r, w'. split; [done|]. split.
    { rewrite Hc, <-app_assoc. by rewrite take_take_drop. }
    destruct r as [e|?]; [|rewrite length_drop in Hd; lia].
    destruct Hd as [? Hd]. split; [done|]. destruct Hs as [pre ->]. set_solver.
Qed.

Lemma write_all_spec q data w c m u :
  w_fs w !! q = Some (Node (KReg c) m u) →
  ∃ k r w', write_all q data w = (r, w') ∧
    w_fs w' !! q = Some (Node (KReg (c ++ take k data)) m u) ∧
    match r with
    | inr _ => (length data ≤ k)%nat
    | inl e => e ≠ EINTR ∧ Fail e ∈ w_sched w
    end.
Proof. intros Hq. unfold write_all. apply (write_all_loop_spec _ _ _ _ _ _ _ Hq). lia. Qed.

Lemma confined_write_all_loop S fuel q data : S q → confined S (write_all_loop fuel q data).
Proof.
  intros Hq. revert data. induction fuel as [|fuel IH]; intros data; cbn [write_all_loop];
    [by apply confined_throw|].
  destruct data; [by apply confined_ret|].
  apply confined_bind; [by apply confined_attempt, confined_write|].
  intros [[]|k]; auto using confined_throw.
Qed.
Lemma confined_write_all S q data : S q → confined S (write_all q data).
Proof. intros. unfold write_all. confine. by apply confined_write_all_loop. Qed.

Lemma confined_read_all_loop S fuel q off n acc : confined S (read_all_loop fuel q off n acc).
Proof.
  revert off acc. induction fuel as [|fuel IH]; intros off acc; cbn [read_all_loop];
    [by apply confined_throw|].
  apply confined_if; [|by apply confined_ret].
  apply confined_bind; [by apply confined_attempt, confined_read|].
  intros [[]|[|x d]]; auto using confined_throw, confined_ret.
Qed.
Lemma confined_read_all S q n : confined S (read_all q n).
Proof. unfold read_all. confine. apply confined_read_all_loop. Qed.
#[export] Hint Resolve confined_write_all confined_read_all : confine.

(** A chunk of [read] is a prefix of what remains. *)
Lemma take_take_len {A} k m (l : list A) :
  take k (take m l) = take (length (take k (take m l))) l.
Proof.
  rewrite take_take, !length_take. destruct (decide (k `min` m ≤ length l)%nat).
  - f_equal. lia.
  - rewrite !take_ge; [done|lia..].
Qed.

(** [read_all] delivers the first [n] bytes of the file, or an error of the
    schedule other than [EINTR]. *)
Lemma read_all_loop_spec fuel q off n acc w :
  let c := file_content (w_fs w) q in
  (length (w_sched w) + (length c - off) < fuel)%nat →
  ∃ r w', read_all_loop fuel q off n acc w = (r, w') ∧ w_fs w' = w_fs w ∧
    suffix (w_sched w') (w_sched w) ∧
    match r with
    | inr d => d = acc ++ take (n - off) (drop off c)
    | inl e => e ≠ EINTR ∧ Fail e ∈ w_sched w
    end.
Proof.
  revert off acc w. induction fuel as [|fuel IH]; intros off acc w c Hf; [lia|].
  cbn [read_all_loop]. destruct (Nat.ltb_spec off n) as [Hlt|Hge].
  2:{ exists (inr acc), w. repeat split; try done. rewrite (proj2 (Nat.sub_0_le n off)) by lia.
      by rewrite take_0, app_nil_r. }
  rewrite bind_unfold. unfold attempt.
  destruct (sys_read q off (n - off) w) as [r w1] eqn:E.
  apply sys_read_inv in E as [Hfs1 E]. destruct r as [e|d].
  - destruct E as (s & Es & ->). destruct (decide (e = EINTR)) as [->|Hne].
    + destruct (IH off acc (set_sched s w)) as (r & w' & Hr & Hfs & Hs & Hd).
      { rewrite Es in Hf. simpl in *. fold c. lia. }
      exists r, w'. split; [done|]. split; [done|]. rewrite Es. simpl in Hs.
      split; [by apply suffix_cons_r|]. destruct r; [|done]. destruct Hd. split; [done|by right].
    + exists (inl e), (set_sched s w). split; [by destruct e|]. split; [done|]. rewrite Es.
      split; [by exists [Fail e]|]. split; [done|by left].
  - destruct E as (Hs & k & Hd & Hk & _). fold c in Hd. pose proof (suffix_length _ _ Hs) as Hsl.
    assert (length d = k `min` ((n - off) `min` (length c - off)))%nat as Hl.
    { by rewrite Hd, !length_take, length_drop. }
    assert (d = take (length d) (drop off c)) as Hd'.
    { rewrite Hd at 1. rewrite take_take_len. by rewrite <-Hd. }
    destruct d as [|x d'] eqn:Ed.
    + exists (inr acc), w1. repeat split; try done.
      rewrite (drop_ge c); [by rewrite take_nil, app_nil_r|]. simpl in Hl. lia.
    + destruct (IH (off + length d)%nat (acc ++ d) w1) as (r & w' & Hr & Hfs & Hs' & Hr').
      { rewrite Hfs1. fold c. subst d. cbn [length] in *. lia. }
      rewrite Hfs1 in *. subst d. exists r, w'. split; [done|]. split; [done|].
      split; [by etrans|]. destruct r as [e|?].
      * destruct Hr' as [? Hin]. split; [done|]. destruct Hs as [pre ->]. set_solver.
      * fold c in Hr'. subst. rewrite <-app_assoc, <-drop_drop. f_equal.
        rewrite Hd' at 1. rewrite take_take_drop. f_equal. cbn [length] in *. lia.
Qed.

Lemma read_all_spec q n w :
  ∃ r w', read_all q n w = (r, w') ∧ w_fs w' = w_fs w ∧ suffix (w_sched w') (w_sched w) ∧
    match r with
    | inr d => d = take n (file_content (w_fs w) q)
    | inl e => e ≠ EINTR ∧ Fail e ∈ w_sched w
    end.
Proof.
  unfold read_all. destruct (read_all_loop_spec
    (S (length (w_sched w) + length (file_content (w_fs w) q))) q 0 n [] w)
    as (r & w' & Hr & Hfs & Hs & Hd); [lia|].
  exists r, w'. split; [done|]. split; [done|]. split; [done|].
  destruct r; [done|]. rewrite Nat.sub_0_r, drop_0 in Hd. done.
Qed.

(** ** Lemmas: whole-file operations *)

(** What a computation confined to one path does to the others. *)
Lemma confined_only {A} q (m : M A) w r w' :
  confined (λ p, p = q) m → m w = (r, w') → ∀ p, p ≠ q → w_fs w' !! p = w_fs w !! p.
Proof. intros Hm E p Hp. by eapply confined_run. Qed.

(** Discharge [confined] side goals about a single path. *)
Ltac confine1 := confine; try done; eauto with confine.

Lemma cleanup_inl {A} tmp e w : ∃ w',
  (ignore sys_plain ;; ignore (sys_unlink tmp) ;; @throw A e) w = (inl e, w') ∧
  ∀ p, p ≠ tmp → w_fs w' !! p = w_fs w !! p.
Proof.
  set (m := (ignore sys_plain ;; _)). destruct (m w) as [r w'] eqn:E.
  exists w'. split.
  - f_equal. unfold m, mbind, M_bind, ignore, throw in E.
    destruct (sys_plain w) as [r1 w1]; destruct (sys_unlink tmp w1) as [r2 w2]. by simplify_eq.
  - eapply confined_only; [|exact E]. unfold m. confine1.
Qed.

Lemma unlink_inl {A} tmp e w : ∃ w',
  (ignore (sys_unlink tmp) ;; @throw A e) w = (inl e, w') ∧
  ∀ p, p ≠ tmp → w_fs w' !! p = w_fs w !! p.
Proof.
  set (m := (ignore _ ;; _)). destruct (m w) as [r w'] eqn:E.
  exists w'. split.
  - f_equal. unfold m, mbind, M_bind, ignore, throw in E.
    destruct (sys_unlink tmp w) as [r2 w2]. by simplify_eq.
  - eapply confined_only; [|exact E]. unfold m. confine1.
Qed.

(** The descriptor set-up after [mkstemp] keeps the file empty. *)
Lemma tmp_setup_inv tmp mode w r w' u :
  w_fs w !! tmp = Some (Node (KReg []) 384 u) →
  attempt (sys_plain ;; sys_plain ;; sys_fchmod tmp mode) w = (r, w') →
  (∃ e, r = inr (inl e) ∧ w_fs w' = w_fs w) ∨
  (r = inr (inr tt) ∧ w_fs w' = alter (λ n, Node (n_kind n) mode (n_uid n)) tmp (w_fs w)).
Proof.
  intros Ht. unfold attempt. rewrite bind_unfold.
  destruct (sys_plain w) as [r1 w1] eqn:E1. apply sys_plain_fs in E1.
  destruct r1 as [e|[]]; [intros; simplify_eq; left; by exists e|]. rewrite bind_unfold.
  destruct (sys_plain w1) as [r2 w2] eqn:E2. apply sys_plain_fs in E2.
  destruct r2 as [e|[]]; [intros; simplify_eq; left; exists e; split; [done|congruence]|].
  destruct (sys_fchmod tmp mode w2) as [r3 w3] eqn:E3. apply sys_fchmod_inv in E3.
  intros; simplify_eq. destruct r3 as [e|[]]; [left; exists e|right]; split; congruence.
Qed.

Lemma tmp_ne (path s : bytes) : path ≠ (path ++ #".tmp.") ++ s.
Proof.
  intros H. apply (f_equal length) in H. rewrite !length_app in H. simpl in H. lia.
Qed.

(** Everything [atomic_write_file] can do: on success the file system gains
    exactly the new file; on failure nothing changes except, possibly, the
    private temporary, which did not exist before. *)
Lemma atomic_write_file_inv path buf mode w r w' :
  atomic_write_file path buf mode w = (r, w') →
  let tmp := (path ++ #".tmp.") ++ suffix6 (w_uniq w) in
  match r with
  | inr _ => blen path + 11 < MAX_PATHBUF ∧
             w_fs w' = <[path := Node (KReg buf) mode (w_uid w)]> (w_fs w)
  | inl _ => ∀ p, p ≠ tmp ∨ is_Some (w_fs w !! tmp) → w_fs w' !! p = w_fs w !! p
  end.
Proof.
  intros H tmp0. unfold atomic_write_file in H. rewrite bind_guard in H.
  assert (path ≠ tmp0) as Hne by apply tmp_ne.
  destruct (blen path + 11 <? MAX_PATHBUF) eqn:Hlen; bool_simpl; [|by simplify_eq].
  rewrite bind_unfold in H.
  destruct (sys_mkstemp _ w) as [[e|tmp] w1] eqn:E1.
  { apply sys_mkstemp_err in E1. simplify_eq. intros p _. by rewrite E1. }
  apply sys_mkstemp_ok in E1 as (Etmp & Hfree & Hfs1). fold tmp0 in Etmp. subst tmp.
  clearbody tmp0.
  assert (∀ p, p ≠ tmp0 → w_fs w1 !! p = w_fs w !! p) as Hfr1.
  { intros p Hp. rewrite Hfs1. by apply lookup_insert_ne. }
  assert (∀ w2, (∀ p, p ≠ tmp0 → w_fs w2 !! p = w_fs w1 !! p) →
            ∀ p, p ≠ tmp0 ∨ is_Some (w_fs w !! tmp0) → w_fs w2 !! p = w_fs w !! p) as Hfail.
  { intros w2 H2 p [Hp|Hs]; [by rewrite H2, Hfr1|]. rewrite Hfree in Hs. by destruct Hs. }
  rewrite bind_unfold in H.
  destruct (attempt _ w1) as [r2 w2] eqn:E2.
  assert (w_fs w1 !! tmp0 = Some (Node (KReg []) 384 (w_uid w))) as Ht1
    by (rewrite Hfs1; by apply lookup_insert_eq).
  eapply tmp_setup_inv in E2; [|done]. destruct E2 as [(e & -> & Hfs2)|[-> Hfs2]].
  { destruct (cleanup_inl (A:=unit) tmp0 e w2) as (w3 & H3 & Hfr3). rewrite H3 in H. simplify_eq.
    apply Hfail. intros p Hp. by rewrite Hfr3, Hfs2. }
  assert (w_fs w2 !! tmp0 = Some (Node (KReg []) mode (w_uid w))) as Ht2
    by (rewrite Hfs2, lookup_alter_eq, Ht1; done).
  assert (∀ p, p ≠ tmp0 → w_fs w2 !! p = w_fs w1 !! p) as Hfr2
    by (intros p Hp; rewrite Hfs2; by apply lookup_alter_ne).
  destruct (write_all_spec tmp0 buf w2 _ _ _ Ht2) as (k & r3 & w3 & E3 & Ht3 & Hk).
  pose proof (confined_only tmp0 _ _ _ _ (confined_write_all _ tmp0 buf eq_refl) E3) as Hfr3.
  rewrite bind_unfold in H. unfold attempt at 1 in H. rewrite E3 in H.
  destruct r3 as [e|[]].
  { destruct (cleanup_inl (A:=unit) tmp0 e w3) as (w4 & H4 & Hfr4). rewrite H4 in H. simplify_eq.
    apply Hfail. intros p Hp. by rewrite Hfr4, Hfr3, Hfr2. }
  rewrite take_ge, app_nil_l in Ht3 by done.
  rewrite bind_unfold in H. unfold attempt at 1 in H.
  destruct (sys_plain w3) as [r4 w4] eqn:E4. apply sys_plain_fs in E4.
  destruct r4 as [e|[]].
  { destruct (unlink_inl (A:=unit) tmp0 e w4) as (w5 & H5 & Hfr5). rewrite H5 in H. simplify_eq.
    apply Hfail. intros p Hp. by rewrite Hfr5, E4, Hfr3, Hfr2. }
  rewrite bind_unfold in H. unfold attempt in H.
  destruct (sys_rename tmp0 path w4) as [r5 w5] eqn:E5.
  eapply sys_rename_file in E5; [|by rewrite E4].
  destruct r5 as [e|[]].
  { destruct (unlink_inl (A:=unit) tmp0 e w5) as (w6 & H6 & Hfr6). rewrite H6 in H. simplify_eq.
    apply Hfail. intros p Hp. by rewrite Hfr6, E5, E4, Hfr3, Hfr2. }
  run_in H. simplify_eq. split; [done|]. rewrite E5. apply map_eq. intros p.
  destruct (decide (p = path)) as [->|Hp]; [by rewrite !lookup_insert_eq|].
  rewrite !lookup_insert_ne by done. destruct (decide (p = tmp0)) as [->|Hp'].
  - by rewrite lookup_delete_eq.
  - by rewrite lookup_delete_ne, E4, Hfr3, Hfr2, Hfr1.
Qed.

Lemma confined_atomic_write_file S path buf mode :
  S path → (∀ s, S ((path ++ #".tmp.") ++ s)) → confined S (atomic_write_file path buf mode).
Proof.
  intros Hp Ht w p Hn. destruct (atomic_write_file path buf mode w) as [r w'] eqn:E.
  apply atomic_write_file_inv in E. simpl. destruct r as [e|[]].
  - apply E. left. intros ->. by apply Hn.
  - destruct E as [_ ->]. apply lookup_insert_ne. by intros ->.
Qed.

(** [read_small_file] on a regular file returns its first [n - 1] bytes, or
    an error of the schedule, and changes nothing. *)
Lemma read_small_file_spec path n w c m u :
  w_fs w !! path = Some (Node (KReg c) m u) → n ≠ 0%nat →
  ∃ r w', read_small_file path n w = (r, w') ∧ w_fs w' = w_fs w ∧
    match r with
    | inr d => d = take (n - 1) c
    | inl e => Fail e ∈ w_sched w
    end.
Proof.
  intros Hp Hn. unfold read_small_file. rewrite bind_guard.
  rewrite (proj2 (Nat.eqb_neq n 0)) by done. simpl. rewrite bind_unfold.
  destruct (sys_open_read path w) as [r1 w1] eqn:E1.
  apply sys_inv in E1 as [(e & s & -> & -> & Es)|(s & Hs & E1)].
  { exists (inl e), (set_sched s w). rewrite Es. repeat split. by left. }
  run_in E1. rewrite (follow_reg _ _ _ _ _ _ Hp), Hp in E1. simplify_eq.
  rewrite bind_attempt.
  destruct (read_all_spec path (n - 1) (set_sched s w)) as (r2 & w2 & E2 & Hfs2 & _ & Hr2).
  rewrite E2, bind_ignore. destruct (sys_plain w2) as [r3 w3] eqn:E3. simpl.
  apply sys_plain_fs in E3. simpl in *. unfold file_content in Hr2. rewrite Hp in Hr2.
  destruct r2 as [e|d].
  - exists (inl e), w3. split; [done|]. split; [congruence|].
    destruct Hr2 as [_ Hin]. destruct Hs as [pre ->]. set_solver.
  - exists (inr d), w3. split; [done|]. split; [congruence|done].
Qed.

Lemma confined_read_small_file S path n : confined S (read_small_file path n).
Proof. unfold read_small_file. confine. Qed.
Lemma confined_ensure_dir S path mode : S path → confined S (ensure_dir path mode).
Proof. intros. unfold ensure_dir. confine; by apply confined_mkdir. Qed.
#[export] Hint Resolve confined_read_small_file confined_ensure_dir : confine.

(** A computation that continues with a path it has just built. *)
Lemma confined_bind_inv {A B} S (P : A → Prop) (m : M A) (f : A → M B) :
  confined S m → (∀ w a w', m w = (inr a, w') → P a) → (∀ a, P a → confined S (f a)) →
  confined S (m ≫= f).
Proof.
  intros Hm HP Hf w p Hp. rewrite bind_unfold. specialize (Hm w p Hp).
  destruct (m w) as [[e|a] w'] eqn:E; simpl in *; [done|].
  rewrite (Hf a (HP _ _ _ E) w' p Hp). done.
Qed.

Lemma confined_snprintf {B} S e cap s (f : bytes → M B) :
  confined S (f s) → confined S (of_option e (snprintf_ok cap s) ≫= f).
Proof.
  intros Hf. unfold snprintf_ok. destruct (_ <? _); [exact Hf|by apply confined_throw].
Qed.

(** ** Lemmas: the agent tree *)

Section agent_tree_lemmas.
Context (root : bytes).

(** The directory of an agent, and a path below it. *)
Definition base_of (name : bytes) : bytes := agent_root root ++ SLASH :: name.
Definition leaf_path (name leaf : bytes) : bytes :=
  base_of name ++ SLASH :: leaf_class leaf ++ SLASH :: leaf.

Lemma below_subtree d r : subtree d (d ++ SLASH :: r) = true.
Proof. apply subtree_prefix. right. by exists r. Qed.
Lemma subtree_refl d : subtree d d = true.
Proof. apply subtree_prefix. by left. Qed.
Lemma subtree_trans a b c : subtree a b = true → subtree b c = true → subtree a c = true.
Proof.
  rewrite !subtree_prefix. intros [->|[r ->]] [->|[r' ->]]; eauto.
  right. eexists. rewrite <-app_assoc. simpl. done.
Qed.
Lemma subtree_app d p s : subtree d p = true → p ≠ d → subtree d (p ++ s) = true.
Proof.
  rewrite !subtree_prefix. intros [->|[r ->]] Hne; [done|]. right.
  eexists. rewrite <-app_assoc. simpl. done.
Qed.

Lemma agent_dir_inv name w r w' :
  agent_dir root name w = (r, w') → w' = w ∧
  ∀ d, r = inr d → d = base_of name ∧ validate_name name = true ∧ blen d < MAX_PATHBUF.
Proof.
  unfold agent_dir. rewrite bind_guard. destruct (validate_name name) eqn:Ev.
  - destruct (snprintf_ok _ _) as [d|] eqn:E; run_goal; intros; simplify_eq; split; try done.
    intros d' ?. simplify_eq. apply snprintf_ok_Some in E as [-> ?]. done.
  - intros; simplify_eq. by split.
Qed.

Lemma confined_agent_dir S name : confined S (agent_dir root name).
Proof. unfold agent_dir. confine. Qed.
Lemma confined_agent_subdir S name sub : confined S (agent_subdir root name sub).
Proof. unfold agent_subdir. confine. Qed.
Hint Resolve confined_agent_dir confined_agent_subdir : confine.

(** All changes of the layout code stay in the agent's own directory. *)
Definition in_agent (name p : bytes) : Prop := subtree (base_of name) p = true.

Lemma confined_legacy_link base leaf klass :
  confined (λ p, subtree base p = true) (ensure_legacy_link base leaf klass).
Proof.
  unfold ensure_legacy_link. apply confined_if; [apply confined_ret|].
  destruct (snprintf_ok _ (base ++ _)) as [oldp|] eqn:E; [|apply confined_ret].
  apply snprintf_ok_Some in E as [-> _].
  destruct (snprintf_ok _ _); [|apply confined_ret]. confine.
  apply confined_symlink, below_subtree.
Qed.

Lemma confined_migrate base e : confined (λ p, subtree base p = true) (migrate_entry base e).
Proof.
  unfold migrate_entry. apply confined_if; [apply confined_ret|]. cbv zeta.
  do 2 apply confined_snprintf.
  confine; try apply confined_legacy_link; apply confined_rename; intros p Hp;
    (eapply subtree_trans; [apply below_subtree|exact Hp]).
Qed.

Lemma agent_dir_base name w d w' : agent_dir root name w = (inr d, w') → d = base_of name.
Proof. intros H. apply agent_dir_inv in H as [_ H]. by destruct (H d eq_refl). Qed.
Lemma agent_subdir_base name sub w d w' :
  agent_subdir root name sub w = (inr d, w') → d = base_of name ++ SLASH :: sub.
Proof.
  unfold agent_subdir. rewrite bind_guard. destruct (validate_name name); [|done].
  destruct (snprintf_ok _ _) as [d'|] eqn:E; run_goal; intros; simplify_eq.
  apply snprintf_ok_Some in E as [-> _]. unfold base_of. by rewrite <-app_assoc.
Qed.

Lemma confined_ensure_layout name : confined (in_agent name) (agent_ensure_layout root name).
Proof.
  unfold agent_ensure_layout.
  eapply confined_bind_inv; [apply confined_agent_dir|apply agent_dir_base|intros ? ->].
  do 3 (eapply confined_bind_inv;
    [apply confined_agent_subdir|apply agent_subdir_base|intros ? ->]).
  confine; try (apply confined_ensure_dir, below_subtree). apply confined_migrate.
Qed.

Lemma agent_path_inv name leaf w r w' :
  agent_path root name leaf w = (r, w') →
  ∀ out, r = inr out →
    out = leaf_path name leaf ∧ validate_name name = true ∧ blen out < MAX_PATHBUF.
Proof.
  unfold agent_path. rewrite bind_guard. destruct (validate_name name) eqn:Ev;
    [|intros; by simplify_eq]. rewrite bind_unfold.
  destruct (agent_dir root name w) as [[e|base] w1] eqn:E1; [intros; by simplify_eq|].
  apply agent_dir_base in E1 as ->. rewrite bind_unfold.
  destruct (agent_config_dir root name w1) as [[e|cfg] w2]; [intros; by simplify_eq|].
  rewrite bind_attempt. destruct (sys_stat cfg w2) as [st w3]. rewrite bind_unfold.
  destruct (_ w3) as [[e|[]] w4]; [intros; by simplify_eq|]. rewrite bind_of_option.
  destruct (snprintf_ok _ _) as [out|] eqn:E; [|intros; by simplify_eq].
  apply snprintf_ok_Some in E as [-> Hlen]. rewrite bind_unfold.
  destruct (ensure_legacy_link _ _ _ w4) as [[e|[]] w5]; run_goal; intros; by simplify_eq.
Qed.

Lemma agent_path_leaf name leaf w out w' :
  agent_path root name leaf w = (inr out, w') → out = leaf_path name leaf.
Proof. intros H. eapply agent_path_inv in H; [|done]. by destruct H. Qed.

Lemma confined_agent_path name leaf : confined (in_agent name) (agent_path root name leaf).
Proof.
  unfold agent_path. apply confined_bind; [apply confined_guard|intros _].
  eapply confined_bind_inv; [apply confined_agent_dir|apply agent_dir_base|intros ? ->].
  eapply confined_bind_inv;
    [apply confined_agent_subdir|apply agent_subdir_base|intros ? ->].
  confine; try apply confined_ensure_layout. apply confined_legacy_link.
Qed.

Lemma leaf_path_in_agent name leaf s : in_agent name (leaf_path name leaf ++ s).
Proof. unfold in_agent, leaf_path. rewrite <-app_assoc. apply below_subtree. Qed.

Lemma confined_write_leaf name leaf buf mode :
  confined (in_agent name) (atomic_write_file (leaf_path name leaf) buf mode).
Proof.
  apply confined_atomic_write_file.
  - rewrite <-(app_nil_r (leaf_path _ _)). apply leaf_path_in_agent.
  - intros s. rewrite <-app_assoc. apply leaf_path_in_agent.
Qed.
Hint Resolve confined_agent_path confined_write_leaf : confine.

(** Open an operation that starts with [agent_path]. *)
Lemma confined_at_path {B} name leaf (f : bytes → M B) :
  confined (in_agent name) (f (leaf_path name leaf)) →
  confined (in_agent name) (agent_path root name leaf ≫= f).
Proof.
  intros Hf. eapply confined_bind_inv;
    [apply confined_agent_path|apply agent_path_leaf|by intros ? ->].
Qed.

Lemma confined_write_agent_setting name leaf v :
  confined (in_agent name) (write_agent_setting root name leaf v).
Proof. apply confined_at_path. confine. Qed.
Lemma confined_write_status name v : confined (in_agent name) (write_status root name v).
Proof. apply confined_at_path. confine. Qed.
Lemma confined_transport_write name k m :
  confined (in_agent name) (transport_write root name k m).
Proof. apply confined_at_path. cbv zeta. confine. Qed.
Lemma confined_read_agent_setting name leaf n :
  confined (in_agent name) (read_agent_setting root name leaf n).
Proof. unfold read_agent_setting. confine. Qed.
Lemma confined_read_pid_file name : confined (in_agent name) (read_pid_file root name).
Proof. unfold read_pid_file. confine. Qed.
End agent_tree_lemmas.

#[export] Hint Resolve confined_agent_dir confined_agent_subdir confined_agent_path
  confined_write_leaf confined_ensure_layout confined_write_agent_setting
  confined_write_status confined_transport_write confined_read_agent_setting
  confined_read_pid_file : confine.

(** ** Lemmas: schedules *)

Lemma shrinks_write_all q d : shrinks (write_all q d).
Proof.
  unfold write_all. shrink. generalize (S (length a + length d)) as fuel. intros fuel.
  revert d. induction fuel as [|fuel IH]; intros d; cbn [write_all_loop]; [shrink|].
  destruct d; [shrink|]. apply shrinks_bind; [shrink|]. intros [[]|k]; auto with shrink nocore.
Qed.
Lemma shrinks_read_all q n : shrinks (read_all q n).
Proof.
  unfold read_all. shrink. generalize (S (length a + length (file_content a0 q))) as fuel.
  intros fuel. generalize 0%nat as off. generalize (@nil ascii) as acc.
  induction fuel as [|fuel IH]; intros acc off; cbn [read_all_loop]; [shrink|].
  apply shrinks_if; [|shrink]. apply shrinks_bind; [shrink|].
  intros [[]|[|x d]]; auto with shrink nocore.
Qed.
#[export] Hint Resolve shrinks_write_all shrinks_read_all : shrink.
Lemma shrinks_ensure_dir p m : shrinks (ensure_dir p m).
Proof. unfold ensure_dir. shrink. Qed.
Lemma shrinks_read_small_file p n : shrinks (read_small_file p n).
Proof. unfold read_small_file. shrink. Qed.
Lemma shrinks_atomic_write_file p b m : shrinks (atomic_write_file p b m).
Proof. unfold atomic_write_file. shrink. Qed.
Lemma shrinks_append_file p b m : shrinks (append_file p b m).
Proof. unfold append_file. shrink. Qed.
#[export] Hint Resolve shrinks_ensure_dir shrinks_read_small_file shrinks_atomic_write_file
  shrinks_append_file : shrink.
Lemma shrinks_agent_dir root n : shrinks (agent_dir root n).
Proof. unfold agent_dir. shrink. Qed.
Lemma shrinks_agent_subdir root n s : shrinks (agent_subdir root n s).
Proof. unfold agent_subdir. shrink. Qed.
Lemma shrinks_legacy_link b l k : shrinks (ensure_legacy_link b l k).
Proof. unfold ensure_legacy_link. shrink. Qed.
#[export] Hint Resolve shrinks_agent_dir shrinks_agent_subdir shrinks_legacy_link : shrink.
Lemma shrinks_migrate b e : shrinks (migrate_entry b e).
Proof. unfold migrate_entry. shrink. Qed.
#[export] Hint Resolve shrinks_migrate : shrink.
Lemma shrinks_ensure_layout root n : shrinks (agent_ensure_layout root n).
Proof. unfold agent_ensure_layout, agent_config_dir, agent_runtime_dir, agent_data_dir. shrink. Qed.
#[export] Hint Resolve shrinks_ensure_layout : shrink.
Lemma shrinks_agent_path root n l : shrinks (agent_path root n l).
Proof. unfold agent_path, agent_config_dir. shrink. Qed.
#[export] Hint Resolve shrinks_agent_path : shrink.
Lemma shrinks_audit_log root n m : shrinks (audit_log root n m).
Proof. unfold audit_log. shrink. Qed.
#[export] Hint Resolve shrinks_audit_log : shrink.

(** ** Lemmas: runs in which no call fails *)

Lemma shrinks_quiet {A} (m : M A) w r w' :
  shrinks m → w_sched w = [] → m w = (r, w') → w_sched w' = [].
Proof.
  intros Hm Hs E. destruct (shrinks_run _ _ _ _ Hm E) as [H _]. rewrite Hs in H.
  by apply suffix_nil_inv in H.
Qed.

Lemma write_all_quiet q data w c m u :
  w_sched w = [] → w_fs w !! q = Some (Node (KReg c) m u) →
  ∃ w', write_all q data w = (inr tt, w') ∧ w_sched w' = [].
Proof.
  intros Hs Hq. destruct (write_all_spec q data w c m u Hq) as (k & r & w' & E & _ & Hr).
  rewrite E. destruct r as [e|[]].
  - destruct Hr as [_ Hr]. rewrite Hs in Hr. by apply not_elem_of_nil in Hr.
  - exists w'. split; [done|]. by eapply shrinks_quiet; [apply shrinks_write_all| |].
Qed.

(** The temporary's directory is the target's. *)
Lemma dirname_app p s : SLASH ∉ s → SLASH ∈ p → dirname (p ++ s) = dirname p.
Proof.
  intros Hs Hp. unfold dirname, split_last. rewrite reverse_app.
  assert (∀ a b, SLASH ∉ a → split_at SLASH (a ++ b) =
            match split_at SLASH b with Some (x, y) => Some (a ++ x, y) | None => None end) as HA.
  { induction a as [|c a IH]; intros b Ha; [cbn [app]; by destruct (split_at SLASH b) as [[]|]|].
    apply not_elem_of_cons in Ha as [Hc Ha]. cbn [app]. unfold split_at; fold split_at.
    rewrite (proj2 (Ascii.eqb_neq c SLASH)) by congruence. rewrite IH by done.
    by destruct (split_at SLASH b) as [[]|]. }
  rewrite HA by by rewrite elem_of_reverse.
  destruct (split_at SLASH (reverse p)) as [[x y]|] eqn:E; [done|].
  apply split_at_None in E. by rewrite elem_of_reverse in E.
Qed.

Lemma suffix6_no_slash n : SLASH ∉ suffix6 n.
Proof.
  intros H. pose proof (fmt_0d_digits 6 (Z.of_nat n) (Nat2Z.is_nonneg n)) as HF.
  rewrite Forall_forall in HF. by apply HF in H.
Qed.

Lemma mkstemp_quiet prefix w :
  w_sched w = [] → w_fs w !! (prefix ++ suffix6 (w_uniq w)) = None →
  is_dir (w_fs w) (dirname (prefix ++ suffix6 (w_uniq w))) = true →
  ∃ w', sys_mkstemp prefix w = (inr (prefix ++ suffix6 (w_uniq w)), w') ∧ w_sched w' = [] ∧
    w_fs w' = <[prefix ++ suffix6 (w_uniq w) := Node (KReg []) 384 (w_uid w)]> (w_fs w).
Proof.
  intros Hs Hf Hd. unfold sys_mkstemp. rewrite sys_quiet by done. cbv zeta.
  rewrite !bind_gets, bind_modify, Hf, Hd, bind_modify. eexists. repeat split; done.
Qed.

(** [atomic_write_file] succeeds when its directory exists, its temporary
    name is free and the target is not a directory. *)
Lemma atomic_write_quiet path buf mode w :
  w_sched w = [] → blen path + 11 < MAX_PATHBUF → SLASH ∈ path →
  is_dir (w_fs w) (dirname path) = true →
  w_fs w !! ((path ++ #".tmp.") ++ suffix6 (w_uniq w)) = None →
  (∀ m u, w_fs w !! path ≠ Some (Node KDir m u)) →
  ∃ w', atomic_write_file path buf mode w = (inr tt, w') ∧ w_sched w' = [] ∧
    w_fs w' = <[path := Node (KReg buf) mode (w_uid w)]> (w_fs w).
Proof.
  intros Hs Hl Hsl Hdir Hfree Hnd.
  destruct (atomic_write_file path buf mode w) as [r w'] eqn:E.
  assert (r = inr tt) as ->; [|].
  { unfold atomic_write_file in E. rewrite bind_guard, (proj2 (Z.ltb_lt _ _)), bind_unfold in E by done.
    destruct (mkstemp_quiet (path ++ #".tmp.") w) as (w1 & E1 & Hs1 & Hfs1); [done|done| |].
    { rewrite <-app_assoc, dirname_app; [done| |done]. intros [H|H]%elem_of_app;
        [revert H; not_in_list|by apply suffix6_no_slash in H]. }
    rewrite E1 in E. set (tmp := (path ++ _) ++ _) in *.
    assert (w_fs w1 !! tmp = Some (Node (KReg []) 384 (w_uid w))) as Ht1
      by (rewrite Hfs1; by apply lookup_insert_eq).
    rewrite bind_attempt in E. destruct (sys_plain ≫= _) as [r2 w2] eqn:E2 in E.
    assert (r2 = inr tt ∧ w_sched w2 = [] ∧ w_fs w2 !! tmp = Some (Node (KReg []) mode (w_uid w)) ∧
            ∀ p, p ≠ tmp → w_fs w2 !! p = w_fs w1 !! p) as (-> & Hs2 & Ht2 & Hfr2).
    { unfold sys_plain, sys_fchmod in E2. rewrite bind_unfold, sys_quiet in E2 by done. cbn in E2.
      rewrite bind_unfold, sys_quiet in E2 by done. cbn in E2. rewrite sys_quiet in E2 by done.
      injection E2 as <- <-. repeat split; [done| |].
      - simpl. by rewrite lookup_alter_eq, Ht1.
      - intros p Hp. simpl. by apply lookup_alter_ne. }
    destruct (write_all_quiet tmp buf w2 _ _ _ Hs2 Ht2) as (w3 & E3 & Hs3).
    rewrite bind_attempt, E3 in E.
    destruct (write_all_spec tmp buf w2 _ _ _ Ht2) as (k & r3 & w3' & E3' & Ht3 & _).
    rewrite E3 in E3'. injection E3' as <- <-.
    pose proof (confined_only tmp _ _ _ _ (confined_write_all _ tmp buf eq_refl) E3) as Hfr3.
    rewrite bind_attempt in E. unfold sys_plain in E. rewrite sys_quiet in E by done. cbn in E.
    rewrite bind_attempt in E. unfold sys_rename in E. rewrite sys_quiet in E by done.
    rewrite bind_gets, Ht3 in E. assert (path ≠ tmp) as Hne by apply tmp_ne.
    assert (∀ p, p ≠ tmp → w_fs w3 !! p = w_fs w !! p) as Hfr.
    { intros p Hp. rewrite Hfr3, Hfr2, Hfs1 by done. by apply lookup_insert_ne. }
    rewrite Hfr in E by done.
    assert (is_dir (w_fs w3) (dirname path) = true) as Hd3.
    { revert Hdir. unfold is_dir. destruct (dirname path) as [|c d] eqn:Ed; [done|].
      destruct (decide (c :: d = tmp)) as [Heq|Hq]; [|by rewrite Hfr].
      rewrite Heq, Hfree. done. }
    rewrite Hd3 in E. destruct (w_fs w !! path) as [[[] m0 u0]|]; [by destruct (Hnd m0 u0)|..];
      by inversion E. }
  exists w'. split; [done|]. split; [by eapply shrinks_quiet; [apply shrinks_atomic_write_file| |]|].
  by apply atomic_write_file_inv in E as [_ ->].
Qed.

(** [append_file] to a path that is not a link touches nothing else. *)
Definition no_link (fs : gmap bytes node) (p : bytes) : Prop :=
  ∀ t m u, fs !! p ≠ Some (Node (KLnk t) m u).
Lemma append_file_only path buf mode w r w' :
  no_link (w_fs w) path → append_file path buf mode w = (r, w') →
  (∀ p, p ≠ path → w_fs w' !! p = w_fs w !! p) ∧ no_link (w_fs w') path.
Proof.
  intros Hnl E. unfold append_file in E. rewrite bind_unfold in E.
  destruct (sys_open_create path false mode w) as [[e|q] w1] eqn:E1.
  { simplify_eq. apply sys_inv in E1 as [(? & s & _ & -> & _)|(s & _ & E1)]; [done|].
    run_in E1. rewrite follow_id in E1 by apply Hnl.
    destruct (w_fs w !! path) as [[[] ? ?]|]; [by simplify_eq..|]. by destruct (is_dir _ _); simplify_eq. }
  assert (q = path ∧ (∀ p, p ≠ path → w_fs w1 !! p = w_fs w !! p) ∧
          ∃ c m u, w_fs w1 !! path = Some (Node (KReg c) m u)) as (-> & Hfr & c & m & u & Hp).
  { apply sys_inv in E1 as [(? & s & ? & _)|(s & _ & E1)]; [done|].
    run_in E1. rewrite follow_id in E1 by apply Hnl.
    destruct (w_fs w !! path) as [[[|c|] m u]|]; try done.
    - injection E1 as <- <-. split; [done|]. split; [intros; by apply lookup_insert_ne|].
      exists c, m, u. by apply lookup_insert_eq.
    - destruct (is_dir _ _); [|done]. injection E1 as <- <-. split; [done|].
      split; [intros; by apply lookup_insert_ne|]. eexists _, _, _. by apply lookup_insert_eq. }
  rewrite bind_attempt in E.
  destruct (write_all_spec path buf w1 _ _ _ Hp) as (k & r2 & w2 & E2 & Hp2 & _). rewrite E2 in E.
  pose proof (confined_only path _ _ _ _ (confined_write_all _ path buf eq_refl) E2) as Hfr2.
  assert (w_fs w' = w_fs w2) as ->.
  { destruct r2 as [e|[]]; [|by eapply sys_plain_fs].
    rewrite bind_ignore in E. destruct (sys_plain w2) as [r3 w3] eqn:E3. apply sys_plain_fs in E3.
    cbn in E. unfold throw in E. by injection E as _ <-. }
  split; [intros p Hq; by rewrite Hfr2, Hfr|]. intros t m' u'. by rewrite Hp2.
Qed.

(** ** Lemmas: settings and pid files *)

(** Once the layout exists and no call fails, [agent_path] changes nothing
    but the legacy link. *)
Lemma agent_path_quiet root name leaf w m u :
  w_sched w = [] → validate_name name = true →
  blen (base_of root name) + 14 + blen leaf < MAX_PATHBUF →
  w_fs w !! (base_of root name ++ #"/config") = Some (Node KDir m u) →
  ∃ w', agent_path root name leaf w = (inr (leaf_path root name leaf), w') ∧
    w_sched w' = [] ∧ (SLASH ∈ leaf → w' = w) ∧
    ∀ p, p ≠ base_of root name ++ SLASH :: leaf → w_fs w' !! p = w_fs w !! p.
Proof.
  intros Hs Hv Hl Hcfg. assert (blen (leaf_class leaf) ≤ 7) as Hcl.
  { unfold leaf_class. destruct (existsb _ _); [done|]. by destruct (existsb _ _). }
  unfold agent_path. rewrite bind_guard, Hv. rewrite bind_unfold.
  assert (agent_dir root name w = (inr (base_of root name), w)) as ->.
  { unfold agent_dir. rewrite bind_guard, Hv. unfold snprintf_ok. fold (base_of root name).
    by rewrite (proj2 (Z.ltb_lt _ _)) by solve_len. }
  rewrite bind_unfold.
  assert (agent_config_dir root name w = (inr (base_of root name ++ #"/config"), w)) as ->.
  { unfold agent_config_dir, agent_subdir. rewrite bind_guard, Hv. unfold snprintf_ok.
    replace (agent_root root ++ SLASH :: name ++ SLASH :: #"config")
      with (base_of root name ++ #"/config") by (unfold base_of; by rewrite <-app_assoc).
    rewrite (proj2 (Z.ltb_lt _ _)); [done|]. rewrite blen_app.
    change (blen #"/config") with 7. solve_len. }
  rewrite bind_attempt. unfold sys_stat. rewrite sys_quiet by done. rewrite bind_gets.
  rewrite follow_id, Hcfg by congruence. run_goal. unfold snprintf_ok.
  rewrite (proj2 (Z.ltb_lt _ _)).
  2:{ repeat first [rewrite blen_app | rewrite blen_cons]. solve_len. }
  fold (leaf_path root name leaf).
  destruct (ensure_legacy_link (base_of root name) leaf (leaf_class leaf) w) as [r w'] eqn:E.
  assert (r = inr tt ∧ w_sched w' = []) as [-> Hs'].
  { unfold ensure_legacy_link in E. destruct (bool_decide _); [by run_in E; simplify_eq|].
    repeat (destruct (snprintf_ok _ _); [|by run_in E; simplify_eq]).
    rewrite bind_attempt in E. unfold sys_lstat in E. rewrite sys_quiet in E by done.
    run_in E. destruct (w_fs w !! l) eqn:El; [by simplify_eq|].
    unfold sys_symlink in E. rewrite sys_quiet in E by done. run_in E. rewrite El in E.
    destruct (is_dir _ _); by simplify_eq. }
  exists w'. split; [done|]. split; [done|]. split.
  { intros Hsl. unfold ensure_legacy_link in E. rewrite bool_decide_eq_true_2 in E by done.
    by run_in E; simplify_eq. }
  intros p Hp. eapply (confined_only (base_of root name ++ SLASH :: leaf)); [|exact E|exact Hp].
  unfold ensure_legacy_link. apply confined_if; [apply confined_ret|].
  destruct (snprintf_ok _ (_ ++ SLASH :: leaf)) as [o|] eqn:Eo; [|apply confined_ret].
  apply snprintf_ok_Some in Eo as [-> _].
  destruct (snprintf_ok _ _); [|apply confined_ret]. confine. by apply confined_symlink.
Qed.

(** For a leaf with a slash the same holds under any schedule without a
    spurious [ENOENT]: the path is built and nothing at all changes. *)
Lemma agent_path_slash root name leaf w m u :
  Fail ENOENT ∉ w_sched w → validate_name name = true → SLASH ∈ leaf →
  blen (base_of root name) + 14 + blen leaf < MAX_PATHBUF →
  w_fs w !! (base_of root name ++ #"/config") = Some (Node KDir m u) →
  ∃ s, suffix s (w_sched w) ∧
    agent_path root name leaf w = (inr (leaf_path root name leaf), set_sched s w).
Proof.
  intros Hs Hv Hsl Hl Hcfg. assert (blen (leaf_class leaf) ≤ 7) as Hcl.
  { unfold leaf_class. destruct (existsb _ _); [done|]. by destruct (existsb _ _). }
  unfold agent_path. rewrite bind_guard, Hv, bind_unfold.
  assert (agent_dir root name w = (inr (base_of root name), w)) as ->.
  { unfold agent_dir. rewrite bind_guard, Hv. unfold snprintf_ok. fold (base_of root name).
    by rewrite (proj2 (Z.ltb_lt _ _)) by solve_len. }
  rewrite bind_unfold.
  assert (agent_config_dir root name w = (inr (base_of root name ++ #"/config"), w)) as ->.
  { unfold agent_config_dir, agent_subdir. rewrite bind_guard, Hv. unfold snprintf_ok.
    replace (agent_root root ++ SLASH :: name ++ SLASH :: #"config")
      with (base_of root name ++ #"/config") by (unfold base_of; by rewrite <-app_assoc).
    rewrite (proj2 (Z.ltb_lt _ _)); [done|]. rewrite blen_app.
    change (blen #"/config") with 7. solve_len. }
  rewrite bind_attempt. destruct (sys_stat _ w) as [r w1] eqn:E.
  assert ((∀ e, r = inl e → e ≠ ENOENT) ∧ ∃ s, suffix s (w_sched w) ∧ w1 = set_sched s w)
    as [Hr (s & Hsuf & ->)].
  { apply sys_inv in E as [(e & s & -> & -> & Es)|(s & Hsuf & E)].
    - split; [|exists s; rewrite Es; split; [by apply suffix_cons_r|done]].
      intros e' [= <-] ->. apply Hs. rewrite Es. by left.
    - run_in E. rewrite follow_id, Hcfg in E by congruence. simplify_eq. split; [done|by exists s]. }
  exists s. split; [done|]. rewrite bind_unfold.
  assert ((match r with inl ENOENT => agent_ensure_layout root name | _ => mret tt end)
            (set_sched s w) = (inr tt, set_sched s w)) as ->.
  { destruct r as [[]|]; try done. by destruct (Hr ENOENT eq_refl). }
  rewrite bind_of_option. unfold snprintf_ok. rewrite (proj2 (Z.ltb_lt _ _)).
  2:{ repeat first [rewrite blen_app | rewrite blen_cons]. solve_len. }
  rewrite bind_unfold. unfold ensure_legacy_link. by rewrite bool_decide_eq_true_2 by done.
Qed.

(** A setting value that survives its text form: one line, no trailing blank. *)
Definition setting_trim (c : ascii) : bool := is_blank c || Ascii.eqb c CR.
Definition clean_setting (v : bytes) : bool :=
  negb (bool_decide (NUL ∈ v)) && negb (bool_decide (NL ∈ v)) &&
  bytes_eqb (rtrim setting_trim v) v.

Lemma base_leaf_ne root name leaf : base_of root name ++ SLASH :: leaf ≠ leaf_path root name leaf.
Proof.
  unfold leaf_path. intros H%app_inv_head. apply (f_equal length) in H. cbn [length] in H.
  rewrite length_app in H. cbn [length] in H. lia.
Qed.

(** What [read_agent_setting] returns for a file [v ++ "\n"] is [v] cut at 255
    bytes and trimmed. *)
Lemma read_setting_file root name leaf n v w m u m' u' :
  w_sched w = [] → validate_name name = true →
  blen (base_of root name) + 14 + blen leaf < MAX_PATHBUF →
  w_fs w !! (base_of root name ++ #"/config") = Some (Node KDir m u) →
  w_fs w !! leaf_path root name leaf = Some (Node (KReg (v ++ nl)) m' u') →
  NUL ∉ v → NL ∉ v → 255 < n →
  run (read_agent_setting root name leaf n) w = inr (rtrim setting_trim (take 255 v)).
Proof.
  intros Hs Hv Hl Hcfg Hf Hnul Hnl Hn. unfold run, read_agent_setting. rewrite bind_guard.
  rewrite (proj2 (Z.eqb_neq n 0)) by lia. simpl. rewrite bind_unfold.
  destruct (agent_path_quiet root name leaf w m u) as (w1 & -> & Hs1 & _ & Hfr); [done..|].
  specialize (Hfr _ (not_eq_sym (base_leaf_ne root name leaf))). rewrite Hf in Hfr.
  destruct (read_small_file_spec (leaf_path root name leaf) 256 w1 _ _ _ Hfr) as (r & w2 & E & _ & Hr);
    [done|]. rewrite bind_unfold, E.
  destruct r as [e|d]; [rewrite Hs1 in Hr; by apply not_elem_of_nil in Hr|].
  assert (take_while (λ c, negb (Ascii.eqb c NL)) (cstr d) = take 255 v) as ->.
  { rewrite Hr. change (256 - 1)%nat with 255%nat. assert (NUL ∉ v ++ nl) by set_solver.
    rewrite cstr_id by (intros ?%take_elem; done).
    destruct (decide (length v < 255)%nat).
    - rewrite !take_ge by (rewrite ?length_app; cbn [length nl]; lia).
      rewrite take_while_app; [simpl; by rewrite app_nil_r|].
      apply Forall_forall. intros x Hx. apply negb_true_iff, Ascii.eqb_neq. by intros ->.
    - rewrite take_app_le by lia. rewrite <-(app_nil_r (take 255 v)) at 1.
      rewrite take_while_app; [by rewrite app_nil_r|].
      apply Forall_forall. intros x Hx%take_elem.
      apply negb_true_iff, Ascii.eqb_neq. by intros ->. }
  fold setting_trim. set (x := rtrim _ _).
  assert (blen x ≤ 255) as Hx.
  { unfold x. destruct (rtrim_prefix setting_trim (take 255 v)) as (q & Hq & _).
    pose proof (blen_take 255 v). rewrite Hq in H. solve_len. }
  change (λ c, is_blank c || Ascii.eqb c CR) with setting_trim. fold x.
  rewrite bind_guard, (proj2 (Z.leb_le _ _)) by lia. done.
Qed.

(** ** Properties *)

(** C13: [atomic_write_file] is atomic under every schedule of failing,
    interrupted and short system calls: it either succeeds and the file system
    is the old one with exactly [path] replaced by [buf], or it fails and every
    path that existed before, [path] included, is unchanged. *)
Theorem atomic_write_file_atomic (path buf : bytes) (mode : Z) (w : world) :
  let '(r, w') := atomic_write_file path buf mode w in
  match r with
  | inr _ => w_fs w' = <[path := Node (KReg buf) mode (w_uid w)]> (w_fs w)
  | inl _ => w_fs w' !! path = w_fs w !! path ∧
             ∀ p, is_Some (w_fs w !! p) → w_fs w' !! p = w_fs w !! p
  end.
Proof.
  destruct (atomic_write_file path buf mode w) as [r w'] eqn:E.
  apply atomic_write_file_inv in E. destruct r as [e|[]]; [|by destruct E].
  split; [apply E; left; apply tmp_ne|]. intros p Hp. apply E.
  destruct (decide (p = (path ++ #".tmp.") ++ suffix6 (w_uniq w))) as [->|]; auto.
Qed.

(** A setting written by [write_agent_setting] (under any schedule) is read
    back exactly by [read_agent_setting] when it is one line of at most 255
    bytes without trailing blanks. *)
Theorem setting_round_trip root name leaf n v w w1 w2 m u :
  write_agent_setting root name leaf v w = (inr tt, w1) →
  clean_setting v = true → blen v ≤ 255 → 255 < n →
  w_fs w2 = w_fs w1 → w_sched w2 = [] →
  blen (base_of root name) + 14 + blen leaf < MAX_PATHBUF →
  w_fs w1 !! (base_of root name ++ #"/config") = Some (Node KDir m u) →
  run (read_agent_setting root name leaf n) w2 = inr v.
Proof.
  intros Hw Hc Hv Hn Hfs Hs Hl Hcfg. unfold write_agent_setting in Hw. rewrite bind_unfold in Hw.
  destruct (agent_path root name leaf w) as [[e|p] w0] eqn:Ep; [done|].
  eapply agent_path_inv in Ep; [|done]. destruct Ep as (-> & Hname & _).
  rewrite bind_guard in Hw. destruct (blen v + 2 <=? 512); [|done].
  apply atomic_write_file_inv in Hw as [_ Hw].
  unfold clean_setting in Hc. bool_simpl.
  erewrite read_setting_file; [|done|done|done|by rewrite Hfs|..|done].
  - f_equal. rewrite take_ge; [done|]. unfold blen in Hv. lia.
  - rewrite Hfs, Hw. by apply lookup_insert_eq.
  - done.
  - done.
Qed.

(** The tree of the witnesses: a root with one agent, ["a"]. *)
Definition demo_fs : gmap bytes node :=
  list_to_map ((λ p, (p, Node KDir 448 1000)) <$>
    [ #"/r"; #"/r/agents"; #"/r/agents/a"; #"/r/agents/a/config"; #"/r/agents/a/runtime";
      #"/r/agents/a/data"; #"/r/agents/b"; #"/r/agents/b/config"; #"/r/agents/b/runtime";
      #"/r/agents/b/data"]).
Definition demo_world : world := World demo_fs [] 1788350400 100 1000 ∅ 0 ∅ ∅ ∅ [] [].
(** The same with interrupted, short and failing calls ahead. *)
Definition demo_faulty : world :=
  set_sched [Pass; Fail ENOENT; Pass; Pass; Pass; Pass; Pass; Short 3; Fail EINTR; Short 2] demo_world.

Lemma setting_round_trip_witness :
  run (read_agent_setting #"/r" #"a" #"exec" 4096)
      (exec (write_agent_setting #"/r" #"a" #"exec" #"/bin/x y") demo_faulty) = inr #"/bin/x y".
Proof.
  eapply (setting_round_trip #"/r" #"a" #"exec" 4096 #"/bin/x y" demo_faulty).
  - apply run_exec. vm_compute. reflexivity.
  - vm_compute. reflexivity.
  - done.
  - done.
  - reflexivity.
  - vm_compute. reflexivity.
  - done.
  - vm_compute. reflexivity.
Defined.

Lemma in_agent_disjoint root a b p :
  validate_name a = true → validate_name b = true →
  in_agent root a p → in_agent root b p → a = b.
Proof.
  unfold in_agent, base_of. intros Ha Hb Hpa Hpb.
  assert (∀ n, subtree (agent_root root ++ SLASH :: n) p = true → SLASH ∉ n →
            ∃ r, p = (agent_root root ++ [SLASH]) ++ r ∧ split_at SLASH (r ++ [SLASH]) ≫= (λ x, Some x.1) = Some n) as HH.
  { intros n Hn Hs. apply subtree_prefix in Hn as [->|[r ->]].
    - exists n. rewrite <-app_assoc. split; [done|]. by rewrite split_at_app.
    - exists (n ++ SLASH :: r). rewrite <-!app_assoc. split; [done|].
      simpl. by rewrite split_at_app. }
  destruct (HH a Hpa (safe_no_slash a Ha)) as (ra & Hra & Ea).
  destruct (HH b Hpb (safe_no_slash b Hb)) as (rb & Hrb & Eb).
  assert (ra = rb) as -> by (eapply app_inv_head; by rewrite <-Hra). congruence.
Qed.



(** The reader's buffer is shorter than the writer's: a one-line value of
    256 to 510 bytes is stored by [write_agent_setting] and comes back as its
    first 255 bytes (trimmed), with no error. *)
Theorem setting_long_value_truncated root name leaf n v w w1 w2 m u :
  write_agent_setting root name leaf v w = (inr tt, w1) →
  NUL ∉ v → NL ∉ v → 255 < blen v → 255 < n →
  w_fs w2 = w_fs w1 → w_sched w2 = [] →
  blen (base_of root name) + 14 + blen leaf < MAX_PATHBUF →
  w_fs w1 !! (base_of root name ++ #"/config") = Some (Node KDir m u) →
  run (read_agent_setting root name leaf n) w2 = inr (rtrim setting_trim (take 255 v)) ∧
  run (read_agent_setting root name leaf n) w2 ≠ inr v.
Proof.
  intros Hw Hnul Hnl Hv Hn Hfs Hs Hl Hcfg. unfold write_agent_setting in Hw.
  rewrite bind_unfold in Hw.
  destruct (agent_path root name leaf w) as [[e|p] w0] eqn:Ep; [done|].
  eapply agent_path_inv in Ep; [|done]. destruct Ep as (-> & Hname & _).
  rewrite bind_guard in Hw. destruct (blen v + 2 <=? 512); [|done].
  apply atomic_write_file_inv in Hw as [_ Hw].
  assert (run (read_agent_setting root name leaf n) w2 = inr (rtrim setting_trim (take 255 v)))
    as Hr.
  { eapply read_setting_file; try done; [by rewrite Hfs|].
    rewrite Hfs, Hw. by apply lookup_insert_eq. }
  split; [done|]. rewrite Hr. intros [= Heq].
  destruct (rtrim_prefix setting_trim (take 255 v)) as (q & Hq & _). rewrite Heq in Hq.
  apply (f_equal blen) in Hq. pose proof (blen_take 255 v). rewrite Hq in H. solve_len.
Qed.

Lemma setting_long_value_truncated_witness :
  let v := replicate 300 "x"%char in
  run (read_agent_setting #"/r" #"a" #"exec" 4096)
      (exec (write_agent_setting #"/r" #"a" #"exec" v) demo_world) = inr (replicate 255 "x"%char).
Proof.
  intros v.
  eapply (setting_long_value_truncated #"/r" #"a" #"exec" 4096 v demo_world).
  - apply run_exec. vm_compute. reflexivity.
  - intros [? _]%elem_of_replicate. discriminate.
  - intros [? _]%elem_of_replicate. discriminate.
  - done.
  - done.
  - reflexivity.
  - vm_compute. reflexivity.
  - done.
  - vm_compute. reflexivity.
Defined.

(** The pid files written by the supervisor ("%ld\n") are read back, and
    no content at all is read as a pid outside [1, INT_MAX]. *)
Theorem pid_file_round_trip (pid : Z) (buf : bytes) :
  (0 < pid ≤ INT_MAX → parse_pid (fmt_d pid ++ nl) = Some pid) ∧
  (∀ v, parse_pid buf = Some v → 0 < v ≤ INT_MAX).
Proof.
  split.
  - intros [H0 H1]. unfold parse_pid, fmt_d. rewrite (proj2 (Z.ltb_ge pid 0)) by lia.
    rewrite cstr_id.
    2:{ apply not_elem_of_app. split; [apply dec_not_elem; [lia|done]|set_solver]. }
    rewrite strtol_dec; [|unfold INT_MAX, LONG_MAX in *; lia|done]. simpl.
    rewrite (proj2 (Z.leb_gt pid 0)), (proj2 (Z.ltb_ge INT_MAX pid)) by lia. done.
  - intros v H. unfold parse_pid in H. cbv zeta in H. repeat step_in H. bool_simpl. lia.
Qed.

Lemma line_loop_existsb (f : bytes → bool) fuel p :
  (length p < fuel)%nat →
  line_loop (λ b l, b || f l) fuel false p = existsb f (text_lines p).
Proof.
  intros H. rewrite line_loop_spec by done.
  assert (∀ ls b, foldl (λ b l, b || f l) b ls = b || existsb f ls) as HH.
  { induction ls as [|l ls IH]; intros b; simpl; [by rewrite orb_false_r|].
    rewrite IH. by rewrite orb_assoc. }
  by rewrite HH.
Qed.

(** The receive filter is exactly the deny lines of the policy: a named
    sender is denied iff some line is, up to surrounding blanks,
    [deny recv:<sender>] or [deny recv:*]; an unnamed one never is. *)
Theorem recv_is_denied_spec (caps sender : bytes) :
  recv_is_denied caps sender = true ↔
  sender ≠ [] ∧ ∃ line t, line ∈ text_lines caps ∧
    drop_while is_blank line = #"deny recv:" ++ t ∧
    (rtrim is_blank t = #"*" ∨ rtrim is_blank t = sender).
Proof.
  unfold recv_is_denied. destruct sender as [|c s]; [naive_solver|]. set (n := c :: s).
  rewrite line_loop_existsb by lia. rewrite existsb_exists. split.
  - intros (l & Hl & Hd). apply list_elem_of_In in Hl. unfold recv_line_denies in Hd.
    destruct (strip_prefix _ _) as [t|] eqn:E; [|done]. apply strip_prefix_Some in E.
    apply orb_true_iff in Hd. rewrite !bytes_eqb_eq in Hd. split; [done|]. by exists l, t.
  - intros (_ & l & t & Hl & Hd & Ht). exists l. split; [by apply list_elem_of_In|].
    unfold recv_line_denies. rewrite Hd, strip_prefix_app.
    apply orb_true_iff. by rewrite !bytes_eqb_eq.
Qed.
