(* ===== verification/Broker.v ===== *)
(** * broker.c: the capability broker's messages and policy

    Token generation, the header parser, the two response formatters and the
    allow-pattern check.  A [char] field of [broker_msg_t] is the C string it
    holds; the parser's [seen] bits and fields are one state in which a field
    is [Some] once its bit is set. *)

From S2P Require Import Prelude CLib Posix Names.

Definition BROKER_MSG_MAX : Z := 512.
Definition BROKER_CAP_MAX : Z := 128.
Definition BROKER_TOKEN_LEN : Z := 8.
Definition BROKER_REASON_MAX : Z := 128.
Definition MAX_TASK_ID_INLINE : Z := 32.

Inductive broker_verb_t :=
| BROKER_VERB_UNKNOWN | BROKER_VERB_REQUEST | BROKER_VERB_ISSUED | BROKER_VERB_DENIED.
#[export] Instance broker_verb_eq_dec : EqDecision broker_verb_t.
Proof. solve_decision. Defined.

Record broker_msg_t := BrokerMsg {
  bm_verb : broker_verb_t;
  bm_cap : bytes;
  bm_task_id : bytes;
  bm_reason : bytes;
  bm_token : bytes
}.

(** ** Token generation *)

Definition hex_digit (z : Z) : ascii :=
  nth (Z.to_nat z) #"0123456789abcdef" "0"%char.
Definition hex_byte (b : ascii) : bytes :=
  [hex_digit (Z.land (Z.shiftr (code b) 4) 15); hex_digit (Z.land (code b) 15)].

(** [reads] are the results of the successive [read]s of [/dev/urandom]
    (each at most as long as asked); the loop collects four bytes. *)
Fixpoint urandom_loop (reads : list (errno + bytes)) (r : bytes) : bytes :=
  if (4 <=? blen r) then r
  else match reads with
       | inl EINTR :: reads' => urandom_loop reads' r
       | inl _ :: _ | inr [] :: _ | [] => r
       | inr d :: reads' => urandom_loop reads' (r ++ take (4 - length r) d)
       end.
Definition broker_make_token (opened : bool) (reads : list (errno + bytes)) : option bytes :=
  if opened then
    let r := urandom_loop reads [] in
    if blen r =? 4 then Some (concat (hex_byte <$> r)) else None
  else None.

(** ** The parser *)

Record parse_st := ParseSt {
  ps_verb : option broker_verb_t;
  ps_cap : option bytes;
  ps_task : option bytes;
  ps_reason : option bytes;
  ps_token : option bytes
}.
Definition parse_st0 : parse_st := ParseSt None None None None None.

Definition copy_field (cap : Z) (src : bytes) : option bytes :=
  if (blen src =? 0) || (cap <=? blen src) then None else Some (cstr src).

Definition skip_spaces (v : bytes) : bytes := drop_while (λ c, Ascii.eqb c SP) v.

Definition broker_verb (v : bytes) : option broker_verb_t :=
  if bytes_eqb v #"request" then Some BROKER_VERB_REQUEST
  else if bytes_eqb v #"issued" then Some BROKER_VERB_ISSUED
  else if bytes_eqb v #"denied" then Some BROKER_VERB_DENIED
  else None.

(** One nonempty header line; [None] is [return -1]. *)
Definition broker_line (st : parse_st) (l : bytes) : option parse_st :=
  let '(ParseSt vb cp tk rs to) := st in
  match strip_prefix #"VERB " l with
  | Some v =>
      match vb with Some _ => None | None =>
        vb' ← broker_verb (skip_spaces v); Some (ParseSt (Some vb') cp tk rs to) end
  | None =>
  match strip_prefix #"CAP " l with
  | Some v =>
      match cp with Some _ => None | None =>
        cp' ← copy_field BROKER_CAP_MAX (skip_spaces v);
        Some (ParseSt vb (Some cp') tk rs to) end
  | None =>
  match strip_prefix #"TASK-ID " l with
  | Some v =>
      match tk with Some _ => None | None =>
        tk' ← copy_field MAX_TASK_ID_INLINE (skip_spaces v);
        Some (ParseSt vb cp (Some tk') rs to) end
  | None =>
  match strip_prefix #"REASON " l with
  | Some v =>
      match rs with Some _ => None | None =>
        rs' ← copy_field BROKER_REASON_MAX (skip_spaces v);
        Some (ParseSt vb cp tk (Some rs') to) end
  | None =>
  match strip_prefix #"TOKEN " l with
  | Some v =>
      match to with Some _ => None | None =>
        to' ← copy_field (BROKER_TOKEN_LEN + 1) (skip_spaces v);
        Some (ParseSt vb cp tk rs (Some to')) end
  | None => Some st
  end end end end end.

(** The [while (p < end)] loop; running off the end is "not terminated". *)
Fixpoint broker_loop (fuel : nat) (st : parse_st) (p : bytes) : option parse_st :=
  match fuel with
  | O => None
  | S fuel' =>
      match p with
      | [] => None
      | _ =>
          match split_at NL p with
          | None => None
          | Some ([], _) => Some st
          | Some (line, rest) =>
              match broker_line st line with
              | None => None
              | Some st' => broker_loop fuel' st' rest
              end
          end
      end
  end.

Definition broker_parse (buf : bytes) : option broker_msg_t :=
  match broker_loop (S (length buf)) parse_st0 buf with
  | Some (ParseSt (Some vb) (Some cp) tk rs to) =>
      if bool_decide (vb = BROKER_VERB_ISSUED) && negb (bool_decide (is_Some to)) then None
      else Some (BrokerMsg vb cp (default [] tk) (default [] rs) (default [] to))
  | _ => None
  end.

(** ** The formatters *)

Definition broker_format_issued (cap_sz : Z) (cap token : bytes) : option bytes :=
  snprintf_ok cap_sz (#"VERB issued" ++ nl ++ #"CAP " ++ cap ++ nl ++
                      #"TOKEN " ++ token ++ nl ++ nl).

Definition broker_format_denied (cap_sz : Z) (cap : bytes) (reason : option bytes) : option bytes :=
  snprintf_ok cap_sz (#"VERB denied" ++ nl ++ #"CAP " ++ cap ++ nl ++
                      #"REASON " ++ default #"not-permitted" reason ++ nl ++ nl).

(** ** The policy check *)

Definition pattern_match (pattern name : bytes) : bool :=
  match last pattern with
  | None => false
  | Some c => if Ascii.eqb c "*" then has_prefix (take (length pattern - 1) pattern) name
              else bytes_eqb pattern name
  end.

Fixpoint broker_policy_check (cap_name : bytes) (allow_patterns : list bytes) : bool :=
  match allow_patterns with
  | [] => false
  | p :: ps => if pattern_match p cap_name then true else broker_policy_check cap_name ps
  end.

#[global] Arguments copy_field : simpl never.
#[global] Arguments broker_verb : simpl never.

(** ** Lemmas: the header as a list of lines *)

(** The bytes of a header: its lines, the blank line, and what follows. *)
Definition header_bytes (lines : list bytes) (rest : bytes) : bytes :=
  foldr (λ l s, l ++ NL :: s) (NL :: rest) lines.
Definition header_line (l : bytes) : Prop := l ≠ [] ∧ NL ∉ l.

Fixpoint broker_lines (st : parse_st) (ls : list bytes) : option parse_st :=
  match ls with
  | [] => Some st
  | l :: ls' => st' ← broker_line st l; broker_lines st' ls'
  end.

Lemma header_bytes_length lines rest :
  (length lines < length (header_bytes lines rest))%nat.
Proof.
  induction lines as [|l ls IH]; cbn [header_bytes foldr length]; [lia|].
  rewrite length_app. cbn [length]. unfold header_bytes in IH. lia.
Qed.

Lemma broker_loop_lines fuel st lines rest :
  Forall header_line lines → (length lines < fuel)%nat →
  broker_loop fuel st (header_bytes lines rest) = broker_lines st lines.
Proof.
  intros HF. revert fuel st. induction HF as [|l ls [Hne Hnl] HF IH]; intros [|fuel] st Hf;
    cbn [length] in Hf; try lia; [done|].
  cbn [broker_loop header_bytes foldr]. rewrite split_at_app by done.
  destruct l as [|c l]; [done|]. cbn [app].
  change (broker_lines st ((c :: l) :: ls))
    with (broker_line st (c :: l) ≫= λ st', broker_lines st' ls).
  destruct (broker_line st (c :: l)) as [st'|]; simpl; [|done]. apply IH. lia.
Qed.

(** Conversely, a successful loop has consumed such a header. *)
Lemma broker_loop_Some fuel st p st' :
  broker_loop fuel st p = Some st' →
  ∃ lines rest, p = header_bytes lines rest ∧ Forall header_line lines ∧
                broker_lines st lines = Some st'.
Proof.
  revert st p. induction fuel as [|fuel IH]; intros st p H; [done|].
  cbn [broker_loop] in H. destruct p as [|c p]; [done|].
  destruct (split_at NL (c :: p)) as [[l r]|] eqn:E; [|done].
  apply split_at_Some in E as [Hp Hl]. destruct l as [|d l].
  - simplify_eq. exists [], r. simpl in Hp. simplify_eq. done.
  - destruct (broker_line st (d :: l)) as [st1|] eqn:El; [|done].
    apply IH in H as (ls & r' & -> & HF & Hls). exists ((d :: l) :: ls), r'.
    split; [done|]. split; [by constructor|]. simpl. by rewrite El.
Qed.

(** The values given for a key, in order. *)
Definition values (key : bytes) (lines : list bytes) : list bytes :=
  omap (strip_prefix key) lines.

(** What one field of the state means: no line seen, or exactly one, whose
    value is the field. *)
Definition field_of {A} (f : bytes → option A) (prev : option A) (vs : list bytes)
    (now : option A) : Prop :=
  match prev, vs with
  | _, [] => now = prev
  | None, [v] => now = f (skip_spaces v) ∧ is_Some now
  | _, _ => False
  end.

#[global] Arguments field_of : simpl never.

Lemma field_of_cons {A} (f : bytes → option A) x vs now v :
  field_of f (Some x) vs now → f (skip_spaces v) = Some x → field_of f None (v :: vs) now.
Proof. unfold field_of. destruct vs; [|done]. intros -> ->. by split. Qed.

(** A header line has at most one of the five keys: knowing one, the other
    four do not match. *)
Ltac other_keys H :=
  repeat match type of H with
  | strip_prefix ?k ?l = Some _ =>
      match goal with
      | |- context [strip_prefix ?k' l] =>
          lazymatch k' with k => fail | _ => rewrite (strip_prefix_clash k k' _ _ eq_refl H) end
      end
  end; rewrite ?H.

Lemma broker_lines_fields lines st st' :
  broker_lines st lines = Some st' →
  field_of broker_verb (ps_verb st) (values #"VERB " lines) (ps_verb st') ∧
  field_of (copy_field BROKER_CAP_MAX) (ps_cap st) (values #"CAP " lines) (ps_cap st') ∧
  field_of (copy_field MAX_TASK_ID_INLINE) (ps_task st) (values #"TASK-ID " lines) (ps_task st') ∧
  field_of (copy_field BROKER_REASON_MAX) (ps_reason st) (values #"REASON " lines) (ps_reason st') ∧
  field_of (copy_field (BROKER_TOKEN_LEN + 1)) (ps_token st) (values #"TOKEN " lines) (ps_token st').
Proof.
  revert st. induction lines as [|l ls IH]; intros st H.
  { simpl in H. simplify_eq. destruct st' as [[] [] [] [] []]; done. }
  cbn [broker_lines] in H. destruct (broker_line st l) as [st1|] eqn:El; [|done].
  simpl in H. apply IH in H. clear IH. unfold values in *. cbn [omap list_omap].
  destruct st as [vb cp tk rs to]. unfold broker_line in El.
  repeat match type of El with
  | match strip_prefix ?k ?l with _ => _ end = _ => destruct (strip_prefix k l) as [v|] eqn:?
  end; simplify_eq; try exact H;
  match goal with E : strip_prefix _ l = Some _ |- _ => other_keys E end;
  repeat match type of El with
  | match ?o with _ => _ end = _ => destruct o eqn:?; simplify_eq/=
  | mbind _ ?o = _ => destruct o eqn:?; simplify_eq/=
  end; simpl in H; destruct H as (?&?&?&?&?);
  repeat split; try assumption; by eapply field_of_cons.
Qed.

(** ** Lemmas: values that survive the wire *)

(** A value that can be sent in a field of capacity [cap]. *)
Definition wire_value (cap : Z) (v : bytes) : bool :=
  negb (blen v =? 0) && (blen v <? cap) && negb (first_is SP v) &&
  negb (bool_decide (NL ∈ v)) && negb (bool_decide (NUL ∈ v)).

Lemma skip_spaces_id v : first_is SP v = false → skip_spaces v = v.
Proof. destruct v as [|c v]; [done|]. unfold skip_spaces. simpl. by intros ->. Qed.

Lemma copy_wire cap v : wire_value cap v = true → copy_field cap (skip_spaces v) = Some v.
Proof.
  unfold wire_value. intros H. bool_simpl. rewrite skip_spaces_id by done. unfold copy_field.
  rewrite (proj2 (Z.eqb_neq _ _)), (proj2 (Z.leb_gt _ _)) by lia. simpl. by rewrite cstr_id.
Qed.

Lemma wire_header_line cap key v :
  wire_value cap v = true → key ≠ [] → NL ∉ key → header_line (key ++ v).
Proof.
  unfold wire_value. intros H Hk Hn. bool_simpl. split.
  - by destruct key.
  - set_solver.
Qed.

(** A header line with a given key, as [broker_line] sees it. *)
Lemma broker_line_cap st v cap :
  wire_value BROKER_CAP_MAX v = true → cap = v → ps_cap st = None →
  broker_line st (#"CAP " ++ v) = Some (ParseSt (ps_verb st) (Some cap) (ps_task st) (ps_reason st) (ps_token st)).
Proof.
  intros Hv -> Hc. destruct st as [vb cp tk rs to]. simpl in Hc. subst cp.
  unfold broker_line. rewrite (strip_prefix_clash #"CAP " #"VERB " _ v eq_refl) by apply strip_prefix_app.
  rewrite strip_prefix_app. by rewrite (copy_wire BROKER_CAP_MAX v Hv).
Qed.

Ltac solve_clash k v :=
  repeat match goal with
  | |- context [strip_prefix ?k' (k ++ v)] =>
      lazymatch k' with
      | k => fail
      | _ => rewrite (strip_prefix_clash k k' (k ++ v) v eq_refl (strip_prefix_app k v))
      end
  end; rewrite ?strip_prefix_app.

Lemma broker_line_token st v :
  wire_value (BROKER_TOKEN_LEN + 1) v = true → ps_token st = None →
  broker_line st (#"TOKEN " ++ v) = Some (ParseSt (ps_verb st) (ps_cap st) (ps_task st) (ps_reason st) (Some v)).
Proof.
  intros Hv Hc. destruct st as [vb cp tk rs to]. simpl in Hc. subst to.
  unfold broker_line. solve_clash #"TOKEN " v. by rewrite (copy_wire _ v Hv).
Qed.

Lemma broker_line_reason st v :
  wire_value BROKER_REASON_MAX v = true → ps_reason st = None →
  broker_line st (#"REASON " ++ v) = Some (ParseSt (ps_verb st) (ps_cap st) (ps_task st) (Some v) (ps_token st)).
Proof.
  intros Hv Hc. destruct st as [vb cp tk rs to]. simpl in Hc. subst rs.
  unfold broker_line. solve_clash #"REASON " v. by rewrite (copy_wire _ v Hv).
Qed.

Lemma broker_lines_cons st l ls st1 :
  broker_line st l = Some st1 → broker_lines st (l :: ls) = broker_lines st1 ls.
Proof. cbn [broker_lines]. by intros ->. Qed.

(** Parsing the bytes of a header is folding its lines. *)
Lemma broker_parse_header lines rest st :
  Forall header_line lines → broker_lines parse_st0 lines = Some st →
  broker_loop (S (length (header_bytes lines rest))) parse_st0 (header_bytes lines rest) = Some st.
Proof.
  intros HF Hl. rewrite broker_loop_lines; [done|done|].
  pose proof (header_bytes_length lines rest). lia.
Qed.

Lemma pattern_match_spec p name :
  pattern_match p name = true ↔
  (p ≠ [] ∧ last p ≠ Some "*"%char ∧ p = name) ∨ (∃ q r, p = q ++ #"*" ∧ name = q ++ r).
Proof.
  unfold pattern_match. destruct p as [|c q _] using rev_ind.
  { simpl. split; [done|]. intros [[? _]|(q & r & H & _)]; [done|]. by destruct q. }
  rewrite last_snoc. destruct (Ascii.eqb c "*") eqn:E; bool_simpl.
  - rewrite length_app, Nat.add_sub, take_app_length, has_prefix_spec. split.
    + intros [r ->]. right. by exists q, r.
    + intros [(_ & ? & _)|(q' & r & Hq & ->)]; [done|]. apply app_inj_2 in Hq as [-> _]; [|done].
      by exists r.
  - rewrite bytes_eqb_eq. split.
    + intros <-. left. split; [by destruct q|]. split; [congruence|done].
    + intros [(_ & _ & ->)|(q' & r & Hq & _)]; [done|]. apply app_inj_2 in Hq as [_ Hc]; [|done].
      by injection Hc as ->.
Qed.

(** ** Properties *)

(** What the broker says an agent can parse: an [issued] response for a
    capability and token that fit their fields parses back to exactly them. *)
Theorem broker_issued_round_trip (cap_sz : Z) (cap token out : bytes) :
  wire_value BROKER_CAP_MAX cap = true → wire_value (BROKER_TOKEN_LEN + 1) token = true →
  broker_format_issued cap_sz cap token = Some out →
  broker_parse out = Some (BrokerMsg BROKER_VERB_ISSUED cap [] [] token).
Proof.
  intros Hc Ht Hf. unfold broker_format_issued in Hf. apply snprintf_ok_Some in Hf as [-> _].
  match goal with |- broker_parse ?b = _ =>
    change b with (header_bytes [ #"VERB issued"; #"CAP " ++ cap; #"TOKEN " ++ token] []) end.
  unfold broker_parse. erewrite broker_parse_header.
  3:{ rewrite (broker_lines_cons _ _ _ (ParseSt (Some BROKER_VERB_ISSUED) None None None None))
        by reflexivity.
      erewrite broker_lines_cons by by apply broker_line_cap.
      by erewrite broker_lines_cons by by apply broker_line_token. }
  - done.
  - repeat constructor; try done; try (eapply wire_header_line; [done|done|]); set_solver.
Qed.

Lemma broker_issued_round_trip_witness :
  broker_parse (default [] (broker_format_issued 512 #"mailbox.send:b" #"0badf00d")) =
  Some (BrokerMsg BROKER_VERB_ISSUED #"mailbox.send:b" [] [] #"0badf00d").
Proof.
  apply (broker_issued_round_trip 512 #"mailbox.send:b" #"0badf00d"); vm_compute; reflexivity.
Defined.

(** Likewise a [denied] response, whose reason defaults to
    ["not-permitted"]. *)
Theorem broker_denied_round_trip (cap_sz : Z) (cap out : bytes) (reason : option bytes) :
  wire_value BROKER_CAP_MAX cap = true →
  wire_value BROKER_REASON_MAX (default #"not-permitted" reason) = true →
  broker_format_denied cap_sz cap reason = Some out →
  broker_parse out =
  Some (BrokerMsg BROKER_VERB_DENIED cap [] (default #"not-permitted" reason) []).
Proof.
  intros Hc Hr Hf. unfold broker_format_denied in Hf. apply snprintf_ok_Some in Hf as [-> _].
  set (rs := default _ reason) in *.
  match goal with |- broker_parse ?b = _ =>
    change b with (header_bytes [ #"VERB denied"; #"CAP " ++ cap; #"REASON " ++ rs] []) end.
  unfold broker_parse. erewrite broker_parse_header.
  3:{ rewrite (broker_lines_cons _ _ _ (ParseSt (Some BROKER_VERB_DENIED) None None None None))
        by reflexivity.
      erewrite broker_lines_cons by by apply broker_line_cap.
      by erewrite broker_lines_cons by by apply broker_line_reason. }
  - done.
  - repeat constructor; try done; try (eapply wire_header_line; [done|done|]); set_solver.
Qed.

Lemma broker_denied_round_trip_witness :
  broker_parse (default [] (broker_format_denied 512 #"mailbox.send:b" None)) =
  Some (BrokerMsg BROKER_VERB_DENIED #"mailbox.send:b" [] #"not-permitted" []).
Proof.
  apply (broker_denied_round_trip 512 #"mailbox.send:b" _ None); vm_compute; reflexivity.
Defined.

(** C20: the broker parser is strict: an accepted packet is a header closed by
    a blank line in which [VERB] and [CAP] occur exactly once and [TASK-ID],
    [REASON] and [TOKEN] at most once (duplicates are rejected), an [issued]
    message has its token, and every field is the value of its line, nonempty
    and shorter than its buffer. *)
Theorem broker_parse_strict (buf : bytes) (m : broker_msg_t) :
  broker_parse buf = Some m →
  ∃ lines rest v c, buf = header_bytes lines rest ∧ Forall header_line lines ∧
    values #"VERB " lines = [v] ∧ broker_verb (skip_spaces v) = Some (bm_verb m) ∧
    values #"CAP " lines = [c] ∧ bm_cap m = cstr (skip_spaces c) ∧
    0 < blen (skip_spaces c) < BROKER_CAP_MAX ∧
    blen (values #"TASK-ID " lines) ≤ 1 ∧ blen (values #"REASON " lines) ≤ 1 ∧
    blen (values #"TOKEN " lines) ≤ 1 ∧
    (bm_verb m = BROKER_VERB_ISSUED → blen (values #"TOKEN " lines) = 1) ∧
    blen (bm_task_id m) < MAX_TASK_ID_INLINE ∧ blen (bm_reason m) < BROKER_REASON_MAX ∧
    blen (bm_token m) ≤ BROKER_TOKEN_LEN.
Proof.
  unfold broker_parse. intros H.
  destruct (broker_loop _ _ _) as [[vb cp tk rs to]|] eqn:E; [|done].
  apply broker_loop_Some in E as (lines & rest & -> & HF & Hl).
  apply broker_lines_fields in Hl. simpl in Hl. destruct Hl as (Hv & Hc & Ht & Hr & Hk).
  destruct vb as [vb|]; [|done]. destruct cp as [cp|]; [|done].
  destruct (_ && _) eqn:Ei; [done|]. injection H as <-. simpl.
  assert (∀ cap vs o, 0 < cap → field_of (copy_field cap) None vs o →
            blen vs ≤ 1 ∧ blen (default [] o) < cap ∧ (is_Some o → blen vs = 1)) as Hopt.
  { intros cap [|x [|y vs]] o Hcap Ho; unfold field_of in Ho.
    - subst o. simpl. change (blen []) with 0. split; [done|]. split; [lia|]. by intros [].
    - destruct Ho as [-> [z Hz]]. rewrite Hz. split; [done|]. split; [|done]. simpl.
      unfold copy_field in Hz. destruct (_ || _) eqn:Eb; simplify_eq. bool_simpl.
      pose proof (cstr_length (skip_spaces x)). lia.
    - done. }
  unfold field_of in Hv, Hc.
  destruct (values #"VERB " lines) as [|v [|]] eqn:Ev; [done| |done].
  destruct (values #"CAP " lines) as [|c [|]] eqn:Ec; [done| |done].
  destruct Hv as [Hv _], Hc as [Hc _]. exists lines, rest, v, c.
  apply Hopt in Ht as (?&?&_), Hr as (?&?&_), Hk as (?&?&Hto); [|done..].
  unfold copy_field in Hc. destruct ((_ =? 0) || _) eqn:Eb; [done|]. bool_simpl. simplify_eq.
  unfold BROKER_TOKEN_LEN in *. repeat split; try done; try solve_len.
  intros ->. apply Hto. rewrite bool_decide_eq_true_2 in Ei by done. simpl in Ei. by bool_simpl.
Qed.

Lemma broker_parse_strict_witness :
  ∃ lines rest, #"VERB request
CAP mailbox.send:b
TASK-ID t1

" = header_bytes lines rest ∧ blen (values #"CAP " lines) = 1.
Proof.
  destruct (broker_parse_strict #"VERB request
CAP mailbox.send:b
TASK-ID t1

" (BrokerMsg BROKER_VERB_REQUEST #"mailbox.send:b" #"t1" [] []) ltac:(vm_compute; reflexivity))
    as (lines & rest & v & c & H & _ & _ & _ & Hc & _).
  exists lines, rest. split; [exact H|]. rewrite Hc. reflexivity.
Defined.

(** C19: authority is deny-by-default: a capability is permitted exactly when
    some allow pattern equals it, or is a prefix of it followed by one final
    ['*']; the empty policy permits nothing. *)
Theorem broker_policy_check_spec (cap : bytes) (patterns : list bytes) :
  broker_policy_check cap patterns = true ↔
  ∃ p, p ∈ patterns ∧ ((p ≠ [] ∧ last p ≠ Some "*"%char ∧ p = cap) ∨
                       (∃ q r, p = q ++ #"*" ∧ cap = q ++ r)).
Proof.
  induction patterns as [|p ps IH]; simpl.
  - split; [done|]. intros (p & Hp & _). by apply not_elem_of_nil in Hp.
  - setoid_rewrite elem_of_cons. pose proof (pattern_match_spec p cap) as Hp.
    destruct (pattern_match p cap); [naive_solver|].
    rewrite IH. split; [naive_solver|]. intros (p' & [->|Hin] & Hm); [|eauto].
    exfalso. assert (false = true) by (by apply Hp). done.
Qed.

(** A token is 8 lower-case hexadecimal digits, and there is none unless all
    four random bytes were read. *)
Lemma urandom_loop_length reads r : blen r ≤ 4 → blen (urandom_loop reads r) ≤ 4.
Proof.
  revert r. induction reads as [|x reads IH]; intros r Hr; cbn [urandom_loop].
  - by destruct (4 <=? _).
  - destruct (4 <=? blen r) eqn:E; [done|]. destruct x as [e|d].
    + destruct e; auto.
    + destruct d as [|c d]; [done|]. apply IH. rewrite blen_app. unfold blen in *.
      rewrite length_take. bool_simpl. lia.
Qed.

Lemma hex_byte_wire b : blen (hex_byte b) = 2 ∧ Forall (λ c, name_char c = true) (hex_byte b).
Proof.
  split; [done|]. assert (∀ z, 0 ≤ z < 16 → name_char (hex_digit z) = true) as H.
  { intros z Hz. unfold hex_digit.
    assert (Forall (λ c, name_char c = true) #"0123456789abcdef") as HF by (repeat constructor).
    rewrite Forall_forall in HF. apply HF. apply list_elem_of_In, nth_In.
    change (length _) with 16%nat. lia. }
  assert (∀ z, 0 ≤ z → 0 ≤ Z.land z 15 < 16) as HL.
  { intros z Hz. change 15 with (Z.ones 4). rewrite Z.land_ones by lia.
    apply Z.mod_pos_bound. lia. }
  pose proof (code_range b).
  unfold hex_byte. rewrite !Forall_cons. split_and!; [apply H, HL.. | done].
  - apply Z.shiftr_nonneg. lia.
  - lia.
Qed.

(** A token is minted only from four bytes of entropy, whatever [read]
    returns on the way, and it always fits the token field of a response. *)
Theorem broker_make_token_spec opened reads tok :
  broker_make_token opened reads = Some tok →
  opened = true ∧ blen tok = BROKER_TOKEN_LEN ∧ wire_value (BROKER_TOKEN_LEN + 1) tok = true.
Proof.
  unfold broker_make_token. destruct opened; [|done].
  destruct (blen (urandom_loop reads []) =? 4) eqn:E; [|done]. bool_simpl. intros [= <-].
  destruct (urandom_loop reads []) as [|a [|b [|c [|d [|]]]]]; try (unfold blen in E; simpl in E; lia).
  assert (∀ x, blen (hex_byte x) = 2) as H2 by (intros x; apply hex_byte_wire).
  assert (Forall (λ c, name_char c = true) (concat (hex_byte <$> [a; b; c; d]))) as HF.
  { change (Forall (λ c, name_char c = true) (hex_byte a ++ hex_byte b ++ hex_byte c ++ hex_byte d ++ [])).
    repeat (apply Forall_app; split; [apply hex_byte_wire|]). done. }
  assert (blen (concat (hex_byte <$> [a; b; c; d])) = 8) as Hl.
  { reflexivity. }
  split; [done|]. split; [done|]. set (t := concat _) in *. clearbody t.
  rewrite Forall_forall in HF. unfold wire_value. rewrite Hl.
  assert (∀ x, name_char x = false → x ∉ t) as Hn by (intros x Hx Hin; apply HF in Hin; congruence).
  rewrite !bool_decide_eq_false_2 by by apply Hn. destruct t as [|x t]; [done|].
  simpl. destruct (Ascii.eqb x SP) eqn:Ex; [|done]. bool_simpl.
  exfalso. apply (Hn SP); [done|by left].
Qed.

Lemma broker_make_token_spec_witness :
  blen (default [] (broker_make_token true [inl EINTR; inr #"ab"; inr #"cdef"])) = 8.
Proof.
  apply (broker_make_token_spec true [inl EINTR; inr #"ab"; inr #"cdef"] #"61626364").
  vm_compute. reflexivity.
Defined.
