(* ===== verification/Ipc.v ===== *)
(** * ipc.c: framed messages over packet sockets

    Header construction, the in-place parser, the bounded-retry send, receive
    with descriptor passing, and the supervised-mode connect and accept.  The
    code is the Linux build (SOCK_SEQPACKET); [wire_len] is the macro
    [IPC_WIRE_LEN], false there.  [IPC_ERR] with [errno] is [throw]; the other
    two failure codes are values.

    [read_message] and [send_framed_message_ex] of common.c, which wrap these
    functions, are at the end. *)

From S2P Require Import Prelude CLib Posix Names Common Broker.

Definition IPC_MSG_DEFAULT_CAP : Z := 65536.
Definition IPC_MSG_HARD_CAP : Z := 1048576.
Definition IPC_HEADER_HEADROOM : Z := 4096.
Definition IPC_BUF_CAP : Z := IPC_MSG_HARD_CAP + IPC_HEADER_HEADROOM.
Definition IPC_MAX_FDS : Z := 8.
Definition IPC_SEND_RETRIES : nat := 3.
Definition BROKER_FD_SLOT : Z := 3.
Definition INBOX_FD_SLOT : Z := 4.
Definition BROKER_LOCK_FD_SLOT : Z := 5.
Definition MAX_VERB : Z := 64.
Definition SUN_PATH_MAX : Z := 108.

Record peer_id_t := PeerId { pi_pid : Z; pi_uid : Z; pi_gid : Z; pi_name : bytes }.
Definition peer0 : peer_id_t := PeerId 0 0 0 [].

Record ipc_msg_t := IpcMsg {
  im_verb : bytes;
  im_reply_to : bytes;
  im_task_id : bytes;
  im_payload : bytes;
  im_fds : list Z
}.

Inductive ipc_res (A : Type) := IPC_OK (a : A) | IPC_PEER_GONE | IPC_PROTO_VIOLATION.
Arguments IPC_OK {A}. Arguments IPC_PEER_GONE {A}. Arguments IPC_PROTO_VIOLATION {A}.

(** ** Header building *)

Definition opt_header (key v : bytes) : bytes :=
  match v with [] => [] | _ => key ++ v ++ nl end.

Definition build_header (wire_len : bool) (msg : ipc_msg_t) (cap : Z) : errno + bytes :=
  match im_verb msg with
  | [] => inl EINVAL
  | verb =>
      let text := #"VERB " ++ verb ++ nl ++
                  (if wire_len then #"LEN " ++ fmt_d (blen (im_payload msg)) ++ nl else []) ++
                  opt_header #"REPLY-TO " (im_reply_to msg) ++
                  opt_header #"TASK-ID " (im_task_id msg) in
      if blen text + 1 <? cap then inr (text ++ nl) else inl EOVERFLOW
  end.

(** ** The in-place parser *)

(** The first position of ["\n\n"]: what precedes it and what follows it. *)
Fixpoint find_sep (buf : bytes) : option (bytes * bytes) :=
  match buf with
  | c :: ((d :: rest) as tl) =>
      if Ascii.eqb c NL && Ascii.eqb d NL then Some ([], rest)
      else match find_sep tl with
           | Some (h, p) => Some (c :: h, p)
           | None => None
           end
  | _ => None
  end.

(** Parser state: a field is [Some] once its [seen] bit is set. *)
Record ipc_st := IpcSt {
  is_verb : option bytes;
  is_len : option Z;
  is_reply : option bytes;
  is_task : option bytes
}.
Definition ipc_st0 : ipc_st := IpcSt None None None None.

(** The value of a header line is the C string after its spaces. *)
Definition verb_value (v : bytes) : option bytes :=
  match cstr v with [] => None | x => Some x end.
Definition len_value (v : bytes) : option Z :=
  let r := strtol (cstr v) in
  if st_erange r || negb (st_conv r) || negb (bytes_eqb (st_end r) []) ||
     (st_val r <? 0) || (IPC_MSG_HARD_CAP <? st_val r)
  then None else Some (st_val r).
Definition text_value (v : bytes) : option bytes := Some (cstr v).

Definition ipc_line (st : option ipc_st) (l : bytes) : option ipc_st :=
  match st with
  | None => None
  | Some (IpcSt vb ln rp tk) =>
      match strip_prefix #"VERB " l with
      | Some v =>
          match vb with Some _ => None | None =>
            x ← verb_value (skip_spaces v); Some (IpcSt (Some x) ln rp tk) end
      | None =>
      match strip_prefix #"LEN " l with
      | Some v =>
          match ln with Some _ => None | None =>
            n ← len_value (skip_spaces v); Some (IpcSt vb (Some n) rp tk) end
      | None =>
      match strip_prefix #"REPLY-TO " l with
      | Some v =>
          match rp with Some _ => None | None =>
            x ← text_value (skip_spaces v); Some (IpcSt vb ln (Some x) tk) end
      | None =>
      match strip_prefix #"TASK-ID " l with
      | Some v =>
          match tk with Some _ => None | None =>
            x ← text_value (skip_spaces v); Some (IpcSt vb ln rp (Some x)) end
      | None => st
      end end end end
  end.

(** [fds] are the descriptors the caller has already collected. *)
Definition parse_inplace (buf : bytes) (fds : list Z) : option ipc_msg_t :=
  match find_sep buf with
  | None => None
  | Some (hdr, payload) =>
      match line_loop ipc_line (S (length hdr)) (Some ipc_st0) hdr with
      | Some (IpcSt (Some verb) ln rp tk) =>
          match ln with
          | Some n =>
              if blen payload <? n then None
              else Some (IpcMsg verb (default [] rp) (default [] tk)
                                (take (Z.to_nat n) payload) fds)
          | None => Some (IpcMsg verb (default [] rp) (default [] tk) payload fds)
          end
      | _ => None
      end
  end.

(** ** Sending *)

(** The [for (attempt = 0; attempt <= IPC_SEND_RETRIES; attempt++)] loop;
    [left] is [IPC_SEND_RETRIES - attempt]. *)
Fixpoint send_attempts (left : nat) (fd : Z) (data : bytes) (fds : list Z) : M (ipc_res unit) :=
  r ← attempt (retry_eintr (sys_sendmsg fd data fds));
  match r with
  | inr _ => mret (IPC_OK tt)
  | inl EPIPE | inl ECONNRESET => mret IPC_PEER_GONE
  | inl EAGAIN => match left with O => throw EAGAIN | S l => send_attempts l fd data fds end
  | inl ENOBUFS => match left with O => throw ENOBUFS | S l => send_attempts l fd data fds end
  | inl e => throw e
  end.

Definition ipc_send (fd : Z) (msg : ipc_msg_t) : M (ipc_res unit) :=
  match build_header false msg IPC_HEADER_HEADROOM with
  | inl e => throw e
  | inr hdr =>
      guard_ EMSGSIZE (blen (im_payload msg) <=? IPC_MSG_HARD_CAP) ;;
      guard_ EINVAL (blen (im_fds msg) <=? IPC_MAX_FDS) ;;
      send_attempts IPC_SEND_RETRIES fd (hdr ++ im_payload msg) (im_fds msg)
  end.

(** ** Receiving *)

Definition ipc_recv (fd : Z) (bufcap : Z) : M (ipc_res ipc_msg_t) :=
  guard_ EINVAL (IPC_MSG_DEFAULT_CAP <=? bufcap) ;;
  r ← retry_eintr (sys_recvmsg fd (Z.to_nat bufcap) (Z.to_nat IPC_MAX_FDS));
  match rc_data r with
  | [] => mret IPC_PEER_GONE
  | data =>
      if rc_trunc r || rc_ctrunc r then mret IPC_PROTO_VIOLATION
      else match parse_inplace data (rc_fds r) with
           | None => mret IPC_PROTO_VIOLATION
           | Some msg => mret (IPC_OK msg)
           end
  end.

(** ** Accepting a delivered capability (supervised mode) *)

(** The conversions of [sscanf(meta, "SENDER %63s\nPID %ld\nUID %ld", ...)]. *)
Definition scan_word (n : nat) (s : bytes) : option (bytes * bytes) :=
  let s1 := drop_while isspace s in
  match take n (take_while (λ c, negb (isspace c)) s1) with
  | [] => None
  | w => Some (w, drop (length w) s1)
  end.
Definition scan_lit (lit s : bytes) : option bytes := strip_prefix lit s.
Definition scan_ws (s : bytes) : bytes := drop_while isspace s.
Definition scan_long (s : bytes) : option (Z * bytes) :=
  let r := strtol s in if st_conv r then Some (st_val r, st_end r) else None.

(** Assignments stop at the first mismatch; [pid_t] is [int], [uid_t] is
    [unsigned]. *)
Definition parse_meta (meta : bytes) : peer_id_t :=
  match scan_lit #"SENDER" meta ≫= λ s, scan_word 63 (scan_ws s) with
  | None => peer0
  | Some (sender, s) =>
      match scan_lit #"PID" (scan_ws s) ≫= λ s, scan_long (scan_ws s) with
      | None => PeerId 0 0 0 sender
      | Some (pid, s) =>
          match scan_lit #"UID" (scan_ws s) ≫= λ s, scan_long (scan_ws s) with
          | None => PeerId (to_int32 pid) 0 0 sender
          | Some (uid, _) => PeerId (to_int32 pid) (uid mod 4294967296) 0 sender
          end
      end
  end.

(** [inr None]: end of file on the delivery channel, which sets
    [shutdown_flag]. *)
Definition ipc_accept_inbox : M (option (Z * peer_id_t)) :=
  r ← retry_eintr (sys_recvmsg INBOX_FD_SLOT 255 (cmsg_room 1));
  match rc_data r with
  | [] => mret None
  | meta =>
      if rc_trunc r || rc_ctrunc r then throw EPROTO
      else match rc_fds r with
           | [] => throw EPROTO
           | issued :: _ =>
               ignore sys_plain ;;
               mret (Some (issued, parse_meta (cstr meta)))
           end
  end.

(** ** Connecting (supervised mode: through the broker on fd 3) *)

Definition broker_exchange_lock : M unit :=
  marker ← sys_getenv #"AGENTCTL_BROKER_LOCK_FD";
  fds ← gets w_fds;
  guard_ EPROTO (bool_decide (marker = Some #"5") &&
                 bool_decide (is_Some (fds !! BROKER_LOCK_FD_SLOT))) ;;
  retry_eintr sys_plain.

Definition broker_request (target : bytes) : bytes :=
  #"VERB request" ++ nl ++ #"CAP mailbox.send:" ++ target ++ nl ++
  #"REASON libagentctl" ++ nl ++ nl.

Section ipc.
Context (root : bytes).
(** [socket] + [connect] to a pathname, the direct-mode transport. *)
Context (sys_connect : bytes → M Z).

Definition sock_path_for (agent : bytes) : M bytes := agent_path root agent #"agent.sock".

Definition ipc_connect (target : bytes) : M (ipc_res Z) :=
  fds ← gets w_fds;
  match fds !! BROKER_FD_SLOT with
  | Some (FdSock _) =>
      guard_ EINVAL (validate_name target) ;;
      broker_exchange_lock ;;
      r ← attempt (sys_sendmsg BROKER_FD_SLOT (broker_request target) []);
      match r with
      | inl e => ignore sys_plain ;; throw e
      | inr _ =>
          r ← attempt (retry_eintr (sys_recvmsg BROKER_FD_SLOT 512 (cmsg_room 1)));
          ignore sys_plain ;;
          match r with
          | inl e => throw e
          | inr r =>
              match rc_data r, rc_fds r with
              | [], _ => throw EIO
              | _, [] => throw EACCES
              | _, issued :: _ => mret (IPC_OK issued)
              end
          end
      end
  | _ =>
      path ← sock_path_for target;
      guard_ ENAMETOOLONG (blen path <? SUN_PATH_MAX) ;;
      r ← attempt (sys_connect path);
      match r with
      | inr fd => mret (IPC_OK fd)
      | inl ENOENT | inl ECONNREFUSED => mret IPC_PEER_GONE
      | inl e => throw e
      end
  end.

Definition ipc_send_oneshot (target verb reply_to task_id payload : bytes) : M (ipc_res unit) :=
  guard_ EMSGSIZE (blen payload <=? IPC_MSG_HARD_CAP) ;;
  r ← ipc_connect target;
  match r with
  | IPC_PEER_GONE => mret IPC_PEER_GONE
  | IPC_PROTO_VIOLATION => throw EPROTO
  | IPC_OK fd =>
      rc ← attempt (ipc_send fd (IpcMsg verb reply_to task_id payload []));
      ignore (sys_close fd) ;;
      match rc with inl e => throw e | inr rc => mret rc end
  end.

Definition ipc_close_listener (server_fd : Z) (agent : option bytes) : M unit :=
  (if 0 <=? server_fd then ignore (sys_close server_fd) else mret tt) ;;
  match agent with
  | Some name =>
      if server_fd =? INBOX_FD_SLOT then mret tt
      else
        p ← attempt (sock_path_for name);
        match p with inr path => ignore (sys_unlink path) | inl _ => mret tt end
  | None => mret tt
  end.
End ipc.

(** ** The wrappers of common.c *)

Record agent_msg_hdr := AgentMsgHdr {
  ah_verb : bytes;
  ah_reply_to : bytes;
  ah_task_id : bytes;
  ah_payload_len : Z
}.

Definition read_message (fd : Z) : M (agent_msg_hdr * bytes) :=
  r ← ipc_recv fd IPC_BUF_CAP;
  match r with
  | IPC_PROTO_VIOLATION => throw EPROTO
  | IPC_PEER_GONE => throw ECONNRESET
  | IPC_OK msg =>
      mret (AgentMsgHdr (snprintf_trunc 64 (im_verb msg)) (snprintf_trunc 64 (im_reply_to msg))
                        (snprintf_trunc 32 (im_task_id msg)) (blen (im_payload msg)),
            im_payload msg)
  end.

Definition send_framed_message_ex (fd : Z) (verb reply_to task_id payload : bytes) : M unit :=
  guard_ EMSGSIZE (blen payload <=? MAX_PAYLOAD) ;;
  guard_ EINVAL (negb (bytes_eqb verb []) && (blen verb <? MAX_VERB)) ;;
  r ← ipc_send fd (IpcMsg verb reply_to task_id payload []);
  match r with IPC_OK _ => mret tt | _ => throw EPIPE end.

Definition send_framed_message (fd : Z) (verb payload : bytes) : M unit :=
  send_framed_message_ex fd verb [] [] payload.

#[global] Arguments verb_value : simpl never.
#[global] Arguments len_value : simpl never.
#[global] Arguments text_value : simpl never.
#[global] Arguments find_sep : simpl never.

(** ** Lemmas: the separator *)

Lemma find_sep_cons c d t :
  find_sep (c :: d :: t) =
  if Ascii.eqb c NL && Ascii.eqb d NL then Some ([], t)
  else match find_sep (d :: t) with Some (h, p) => Some (c :: h, p) | None => None end.
Proof. reflexivity. Qed.

Lemma find_sep_end l r : NL ∉ l → find_sep (l ++ NL :: NL :: r) = Some (l, r).
Proof.
  induction l as [|c l IH]; intros Hl; [reflexivity|].
  rewrite not_elem_of_cons in Hl. destruct Hl as [Hc Hl]. specialize (IH Hl).
  cbn [app]. destruct (l ++ NL :: NL :: r) as [|d t] eqn:E; [by destruct l|].
  rewrite find_sep_cons, (proj2 (Ascii.eqb_neq c NL)) by congruence. simpl. by rewrite IH.
Qed.

Lemma find_sep_line l d r h p :
  NL ∉ l → d ≠ NL → find_sep (d :: r) = Some (h, p) →
  find_sep (l ++ NL :: d :: r) = Some (l ++ NL :: h, p).
Proof.
  intros Hl Hd Hf. induction l as [|c l IH].
  - cbn [app]. rewrite find_sep_cons, (proj2 (Ascii.eqb_neq d NL)), andb_false_r by done.
    by rewrite Hf.
  - rewrite not_elem_of_cons in Hl. destruct Hl as [Hc Hl]. specialize (IH Hl). cbn [app].
    destruct (l ++ NL :: d :: r) as [|x t] eqn:E; [by destruct l|].
    rewrite find_sep_cons, (proj2 (Ascii.eqb_neq c NL)) by congruence. simpl. by rewrite IH.
Qed.

(** A header made of nonempty lines is split off exactly, and the loop over
    it visits these lines. *)
Lemma find_sep_header lines rest :
  Forall header_line lines → lines ≠ [] →
  ∃ h, find_sep (header_bytes lines rest) = Some (h, rest) ∧ text_lines h = lines.
Proof.
  induction 1 as [|l ls [Hne Hnl] HF IH]; [done|]. intros _.
  destruct ls as [|l' ls].
  - exists l. split; [by apply find_sep_end|]. by apply text_lines_last.
  - destruct IH as (h & Hh & Ht); [done|]. cbn [header_bytes foldr] in Hh |- *.
    inversion HF as [|?? [Hne' Hnl'] _]; subst. destruct l' as [|d l']; [done|]. cbn [app] in *.
    exists (l ++ NL :: h). split.
    + apply find_sep_line; [done| |exact Hh]. intros ->. apply Hnl'. by left.
    + by rewrite text_lines_cons, Ht.
Qed.

Lemma ipc_loop_lines st h :
  line_loop ipc_line (S (length h)) st h = foldl ipc_line st (text_lines h).
Proof. apply line_loop_spec. lia. Qed.

Lemma foldl_ipc_None ls : foldl ipc_line None ls = None.
Proof. by induction ls. Qed.

(** What the accepted lines say of each field. *)
Lemma ipc_lines_fields lines st st' :
  foldl ipc_line (Some st) lines = Some st' →
  field_of verb_value (is_verb st) (values #"VERB " lines) (is_verb st') ∧
  field_of len_value (is_len st) (values #"LEN " lines) (is_len st') ∧
  field_of text_value (is_reply st) (values #"REPLY-TO " lines) (is_reply st') ∧
  field_of text_value (is_task st) (values #"TASK-ID " lines) (is_task st').
Proof.
  revert st. induction lines as [|l ls IH]; intros st H.
  { simpl in H. simplify_eq. destruct st' as [[] [] [] []]; done. }
  cbn [foldl] in H. destruct (ipc_line (Some st) l) as [st1|] eqn:El;
    [|by rewrite foldl_ipc_None in H].
  apply IH in H. clear IH. unfold values in *. cbn [omap list_omap].
  destruct st as [vb ln rp tk]. unfold ipc_line in El.
  repeat match type of El with
  | match strip_prefix ?k ?l with _ => _ end = _ => destruct (strip_prefix k l) as [v|] eqn:?
  end; simplify_eq; try exact H;
  match goal with E : strip_prefix _ l = Some _ |- _ => other_keys E end;
  repeat match type of El with
  | match ?o with _ => _ end = _ => destruct o eqn:?; simplify_eq/=
  | mbind _ ?o = _ => destruct o eqn:?; simplify_eq/=
  end; simpl in H; destruct H as (?&?&?&?);
  repeat split; try assumption; by eapply field_of_cons.
Qed.

(** ** Lemmas: round trip of the frame *)

Definition text_ok (v : bytes) : bool :=
  negb (first_is SP v) && negb (bool_decide (NL ∈ v)) && negb (bool_decide (NUL ∈ v)).

Lemma text_ok_inv v : text_ok v = true → skip_spaces v = v ∧ cstr v = v ∧ NL ∉ v.
Proof.
  unfold text_ok. intros H. bool_simpl. split; [by apply skip_spaces_id|].
  split; [by apply cstr_id|done].
Qed.

(** The lines [build_header] writes. *)
Definition opt_line (key v : bytes) : list bytes := match v with [] => [] | _ => [key ++ v] end.
Definition header_lines (wire_len : bool) (msg : ipc_msg_t) : list bytes :=
  [ #"VERB " ++ im_verb msg] ++
  (if wire_len then [ #"LEN " ++ fmt_d (blen (im_payload msg))] else []) ++
  opt_line #"REPLY-TO " (im_reply_to msg) ++ opt_line #"TASK-ID " (im_task_id msg).

Lemma header_bytes_app ls1 ls2 rest :
  header_bytes (ls1 ++ ls2) rest = foldr (λ l s, l ++ NL :: s) (header_bytes ls2 rest) ls1.
Proof. unfold header_bytes. by rewrite foldr_app. Qed.

Lemma build_header_bytes wl msg cap hdr payload :
  build_header wl msg cap = inr hdr →
  im_verb msg ≠ [] ∧ blen hdr < cap ∧ hdr ++ payload = header_bytes (header_lines wl msg) payload.
Proof.
  unfold build_header, header_lines. destruct (im_verb msg) as [|c v] eqn:Ev; [done|].
  set (text := #"VERB " ++ _). destruct (blen text + 1 <? cap) eqn:E; [|done]. intros H. bool_simpl.
  assert (hdr = text ++ nl) as -> by congruence.
  split; [done|]. split; [rewrite blen_app; change (blen nl) with 1; lia|].
  subst text. unfold opt_header, opt_line, header_bytes, nl.
  destruct wl, (im_reply_to msg), (im_task_id msg); simpl; rewrite ?app_nil_r;
    repeat (rewrite <-app_assoc; cbn [app]); rewrite ?app_nil_l; done.
Qed.

(** One header line of a known key, on a state where it was not seen. *)
Lemma ipc_line_verb st v x :
  is_verb st = None → verb_value (skip_spaces v) = Some x →
  ipc_line (Some st) (#"VERB " ++ v) = Some (IpcSt (Some x) (is_len st) (is_reply st) (is_task st)).
Proof.
  destruct st. cbn [is_verb is_len is_reply is_task]. intros -> Hx. unfold ipc_line. rewrite strip_prefix_app. by rewrite Hx.
Qed.
Lemma ipc_line_len st v n :
  is_len st = None → len_value (skip_spaces v) = Some n →
  ipc_line (Some st) (#"LEN " ++ v) = Some (IpcSt (is_verb st) (Some n) (is_reply st) (is_task st)).
Proof.
  destruct st. cbn [is_verb is_len is_reply is_task]. intros -> Hx. unfold ipc_line. solve_clash #"LEN " v. by rewrite Hx.
Qed.
Lemma ipc_lines_opt_reply st v :
  is_reply st = None → text_ok v = true →
  ∃ rp, foldl ipc_line (Some st) (opt_line #"REPLY-TO " v) =
        Some (IpcSt (is_verb st) (is_len st) rp (is_task st)) ∧ default [] rp = v.
Proof.
  intros Hn Hv. destruct v as [|c v]; [exists None; by destruct st; simpl in *; subst|].
  exists (Some (c :: v)). split; [|done]. cbn [opt_line foldl]. set (x := c :: v) in *.
  destruct st. simpl in Hn. subst. unfold ipc_line. solve_clash #"REPLY-TO " x.
  destruct (text_ok_inv x Hv) as (-> & Hc & _). unfold text_value. by rewrite Hc.
Qed.
Lemma ipc_lines_opt_task st v :
  is_task st = None → text_ok v = true →
  ∃ tk, foldl ipc_line (Some st) (opt_line #"TASK-ID " v) =
        Some (IpcSt (is_verb st) (is_len st) (is_reply st) tk) ∧ default [] tk = v.
Proof.
  intros Hn Hv. destruct v as [|c v]; [exists None; by destruct st; simpl in *; subst|].
  exists (Some (c :: v)). split; [|done]. cbn [opt_line foldl]. set (x := c :: v) in *.
  destruct st. simpl in Hn. subst. unfold ipc_line. solve_clash #"TASK-ID " x.
  destruct (text_ok_inv x Hv) as (-> & Hc & _). unfold text_value. by rewrite Hc.
Qed.

Lemma len_value_fmt n : 0 ≤ n ≤ IPC_MSG_HARD_CAP → len_value (skip_spaces (fmt_d n)) = Some n.
Proof.
  unfold IPC_MSG_HARD_CAP. intros Hn. unfold fmt_d. rewrite (proj2 (Z.ltb_ge n 0)) by lia.
  assert (skip_spaces (dec n) = dec n) as ->.
  { apply skip_spaces_id. destruct (dec n) as [|c d] eqn:E; [done|]. simpl.
    pose proof (dec_digits n ltac:(lia)) as HF. rewrite E in HF. inversion HF; subst.
    apply Ascii.eqb_neq. by eapply class_ne. }
  unfold len_value. rewrite cstr_id by (apply dec_not_elem; [lia|done]).
  rewrite <-(app_nil_r (dec n)), strtol_dec by (unfold LONG_MAX; done || lia). simpl.
  rewrite (proj2 (Z.ltb_ge n 0)), (proj2 (Z.ltb_ge IPC_MSG_HARD_CAP n)) by (unfold IPC_MSG_HARD_CAP; lia).
  done.
Qed.

Definition msg_ok (msg : ipc_msg_t) : bool :=
  text_ok (im_verb msg) && text_ok (im_reply_to msg) && text_ok (im_task_id msg).

Lemma header_lines_ok wl msg :
  im_verb msg ≠ [] → msg_ok msg = true → Forall header_line (header_lines wl msg).
Proof.
  intros Hv H. unfold msg_ok in H. bool_simpl.
  assert (∀ key v, key ≠ [] → NL ∉ key → NL ∉ v → header_line (key ++ v)) as HH.
  { intros key v Hk Hn Hx. split; [by destruct key|set_solver]. }
  assert (∀ key v, key ≠ [] → NL ∉ key → text_ok v = true → Forall header_line (opt_line key v)) as HO.
  { intros key v Hk Hn Hx. destruct (text_ok_inv v Hx) as (_&_&?). destruct v; [done|].
    constructor; [by apply HH|done]. }
  unfold header_lines. rewrite !Forall_app. split_and!.
  - constructor; [|done]. apply HH; [done|set_solver|]. by apply text_ok_inv.
  - destruct wl; [|done]. constructor; [|done]. apply HH; [done|set_solver|].
    unfold fmt_d. pose proof (blen_nonneg (im_payload msg)).
    rewrite (proj2 (Z.ltb_ge _ 0)) by lia. by apply dec_not_elem.
  - apply HO; [done|set_solver|done].
  - apply HO; [done|set_solver|done].
Qed.

Lemma parse_built wl msg cap hdr fds :
  build_header wl msg cap = inr hdr → msg_ok msg = true →
  blen (im_payload msg) ≤ IPC_MSG_HARD_CAP →
  parse_inplace (hdr ++ im_payload msg) fds =
  Some (IpcMsg (im_verb msg) (im_reply_to msg) (im_task_id msg) (im_payload msg) fds).
Proof.
  intros Hb Hok Hp. eapply build_header_bytes in Hb as (Hv & _ & ->).
  destruct (find_sep_header (header_lines wl msg) (im_payload msg)) as (h & Hs & Ht);
    [by apply header_lines_ok|done|].
  unfold parse_inplace. rewrite Hs, ipc_loop_lines, Ht. unfold header_lines.
  unfold msg_ok in Hok. bool_simpl. cbn [app foldl]. rewrite !foldl_app.
  assert (text_ok (im_verb msg) = true) as Hvok by done.
  destruct (text_ok_inv _ Hvok) as (Hsk & Hcs & _).
  rewrite (ipc_line_verb _ _ (im_verb msg)); [|done|unfold verb_value; rewrite Hsk, Hcs; by destruct (im_verb msg)].
  set (st1 := IpcSt _ _ _ _).
  assert (∃ ln, foldl ipc_line (Some st1) (if wl then [ #"LEN " ++ fmt_d (blen (im_payload msg))] else [])
                = Some (IpcSt (Some (im_verb msg)) ln None None) ∧
                (ln = None ∨ ln = Some (blen (im_payload msg)))) as (ln & -> & Hln).
  { destruct wl; [|exists None; by auto].
    exists (Some (blen (im_payload msg))). split; [|by right]. cbn [foldl].
    erewrite ipc_line_len; [|done|apply len_value_fmt; pose proof (blen_nonneg (im_payload msg)); lia].
    done. }
  destruct (ipc_lines_opt_reply (IpcSt (Some (im_verb msg)) ln None None) (im_reply_to msg))
    as (rp & -> & Hrp); [done..|]. cbn [is_verb is_len is_reply is_task].
  destruct (ipc_lines_opt_task (IpcSt (Some (im_verb msg)) ln rp None) (im_task_id msg))
    as (tk & -> & Htk); [done..|]. cbn [is_verb is_len is_reply is_task].
  rewrite Hrp, Htk. destruct Hln as [->| ->]; [done|].
  rewrite Z.ltb_irrefl. unfold blen. by rewrite Nat2Z.id, firstn_all.
Qed.

(** ** Properties: the frame *)

(** Frames round-trip on both builds: a message whose text fields carry no
    newline, NUL or leading space, and whose header fits, is recovered exactly
    by the parser from header and payload, with or without the [LEN] header;
    payload bytes are arbitrary. *)
Theorem ipc_frame_round_trip (wire_len : bool) (msg : ipc_msg_t) (cap : Z) (hdr : bytes) :
  build_header wire_len msg cap = inr hdr → msg_ok msg = true →
  blen (im_payload msg) ≤ IPC_MSG_HARD_CAP →
  parse_inplace (hdr ++ im_payload msg) (im_fds msg) = Some msg.
Proof. intros. erewrite parse_built by done. by destruct msg. Qed.

Definition demo_msg : ipc_msg_t :=
  IpcMsg #"ask" #"b" #"t-1" #"two

lines" [].

Lemma ipc_frame_round_trip_witness :
  ∃ hdr, build_header true demo_msg 4096 = inr hdr ∧
         parse_inplace (hdr ++ im_payload demo_msg) [] = Some demo_msg.
Proof.
  eexists. split; [vm_compute; reflexivity|].
  apply (ipc_frame_round_trip true demo_msg 4096); vm_compute; reflexivity || done.
Defined.

(** The frame parser rejects duplicate [VERB], [LEN], [REPLY-TO] and
    [TASK-ID] headers and never reads past the packet: an accepted packet has
    exactly one [VERB]; an explicit [LEN n] satisfies [n <= available] and
    selects the first [n] payload bytes, otherwise the payload is everything
    after the blank line. *)
Theorem ipc_parse_strict (buf : bytes) (fds : list Z) (m : ipc_msg_t) :
  parse_inplace buf fds = Some m →
  ∃ hdr payload lines v, find_sep buf = Some (hdr, payload) ∧ lines = text_lines hdr ∧
    values #"VERB " lines = [v] ∧ im_verb m = cstr (skip_spaces v) ∧ im_verb m ≠ [] ∧
    blen (values #"LEN " lines) ≤ 1 ∧ blen (values #"REPLY-TO " lines) ≤ 1 ∧
    blen (values #"TASK-ID " lines) ≤ 1 ∧ im_fds m = fds ∧
    match values #"LEN " lines with
    | [] => im_payload m = payload
    | l :: _ => ∃ n, len_value (skip_spaces l) = Some n ∧ 0 ≤ n ≤ blen payload ∧
                     n ≤ IPC_MSG_HARD_CAP ∧ im_payload m = take (Z.to_nat n) payload
    end.
Proof.
  unfold parse_inplace. intros H. destruct (find_sep buf) as [[hdr payload]|] eqn:Es; [|done].
  rewrite ipc_loop_lines in H.
  destruct (foldl _ _ _) as [[[vb|] ln rp tk]|] eqn:E; [|done|done].
  apply ipc_lines_fields in E. simpl in E. destruct E as (Hv & Hl & Hr & Ht).
  assert (∀ A (f : bytes → option A) vs o, field_of f None vs o → blen vs ≤ 1) as H1.
  { intros A f [|x [|y vs]] o Ho; [done|done|]. by unfold field_of in Ho. }
  exists hdr, payload, (text_lines hdr). unfold field_of in Hv.
  destruct (values #"VERB " (text_lines hdr)) as [|v [|]] eqn:Ev; [done| |done].
  destruct Hv as [Hv _]. exists v. pose proof (H1 _ _ _ _ Hl) as Hl1. apply H1 in Hr, Ht.
  unfold verb_value in Hv. destruct (cstr (skip_spaces v)) as [|c x] eqn:Ex; [done|].
  injection Hv as ->. unfold field_of in Hl.
  destruct (values #"LEN " (text_lines hdr)) as [|l [|]] eqn:El; [| |done].
  - subst ln. injection H as <-. simpl. by repeat split.
  - destruct Hl as [Hl [n Hn]]. subst ln. rewrite Hn in H.
    destruct (blen payload <? n) eqn:Eb; [done|]. bool_simpl. injection H as <-. simpl.
    assert (0 ≤ n ≤ IPC_MSG_HARD_CAP) as Hn2.
    { unfold len_value in Hn. cbv zeta in Hn. repeat step_in Hn. bool_simpl. lia. }
    repeat split; try done. exists n. repeat split; try done; lia.
Qed.

Lemma ipc_parse_strict_witness :
  parse_inplace #"VERB ask
LEN 2

abc" [] = Some (IpcMsg #"ask" [] [] #"ab" []) ∧
  ∃ hdr payload, find_sep #"VERB ask
LEN 2

abc" = Some (hdr, payload) ∧ payload = #"abc".
Proof.
  split; [vm_compute; reflexivity|].
  destruct (ipc_parse_strict #"VERB ask
LEN 2

abc" [] (IpcMsg #"ask" [] [] #"ab" []) ltac:(vm_compute; reflexivity))
    as (hdr & payload & lines & v & H & _).
  exists hdr, payload. split; [exact H|]. vm_compute in H. by injection H as _ <-.
Defined.

(** ** Lemmas: send and receive *)

(** The state a call leaves alone. *)
Definition same_fds (w w' : world) : Prop :=
  w_fds w' = w_fds w ∧ w_fs w' = w_fs w ∧ w_uniq w' = w_uniq w ∧ w_procs w' = w_procs w.

(** [sendmsg] with [EINTR] retries: delivered once, or not at all. *)
Lemma sendmsg_retry fd data pass e objs w r w' :
  w_fds w !! fd = Some (FdSock e) → mapM (λ k, w_fds w !! k) pass = Some objs →
  retry_eintr (sys_sendmsg fd data pass) w = (r, w') →
  same_fds w w' ∧ suffix (w_sched w') (w_sched w) ∧
  match r with
  | inr _ => w_inq w' = enqueue (peer_end e) (Packet data objs) (w_inq w)
  | inl er => er ≠ EINTR ∧ w_inq w' = w_inq w ∧ Fail er ∈ w_sched w
  end.
Proof.
  intros Hfd Hp. unfold retry_eintr. rewrite bind_gets. intros H.
  unfold sys_sendmsg in H. eapply eintr_sys in H; [|lia|].
  - destruct H as [(er & s & -> & Hne & -> & Hs & Hin)|(s & Hs & H)]; [done|].
    run_in H. rewrite Hfd, Hp in H. run_in H. simplify_eq. done.
  - intros s er w2 H'. run_in H'. rewrite Hfd, Hp in H'. by run_in H'.
Qed.

Lemma same_fds_trans a b c : same_fds a b → same_fds b c → same_fds a c.
Proof. intros (?&?&?&?) (?&?&?&?). repeat split; congruence. Qed.

(** The retry loop: at most [left + 1] completed attempts, each absorbing its
    interruptions; the packet is delivered exactly when the result is
    [IPC_OK]. *)
Lemma send_attempts_spec left fd data pass e objs w r w' :
  w_fds w !! fd = Some (FdSock e) → mapM (λ k, w_fds w !! k) pass = Some objs →
  send_attempts left fd data pass w = (r, w') →
  same_fds w w' ∧
  match r with
  | inr (IPC_OK _) => w_inq w' = enqueue (peer_end e) (Packet data objs) (w_inq w)
  | inr IPC_PROTO_VIOLATION => False
  | _ => w_inq w' = w_inq w
  end.
Proof.
  revert w. induction left as [|left IH]; intros w Hfd Hp H; cbn [send_attempts] in H;
    rewrite bind_attempt in H;
    destruct (retry_eintr (sys_sendmsg fd data pass) w) as [r1 w1] eqn:E1;
    (eapply sendmsg_retry in E1; [|done|done]); destruct E1 as (Hsame & _ & Hr1);
    (destruct r1 as [er|[]]; [|run_in H; by simplify_eq]); destruct Hr1 as (_ & Hq & _).
  - destruct er; run_in H; simplify_eq; by split.
  - destruct er; try (run_in H; simplify_eq; by split);
      (destruct Hsame as (Hfds & Hrest); apply IH in H;
        [|by rewrite Hfds|by rewrite Hfds]; destruct H as [Hs' Hr'];
       split; [eapply same_fds_trans; [|exact Hs']; by split|by rewrite Hq in Hr']).
Qed.

Lemma ipc_send_spec fd msg e objs w r w' :
  w_fds w !! fd = Some (FdSock e) → mapM (λ k, w_fds w !! k) (im_fds msg) = Some objs →
  ipc_send fd msg w = (r, w') →
  same_fds w w' ∧
  match r with
  | inr (IPC_OK _) => ∃ hdr,
      build_header false msg IPC_HEADER_HEADROOM = inr hdr ∧
      blen (im_payload msg) ≤ IPC_MSG_HARD_CAP ∧ blen (im_fds msg) ≤ IPC_MAX_FDS ∧
      w_inq w' = enqueue (peer_end e) (Packet (hdr ++ im_payload msg) objs) (w_inq w)
  | inr IPC_PROTO_VIOLATION => False
  | _ => w_inq w' = w_inq w
  end.
Proof.
  intros Hfd Hp. unfold ipc_send. destruct (build_header _ _ _) as [er|hdr] eqn:Eh.
  { intros H. run_in H. by simplify_eq. }
  rewrite bind_guard. destruct (_ <=? IPC_MSG_HARD_CAP) eqn:E1; [|intros; by simplify_eq].
  rewrite bind_guard. destruct (_ <=? IPC_MAX_FDS) eqn:E2; [|intros; by simplify_eq].
  intros H. eapply send_attempts_spec in H as [Hs Hr]; [|done|done]. bool_simpl.
  split; [done|]. destruct r as [er|[[]| |]]; try done. by exists hdr.
Qed.

Lemma peer_peer e : peer_end (peer_end e) = e.
Proof. unfold peer_end. by rewrite Z.lxor_assoc, Z.lxor_nilpotent, Z.lxor_0_r. Qed.

(** Receiving the first queued packet when no call fails. *)
Lemma recvmsg_quiet fd cap fdcap e p q w :
  w_sched w = [] → w_fds w !! fd = Some (FdSock e) → default [] (w_inq w !! e) = p :: q →
  ∃ ks fds', retry_eintr (sys_recvmsg fd cap fdcap) w =
      (inr (Recvd (take cap (pk_data p)) ks (cap <? length (pk_data p))%nat
                  (fdcap <? length (pk_fds p))%nat),
       set_fds (λ _, fds') (set_inq (<[e := q]>) w)) ∧
    Forall2 (λ k o, fds' !! k = Some o ∧ w_fds w !! k = None) ks (take fdcap (pk_fds p)).
Proof.
  intros Hs Hfd Hq. unfold sys_recvmsg. set (m := gets w_fds ≫= _).
  destruct (install_all_spec (take fdcap (pk_fds p)) (set_inq (<[e := q]>) w))
    as (ks & fds' & Ei & HF & _).
  exists ks, fds'. split; [|exact HF].
  assert (m w = (inr (Recvd (take cap (pk_data p)) ks (cap <? length (pk_data p))%nat
                  (fdcap <? length (pk_fds p))%nat),
                 set_fds (λ _, fds') (set_inq (<[e := q]>) w))) as Em.
  { unfold m. rewrite !bind_gets, Hfd, Hq, bind_modify, bind_unfold, Ei. done. }
  rewrite retry_quiet; [exact Em|done|by rewrite Em].
Qed.

(** ** Properties: send and receive *)

(** C24: sending is atomic and bounded: under every schedule [ipc_send] leaves
    the descriptor table alone and appends to the peer's queue exactly one
    packet (header then payload, with the objects behind the passed
    descriptors) when it returns [IPC_OK], and nothing otherwise. *)
Theorem ipc_send_atomic fd msg e objs w :
  w_fds w !! fd = Some (FdSock e) → mapM (λ k, w_fds w !! k) (im_fds msg) = Some objs →
  let '(r, w') := ipc_send fd msg w in
  w_fds w' = w_fds w ∧ w_fs w' = w_fs w ∧
  match r with
  | inr (IPC_OK _) => ∃ hdr,
      build_header false msg IPC_HEADER_HEADROOM = inr hdr ∧
      w_inq w' = enqueue (peer_end e) (Packet (hdr ++ im_payload msg) objs) (w_inq w)
  | inr IPC_PROTO_VIOLATION => False
  | inr IPC_PEER_GONE | inl _ => w_inq w' = w_inq w
  end.
Proof.
  intros Hfd Hp. destruct (ipc_send fd msg w) as [r w'] eqn:E.
  eapply ipc_send_spec in E as [(Hfds & Hfs & _) Hr]; [|done|done].
  split; [done|]. split; [done|]. destruct r as [er|[[]| |]]; try done.
  destruct Hr as (hdr & ? & _ & _ & ?). by exists hdr.
Qed.

(** Two ends of one socket pair, with failures ahead: interrupted, full twice,
    then accepted. *)
Definition demo_pair : world :=
  set_sched [Fail EINTR; Fail EAGAIN; Fail ENOBUFS]
    (set_fds (λ _, <[7 := FdSock 1]> (<[6 := FdSock 0]> (<[9 := FdPid 42]> ∅))) demo_world).

Lemma ipc_send_atomic_witness :
  let '(r, w') := ipc_send 6 (IpcMsg #"ask" [] [] #"hi" [9]) demo_pair in
  r = inr (IPC_OK tt) ∧ blen (default [] (w_inq w' !! 1)) = 1.
Proof.
  pose proof (ipc_send_atomic 6 (IpcMsg #"ask" [] [] #"hi" [9]) 0 [FdPid 42] demo_pair
                ltac:(reflexivity) ltac:(reflexivity)) as H.
  destruct (ipc_send 6 _ demo_pair) as [r w'] eqn:E.
  assert (r = inr (IPC_OK tt)) as -> by (vm_compute in E; congruence).
  split; [reflexivity|]. destruct H as (_ & _ & hdr & _ & ->). reflexivity.
Defined.



(** Truncation is a protocol violation: when the next packet is longer
    than the buffer or carries more than [IPC_MAX_FDS] descriptors,
    [ipc_recv] reports [IPC_PROTO_VIOLATION] and delivers no message.  The
    descriptors the kernel has installed by then (up to eight) stay open:
    nothing closes them. *)
Theorem ipc_recv_truncated fd bufcap e p q w :
  w_sched w = [] → w_fds w !! fd = Some (FdSock e) → default [] (w_inq w !! e) = p :: q →
  IPC_MSG_DEFAULT_CAP ≤ bufcap → pk_data p ≠ [] →
  bufcap < blen (pk_data p) ∨ IPC_MAX_FDS < blen (pk_fds p) →
  ∃ ks w', ipc_recv fd bufcap w = (inr IPC_PROTO_VIOLATION, w') ∧
    blen ks = Z.min IPC_MAX_FDS (blen (pk_fds p)) ∧
    Forall (λ k, is_Some (w_fds w' !! k) ∧ w_fds w !! k = None) ks.
Proof.
  intros Hs Hfd Hq Hcap Hne Htr.
  destruct (recvmsg_quiet fd (Z.to_nat bufcap) (Z.to_nat IPC_MAX_FDS) e p q w) as (ks & fds' & Er & HF);
    [done..|].
  exists ks. eexists. unfold ipc_recv. rewrite bind_guard, (proj2 (Z.leb_le _ _)) by done.
  rewrite bind_unfold, Er. cbn [rc_data rc_trunc rc_ctrunc rc_fds].
  assert (take (Z.to_nat bufcap) (pk_data p) ≠ []) as Hne'.
  { destruct (pk_data p) as [|c d]; [done|]. destruct (Z.to_nat bufcap) eqn:E; [|done].
    unfold IPC_MSG_DEFAULT_CAP in Hcap. lia. }
  assert (((Z.to_nat bufcap <? length (pk_data p)) || (Z.to_nat IPC_MAX_FDS <? length (pk_fds p)))%nat = true) as Ht.
  { apply orb_true_iff. rewrite !Nat.ltb_lt. unfold IPC_MSG_DEFAULT_CAP, IPC_MAX_FDS, blen in *. lia. }
  rewrite Ht. split; [by destruct (take _ _)|]. split.
  - apply Forall2_length in HF. rewrite length_take in HF. unfold IPC_MAX_FDS, blen in *. lia.
  - apply Forall_forall. intros k Hk. apply list_elem_of_lookup in Hk as [i Hi].
    eapply Forall2_lookup_l in HF as (o & _ & Ho & Hn); [|exact Hi]. split; [|done].
    simpl. by rewrite Ho.
Qed.

Lemma ipc_recv_truncated_witness :
  let p := Packet #"VERB x

" (replicate 9 FdOther) in
  let w := set_sched [] (set_inq (<[1 := [p]]>) demo_pair) in
  ∃ ks w', ipc_recv 7 IPC_MSG_DEFAULT_CAP w = (inr IPC_PROTO_VIOLATION, w') ∧ blen ks = 8 ∧
    Forall (λ k, is_Some (w_fds w' !! k) ∧ w_fds w !! k = None) ks.
Proof.
  intros p w. apply (ipc_recv_truncated 7 IPC_MSG_DEFAULT_CAP 1 p [] w);
    try (vm_compute; reflexivity); done || (right; vm_compute; reflexivity).
Defined.
