(* ===== verification/IpcStream.v ===== *)
(** * ipc.c: the stream transport of the macOS build

    Where packet sockets are missing the same messages travel over a byte
    stream: the header carries [LEN], the sender writes header and payload
    with retries, the receiver reads the header byte by byte to its blank
    line, then exactly the announced payload, and hands both to the parser of
    the packet transport.

    A stream is the bytes still to be read (everything the peer will have
    written when it closes) with a schedule of what the coming [read]s do: any
    cut of the bytes into pieces, interrupts and errors.  A sender's schedule
    is the same for its [send]s. *)

From S2P Require Import Prelude CLib Posix Names Common Broker Ipc.

(** ** Sending *)

(** One [send] of [n > 0] bytes: at least one byte is taken, or it fails. *)
Inductive snd_out := Sent (k : nat) | SendErr (e : errno).

(** What was written, the result, and the schedule left.  The budget of
    retries is per chunk. *)
Fixpoint write_all_retry (s : list snd_out) (attempt : nat) (data sent : bytes)
    : (errno + ipc_res unit) * bytes * list snd_out :=
  match data with
  | [] => (inr (IPC_OK tt), sent, s)
  | _ =>
      match s with
      | [] => (inr (IPC_OK tt), sent ++ data, [])
      | Sent k :: s' =>
          let k := Nat.max 1 k in write_all_retry s' 0 (drop k data) (sent ++ take k data)
      | SendErr EINTR :: s' => write_all_retry s' attempt data sent
      | SendErr EPIPE :: s' | SendErr ECONNRESET :: s' => (inr IPC_PEER_GONE, sent, s')
      | SendErr EAGAIN :: s' =>
          if (attempt <? IPC_SEND_RETRIES)%nat then write_all_retry s' (S attempt) data sent
          else (inl EAGAIN, sent, s')
      | SendErr e :: s' => (inl e, sent, s')
      end
  end.

Definition ipc_send_macos (s : list snd_out) (msg : ipc_msg_t) : (errno + ipc_res unit) * bytes :=
  match build_header true msg IPC_HEADER_HEADROOM with
  | inl e => (inl e, [])
  | inr hdr =>
      if IPC_MSG_HARD_CAP <? blen (im_payload msg) then (inl EMSGSIZE, [])
      else match write_all_retry s 0 hdr [] with
           | (inr (IPC_OK _), sent, s') =>
               let '(r, sent, _) := write_all_retry s' 0 (im_payload msg) sent in (r, sent)
           | (r, sent, _) => (r, sent)
           end
  end.

(** ** Receiving *)

Inductive rcv_out := Got (k : nat) | ReadErr (e : errno).
Definition stream : Type := list rcv_out * bytes.

(** [do { r = read(fd, p, n); } while (r == -1 && errno == EINTR)]; no bytes
    is end of file. *)
Fixpoint read_retry (n : nat) (s : list rcv_out) (bs : bytes) : (errno + bytes) * stream :=
  match s with
  | [] => (inr (take n bs), ([], drop n bs))
  | Got k :: s' => let k := Nat.max 1 (Nat.min k n) in (inr (take k bs), (s', drop k bs))
  | ReadErr EINTR :: s' => read_retry n s' bs
  | ReadErr e :: s' => (inl e, (s', bs))
  end.

(** The loop to the blank line; [buf] holds the [pos] bytes read, [len] is
    [pos - line_start].  Every pass takes a byte off the stream, which bounds
    the passes. *)
Fixpoint header_loop (fuel : nat) (bufcap : Z) (buf : bytes) (len : nat) (st : stream)
    : (errno + ipc_res bytes) * stream :=
  match fuel with
  | O => (inr IPC_PROTO_VIOLATION, st)
  | S f =>
      if bufcap <=? blen buf + 1 then (inr IPC_PROTO_VIOLATION, st)
      else match read_retry 1 st.1 st.2 with
           | (inl e, st') => (inl e, st')
           | (inr [], st') =>
               (inr (match buf with [] => IPC_PEER_GONE | _ => IPC_PROTO_VIOLATION end), st')
           | (inr (c :: _), st') =>
               if Ascii.eqb c NL then
                 if (len =? 0)%nat then (inr (IPC_OK (buf ++ [c])), st')
                 else header_loop f bufcap (buf ++ [c]) 0 st'
               else header_loop f bufcap (buf ++ [c]) (S len) st'
           end
  end.

(** The text after the first ["LEN "] at the start of a line. *)
Fixpoint find_len (start : bool) (buf : bytes) : option bytes :=
  match buf with
  | [] => None
  | c :: r => if start && has_prefix #"LEN " buf then Some (drop 4 buf)
              else find_len (Ascii.eqb c NL) r
  end.
(** [nb[32]] and its [strtol]. *)
Definition len_field (after : bytes) : option Z :=
  let r := strtol (cstr (take 31 (take_while (λ c, negb (Ascii.eqb c NL)) after))) in
  if st_erange r || negb (st_conv r) || negb (bytes_eqb (st_end r) []) ||
     (st_val r <? 0) || (IPC_MSG_HARD_CAP <? st_val r)
  then None else Some (st_val r).

Fixpoint payload_loop (fuel need : nat) (buf : bytes) (st : stream) : (errno + ipc_res bytes) * stream :=
  match need, fuel with
  | O, _ => (inr (IPC_OK buf), st)
  | _, O => (inr IPC_PROTO_VIOLATION, st)
  | _, S f =>
      match read_retry need st.1 st.2 with
      | (inl e, st') => (inl e, st')
      | (inr [], st') => (inr IPC_PROTO_VIOLATION, st')
      | (inr d, st') => payload_loop f (need - length d) (buf ++ d) st'
      end
  end.

Definition recv_stream_into (bufcap : Z) (st : stream) : (errno + ipc_res bytes) * stream :=
  match header_loop (S (length st.2)) bufcap [] 0 st with
  | (inr (IPC_OK buf), st') =>
      match find_len true buf ≫= len_field with
      | None => (inr IPC_PROTO_VIOLATION, st')
      | Some need =>
          if bufcap <? blen buf + need then (inr IPC_PROTO_VIOLATION, st')
          else payload_loop (S (length st'.2)) (Z.to_nat need) buf st'
      end
  | r => r
  end.

Definition ipc_recv_stream (bufcap : Z) (st : stream) : (errno + ipc_res ipc_msg_t) * stream :=
  if bufcap <? IPC_MSG_DEFAULT_CAP then (inl EINVAL, st)
  else match recv_stream_into bufcap st with
       | (inl e, st') => (inl e, st')
       | (inr IPC_PEER_GONE, st') => (inr IPC_PEER_GONE, st')
       | (inr IPC_PROTO_VIOLATION, st') => (inr IPC_PROTO_VIOLATION, st')
       | (inr (IPC_OK buf), st') =>
           (inr (match parse_inplace buf [] with
                 | Some m => IPC_OK m
                 | None => IPC_PROTO_VIOLATION
                 end), st')
       end.

(** ** Lemmas: one read *)

(** A schedule without hard errors. *)
Definition soft (o : rcv_out) : Prop := match o with ReadErr e => e = EINTR | Got _ => True end.

Lemma read_some n s bs : Forall soft s → (0 < n)%nat → bs ≠ [] →
  ∃ k s', (0 < k ≤ n)%nat ∧ Forall soft s' ∧ read_retry n s bs = (inr (take k bs), (s', drop k bs)).
Proof.
  intros Hs Hn Hb. induction Hs as [|[k|e] s He Hs IH]; cbn [read_retry].
  - exists n, []. by repeat split; [lia..|].
  - exists (Nat.max 1 (Nat.min k n)), s. by repeat split; [lia..|].
  - cbn in He. subst e. apply IH.
Qed.
Lemma read_byte c bs s : Forall soft s →
  ∃ s', Forall soft s' ∧ read_retry 1 s (c :: bs) = (inr [c], (s', bs)).
Proof.
  intros Hs. destruct (read_some 1 s (c :: bs) Hs) as (k & s' & Hk & Hs' & E); [lia|done|].
  assert (k = 1%nat) as -> by lia. by exists s'.
Qed.

(** ** Lemmas: the header *)

Lemma header_loop_byte f cap buf len c s bs : Forall soft s → blen buf + 1 < cap →
  ∃ s', Forall soft s' ∧
    header_loop (S f) cap buf len (s, c :: bs) =
    if Ascii.eqb c NL then
      if (len =? 0)%nat then (inr (IPC_OK (buf ++ [c])), (s', bs))
      else header_loop f cap (buf ++ [c]) 0 (s', bs)
    else header_loop f cap (buf ++ [c]) (S len) (s', bs).
Proof.
  intros Hs Hc. destruct (read_byte c bs s Hs) as (s' & Hs' & E). exists s'. split; [done|].
  cbn [header_loop fst snd]. by rewrite (proj2 (Z.leb_gt _ _)), E by lia.
Qed.
Lemma header_loop_line l : ∀ fuel cap buf len s rest,
  NL ∉ l → Forall soft s → (0 < len + length l)%nat → blen buf + blen l + 1 < cap →
  ∃ s', Forall soft s' ∧
    header_loop (S (length l + fuel)) cap buf len (s, l ++ NL :: rest) =
    header_loop fuel cap (buf ++ l ++ nl) 0 (s', rest).
Proof.
  induction l as [|c l IH]; intros fuel cap buf len s rest Hn Hs Hl Hc; cbn [length Nat.add app];
    rewrite ?blen_nil, ?blen_cons in *.
  - destruct (header_loop_byte fuel cap buf len NL s rest Hs) as (s' & Hs' & ->); [lia|].
    rewrite Ascii.eqb_refl. cbn [length] in Hl. destruct len; [lia|]. by exists s'.
  - rewrite not_elem_of_cons in Hn. destruct Hn as [Hc1 Hn]. pose proof (blen_nonneg l).
    destruct (header_loop_byte (S (length l + fuel)) cap buf len c s (l ++ NL :: rest) Hs)
      as (s' & Hs' & ->); [lia|].
    rewrite (proj2 (Ascii.eqb_neq c NL)) by done.
    destruct (IH fuel cap (buf ++ [c]) (S len) s' rest) as (s2 & Hs2 & E); [done|done|lia| |].
    { rewrite blen_app, blen_cons, blen_nil. lia. }
    exists s2. split; [done|]. by rewrite E, <-!app_assoc.
Qed.
Lemma header_bytes_pos ls rest : 1 ≤ blen (header_bytes ls rest).
Proof.
  unfold header_bytes. destruct ls; cbn [foldr]; rewrite ?blen_app, blen_cons; solve_len.
Qed.
Lemma header_loop_lines ls : ∀ fuel cap buf s rest,
  Forall header_line ls → Forall soft s →
  blen buf + blen (header_bytes ls []) < cap → (length (header_bytes ls []) ≤ fuel)%nat →
  ∃ s', Forall soft s' ∧
    header_loop fuel cap buf 0 (s, header_bytes ls rest) =
    (inr (IPC_OK (buf ++ header_bytes ls [])), (s', rest)).
Proof.
  induction ls as [|l ls IH]; intros fuel cap buf s rest HF Hs Hc Hf.
  - change (header_bytes [] ?r) with (NL :: r) in *. rewrite blen_cons, blen_nil in Hc.
    destruct fuel as [|fuel]; [cbn in Hf; lia|].
    destruct (header_loop_byte fuel cap buf 0 NL s rest Hs) as (s' & Hs' & ->); [lia|]. by exists s'.
  - inversion HF as [|? ? [Hl1 Hl2] HF']; subst.
    change (header_bytes (l :: ls) ?r) with (l ++ NL :: header_bytes ls r) in *.
    rewrite length_app in Hf. cbn [length] in Hf. rewrite blen_app, blen_cons in Hc.
    pose proof (header_bytes_pos ls []).
    destruct (header_loop_line l (fuel - S (length l)) cap buf 0 s (header_bytes ls rest))
      as (s1 & Hs1 & E1); [done|done|destruct l; [done|cbn; lia]|lia|].
    replace (S (length l + (fuel - S (length l)))) with fuel in E1 by lia. rewrite E1.
    destruct (IH (fuel - S (length l))%nat cap (buf ++ l ++ nl) s1 rest) as (s2 & Hs2 & E2);
      [done|done| |lia|].
    { rewrite !blen_app. change (blen nl) with 1. lia. }
    exists s2. split; [done|]. by rewrite E2, <-!app_assoc.
Qed.

(** ** Lemmas: the length and the payload *)

Lemma find_len_skip l r : NL ∉ l → find_len false (l ++ NL :: r) = find_len true r.
Proof.
  induction l as [|c l IH]; intros Hn; cbn [app find_len andb]; [done|].
  rewrite not_elem_of_cons in Hn. rewrite (proj2 (Ascii.eqb_neq c NL)) by naive_solver.
  apply IH. naive_solver.
Qed.
Lemma find_len_header msg rest : NL ∉ im_verb msg →
  find_len true (header_bytes (header_lines true msg) rest) =
  Some (fmt_d (blen (im_payload msg)) ++
        NL :: header_bytes (opt_line #"REPLY-TO " (im_reply_to msg) ++ opt_line #"TASK-ID " (im_task_id msg)) rest).
Proof.
  intros Hv. unfold header_lines. cbn [app].
  set (tl := opt_line _ _ ++ _).
  change (header_bytes (_ :: (#"LEN " ++ ?x) :: tl) rest)
    with (#"VERB " ++ im_verb msg ++ NL :: #"LEN " ++ (x ++ NL :: header_bytes tl rest)).
  set (r := fmt_d _ ++ _).
  change (find_len true (#"VERB " ++ ?x)) with (find_len false (#"ERB " ++ x)).
  rewrite (app_assoc #"ERB "), find_len_skip; [done|].
  apply not_elem_of_app. split; [not_in_list|done].
Qed.
Lemma len_field_fmt n r : 0 ≤ n ≤ IPC_MSG_HARD_CAP → len_field (fmt_d n ++ NL :: r) = Some n.
Proof.
  unfold IPC_MSG_HARD_CAP. intros Hn. unfold len_field, fmt_d. rewrite (proj2 (Z.ltb_ge n 0)) by lia.
  pose proof (dec_digits n ltac:(lia)) as HF.
  rewrite take_while_app.
  2:{ eapply Forall_impl; [exact HF|]. intros x Hx. apply negb_true_iff, Ascii.eqb_neq. by apply (class_ne isdigit). }
  cbn [take_while]. rewrite Ascii.eqb_refl. cbn [negb]. rewrite app_nil_r.
  rewrite take_ge by (pose proof (dec_length n 31); cbn in *; lia).
  rewrite cstr_id by (apply dec_not_elem; [lia|done]).
  rewrite <-(app_nil_r (dec n)), strtol_dec by (unfold LONG_MAX; done || lia). cbn [st_erange st_conv st_end st_val].
  rewrite (proj2 (Z.ltb_ge n 0)), (proj2 (Z.ltb_ge IPC_MSG_HARD_CAP n)) by (unfold IPC_MSG_HARD_CAP; lia).
  done.
Qed.
Lemma payload_loop_all fuel : ∀ p buf s rest,
  Forall soft s → (length p ≤ fuel)%nat →
  ∃ s', Forall soft s' ∧
    payload_loop fuel (length p) buf (s, p ++ rest) = (inr (IPC_OK (buf ++ p)), (s', rest)).
Proof.
  induction fuel as [|f IH]; intros p buf s rest Hs Hf.
  - destruct p; [|cbn in Hf; lia]. exists s. by rewrite app_nil_r.
  - destruct p as [|c p]; [exists s; by rewrite app_nil_r|]. set (q := c :: p) in *.
    destruct (read_some (length q) s (q ++ rest) Hs) as (k & s1 & Hk & Hs1 & E); [cbn; lia|done|].
    rewrite take_app_le, drop_app_le in E by lia.
    destruct (IH (drop k q) (buf ++ take k q) s1 rest Hs1) as (s2 & Hs2 & E2).
    { rewrite length_drop. lia. }
    exists s2. split; [done|]. rewrite <-app_assoc, take_drop in E2. rewrite <-E2, length_drop.
    assert (length (take k q) = k) as Lk by (rewrite length_take; lia).
    unfold q at 1. cbn [length payload_loop fst snd]. change (S (length p)) with (length q). rewrite E.
    destruct (take k q) as [|x t] eqn:Et; [cbn in Lk; lia|]. by rewrite Lk.
Qed.

(** ** Properties *)

(** What a sender has written is a prefix of the data, all of it on success. *)
Lemma write_all_retry_spec s : ∀ a data sent,
  let '(r, out, _) := write_all_retry s a data sent in
  ∃ p q, data = p ++ q ∧ out = sent ++ p ∧ (∀ u, r = inr (IPC_OK u) → q = []).
Proof.
  assert (∀ (data sent : bytes) (r : errno + ipc_res unit), (∀ u, r ≠ inr (IPC_OK u)) →
            ∃ p q, data = p ++ q ∧ sent = sent ++ p ∧ (∀ u, r = inr (IPC_OK u) → q = [])) as Hstop.
  { intros data sent r Hr. exists [], data. rewrite app_nil_r. split_and!; [done..|].
    intros u Hu. by destruct (Hr u). }
  induction s as [|[k|e] s IH]; intros a data sent; destruct data as [|c data]; cbn [write_all_retry].
  1,3,5: exists [], []; split_and!; [done|by rewrite app_nil_r|done].
  - exists (c :: data), []. split_and!; [by rewrite app_nil_r|done|done].
  - specialize (IH 0%nat (drop (Nat.max 1 k) (c :: data)) (sent ++ take (Nat.max 1 k) (c :: data))).
    destruct (write_all_retry s 0 _ _) as [[r out] s']. destruct IH as (p & q & Hd & -> & Hr).
    exists (take (Nat.max 1 k) (c :: data) ++ p), q. split_and!; [|by rewrite app_assoc|done].
    rewrite <-app_assoc, <-Hd. symmetry. apply take_drop.
  - destruct e; try (apply Hstop; by intros u); [apply IH|].
    destruct (a <? IPC_SEND_RETRIES)%nat; [apply IH|by apply Hstop].
Qed.

Lemma ipc_send_macos_frame s msg sent :
  ipc_send_macos s msg = (inr (IPC_OK tt), sent) →
  ∃ hdr, build_header true msg IPC_HEADER_HEADROOM = inr hdr ∧ sent = hdr ++ im_payload msg ∧
    blen (im_payload msg) ≤ IPC_MSG_HARD_CAP.
Proof.
  unfold ipc_send_macos. destruct (build_header _ _ _) as [e|hdr] eqn:Eb; [done|].
  destruct (IPC_MSG_HARD_CAP <? _) eqn:Ec; [done|]. bool_simpl.
  pose proof (write_all_retry_spec s 0 hdr []) as H1.
  destruct (write_all_retry s 0 hdr []) as [[[e|[[]| |]] out] s1]; try done.
  destruct H1 as (p & q & -> & -> & Hq). rewrite (Hq tt eq_refl), app_nil_r in *.
  pose proof (write_all_retry_spec s1 0 (im_payload msg) ([] ++ p)) as H2.
  destruct (write_all_retry s1 0 _ _) as [[r out2] s2]. intros [= -> ->].
  destruct H2 as (p2 & q2 & Hp & -> & Hq2). rewrite (Hq2 tt eq_refl), app_nil_r in Hp. subst p2.
  by exists p.
Qed.

(** A frame at the head of the stream is received as its message. *)
Lemma stream_frame_received msg hdr bufcap rs rest :
  build_header true msg IPC_HEADER_HEADROOM = inr hdr → msg_ok msg = true → im_fds msg = [] →
  blen (im_payload msg) ≤ IPC_MSG_HARD_CAP →
  Forall soft rs → IPC_MSG_DEFAULT_CAP ≤ bufcap → blen (hdr ++ im_payload msg) ≤ bufcap →
  ∃ rs', Forall soft rs' ∧
    ipc_recv_stream bufcap (rs, (hdr ++ im_payload msg) ++ rest) = (inr (IPC_OK msg), (rs', rest)).
Proof.
  intros Hb Hok Hfds Hp Hs Hcap Hlen.
  destruct (build_header_bytes _ _ _ _ [] Hb) as (Hv & Hh & E0).
  destruct (build_header_bytes _ _ _ _ (im_payload msg ++ rest) Hb) as (_ & _ & E1).
  rewrite app_nil_r in E0. unfold IPC_HEADER_HEADROOM, IPC_MSG_DEFAULT_CAP in *.
  pose proof (header_lines_ok true msg Hv Hok) as HF. pose proof (blen_nonneg (im_payload msg)).
  unfold ipc_recv_stream. rewrite (proj2 (Z.ltb_ge _ _)) by (unfold IPC_MSG_DEFAULT_CAP; lia).
  unfold recv_stream_into. cbn [snd]. rewrite <-app_assoc, E1.
  destruct (header_loop_lines (header_lines true msg) (S (length (header_bytes (header_lines true msg)
              (im_payload msg ++ rest)))) bufcap [] rs (im_payload msg ++ rest)) as (s1 & Hs1 & ->);
    [done|done|rewrite <-E0; solve_len| |].
  { rewrite <-E0, <-E1, length_app. lia. }
  cbn [app snd]. rewrite find_len_header.
  2:{ unfold msg_ok in Hok. bool_simpl. by apply text_ok_inv. }
  cbn [mbind option_bind]. rewrite len_field_fmt by lia.
  rewrite <-E0, <-blen_app, (proj2 (Z.ltb_ge _ _)) by done.
  destruct (payload_loop_all (S (length (im_payload msg ++ rest))) (im_payload msg) hdr s1 rest Hs1)
    as (s2 & Hs2 & E2); [rewrite length_app; lia|].
  exists s2. split; [done|]. unfold blen. rewrite Nat2Z.id, E2.
  rewrite (parse_built true msg 4096 hdr) by done. destruct msg; cbn in *. by subst.
Qed.

