(* ===== verification/Exchange.v ===== *)
(** * ipc.c: one broker channel shared by threads and processes

    Descriptor 3 of a supervised runtime, its channel to the broker, is shared
    by every thread of the runtime and by the processes it forks.  A request
    and its reply are one exchange: [broker_exchange_lock] takes a guard of the
    process (a spin lock) and then a POSIX record lock, which belongs to the
    process; [broker_exchange_unlock] drops them in the same order.  The
    exchange itself is the first half of [ipc_connect].

    The state is what the clients share; a client is a thread of a process, at
    one of the places of the code between which others can run. *)

From S2P Require Import Prelude CLib Posix Names Common Broker Ipc.

Definition client : Type := nat * nat.              (** process, thread *)
(** A request or its reply, with the client that made it. *)
Record xmsg := XMsg { x_by : client; x_target : bytes }.

Inductive xplace :=
| XIdle
| XSpin (t : bytes)                                 (** before the test-and-set *)
| XGuarded (t : bytes)                              (** guard taken, before [F_SETLKW] *)
| XLocked (t : bytes)                               (** both held, before [send] *)
| XAwait (t : bytes)                                (** before [recvmsg] *)
| XGot (t : bytes) (r : option xmsg)                (** before [F_UNLCK]; the reply received *)
| XDrop (t : bytes) (r : option xmsg).              (** before the guard is released *)

Record xstate := XState {
  x_at : gmap client xplace;
  x_guard : gset nat;                               (** processes whose guard is 1 *)
  x_lock : option nat;                              (** process holding the record lock *)
  x_requests : list xmsg;                           (** waiting at the broker *)
  x_replies : list xmsg                             (** waiting at descriptor 3 *)
}.

Definition goto (c : client) (p : xplace) (s : xstate) : xstate :=
  XState (<[c := p]> (x_at s)) (x_guard s) (x_lock s) (x_requests s) (x_replies s).
Definition set_guard (f : gset nat → gset nat) (s : xstate) : xstate :=
  XState (x_at s) (f (x_guard s)) (x_lock s) (x_requests s) (x_replies s).
Definition set_lock (o : option nat) (s : xstate) : xstate :=
  XState (x_at s) (x_guard s) o (x_requests s) (x_replies s).
Definition set_queues (q r : list xmsg) (s : xstate) : xstate :=
  XState (x_at s) (x_guard s) (x_lock s) q r.
(** A process ends: its threads are gone and the kernel drops its lock. *)
Definition end_process (p : nat) (s : xstate) : xstate :=
  XState (filter (λ e, e.1.1 ≠ p) (x_at s)) (x_guard s ∖ {[p]})
         (if bool_decide (x_lock s = Some p) then None else x_lock s) (x_requests s) (x_replies s).

(** [lossy = true] admits the two ways an exchange ends without its reply
    having been read: [recvmsg] fails, or the process dies in between. *)
Inductive xstep (lossy : bool) : xstate → xstate → Prop :=
| x_begin c t s : x_at s !! c = Some XIdle → xstep lossy s (goto c (XSpin t) s)
| x_test_and_set c t s : x_at s !! c = Some (XSpin t) → c.1 ∉ x_guard s →
    xstep lossy s (goto c (XGuarded t) (set_guard (union {[c.1]}) s))
| x_setlkw c t s : x_at s !! c = Some (XGuarded t) → x_lock s = None ∨ x_lock s = Some c.1 →
    xstep lossy s (goto c (XLocked t) (set_lock (Some c.1) s))
| x_setlkw_fails c t s : x_at s !! c = Some (XGuarded t) →
    xstep lossy s (goto c XIdle (set_guard (λ g, g ∖ {[c.1]}) s))
| x_send c t s : x_at s !! c = Some (XLocked t) →
    xstep lossy s (goto c (XAwait t) (set_queues (x_requests s ++ [XMsg c t]) (x_replies s) s))
| x_send_fails c t s : x_at s !! c = Some (XLocked t) → xstep lossy s (goto c (XGot t None) s)
| x_serve m q s : x_requests s = m :: q → xstep lossy s (set_queues q (x_replies s ++ [m]) s)
| x_recv c t m r s : x_at s !! c = Some (XAwait t) → x_replies s = m :: r →
    xstep lossy s (goto c (XGot t (Some m)) (set_queues (x_requests s) r s))
| x_recv_fails c t s : lossy = true → x_at s !! c = Some (XAwait t) →
    xstep lossy s (goto c (XGot t None) s)
| x_unlck c t r s : x_at s !! c = Some (XGot t r) →
    xstep lossy s (goto c (XDrop t r) (set_lock (if bool_decide (x_lock s = Some c.1) then None else x_lock s) s))
| x_release c t r s : x_at s !! c = Some (XDrop t r) →
    xstep lossy s (goto c XIdle (set_guard (λ g, g ∖ {[c.1]}) s))
| x_thread c s : x_at s !! c = None → (∃ th, is_Some (x_at s !! (c.1, th))) →
    xstep lossy s (goto c XIdle s)
| x_fork p p' th s : x_at s !! (p, th) = Some XIdle → (∀ th', x_at s !! (p', th') = None) →
    xstep lossy s (goto (p', th) XIdle (set_guard (λ g, if bool_decide (p ∈ g) then {[p']} ∪ g else g ∖ {[p']}) s))
| x_end p s : (lossy = true ∨ ∀ th t, x_at s !! (p, th) ≠ Some (XAwait t)) →
    xstep lossy s (end_process p s).

Definition xstate0 : xstate := XState {[(0%nat, 0%nat) := XIdle]} ∅ None [] [].

Ltac unfold_x :=
  unfold goto, set_guard, set_lock, set_queues, end_process;
  cbn [x_at x_guard x_lock x_requests x_replies].

(** ** Mutual exclusion *)

Definition has_guard (p : xplace) : bool :=
  match p with XIdle | XSpin _ => false | _ => true end.
Definition has_lock (p : xplace) : bool :=
  match p with XLocked _ | XAwait _ | XGot _ _ => true | _ => false end.

Record exclusive (s : xstate) : Prop := Exclusive {
  ex_guard c p : x_at s !! c = Some p → has_guard p = true → c.1 ∈ x_guard s;
  ex_one c c' p p' : x_at s !! c = Some p → x_at s !! c' = Some p' →
    has_guard p = true → has_guard p' = true → c.1 = c'.1 → c = c';
  ex_lock c p : x_at s !! c = Some p → has_lock p = true → x_lock s = Some c.1
}.

Lemma lock_guard p : has_lock p = true → has_guard p = true.
Proof. by destruct p. Qed.
Lemma exclusive_one s c c' p p' : exclusive s → x_at s !! c = Some p → x_at s !! c' = Some p' →
  has_lock p = true → has_guard p' = true → x_lock s = Some c'.1 → c = c'.
Proof.
  intros He Hc Hc' Hp Hp' Hl. apply (ex_one s He c c' p p'); auto using lock_guard.
  pose proof (ex_lock s He c p Hc Hp). congruence.
Qed.

(** Moving one client, with the guards and the lock of the others kept. *)
Lemma exclusive_goto s c q g l rq rp :
  exclusive s →
  (∀ c' p, c' ≠ c → x_at s !! c' = Some p → has_guard p = true → c'.1 ∈ g) →
  (has_guard q = true → c.1 ∈ g) →
  (has_guard q = true → ∀ c' p, c' ≠ c → x_at s !! c' = Some p → has_guard p = true → c.1 ≠ c'.1) →
  (∀ c' p, c' ≠ c → x_at s !! c' = Some p → has_lock p = true → l = Some c'.1) →
  (has_lock q = true → l = Some c.1) →
  exclusive (XState (<[c := q]> (x_at s)) g l rq rp).
Proof.
  intros He Hg Hgc Hone Hl Hlc. split; cbn.
  - intros c' p [[<- <-]|[Hn Hp]]%lookup_insert_Some; eauto.
  - intros c1 c2 p1 p2 [[<- <-]|[Hn1 H1]]%lookup_insert_Some [[<- <-]|[Hn2 H2]]%lookup_insert_Some G1 G2 E;
      [done| | |].
    + by destruct (Hone G1 c2 p2 (not_eq_sym Hn2) H2 G2).
    + by destruct (Hone G2 c1 p1 (not_eq_sym Hn1) H1 G1).
    + by eapply ex_one.
  - intros c' p [[<- <-]|[Hn Hp]]%lookup_insert_Some; eauto.
Qed.
(** A client that already has the guard moves to a place where it keeps it. *)
Lemma exclusive_keep s c p q l rq rp :
  exclusive s → x_at s !! c = Some p → (has_guard q = true → has_guard p = true) →
  (∀ c' p', c' ≠ c → x_at s !! c' = Some p' → has_lock p' = true → l = Some c'.1) →
  (has_lock q = true → l = Some c.1) →
  exclusive (XState (<[c := q]> (x_at s)) (x_guard s) l rq rp).
Proof.
  intros He Hc Hk Hl Hlc. apply exclusive_goto; [done|..]; try done.
  - intros c' p' _. by apply ex_guard.
  - intros Hq. by eapply ex_guard; eauto.
  - intros Hq c' p' Hn Hp' Hg Heq. apply Hn. symmetry. eapply (ex_one s He c c'); eauto.
Qed.
(** A client gives the guard back. *)
Lemma exclusive_release s c p rq rp :
  exclusive s → x_at s !! c = Some p → has_guard p = true → has_lock p = false →
  exclusive (XState (<[c := XIdle]> (x_at s)) (x_guard s ∖ {[c.1]}) (x_lock s) rq rp).
Proof.
  intros He Hc Hp Hl. apply exclusive_goto; try done.
  - intros c' p' Hn Hc' Hg. apply elem_of_difference. split; [by eapply ex_guard|].
    intros Heq%elem_of_singleton. apply Hn. by eapply ex_one.
  - intros c' p' _. by apply ex_lock.
Qed.

Lemma xstep_exclusive lossy s s' : xstep lossy s s' → exclusive s → exclusive s'.
Proof.
  intros Hs He.
  assert (∀ c p, x_at s !! c = Some p → has_lock p = true → x_lock s = Some c.1) as HL by (apply ex_lock; done).
  destruct Hs as [c t s H|c t s H Hg|c t s H Hl|c t s H|c t s H|c t s H|m q s H|c t m r s H Hr|c t s _ H
                 |c t r s H|c t r s H|c s H Hth|p p' th s H Hf|p s H]; unfold_x.
  - eapply exclusive_keep; [done|exact H|done| |done]. intros c' p' _. apply HL.
  - apply exclusive_goto; [done|..].
    + intros c' p Hn Hc' Hp. pose proof (ex_guard s He c' p Hc' Hp). set_solver.
    + set_solver.
    + intros _ c' p Hn Hc' Hp Heq. apply Hg. rewrite Heq. by eapply ex_guard.
    + intros c' p _. apply HL.
    + done.
  - eapply exclusive_keep; [done|exact H|done| |done].
    intros c' p' Hn Hc' Hp. exfalso. apply Hn. pose proof (HL _ _ Hc' Hp) as E.
    destruct Hl as [Hl|Hl]; [congruence|].
    by eapply (exclusive_one s c' c p' (XGuarded t)).
  - by eapply exclusive_release.
  - eapply exclusive_keep; [done|exact H|done| |]; [intros c' p' _; apply HL|]. intros _. by eapply HL.
  - eapply exclusive_keep; [done|exact H|done| |]; [intros c' p' _; apply HL|]. intros _. by eapply HL.
  - split; cbn; [apply ex_guard|apply ex_one|apply ex_lock]; done.
  - eapply exclusive_keep; [done|exact H|done| |]; [intros c' p' _; apply HL|]. intros _. by eapply HL.
  - eapply exclusive_keep; [done|exact H|done| |]; [intros c' p' _; apply HL|]. intros _. by eapply HL.
  - eapply exclusive_keep; [done|exact H|done| |done].
    intros c' p' Hn Hc' Hp. exfalso. apply Hn. pose proof (HL _ _ H eq_refl).
    by eapply (exclusive_one s c' c p' (XGot t r)).
  - by eapply exclusive_release.
  - apply exclusive_goto; try done; intros c' p _; [by apply (ex_guard s)|by apply HL].
  - assert (∀ c p0, x_at s !! c = Some p0 → c.1 ≠ p') as Hfr.
    { intros [q th'] p0 Hc <-. by rewrite Hf in Hc. }
    apply exclusive_goto; try done.
    + intros c' p0 _ Hc' Hp. pose proof (ex_guard s He c' p0 Hc' Hp). pose proof (Hfr c' p0 Hc').
      case_bool_decide; set_solver.
    + intros c' p0 _. apply HL.
  - split; cbn.
    + intros c q [Hc Hne]%map_lookup_filter_Some Hq. pose proof (ex_guard s He c q Hc Hq). cbn in Hne. set_solver.
    + intros c c' q q' [Hc _]%map_lookup_filter_Some [Hc' _]%map_lookup_filter_Some. by apply (ex_one s He).
    + intros c q [Hc Hne]%map_lookup_filter_Some Hq. rewrite (HL c q Hc Hq). cbn in Hne.
      rewrite bool_decide_eq_false_2; [done|congruence].
Qed.

Lemma exclusive0 : exclusive xstate0.
Proof.
  split; cbn.
  - intros c p [_ <-]%lookup_singleton_Some. done.
  - intros c c' p p' [_ <-]%lookup_singleton_Some _. done.
  - intros c p [_ <-]%lookup_singleton_Some. done.
Qed.

(** ** Matching replies *)

Record matched (s : xstate) : Prop := Matched {
  mt_await c t : x_at s !! c = Some (XAwait t) → x_requests s ++ x_replies s = [XMsg c t];
  mt_quiet : (∀ c t, x_at s !! c ≠ Some (XAwait t)) → x_requests s ++ x_replies s = [];
  mt_own c t m : x_at s !! c = Some (XGot t (Some m)) ∨ x_at s !! c = Some (XDrop t (Some m)) → m = XMsg c t
}.

(** A move that neither starts nor ends a wait. *)
Lemma matched_goto s c p q g l :
  matched s → x_at s !! c = p → (∀ t, p ≠ Some (XAwait t)) → (∀ t, q ≠ XAwait t) →
  (∀ t m, q = XGot t (Some m) → m = XMsg c t) →
  (∀ t m, q = XDrop t (Some m) → m = XMsg c t) →
  matched (XState (<[c := q]> (x_at s)) g l (x_requests s) (x_replies s)).
Proof.
  intros Hm Hc Hp Hq H1 H2. pose proof (mt_own s Hm) as Hown. split; cbn.
  - intros c' t [[<- ->]|[Hn Hc']]%lookup_insert_Some; [by destruct (Hq t)|]. by apply mt_await.
  - intros Hnone. apply (mt_quiet s Hm). intros c' t Hc'. destruct (decide (c' = c)) as [->|Hn].
    + by destruct (Hp t); rewrite <-Hc.
    + apply (Hnone c' t). by rewrite lookup_insert_ne.
  - intros c' t m [H|H]; apply lookup_insert_Some in H as [[<- E]|[Hn Hc']]; eauto.
Qed.

Lemma xstep_matched s s' : xstep false s s' → exclusive s → matched s → matched s'.
Proof.
  intros Hs He Hm. pose proof (mt_own s Hm) as Hown.
  assert (∀ c c' p t, x_at s !! c = Some p → has_lock p = true → x_at s !! c' = Some (XAwait t) → c' = c) as Hone.
  { intros c c' p t Hc Hp Hc'. eapply (exclusive_one s c' c (XAwait t) p); auto using lock_guard.
    by eapply ex_lock. }
  destruct Hs as [c t s H|c t s H Hg|c t s H Hl|c t s H|c t s H|c t s H|m q s H|c t m r s H Hr|c t s Hf H
                 |c t r s H|c t r s H|c s H Hth|p p' th s H Hf|p s [H|H]]; try discriminate; unfold_x.
  1-4,6,10-11: (eapply matched_goto; [done|exact H|done..]).
  - (* send *)
    assert (x_requests s ++ x_replies s = []) as [Hq Hr]%app_nil.
    { apply (mt_quiet s Hm). intros c' t' Hc'. assert (c' = c) as -> by by eapply Hone. congruence. }
    rewrite Hq, Hr. split; cbn.
    + intros c' t' [[<- [= ->]]|[Hn Hc']]%lookup_insert_Some; [done|].
      destruct Hn. symmetry. by eapply Hone.
    + intros Hnone. destruct (Hnone c t). apply lookup_insert_eq.
    + intros c' t' m [H'|H']; apply lookup_insert_Some in H' as [[<- E]|[Hn Hc']]; try done; eauto.
  - (* serve *)
    assert (∀ c t, x_requests s ++ x_replies s = [XMsg c t] →
              q ++ x_replies s ++ [m] = x_requests s ++ x_replies s) as Hsame.
    { intros c t E. rewrite H in E |- *. cbn in E. injection E as -> E. apply app_nil in E as [-> ->]. done. }
    split; cbn.
    + intros c t Hc. pose proof (mt_await s Hm c t Hc) as E. by rewrite (Hsame c t E).
    + intros Hn. pose proof (mt_quiet s Hm Hn) as E. by rewrite H in E.
    + apply (mt_own s Hm).
  - (* recv *)
    pose proof (mt_await s Hm c t H) as E. rewrite Hr in E.
    assert (x_requests s = [] ∧ m = XMsg c t ∧ r = []) as (Hq & -> & ->).
    { destruct (x_requests s) as [|x l]; [by injection E as -> ->|]. injection E as _ E.
      by apply app_nil in E as [_ ?]. }
    rewrite Hq. split; cbn; [|done|].
    + intros c' t' [[<- ?]|[Hn Hc']]%lookup_insert_Some; [done|]. destruct Hn. symmetry. by eapply Hone.
    + intros c' t' m [H'|H']; apply lookup_insert_Some in H' as [[<- E']|[Hn Hc']]; eauto; try done.
      by injection E' as <- <-.
  - eapply matched_goto; [done|exact H|done..|]. intros t' m [= <- ->]. apply (mt_own s Hm). by left.
  - eapply matched_goto; [done|exact (Hf th)|done..].
  - (* end of a process *)
    split; cbn.
    + intros c t [Hc _]%map_lookup_filter_Some. by apply mt_await.
    + intros Hn. apply (mt_quiet s Hm). intros [q th] t Hc. destruct (decide (q = p)) as [->|Hne].
      * by destruct (H th t).
      * apply (Hn (q, th) t). by apply map_lookup_filter_Some.
    + intros c t m [Hc|Hc]; apply map_lookup_filter_Some in Hc as [Hc _]; eauto.
Qed.

Lemma matched0 : matched xstate0.
Proof.
  split; cbn.
  - intros c t [_ ?]%lookup_singleton_Some. done.
  - done.
  - intros c t m [[_ ?]%lookup_singleton_Some|[_ ?]%lookup_singleton_Some]; done.
Qed.

Lemma reachable_exclusive lossy s : rtc (xstep lossy) xstate0 s → exclusive s.
Proof.
  revert s. apply (rtc_ind_r exclusive); [apply exclusive0|]. intros a b _ Hs. by eapply xstep_exclusive.
Qed.
Lemma reachable_matched s : rtc (xstep false) xstate0 s → matched s.
Proof.
  intros Hr. cut (exclusive s ∧ matched s); [by intros []|]. revert s Hr.
  apply (rtc_ind_r (λ s, exclusive s ∧ matched s)); [split; [apply exclusive0|apply matched0]|].
  intros a b _ Hs [He Hm]. split; [by eapply xstep_exclusive|by eapply xstep_matched].
Qed.

(** C8: exchanges with the broker are serialised.  Over every interleaving of
    the threads of a runtime and of the processes it forks, with every call
    free to fail and every process to die, at most one client is between
    taking and dropping the record lock.  If no exchange is cut off between
    its request and its reply, every client receives the reply to its own
    request, for the target it asked for, and an idle channel is empty. *)
Theorem exchange_serialized lossy s :
  rtc (xstep lossy) xstate0 s →
  (∀ c c' p p', x_at s !! c = Some p → x_at s !! c' = Some p' →
     has_lock p = true → has_lock p' = true → c = c') ∧
  (lossy = false → ∀ c t m, x_at s !! c = Some (XGot t (Some m)) → m = XMsg c t) ∧
  (lossy = false → (∀ c t, x_at s !! c ≠ Some (XAwait t)) → x_requests s = [] ∧ x_replies s = []).
Proof.
  intros Hr. pose proof (reachable_exclusive lossy s Hr) as He. split_and!.
  - intros c c' p p' Hc Hc' Hp Hp'. eapply (exclusive_one s c c' p p'); auto using lock_guard.
    by eapply ex_lock.
  - intros -> c t m Hc. apply (mt_own s (reachable_matched s Hr)). by left.
  - intros -> Hn. apply app_nil. by apply (mt_quiet s (reachable_matched s Hr)).
Qed.

Lemma exchange_serialized_witness :
  ∃ s, rtc (xstep false) xstate0 s ∧ x_at s !! (0, 0)%nat = Some (XGot #"a" (Some (XMsg (0, 0)%nat #"a"))) ∧
    (∀ c t m, x_at s !! c = Some (XGot t (Some m)) → m = XMsg c t).
Proof.
  eassert (rtc (xstep false) xstate0 _) as Hr.
  { eapply rtc_l; [by apply (x_begin _ (0, 0)%nat #"a")|].
    eapply rtc_l; [by eapply (x_test_and_set _ (0, 0)%nat); [apply lookup_insert_eq|cbn; set_solver]|].
    eapply rtc_l; [by eapply (x_setlkw _ (0, 0)%nat); [apply lookup_insert_eq|left]|].
    eapply rtc_l; [by eapply (x_send _ (0, 0)%nat); apply lookup_insert_eq|].
    eapply rtc_l; [by eapply x_serve|].
    eapply rtc_l; [by eapply (x_recv _ (0, 0)%nat); [apply lookup_insert_eq|]|].
    apply rtc_refl. }
  eexists. split_and!; [exact Hr|apply lookup_insert_eq|].
  apply (exchange_serialized false _ Hr). reflexivity.
Defined.

(** ** What the locks do not cover *)

(** A process that dies between its request and its reply leaves the reply in
    the channel.  The next client, whose target is another one, receives it:
    the descriptor it takes for a channel to its own target is a channel to
    the dead client's. *)
Lemma exchange_desync : ∃ s,
  rtc (xstep true) xstate0 s ∧
  x_at s !! (0, 0)%nat = Some (XGot #"b" (Some (XMsg (1, 0)%nat #"a"))).
Proof.
  eexists. split.
  - eapply rtc_l; [apply (x_fork _ 0%nat 1%nat 0%nat); [done|intros th; by apply lookup_singleton_ne]|].
    eapply rtc_l; [by apply (x_begin _ (1, 0)%nat #"a")|].
    eapply rtc_l; [by eapply (x_test_and_set _ (1, 0)%nat); [apply lookup_insert_eq|cbn; set_solver]|].
    eapply rtc_l; [by eapply (x_setlkw _ (1, 0)%nat); [apply lookup_insert_eq|left]|].
    eapply rtc_l; [by eapply (x_send _ (1, 0)%nat); apply lookup_insert_eq|].
    eapply rtc_l; [by eapply x_serve|].
    eapply rtc_l; [by apply (x_end _ 1%nat); left|].
    eapply rtc_l; [apply (x_begin _ (0, 0)%nat #"b"); vm_compute; reflexivity|].
    eapply rtc_l; [by eapply (x_test_and_set _ (0, 0)%nat); [apply lookup_insert_eq|cbn; set_solver]|].
    eapply rtc_l; [by eapply (x_setlkw _ (0, 0)%nat); [apply lookup_insert_eq|left]|].
    eapply rtc_l; [by eapply (x_send _ (0, 0)%nat); apply lookup_insert_eq|].
    eapply rtc_l; [by eapply (x_recv _ (0, 0)%nat); [apply lookup_insert_eq|]|].
    apply rtc_refl.
  - apply lookup_insert_eq.
Qed.

(** The guard of a process is 1 although no thread of it has taken it. *)
Definition orphaned (p : nat) (s : xstate) : Prop :=
  p ∈ x_guard s ∧ (∃ th, is_Some (x_at s !! (p, th))) ∧
  ∀ th q, x_at s !! (p, th) = Some q → has_guard q = false.

(** [fork] copies the guard as it is: when another thread is in the middle of
    an exchange, the child's guard is held by nobody, no step but the end of
    the child changes that, and none of its threads gets past the test. *)
Lemma orphaned_stuck lossy p s s' :
  xstep lossy s s' → orphaned p s → orphaned p s' ∨ s' = end_process p s.
Proof.
  intros Hs (Hg & (th0 & Hth0) & Hn).
  assert (∀ c q, x_at s !! c = Some q → has_guard q = true → c.1 ≠ p) as Hother.
  { intros [q' th'] q Hc Hq Heq. cbn in Heq. subst q'. by rewrite (Hn th' q Hc) in Hq. }
  assert (∀ c q g l rq rp, p ∈ g → (c.1 = p → has_guard q = false) →
            orphaned p (XState (<[c := q]> (x_at s)) g l rq rp)) as Hmove.
  { intros c q g l rq rp Hpg Hq. split_and!; [done| |]; cbn.
    - exists th0. destruct (decide (c = (p, th0))) as [->|Hne]; [by rewrite lookup_insert_eq|].
      by rewrite lookup_insert_ne.
    - intros th q' [[-> <-]|[_ Hc]]%lookup_insert_Some; [by apply Hq|by eapply Hn]. }
  destruct Hs as [c t s H|c t s H Hng|c t s H Hl|c t s H|c t s H|c t s H|m q s H|c t m r s H Hr|c t s _ H
                 |c t r s H|c t r s H|c s H Hth|p0 p' th s H Hf|p0 s H]; unfold_x.
  - by left; apply Hmove.
  - left. apply Hmove; [set_solver|]. intros <-. done.
  - left. apply Hmove; [done|]. intros Hp. by destruct (Hother c (XGuarded t) H eq_refl).
  - left. apply Hmove; [|done]. pose proof (Hother c (XGuarded t) H eq_refl). set_solver.
  - left. apply Hmove; [done|]. intros Hp. by destruct (Hother c (XLocked t) H eq_refl).
  - left. apply Hmove; [done|]. intros Hp. by destruct (Hother c (XLocked t) H eq_refl).
  - left. split_and!; [done|by exists th0|done].
  - left. apply Hmove; [done|]. intros Hp. by destruct (Hother c (XAwait t) H eq_refl).
  - left. apply Hmove; [done|]. intros Hp. by destruct (Hother c (XAwait t) H eq_refl).
  - left. apply Hmove; [done|]. intros Hp. by destruct (Hother c (XGot t r) H eq_refl).
  - left. apply Hmove; [|done]. pose proof (Hother c (XDrop t r) H eq_refl). set_solver.
  - by left; apply Hmove.
  - left. apply Hmove; [|done]. assert (p ≠ p').
    { intros ->. destruct Hth0 as [? Hx]. by rewrite Hf in Hx. }
    case_bool_decide; set_solver.
  - destruct (decide (p0 = p)) as [->|Hne]; [by right|left]. split_and!; cbn; [set_solver| |].
    + exists th0. destruct Hth0 as [q Hq]. exists q. apply map_lookup_filter_Some. by split.
    + intros th q [Hc _]%map_lookup_filter_Some. by eapply Hn.
Qed.
Lemma fork_orphans_guard : ∃ s, rtc (xstep false) xstate0 s ∧ orphaned 1 s.
Proof.
  eexists. split.
  - eapply rtc_l; [apply (x_thread _ (0, 1)%nat); [done|by exists 0%nat]|].
    eapply rtc_l; [by apply (x_begin _ (0, 0)%nat #"a")|].
    eapply rtc_l; [by eapply (x_test_and_set _ (0, 0)%nat); [apply lookup_insert_eq|cbn; set_solver]|].
    eapply rtc_l; [apply (x_fork _ 0%nat 1%nat 1%nat)|].
    + done.
    + intros th. unfold_x. rewrite !lookup_insert_ne by done. by apply lookup_singleton_ne.
    + apply rtc_refl.
  - unfold_x. split_and!; cbn.
    + rewrite bool_decide_eq_true_2; set_solver.
    + exists 1%nat. by rewrite lookup_insert_eq.
    + intros th q. rewrite lookup_insert_Some. intros [[_ <-]|[_ H]]; [done|].
      rewrite !lookup_insert_ne in H by done. by rewrite lookup_singleton_ne in H.
Qed.
