(* ===== verification/Agentfs.v ===== *)
(** * kernel/agentfs.c: kernel mailboxes and agent registration

    The module's state is the list [g_agents] (head insertion, as
    [list_add]), the dentries under [/agents] with the [struct agent] they
    point at, and the set of live tasks ([pid_alive]).  Every file operation
    is a function on that state; each runs under [a->lock] or
    [g_agents_lock] for its whole effect, so an execution is a sequence of
    these steps in any order ([kstep]).  [size_t] counters are 64-bit with
    wrap-around.  The outcomes of [kmalloc], [copy_from_user],
    [copy_to_user] and inode allocation are arguments.

    The user-space side of the mailbox (agentfs_send, agentfs_recv and the
    in-buffer parser of common.c) is at the end. *)

From S2P Require Import Prelude CLib Posix Names Common Broker Ipc.

Definition AGENTFS_MAX_MESSAGE : Z := 1048576.
Definition AGENTFS_MAX_QUEUE_BYTES : Z := 8388608.
Definition AGENTFS_MAX_QUEUE_MSGS : Z := 1024.

(** [size_t] and [s64] arithmetic. *)
Definition u64 (z : Z) : Z := z mod 18446744073709551616.
Definition s64 (z : Z) : Z := (z + 9223372036854775808) mod 18446744073709551616 - 9223372036854775808.

(** ** Mailboxes *)

Inductive mailbox_kind := MBOX_INBOX | MBOX_OUTBOX.
#[export] Instance mailbox_kind_eq_dec : EqDecision mailbox_kind.
Proof. solve_decision. Defined.

Record mailbox := Mailbox {
  mb_messages : list bytes;
  mb_queued_bytes : Z;
  mb_queued_messages : Z;
  mb_processed : Z
}.
Definition mailbox_init : mailbox := Mailbox [] 0 0 0.
Definition mailbox_drain_locked (m : mailbox) : mailbox := Mailbox [] 0 0 (mb_processed m).

Record agent := Agent {
  a_name : bytes;
  a_addr : Z;                  (** address of the [struct agent] *)
  a_owner : option Z;          (** the owning task *)
  a_uid : Z;
  a_gid : Z;
  a_pid : Z;
  a_dead : bool;
  a_inbox : mailbox;
  a_outbox : mailbox
}.

Definition agent_mailbox (a : agent) (k : mailbox_kind) : mailbox :=
  match k with MBOX_INBOX => a_inbox a | MBOX_OUTBOX => a_outbox a end.
Definition set_mailbox (a : agent) (k : mailbox_kind) (m : mailbox) : agent :=
  match k with
  | MBOX_INBOX => Agent (a_name a) (a_addr a) (a_owner a) (a_uid a) (a_gid a) (a_pid a)
                        (a_dead a) m (a_outbox a)
  | MBOX_OUTBOX => Agent (a_name a) (a_addr a) (a_owner a) (a_uid a) (a_gid a) (a_pid a)
                         (a_dead a) (a_inbox a) m
  end.

Definition agent_status_word (a : agent) : bytes :=
  if a_dead a then #"dead" else #"running".

(** ** Mailbox file operations *)

(** The result of [read]: end of file, the bytes copied, an error, or asleep
    on [readq]. *)
Inductive read_res := RdEOF | RdData (d : bytes) | RdErr (e : errno) | RdSleep.

(** One pass of the loop of [mailbox_read] and, when a message was taken, the
    copy after it. *)
Definition mailbox_read (a : agent) (k : mailbox_kind) (len : nat) (nonblock copy_ok : bool)
    : read_res * agent :=
  let mb := agent_mailbox a k in
  match mb_messages mb with
  | [] => if a_dead a then (RdEOF, a)
          else if nonblock then (RdErr EAGAIN, a) else (RdSleep, a)
  | m :: ms =>
      let mb' := Mailbox ms (u64 (mb_queued_bytes mb - blen m))
                         (u64 (mb_queued_messages mb - 1)) (s64 (mb_processed mb + 1)) in
      (if copy_ok then RdData (take len m) else RdErr EFAULT, set_mailbox a k mb')
  end.

(** [wait_event_interruptible]'s condition: a sleeping reader runs again. *)
Definition read_ready (a : agent) (k : mailbox_kind) : bool :=
  negb (bool_decide (mb_messages (agent_mailbox a k) = [])) || a_dead a.

Definition mailbox_write (a : agent) (k : mailbox_kind) (data : bytes) (alloc_ok copy_ok : bool)
    : (errno + Z) * agent :=
  let mb := agent_mailbox a k in
  let len := blen data in
  if len =? 0 then (inr 0, a)
  else if AGENTFS_MAX_MESSAGE <? len then (inl EMSGSIZE, a)
  else if negb alloc_ok then (inl ENOMEM, a)
  else if negb copy_ok then (inl EFAULT, a)
  else if a_dead a then (inl ESHUTDOWN, a)
  else if (AGENTFS_MAX_QUEUE_MSGS <=? mb_queued_messages mb) ||
          (AGENTFS_MAX_QUEUE_BYTES <? u64 (mb_queued_bytes mb + len)) then (inl ENOSPC, a)
  else (inr len,
        set_mailbox a k (Mailbox (mb_messages mb ++ [data]) (u64 (mb_queued_bytes mb + len))
                                 (u64 (mb_queued_messages mb + 1)) (mb_processed mb))).

Record poll_mask := PollMask { EPOLLIN : bool; EPOLLHUP : bool; EPOLLOUT : bool }.
Definition mailbox_poll (a : agent) (k : mailbox_kind) : poll_mask :=
  let mb := agent_mailbox a k in
  PollMask (negb (bool_decide (mb_messages mb = [])))
           (a_dead a)
           (negb (a_dead a) && (mb_queued_messages mb <? AGENTFS_MAX_QUEUE_MSGS) &&
            (mb_queued_bytes mb <? AGENTFS_MAX_QUEUE_BYTES)).

(** The kind a file gets when it is opened, from its dentry name. *)
Definition mailbox_open (dentry_name : bytes) : mailbox_kind :=
  if bytes_eqb dentry_name #"outbox" then MBOX_OUTBOX else MBOX_INBOX.

(** ** Read-only text files *)

Definition agent_pid_read (a : agent) : bytes := fmt_d (a_pid a) ++ nl.
Definition agent_status_read (a : agent) : bytes := agent_status_word a ++ nl.
Definition agent_owner_read (a : agent) : bytes :=
  #"uid=" ++ fmt_d (a_uid a) ++ #" gid=" ++ fmt_d (a_gid a) ++ nl.
Definition agent_stats_read (a : agent) : bytes :=
  #"inbox_messages=" ++ fmt_d (mb_queued_messages (a_inbox a)) ++ nl ++
  #"inbox_bytes=" ++ fmt_d (mb_queued_bytes (a_inbox a)) ++ nl ++
  #"inbox_processed=" ++ fmt_d (mb_processed (a_inbox a)) ++ nl ++
  #"outbox_messages=" ++ fmt_d (mb_queued_messages (a_outbox a)) ++ nl ++
  #"outbox_bytes=" ++ fmt_d (mb_queued_bytes (a_outbox a)) ++ nl ++
  #"outbox_processed=" ++ fmt_d (mb_processed (a_outbox a)) ++ nl.

(** ** Registration and the reaper *)

(** A dentry under [/agents]: directory name, file name ([] for the directory
    itself) and the agent its inode's [i_private] points at. *)
Record dentry := Dentry { d_dir : bytes; d_file : bytes; d_agent : Z }.

Record kstate := KState {
  k_agents : list agent;           (** g_agents, first = most recent *)
  k_dentries : list dentry;
  k_alive : gset Z;                (** tasks with [pid_alive] *)
  k_next : Z                       (** next address *)
}.

(** The registering task. *)
Record task := Task { t_id : Z; t_uid : Z; t_gid : Z }.

Definition owner_alive (alive : gset Z) (a : agent) : bool :=
  match a_owner a with Some t => bool_decide (t ∈ alive) | None => false end.

(** The body of the reaper for one agent. *)
Definition reap_agent (alive : gset Z) (a : agent) : agent :=
  if a_dead a then a
  else if owner_alive alive a then a
  else Agent (a_name a) (a_addr a) None (a_uid a) (a_gid a) (a_pid a) true
             (mailbox_drain_locked (a_inbox a)) (mailbox_drain_locked (a_outbox a)).
Definition agentfs_reaper (k : kstate) : kstate :=
  KState (reap_agent (k_alive k) <$> k_agents k) (k_dentries k) (k_alive k) (k_next k).

Definition tree_files : list bytes :=
  [ #"pid"; #"status"; #"owner"; #"stats"; #"inbox"; #"outbox"].

(** [agentfs_build_agent_tree]: the directory, then the six files; [fail_at]
    is the allocation that fails (0 = the directory).  The dentries added
    before it stay. *)
Definition agentfs_build_agent_tree (name : bytes) (addr : Z) (fail_at : option nat)
    : list dentry * bool :=
  let all := Dentry name [] addr :: ((λ f, Dentry name f addr) <$> tree_files) in
  match fail_at with
  | Some i => if (i <? length all)%nat then (take i all, false) else (all, true)
  | None => (all, true)
  end.

Definition recycle (cur : task) (a : agent) : agent :=
  Agent (a_name a) (a_addr a) (Some (t_id cur)) (t_uid cur) (t_gid cur) (t_id cur) false
        (Mailbox [] 0 0 0) (Mailbox [] 0 0 0).

(** Pass 1: the first agent of that name; [Some (inl _)] is [-EEXIST]. *)
Fixpoint register_scan (alive : gset Z) (cur : task) (name : bytes) (l : list agent)
    : option (errno + list agent) :=
  match l with
  | [] => None
  | a :: l' =>
      if bytes_eqb (a_name a) name then
        let dead := a_dead a ||
                    match a_owner a with Some t => negb (bool_decide (t ∈ alive)) | None => false end in
        if dead then Some (inr (recycle cur a :: l')) else Some (inl EEXIST)
      else match register_scan alive cur name l' with
           | Some (inr l2) => Some (inr (a :: l2))
           | r => r
           end
  end.

Definition agentfs_register (cur : task) (name : bytes) (alloc_ok : bool) (fail_at : option nat)
    (k : kstate) : (errno + unit) * kstate :=
  match register_scan (k_alive k) cur name (k_agents k) with
  | Some (inl e) => (inl e, k)
  | Some (inr l) => (inr tt, KState l (k_dentries k) (k_alive k) (k_next k))
  | None =>
      if alloc_ok then
        let a := Agent name (k_next k) (Some (t_id cur)) (t_uid cur) (t_gid cur) (t_id cur) false
                       mailbox_init mailbox_init in
        let '(ds, ok) := agentfs_build_agent_tree name (k_next k) fail_at in
        if ok then (inr tt, KState (a :: k_agents k) (ds ++ k_dentries k) (k_alive k) (k_next k + 1))
        else (inl ENOMEM, KState (k_agents k) (ds ++ k_dentries k) (k_alive k) (k_next k + 1))
      else (inl ENOMEM, k)
  end.

Definition register_write (cur : task) (data : bytes) (copy_ok alloc_ok : bool)
    (fail_at : option nat) (k : kstate) : (errno + Z) * kstate :=
  if blen data =? 0 then (inr 0, k)
  else if negb copy_ok then (inl EFAULT, k)
  else
    let namebuf := take 63 data in
    let name := match last namebuf with
                | Some c => if Ascii.eqb c NL then take (length namebuf - 1) namebuf else namebuf
                | None => namebuf
                end in
    if agentfs_valid_name name then
      match agentfs_register cur name alloc_ok fail_at k with
      | (inl e, k') => (inl e, k')
      | (inr _, k') => (inr (blen data), k')
      end
    else (inl EINVAL, k).

Definition upd_agent (addr : Z) (f : agent → agent) (l : list agent) : list agent :=
  (λ a, if a_addr a =? addr then f a else a) <$> l.
Definition set_agents (f : list agent → list agent) (k : kstate) : kstate :=
  KState (f (k_agents k)) (k_dentries k) (k_alive k) (k_next k).

(** ** The user-space side (common.c) *)

Definition AGENTFS_BUF_CAP : Z := MAX_PAYLOAD + 4096.

(** The bytes [agentfs_send] writes. *)
Definition agentfs_frame (verb reply_to task_id payload : bytes) : errno + bytes :=
  let hdr := #"VERB " ++ verb ++ nl ++ #"LEN " ++ fmt_d (blen payload) ++ nl ++
             opt_header #"REPLY-TO " reply_to ++ opt_header #"TASK-ID " task_id ++ nl in
  if (AGENTFS_BUF_CAP <=? blen hdr) || (AGENTFS_BUF_CAP <? blen hdr + blen payload)
  then inl EOVERFLOW else inr (hdr ++ payload).

Definition find_inbox (k : kstate) (target : bytes) : option Z :=
  d_agent <$> find (λ d, bytes_eqb (d_dir d) target && bytes_eqb (d_file d) #"inbox") (k_dentries k).

(** [open] of the inbox by its dentry, then one [write].  [None] is the [-2]
    result; a dentry whose agent was freed is an invalid access. *)
Definition agentfs_send (target verb reply_to task_id payload : bytes) (k : kstate)
    : (errno + option unit) * kstate :=
  if negb (validate_name target) then (inl EINVAL, k)
  else if MAX_PAYLOAD <? blen payload then (inl EMSGSIZE, k)
  else if (blen verb =? 0) || (MAX_VERB <=? blen verb) then (inl EINVAL, k)
  else
    match agentfs_frame verb reply_to task_id payload with
    | inl e => (inl e, k)
    | inr frame =>
        match find_inbox k target with
        | None => (inr None, k)
        | Some addr =>
            match find (λ a, a_addr a =? addr) (k_agents k) with
            | None => (inl EFAULT, k)
            | Some a =>
                let k' := set_agents (upd_agent addr (λ a, (mailbox_write a MBOX_INBOX frame true true).2)) k in
                match (mailbox_write a MBOX_INBOX frame true true).1 with
                | inl e => (inl e, k')
                | inr n => if n =? blen frame then (inr (Some tt), k') else (inl EIO, k')
                end
            end
        end
    end.

(** [LEN]: the digits fit [num[32]]; what follows the number is not looked at. *)
Definition frame_len (v : bytes) : option Z :=
  if 32 <=? blen v then None
  else
    let r := strtol (cstr v) in
    if st_erange r || (st_val r <? 0) || (MAX_PAYLOAD <? st_val r) then None else Some (st_val r).

(** The header loop after the [VERB] line; [len] is [Some] once [got_len]. *)
Fixpoint frame_headers (fuel : nat) (rp tk : bytes) (len : option Z) (buf : bytes)
    : option (bytes * bytes * option Z * bytes) :=
  match fuel with
  | O => None
  | S fuel' =>
      match split_at NL buf with
      | None => None
      | Some ([], rest) => Some (rp, tk, len, rest)
      | Some (l, rest) =>
          match strip_prefix #"LEN " l with
          | Some v => match frame_len v with
                      | None => None
                      | Some n => frame_headers fuel' rp tk (Some n) rest
                      end
          | None =>
          match strip_prefix #"REPLY-TO " l with
          | Some v =>
              let v := if first_is SP v then [] else v in
              frame_headers fuel' (if blen v <? MAX_NAME then cstr v else rp) tk len rest
          | None =>
          match strip_prefix #"TASK-ID " l with
          | Some v => frame_headers fuel' rp (if blen v <? MAX_TASK_ID_INLINE then cstr v else tk) len rest
          | None => frame_headers fuel' rp tk len rest
          end end end
      end
  end.

Definition parse_framed_in_buf (buf : bytes) : option (agent_msg_hdr * bytes) :=
  match split_at NL buf with
  | None => None
  | Some (l, rest) =>
      match strip_prefix #"VERB " l with
      | None => None
      | Some v =>
          let v := skip_spaces v in
          if (blen v =? 0) || (MAX_VERB <=? blen v) then None
          else match frame_headers (S (length rest)) [] [] None rest with
               | Some (rp, tk, Some n, body) =>
                   if blen body <? n then None
                   else Some (AgentMsgHdr (cstr v) rp tk n, take (Z.to_nat n) body)
               | _ => None
               end
      end
  end.

(** [read] of the inbox with the full buffer, then the parser. *)
Definition agentfs_recv (a : agent) (nonblock : bool) : option (errno + agent_msg_hdr * bytes) * agent :=
  match mailbox_read a MBOX_INBOX (Z.to_nat AGENTFS_BUF_CAP) nonblock true with
  | (RdSleep, a') => (None, a')
  | (RdErr e, a') => (Some (inl e), a')
  | (RdEOF, a') => (Some (inl E0), a')
  | (RdData d, a') =>
      (Some (match parse_framed_in_buf d with Some r => inr r | None => inl EPROTO end), a')
  end.

(** ** Executions *)

(** One step of any task or of the work queue. *)
Inductive kstep : kstate → kstate → Prop :=
| step_read addr kd len nb ok k :
    kstep k (set_agents (upd_agent addr (λ a, (mailbox_read a kd len nb ok).2)) k)
| step_write addr kd data aok cok k :
    kstep k (set_agents (upd_agent addr (λ a, (mailbox_write a kd data aok cok).2)) k)
| step_register cur data cok aok fail k :
    t_id cur ∈ k_alive k →
    kstep k (register_write cur data cok aok fail k).2
| step_reaper k : kstep k (agentfs_reaper k)
| step_fork t k :
    kstep k (KState (k_agents k) (k_dentries k) ({[t]} ∪ k_alive k) (k_next k))
| step_exit t k :
    kstep k (KState (k_agents k) (k_dentries k) (k_alive k ∖ {[t]}) (k_next k)).

Definition k0 (alive : gset Z) : kstate := KState [] [] alive 0.
Definition reachable (alive : gset Z) (k : kstate) : Prop := rtc kstep (k0 alive) k.

(** ** Invariant *)

Definition total_len (ms : list bytes) : Z := foldr (λ m s, blen m + s) 0 ms.

Record mailbox_ok (m : mailbox) : Prop := {
  mo_bytes : mb_queued_bytes m = total_len (mb_messages m);
  mo_count : mb_queued_messages m = blen (mb_messages m);
  mo_max_bytes : mb_queued_bytes m ≤ AGENTFS_MAX_QUEUE_BYTES;
  mo_max_count : mb_queued_messages m ≤ AGENTFS_MAX_QUEUE_MSGS;
  mo_sizes : Forall (λ d, 0 < blen d ≤ AGENTFS_MAX_MESSAGE) (mb_messages m)
}.

Record agent_ok (a : agent) : Prop := {
  ao_name : agentfs_valid_name (a_name a) = true;
  ao_in : mailbox_ok (a_inbox a);
  ao_out : mailbox_ok (a_outbox a);
  ao_dead : a_dead a = true → mb_messages (a_inbox a) = [] ∧ mb_messages (a_outbox a) = [];
  ao_owner : a_dead a = false → a_owner a = Some (a_pid a)
}.

Record kstate_ok (k : kstate) : Prop := {
  ko_agents : Forall agent_ok (k_agents k);
  ko_names : NoDup (a_name <$> k_agents k);
  ko_addrs : NoDup (a_addr <$> k_agents k);
  ko_next : Forall (λ a, a_addr a < k_next k) (k_agents k)
}.

(** ** Lemmas: mailboxes *)

Lemma u64_small z : 0 ≤ z < 18446744073709551616 → u64 z = z.
Proof. apply Z.mod_small. Qed.

Lemma total_len_app a b : total_len (a ++ b) = total_len a + total_len b.
Proof. induction a; simpl; lia. Qed.
Lemma total_len_nonneg a : 0 ≤ total_len a.
Proof. induction a as [|x a IH]; simpl; solve_len. Qed.

Lemma mailbox_empty_ok p : mailbox_ok (Mailbox [] 0 0 p).
Proof. by split. Qed.

Lemma mailbox_read_ok a kd len nb ok :
  agent_ok a → agent_ok (mailbox_read a kd len nb ok).2.
Proof.
  intros Ha. unfold mailbox_read. set (mb := agent_mailbox a kd).
  assert (mailbox_ok mb) as [Hb Hc Hmb Hmc Hs] by (destruct Ha, kd; done).
  destruct (mb_messages mb) as [|m ms] eqn:Em.
  { destruct (a_dead a); [done|]. by destruct nb. }
  pose proof (total_len_nonneg ms). simpl in Hb. rewrite blen_cons in Hc.
  pose proof (blen_nonneg ms). pose proof (blen_nonneg m).
  unfold AGENTFS_MAX_QUEUE_BYTES, AGENTFS_MAX_QUEUE_MSGS in *.
  assert (mailbox_ok (Mailbox ms (u64 (mb_queued_bytes mb - blen m))
            (u64 (mb_queued_messages mb - 1)) (s64 (mb_processed mb + 1)))) as Hmb'.
  { inversion Hs; subst. rewrite !u64_small by lia.
    split; simpl; unfold AGENTFS_MAX_QUEUE_BYTES, AGENTFS_MAX_QUEUE_MSGS; lia || done. }
  destruct Ha as [Hn Hi Ho Hd Hw]. simpl.
  destruct kd; simpl in *; split; simpl; try done;
    intros Hdead; destruct (Hd Hdead) as [Hd1 Hd2]; unfold mb in Em; congruence.
Qed.

Lemma mailbox_write_inv a kd data aok cok r a' :
  agent_ok a → mailbox_write a kd data aok cok = (r, a') →
  (∃ n, r = inr n ∧ n = blen data ∧ 0 < n ≤ AGENTFS_MAX_MESSAGE ∧ a_dead a = false ∧
        let mb := agent_mailbox a kd in
        mb_queued_messages mb < AGENTFS_MAX_QUEUE_MSGS ∧
        mb_queued_bytes mb + n ≤ AGENTFS_MAX_QUEUE_BYTES ∧
        a' = set_mailbox a kd (Mailbox (mb_messages mb ++ [data]) (mb_queued_bytes mb + n)
                                       (mb_queued_messages mb + 1) (mb_processed mb))) ∨
  (a' = a ∧ (r = inr 0 ∧ data = [] ∨ ∃ e, r = inl e)).
Proof.
  intros Ha. unfold mailbox_write. set (mb := agent_mailbox a kd).
  assert (mailbox_ok mb) as [Hb Hc Hmb Hmc Hs] by (destruct Ha, kd; done).
  pose proof (total_len_nonneg (mb_messages mb)). pose proof (blen_nonneg (mb_messages mb)).
  destruct (blen data =? 0) eqn:E0; bool_simpl.
  { intros; simplify_eq. right. split; [done|]. left. by rewrite blen_zero in E0. }
  pose proof (blen_nonneg data).
  unfold AGENTFS_MAX_QUEUE_BYTES, AGENTFS_MAX_QUEUE_MSGS, AGENTFS_MAX_MESSAGE in *.
  destruct (1048576 <? blen data) eqn:E1; bool_simpl; [intros; simplify_eq; by eauto|].
  destruct aok; cbn [negb]; [|intros; simplify_eq; by eauto].
  destruct cok; cbn [negb]; [|intros; simplify_eq; by eauto].
  destruct (a_dead a) eqn:Ed; [intros; simplify_eq; by eauto|].
  rewrite !u64_small by lia.
  destruct (_ || _) eqn:Ef; [intros; simplify_eq; by eauto|]. bool_simpl.
  intros; simplify_eq. left. eexists. repeat split; try done; lia.
Qed.

Lemma mailbox_write_ok a kd data aok cok :
  agent_ok a → agent_ok (mailbox_write a kd data aok cok).2.
Proof.
  intros Ha. destruct (mailbox_write a kd data aok cok) as [r a'] eqn:E. simpl.
  apply mailbox_write_inv in E as [(n & -> & -> & Hn & Hd & Hm & Hb & ->)|[-> _]]; [|done..].
  set (mb := agent_mailbox a kd) in *.
  assert (mailbox_ok mb) as [Hob Hoc Hmb Hmc Hs] by (destruct Ha, kd; done).
  assert (mailbox_ok (Mailbox (mb_messages mb ++ [data]) (mb_queued_bytes mb + blen data)
                              (mb_queued_messages mb + 1) (mb_processed mb))) as Hnew.
  { split; simpl; [rewrite total_len_app; simpl; lia|rewrite blen_app, blen_cons, blen_nil; lia|lia|lia|].
    apply Forall_app. split; [done|]. by constructor. }
  destruct Ha as [H1 H2 H3 H4 H5]. destruct kd; split; simpl; try done; intros; congruence.
Qed.

(** ** Lemmas: the invariant *)

Lemma reap_agent_ok alive a : agent_ok a → agent_ok (reap_agent alive a).
Proof.
  intros Ha. unfold reap_agent. destruct (a_dead a) eqn:Ed; [done|].
  destruct (owner_alive alive a); [done|]. destruct Ha. by split; try apply mailbox_empty_ok.
Qed.

Lemma recycle_ok cur a : agent_ok a → agent_ok (recycle cur a).
Proof. intros []. by split; try apply mailbox_empty_ok. Qed.

(** Steps that keep every agent's name and address. *)
Lemma map_agents_ok (f : agent → agent) k :
  (∀ a, agent_ok a → agent_ok (f a)) →
  (∀ a, a_name (f a) = a_name a ∧ a_addr (f a) = a_addr a) →
  kstate_ok k → kstate_ok (set_agents (fmap f) k).
Proof.
  intros Hf Hid [H1 H2 H3 H4].
  assert (∀ l : list agent, a_name <$> (f <$> l) = a_name <$> l) as Hn.
  { induction l as [|x l IH]; [done|]. rewrite !fmap_cons, IH. by rewrite (proj1 (Hid x)). }
  assert (∀ l : list agent, a_addr <$> (f <$> l) = a_addr <$> l) as Had.
  { induction l as [|x l IH]; [done|]. rewrite !fmap_cons, IH. by rewrite (proj2 (Hid x)). }
  split; simpl; [|by rewrite Hn|by rewrite Had|].
  - apply Forall_fmap. eapply Forall_impl; [exact H1|done].
  - apply Forall_fmap. eapply Forall_impl; [exact H4|]. intros a Ha. simpl.
    by rewrite (proj2 (Hid a)).
Qed.

Lemma mailbox_read_id a kd len nb ok :
  a_name (mailbox_read a kd len nb ok).2 = a_name a ∧
  a_addr (mailbox_read a kd len nb ok).2 = a_addr a.
Proof.
  unfold mailbox_read. destruct (mb_messages _); [destruct (a_dead a), nb; done|]. by destruct kd.
Qed.
Lemma mailbox_write_id a kd data aok cok :
  a_name (mailbox_write a kd data aok cok).2 = a_name a ∧
  a_addr (mailbox_write a kd data aok cok).2 = a_addr a.
Proof. unfold mailbox_write. cbv zeta. repeat case_match; try done; destruct kd; done. Qed.
Lemma reap_agent_id alive a :
  a_name (reap_agent alive a) = a_name a ∧ a_addr (reap_agent alive a) = a_addr a.
Proof. unfold reap_agent. by repeat case_match. Qed.

Lemma upd_agent_ok addr f k :
  (∀ a, agent_ok a → agent_ok (f a)) →
  (∀ a, a_name (f a) = a_name a ∧ a_addr (f a) = a_addr a) →
  kstate_ok k → kstate_ok (set_agents (upd_agent addr f) k).
Proof.
  intros Hf Hid Hk. apply map_agents_ok; [| |done]; intros a; destruct (_ =? _); auto.
Qed.

(** The scan finds the agent of that name and recycles it in place. *)
Lemma register_scan_inv alive cur name l :
  match register_scan alive cur name l with
  | None => name ∉ (a_name <$> l)
  | Some (inl e) => e = EEXIST ∧ ∃ a, a ∈ l ∧ a_name a = name ∧ a_dead a = false
  | Some (inr l') => ∃ l1 a l2, l = l1 ++ a :: l2 ∧ l' = l1 ++ recycle cur a :: l2 ∧
                       a_name a = name ∧ (a_dead a = true ∨ owner_alive alive a = false)
  end.
Proof.
  induction l as [|a l IH]; simpl; [set_solver|].
  destruct (bytes_eqb (a_name a) name) eqn:En; bool_simpl.
  - destruct (a_dead a || _) eqn:Ed.
    + exists [], a, l. repeat split; try done. apply orb_true_iff in Ed as [?|Ed]; [by left|].
      right. unfold owner_alive. destruct (a_owner a); [by apply negb_true_iff|done].
    + apply orb_false_iff in Ed as [Ed _]. split; [done|]. exists a. split; [by left|done].
  - destruct (register_scan alive cur name l) as [[e|l']|].
    + destruct IH as [-> (b & Hb & ?)]. split; [done|]. exists b. split; [by right|done].
    + destruct IH as (l1 & b & l2 & -> & -> & ?). by exists (a :: l1), b, l2.
    + simpl. by apply not_elem_of_cons.
Qed.

Lemma register_ok cur name aok fail k :
  agentfs_valid_name name = true → kstate_ok k →
  kstate_ok (agentfs_register cur name aok fail k).2.
Proof.
  intros Hv [H1 H2 H3 H4]. unfold agentfs_register.
  pose proof (register_scan_inv (k_alive k) cur name (k_agents k)) as Hs.
  destruct (register_scan _ _ _ _) as [[e|l]|]; [done| |].
  - destruct Hs as (l1 & a & l2 & Hl & -> & _). rewrite Hl in *. split; simpl.
    + rewrite Forall_app, Forall_cons in *. destruct H1 as (?&?&?).
      split_and!; try done. by apply recycle_ok.
    + by rewrite fmap_app, fmap_cons in *.
    + by rewrite fmap_app, fmap_cons in *.
    + by rewrite Forall_app, Forall_cons in *.
  - destruct aok; [|done]. destruct (agentfs_build_agent_tree _ _ _) as [ds ok].
    assert (Forall (λ a, a_addr a < k_next k + 1) (k_agents k)) as H4'.
    { eapply Forall_impl; [exact H4|]. simpl. lia. }
    destruct ok; split; simpl; try done.
    + constructor; [|done]. split; simpl; try done; apply mailbox_empty_ok.
    + by constructor.
    + constructor; [|done]. intros (b & Hb & Hin)%list_elem_of_fmap.
      rewrite Forall_forall in H4. apply H4 in Hin. lia.
    + constructor; [simpl; lia|done].
Qed.

Lemma kstep_ok k k' : kstep k k' → kstate_ok k → kstate_ok k'.
Proof.
  intros Hstep Hk. destruct Hstep.
  - apply upd_agent_ok; [|intros; apply mailbox_read_id|done]. intros; by apply mailbox_read_ok.
  - apply upd_agent_ok; [|intros; apply mailbox_write_id|done]. intros; by apply mailbox_write_ok.
  - unfold register_write. destruct (_ =? 0); [done|]. destruct cok; [|done]. simpl.
    destruct (agentfs_valid_name _) eqn:Ev; [|done].
    pose proof (register_ok cur _ aok fail k Ev Hk) as Hr.
    by destruct (agentfs_register _ _ _ _ _) as [[]].
  - apply map_agents_ok; [|intros; apply reap_agent_id|done]. intros; by apply reap_agent_ok.
  - by destruct Hk.
  - by destruct Hk.
Qed.

(** ** Properties *)

(** C11: in every reachable state of the module, whatever the interleaving of
    readers, writers, registrations, task exits and reaper runs: the byte and
    message counters are exact (no [size_t] ever wraps), every queue holds at
    most 1024 messages and 8 MiB of at most 1 MiB each, a dead agent's queues
    are empty, a live one has its owner, and names are valid and unique. *)
Theorem agentfs_invariant (alive : gset Z) (k : kstate) :
  reachable alive k → kstate_ok k.
Proof.
  intros Hr. assert (kstate_ok (k0 alive)) as H0 by (split; by constructor).
  revert H0. induction Hr as [|x y z Hs _ IH]; [done|]. intros Hx. by apply IH, (kstep_ok x).
Qed.

Lemma agentfs_invariant_witness :
  ∃ k, reachable {[7]} k ∧ kstate_ok k ∧ blen (k_agents k) = 1.
Proof.
  set (k := set_agents (upd_agent 0 (λ a, (mailbox_write a MBOX_INBOX #"hi" true true).2))
              (register_write (Task 7 0 0) #"a" true true None (k0 {[7]})).2).
  assert (reachable {[7]} k) as Hr.
  { eapply rtc_l; [apply (step_register (Task 7 0 0) #"a" true true None); set_solver|].
    eapply rtc_l; [apply step_write|]. apply rtc_refl. }
  exists k. split; [exact Hr|]. split; [exact (agentfs_invariant {[7]} k Hr)|reflexivity].
Defined.

(** Operations of user processes on one mailbox. *)
Inductive mop := OpWrite (d : bytes) (alloc_ok copy_ok : bool) | OpRead (len : nat) (nonblock copy_ok : bool).

(** Run them in order; collect the messages accepted by [write] and the
    messages taken off the queue by [read]. *)
Fixpoint mrun (kd : mailbox_kind) (ops : list mop) (a : agent) (acc taken : list bytes)
    : agent * list bytes * list bytes :=
  match ops with
  | [] => (a, acc, taken)
  | OpWrite d ao co :: ops' =>
      match mailbox_write a kd d ao co with
      | (inr n, a') => mrun kd ops' a' (if n =? 0 then acc else acc ++ [d]) taken
      | (inl _, a') => mrun kd ops' a' acc taken
      end
  | OpRead len nb co :: ops' =>
      mrun kd ops' (mailbox_read a kd len nb co).2 acc
           (match mb_messages (agent_mailbox a kd) with m :: _ => taken ++ [m] | [] => taken end)
  end.

Lemma set_mailbox_get a kd m : agent_mailbox (set_mailbox a kd m) kd = m.
Proof. by destruct kd. Qed.

Lemma mrun_fifo kd ops a acc taken pre :
  agent_ok a → pre ++ acc = taken ++ mb_messages (agent_mailbox a kd) →
  let '(a', acc', taken') := mrun kd ops a acc taken in
  pre ++ acc' = taken' ++ mb_messages (agent_mailbox a' kd).
Proof.
  revert a acc taken. induction ops as [|[d ao co|len nb co] ops IH]; intros a acc taken Ha H;
    cbn [mrun]; [done| |].
  - pose proof (mailbox_write_ok a kd d ao co Ha) as Ha'.
    destruct (mailbox_write a kd d ao co) as [r a'] eqn:E. simpl in Ha'.
    apply mailbox_write_inv in E as [(n & -> & -> & Hn & _ & _ & _ & ->)|[-> Hr]]; [| |done].
    + rewrite (proj2 (Z.eqb_neq _ _)) by lia. apply IH; [done|].
      rewrite set_mailbox_get. simpl. by rewrite !app_assoc, H.
    + destruct Hr as [[-> ->]|[e ->]]; by apply IH.
  - apply IH; [by apply mailbox_read_ok|]. unfold mailbox_read.
    destruct (mb_messages (agent_mailbox a kd)) as [|m ms] eqn:Em.
    + destruct (a_dead a), nb; simpl; by rewrite Em.
    + simpl. rewrite set_mailbox_get. simpl. by rewrite H, <-app_assoc.
Qed.


Definition demo_agent : agent := Agent #"a" 0 (Some 7) 0 0 7 false mailbox_init mailbox_init.
Lemma demo_agent_ok : agent_ok demo_agent.
Proof. split; try apply mailbox_empty_ok; done. Qed.






(** When building the directory of a new agent fails part-way, the files
    already created keep pointing at the [struct agent] that is freed: after
    the error no listed agent has that address, yet dentries still refer to
    it. *)
Theorem register_failure_dangling_dentries (k : kstate) cur name i :
  kstate_ok k → name ∉ (a_name <$> k_agents k) → (1 ≤ i ≤ 6)%nat →
  let '(r, k') := agentfs_register cur name true (Some i) k in
  r = inl ENOMEM ∧ (k_next k ∉ (a_addr <$> k_agents k')) ∧
  ∃ d, d ∈ k_dentries k' ∧ d_agent d = k_next k.
Proof.
  intros [_ _ _ Hnext] Hname Hi. unfold agentfs_register.
  pose proof (register_scan_inv (k_alive k) cur name (k_agents k)) as Hs.
  destruct (register_scan _ _ _ _) as [[e|l]|].
  - destruct Hs as [_ (a & Ha & <- & _)]. exfalso. by apply Hname, list_elem_of_fmap_2.
  - destruct Hs as (l1 & a & l2 & Hl & _ & <- & _). exfalso. apply Hname, list_elem_of_fmap_2.
    rewrite Hl. set_solver.
  - unfold agentfs_build_agent_tree. cbv zeta.
    change (length _) with 7%nat. rewrite (proj2 (Nat.ltb_lt i 7)) by lia. simpl.
    split; [done|]. split.
    + intros (a & Ha & Hin)%list_elem_of_fmap. rewrite Forall_forall in Hnext.
      apply Hnext in Hin. lia.
    + exists (Dentry name [] (k_next k)). split; [|done].
      destruct i as [|i]; [lia|]. simpl. by left.
Qed.

Lemma register_failure_dangling_dentries_witness :
  let '(r, k') := agentfs_register (Task 7 0 0) #"a" true (Some 3%nat) (k0 {[7]}) in
  r = inl ENOMEM ∧ k_agents k' = [] ∧ ∃ d, d ∈ k_dentries k' ∧ d_agent d = 0.
Proof.
  assert (kstate_ok (k0 {[7]})) as H0 by (split; constructor).
  pose proof (register_failure_dangling_dentries (k0 {[7]}) (Task 7 0 0) #"a" 3 H0
                ltac:(intros H; by inversion H) ltac:(lia)) as H.
  destruct (agentfs_register (Task 7 0 0) #"a" true (Some 3%nat) (k0 {[7]})) as [r k'] eqn:E.
  destruct H as (Hr & _ & Hd). split; [exact Hr|].
  split; [vm_compute in E; injection E as _ <-; reflexivity|exact Hd].
Defined.

(** ** Lemmas: the in-buffer frame *)

Lemma agentfs_frame_bytes verb rp tk payload frame :
  agentfs_frame verb rp tk payload = inr frame → verb ≠ [] →
  frame = header_bytes (header_lines true (IpcMsg verb rp tk payload [])) payload.
Proof.
  unfold agentfs_frame. intros H Hv. cbv zeta in H. destruct (_ || _) eqn:E; [done|].
  apply orb_false_iff in E as [E _]. apply Z.leb_gt in E.
  assert (build_header true (IpcMsg verb rp tk payload []) AGENTFS_BUF_CAP =
          inr (#"VERB " ++ verb ++ nl ++ #"LEN " ++ fmt_d (blen payload) ++ nl ++
             opt_header #"REPLY-TO " rp ++ opt_header #"TASK-ID " tk ++ nl)) as Hb.
  { unfold build_header. cbn [im_verb im_reply_to im_task_id im_payload].
    destruct verb as [|c v]; [done|]. set (vb := c :: v) in *.
    match goal with |- (if ?b then inr ?x else _) = inr ?y => assert (x = y) as Hxy end.
    { rewrite <-!app_assoc. done. }
    rewrite Hxy. rewrite <-Hxy in E. rewrite blen_app in E. change (blen nl) with 1 in E.
    rewrite (proj2 (Z.ltb_lt _ _)) by lia. done. }
  eapply build_header_bytes in Hb as (_ & _ & <-). cbn [im_payload]. congruence.
Qed.

(** One line of the header loop. *)
Lemma frame_headers_line fuel rp tk len l s :
  header_line l → frame_headers (S fuel) rp tk len (l ++ NL :: s) =
  match strip_prefix #"LEN " l with
  | Some v => match frame_len v with None => None | Some n => frame_headers fuel rp tk (Some n) s end
  | None =>
  match strip_prefix #"REPLY-TO " l with
  | Some v => let v := if first_is SP v then [] else v in
      frame_headers fuel (if blen v <? MAX_NAME then cstr v else rp) tk len s
  | None =>
  match strip_prefix #"TASK-ID " l with
  | Some v => frame_headers fuel rp (if blen v <? MAX_TASK_ID_INLINE then cstr v else tk) len s
  | None => frame_headers fuel rp tk len s
  end end end.
Proof.
  intros [Hne Hnl]. cbn [frame_headers]. rewrite split_at_app by done. by destruct l.
Qed.

Lemma frame_len_fmt n : 0 ≤ n ≤ MAX_PAYLOAD → frame_len (fmt_d n) = Some n.
Proof.
  unfold MAX_PAYLOAD. intros Hn. unfold fmt_d. rewrite (proj2 (Z.ltb_ge n 0)) by lia.
  unfold frame_len. assert (blen (dec n) ≤ 20) as Hl.
  { unfold blen. pose proof (dec_length n 20). pow10. lia. }
  rewrite (proj2 (Z.leb_gt _ _)) by lia.
  rewrite cstr_id by (apply dec_not_elem; [lia|done]).
  rewrite <-(app_nil_r (dec n)), strtol_dec by (unfold LONG_MAX; done || lia). simpl.
  rewrite (proj2 (Z.ltb_ge n 0)), (proj2 (Z.ltb_ge MAX_PAYLOAD n)) by (unfold MAX_PAYLOAD; lia).
  done.
Qed.

Lemma frame_headers_opt_reply fuel tk len v s :
  text_ok v = true → blen v < MAX_NAME →
  frame_headers (S (S fuel)) [] tk len (foldr (λ l s, l ++ NL :: s) s (opt_line #"REPLY-TO " v)) =
  frame_headers (if bool_decide (v = []) then S (S fuel) else S fuel) v tk len s.
Proof.
  intros Hv Hl. destruct v as [|c v]; [done|].
  cbn [opt_line foldr]. set (x := c :: v) in *. destruct (text_ok_inv x Hv) as (Hs & Hc & Hn).
  rewrite frame_headers_line.
  2:{ split; [done|]. set_solver. }
  solve_clash #"REPLY-TO " x. cbv zeta.
  assert (first_is SP x = false) as -> by (unfold text_ok in Hv; by bool_simpl).
  rewrite (proj2 (Z.ltb_lt _ _)) by done. by rewrite Hc.
Qed.

Lemma frame_headers_opt_task fuel rp len v s :
  text_ok v = true → blen v < MAX_TASK_ID_INLINE →
  frame_headers (S fuel) rp [] len (foldr (λ l s, l ++ NL :: s) (NL :: s) (opt_line #"TASK-ID " v)) =
  frame_headers (if bool_decide (v = []) then S fuel else fuel) rp v len (NL :: s).
Proof.
  intros Hv Hl. destruct v as [|c v]; [done|].
  cbn [opt_line foldr]. set (x := c :: v) in *. destruct (text_ok_inv x Hv) as (Hs & Hc & Hn).
  rewrite frame_headers_line.
  2:{ split; [done|]. set_solver. }
  solve_clash #"TASK-ID " x.
  rewrite (proj2 (Z.ltb_lt _ _)) by done. by rewrite Hc.
Qed.

Lemma parse_frame verb rp tk payload frame :
  agentfs_frame verb rp tk payload = inr frame →
  text_ok verb = true → text_ok rp = true → text_ok tk = true →
  0 < blen verb < MAX_VERB → blen rp < MAX_NAME → blen tk < MAX_TASK_ID_INLINE →
  blen payload ≤ MAX_PAYLOAD →
  parse_framed_in_buf frame = Some (AgentMsgHdr verb rp tk (blen payload), payload).
Proof.
  intros Hf Hv Hr Ht Lv Lr Lt Lp.
  assert (verb ≠ []) as Hne by (destruct verb; [unfold blen in Lv; simpl in Lv; lia|done]).
  apply agentfs_frame_bytes in Hf as ->; [|done].
  destruct (text_ok_inv verb Hv) as (Hs & Hc & Hn).
  unfold header_lines. cbn [im_verb im_reply_to im_task_id im_payload].
  change (header_bytes ([ #"VERB " ++ verb] ++ ?ls) payload)
    with ((#"VERB " ++ verb) ++ NL :: header_bytes ls payload).
  unfold parse_framed_in_buf. rewrite split_at_app by set_solver.
  rewrite strip_prefix_app, Hs.
  rewrite (proj2 (Z.eqb_neq _ _)), (proj2 (Z.leb_gt _ _)) by lia. cbn [orb].
  rewrite !header_bytes_app. cbn [foldr].
  set (rest := (#"LEN " ++ _) ++ _).
  assert (∃ f, length rest = S (S (S f))) as [f ->].
  { unfold rest. rewrite !length_app. change (length #"LEN ") with 4%nat.
    eexists. cbn [Nat.add]. done. }
  unfold rest. pose proof (blen_nonneg payload).
  rewrite frame_headers_line.
  2:{ split; [done|]. unfold fmt_d. rewrite (proj2 (Z.ltb_ge _ 0)) by lia.
      apply not_elem_of_app. split; [set_solver|]. by apply dec_not_elem. }
  rewrite strip_prefix_app, frame_len_fmt by lia.
  rewrite frame_headers_opt_reply by done.
  unfold header_bytes.
  assert (∀ g, frame_headers (S g) rp [] (Some (blen payload))
                 (foldr (λ l s, l ++ NL :: s) (NL :: payload) (opt_line #"TASK-ID " tk)) =
               (if bool_decide (tk = []) then Some (rp, tk, Some (blen payload), payload)
                else frame_headers g rp tk (Some (blen payload)) (NL :: payload))) as Htk.
  { intros g. rewrite frame_headers_opt_task by done. by destruct (bool_decide _). }
  assert (∀ g, frame_headers (S (S g)) rp [] (Some (blen payload))
                 (foldr (λ l s, l ++ NL :: s) (NL :: payload) (opt_line #"TASK-ID " tk)) =
               Some (rp, tk, Some (blen payload), payload)) as Htk2.
  { intros g. rewrite Htk. by destruct (bool_decide _). }
  assert (frame_headers (if bool_decide (rp = []) then S (S (S f)) else S (S f)) rp []
            (Some (blen payload))
            (foldr (λ l s, l ++ NL :: s) (NL :: payload) (opt_line #"TASK-ID " tk)) =
          Some (rp, tk, Some (blen payload), payload)) as ->.
  { destruct (bool_decide (rp = [])); apply Htk2. }
  rewrite Z.ltb_irrefl, Hc. unfold blen. by rewrite Nat2Z.id, firstn_all.
Qed.

(** A message the sender accepts is written to the target's mailbox. *)
Lemma agentfs_send_inv target verb rp tk payload k r k' :
  agentfs_send target verb rp tk payload k = (inr (Some r), k') →
  ∃ frame addr a, agentfs_frame verb rp tk payload = inr frame ∧
    find_inbox k target = Some addr ∧ find (λ a, a_addr a =? addr) (k_agents k) = Some a ∧
    mailbox_write a MBOX_INBOX frame true true = (inr (blen frame), (mailbox_write a MBOX_INBOX frame true true).2) ∧
    k' = set_agents (upd_agent addr (λ a, (mailbox_write a MBOX_INBOX frame true true).2)) k ∧
    blen payload ≤ MAX_PAYLOAD ∧ 0 < blen verb < MAX_VERB.
Proof.
  unfold agentfs_send. intros H. destruct (validate_name target); [|done]. simpl in H.
  destruct (MAX_PAYLOAD <? _) eqn:Ep; [done|]. destruct (_ || _) eqn:Ev; [done|].
  destruct (agentfs_frame _ _ _ _) as [|frame]; [done|].
  destruct (find_inbox k target) as [addr|]; [|done].
  destruct (find _ _) as [a|] eqn:Ea; [|done].
  destruct (mailbox_write a MBOX_INBOX frame true true) as [[e|n] a'] eqn:Em; [done|]. simpl in H.
  destruct (n =? blen frame) eqn:En; [|done]. bool_simpl. subst n.
  exists frame, addr, a. rewrite Em. pose proof (blen_nonneg verb). simplify_eq.
  repeat split; try done. lia.
Qed.

(** ** Properties: the user-space side *)

(** End to end over the kernel mailbox: when [agentfs_send] succeeds on an
    agent whose inbox was empty, the owner's [agentfs_recv] returns exactly the
    verb, reply address, task id and payload that were sent. *)
Theorem agentfs_send_recv target verb rp tk payload k k' a addr :
  kstate_ok k → agentfs_send target verb rp tk payload k = (inr (Some tt), k') →
  find_inbox k target = Some addr → find (λ a, a_addr a =? addr) (k_agents k) = Some a →
  mb_messages (a_inbox a) = [] →
  text_ok verb = true → text_ok rp = true → text_ok tk = true →
  blen rp < MAX_NAME → blen tk < MAX_TASK_ID_INLINE →
  ∃ a', a' ∈ k_agents k' ∧ a_addr a' = addr ∧
    (agentfs_recv a' true).1 =
    Some (inr (AgentMsgHdr verb rp tk (blen payload), payload)).
Proof.
  intros Hk Hs Hi Hf He Hv Hr Ht Lr Lt.
  apply agentfs_send_inv in Hs as (frame & addr' & a0 & Hfr & Hi' & Hf' & Hw & -> & Lp & Lv).
  rewrite Hi in Hi'. injection Hi' as <-. rewrite Hf in Hf'. injection Hf' as <-.
  apply find_some in Hf as [Hin Hadr]. bool_simpl. apply list_elem_of_In in Hin.
  assert (agent_ok a) as Hok by (destruct Hk as [HF _]; rewrite Forall_forall in HF; by apply HF).
  exists (mailbox_write a MBOX_INBOX frame true true).2. split_and!.
  - simpl. unfold upd_agent. apply list_elem_of_fmap. exists a. by rewrite Hadr, Z.eqb_refl.
  - rewrite <-Hadr. apply mailbox_write_id.
  - unfold agentfs_recv, mailbox_read.
    apply mailbox_write_inv in Hw as [(n & [= <-] & _ & Hn & _ & _ & _ & ->)|[Hw' Hr']]; [| |done].
    + cbn [agent_mailbox set_mailbox a_inbox mb_messages]. rewrite He. cbn [app].
      rewrite take_ge.
      2:{ unfold AGENTFS_BUF_CAP, MAX_PAYLOAD, AGENTFS_MAX_MESSAGE, blen in *. lia. }
      by rewrite (parse_frame verb rp tk payload frame).
    + exfalso. destruct Hr' as [[[= Hb] ->]|[e [=]]].
      apply agentfs_frame_bytes in Hfr; [|destruct verb; [unfold blen in Lv; simpl in Lv; lia|done]].
      discriminate Hfr.
Qed.

Definition demo_kstate : kstate :=
  (register_write (Task 7 0 0) #"a" true true None (k0 {[7]})).2.
Lemma demo_kstate_ok : kstate_ok demo_kstate.
Proof. apply (kstep_ok (k0 {[7]})); [apply step_register; set_solver|split; constructor]. Qed.

Lemma agentfs_send_recv_witness :
  ∃ a', a' ∈ k_agents (agentfs_send #"a" #"ask" #"b" #"t1" #"hi" demo_kstate).2 ∧ a_addr a' = 0 ∧
    (agentfs_recv a' true).1 = Some (inr (AgentMsgHdr #"ask" #"b" #"t1" 2, #"hi")).
Proof.
  eapply (agentfs_send_recv #"a" #"ask" #"b" #"t1" #"hi" demo_kstate); try (vm_compute; reflexivity).
  exact demo_kstate_ok.
Defined.

(** The sender's limit and the kernel's limit disagree: a payload within
    [MAX_PAYLOAD] whose frame exceeds the kernel's 1 MiB per message is
    accepted by the sender's checks and refused by the kernel with
    [EMSGSIZE]; in particular no payload of [MAX_PAYLOAD] bytes can be sent. *)
Theorem agentfs_send_full_payload_refused target verb rp tk payload k a addr :
  validate_name target = true → 0 < blen verb < MAX_VERB →
  blen payload ≤ MAX_PAYLOAD →
  blen verb + blen rp + blen tk ≤ 2048 → MAX_PAYLOAD - 10 ≤ blen payload →
  find_inbox k target = Some addr → find (λ a, a_addr a =? addr) (k_agents k) = Some a →
  (agentfs_send target verb rp tk payload k).1 = inl EMSGSIZE.
Proof.
  intros Hn Lv Lp Lh Lp2 Hi Hf. unfold agentfs_send. rewrite Hn. cbn [negb].
  rewrite (proj2 (Z.ltb_ge _ _)) by lia.
  rewrite (proj2 (Z.eqb_neq _ _)), (proj2 (Z.leb_gt _ _)) by lia. cbn [orb].
  pose proof (blen_nonneg payload) as Hp0. unfold agentfs_frame. cbv zeta.
  set (hdr := #"VERB " ++ _).
  assert (10 < blen hdr ≤ 2048 + 48 + 20) as Hh.
  { unfold hdr. unfold fmt_d. rewrite (proj2 (Z.ltb_ge _ 0)) by lia.
    assert (0 < blen (dec (blen payload)) ≤ 20) as Hd.
    { unfold MAX_PAYLOAD in *. pose proof (dec_length (blen payload) 20) as Hl. pow10.
      pose proof (dec_nonempty (blen payload)). destruct (dec (blen payload)); [done|].
      unfold blen in *. cbn [length] in *. lia. }
    assert (∀ key v, blen (opt_header key v) ≤ blen key + blen v + 1) as Ho.
    { intros key v. destruct v; cbn [opt_header]; unfold nl; solve_len. }
    pose proof (Ho #"REPLY-TO " rp). pose proof (Ho #"TASK-ID " tk).
    pose proof (blen_nonneg (opt_header #"REPLY-TO " rp)).
    pose proof (blen_nonneg (opt_header #"TASK-ID " tk)).
    rewrite !blen_app. change (blen #"VERB ") with 5 in *. change (blen #"LEN ") with 4 in *.
    change (blen nl) with 1. change (blen #"REPLY-TO ") with 9 in *.
    change (blen #"TASK-ID ") with 8 in *. lia. }
  unfold AGENTFS_BUF_CAP, MAX_PAYLOAD in *.
  rewrite (proj2 (Z.leb_gt _ _)), (proj2 (Z.ltb_ge _ _)) by lia. cbn [orb].
  rewrite Hi, Hf. unfold mailbox_write.
  rewrite (proj2 (Z.eqb_neq _ _)) by (rewrite blen_app; lia).
  rewrite (proj2 (Z.ltb_lt AGENTFS_MAX_MESSAGE _)) by (unfold AGENTFS_MAX_MESSAGE; rewrite blen_app; lia).
  done.
Qed.

Lemma agentfs_send_full_payload_refused_witness :
  ∃ payload, blen payload = MAX_PAYLOAD ∧
    (agentfs_send #"a" #"ask" [] [] payload demo_kstate).1 = inl EMSGSIZE.
Proof.
  exists (replicate (Z.to_nat MAX_PAYLOAD) "x"%char).
  assert (blen (replicate (Z.to_nat MAX_PAYLOAD) "x"%char) = MAX_PAYLOAD) as Hl.
  { unfold blen. rewrite length_replicate. unfold MAX_PAYLOAD. lia. }
  split; [exact Hl|].
  eapply (agentfs_send_full_payload_refused #"a" #"ask" [] [] _ demo_kstate); rewrite ?Hl;
    try (vm_compute; reflexivity); try (vm_compute; split; congruence || done); done.
Defined.

(** The in-buffer parser does not apply the strictness of the packet
    parser: text after the digits of [LEN] is accepted, a repeated [LEN],
    [REPLY-TO] or [TASK-ID] replaces the first, and a [REPLY-TO] value with a
    leading space is taken as empty. *)
Theorem agentfs_parser_lenient :
  parse_framed_in_buf #"VERB x
LEN 9
LEN 2abc
REPLY-TO a
REPLY-TO  b

hi" = Some (AgentMsgHdr #"x" [] [] 2, #"hi") ∧
  parse_inplace #"VERB x
LEN 2abc

hi" [] = None ∧
  parse_inplace #"VERB x
LEN 2
LEN 2

hi" [] = None.
Proof. split_and!; vm_compute; reflexivity. Qed.
