(* ===== verification/Profiles.v ===== *)
(** * profiles.c: dispatch and artifact policies

    The KEY=VALUE parser of profile and config files, the search path, the
    resolution of an agent's effective configuration, the artifact writer and
    the KEY=VALUE upsert.  A [profile_cfg_t] is threaded as the caller's
    struct: a field the code does not write keeps the value it had. *)

From S2P Require Import Prelude CLib Posix Names Common.

Definition MAX_PROFILE_RAW : nat := 1024.
Definition MAX_PROFILE_NAME : nat := 64.

Inductive dispatch_mode_t := DISPATCH_SINGLE_SHOT | DISPATCH_PERSISTENT | DISPATCH_DELEGATING.
Inductive artifact_policy_t := ARTIFACT_OVERWRITE | ARTIFACT_VERSIONED | ARTIFACT_APPEND_ONLY.
#[export] Instance dispatch_mode_eq_dec : EqDecision dispatch_mode_t.
Proof. solve_decision. Defined.
#[export] Instance artifact_policy_eq_dec : EqDecision artifact_policy_t.
Proof. solve_decision. Defined.

Record profile_cfg_t := ProfileCfg {
  profile_name : bytes;
  dispatch : dispatch_mode_t;
  artifact_policy : artifact_policy_t;
  idle_timeout_sec : Z;
  enforce_fs : Z;
  seccomp : Z;
  cgroup : Z;
  cgroup_memory_max : Z;
  cgroup_pids_max : Z;
  cgroup_cpu_max : bytes;
  raw : bytes
}.

Definition set_profile_name v c := ProfileCfg v (dispatch c) (artifact_policy c) (idle_timeout_sec c)
  (enforce_fs c) (seccomp c) (cgroup c) (cgroup_memory_max c) (cgroup_pids_max c) (cgroup_cpu_max c) (raw c).
Definition set_dispatch v c := ProfileCfg (profile_name c) v (artifact_policy c) (idle_timeout_sec c)
  (enforce_fs c) (seccomp c) (cgroup c) (cgroup_memory_max c) (cgroup_pids_max c) (cgroup_cpu_max c) (raw c).
Definition set_artifact_policy v c := ProfileCfg (profile_name c) (dispatch c) v (idle_timeout_sec c)
  (enforce_fs c) (seccomp c) (cgroup c) (cgroup_memory_max c) (cgroup_pids_max c) (cgroup_cpu_max c) (raw c).
Definition set_idle_timeout v c := ProfileCfg (profile_name c) (dispatch c) (artifact_policy c) v
  (enforce_fs c) (seccomp c) (cgroup c) (cgroup_memory_max c) (cgroup_pids_max c) (cgroup_cpu_max c) (raw c).
Definition set_enforce_fs v c := ProfileCfg (profile_name c) (dispatch c) (artifact_policy c)
  (idle_timeout_sec c) v (seccomp c) (cgroup c) (cgroup_memory_max c) (cgroup_pids_max c)
  (cgroup_cpu_max c) (raw c).
Definition set_seccomp v c := ProfileCfg (profile_name c) (dispatch c) (artifact_policy c)
  (idle_timeout_sec c) (enforce_fs c) v (cgroup c) (cgroup_memory_max c) (cgroup_pids_max c)
  (cgroup_cpu_max c) (raw c).
Definition set_cgroup v c := ProfileCfg (profile_name c) (dispatch c) (artifact_policy c)
  (idle_timeout_sec c) (enforce_fs c) (seccomp c) v (cgroup_memory_max c) (cgroup_pids_max c)
  (cgroup_cpu_max c) (raw c).
Definition set_memory_max v c := ProfileCfg (profile_name c) (dispatch c) (artifact_policy c)
  (idle_timeout_sec c) (enforce_fs c) (seccomp c) (cgroup c) v (cgroup_pids_max c)
  (cgroup_cpu_max c) (raw c).
Definition set_pids_max v c := ProfileCfg (profile_name c) (dispatch c) (artifact_policy c)
  (idle_timeout_sec c) (enforce_fs c) (seccomp c) (cgroup c) (cgroup_memory_max c) v
  (cgroup_cpu_max c) (raw c).
Definition set_cpu_max v c := ProfileCfg (profile_name c) (dispatch c) (artifact_policy c)
  (idle_timeout_sec c) (enforce_fs c) (seccomp c) (cgroup c) (cgroup_memory_max c)
  (cgroup_pids_max c) v (raw c).
Definition set_raw v c := ProfileCfg (profile_name c) (dispatch c) (artifact_policy c)
  (idle_timeout_sec c) (enforce_fs c) (seccomp c) (cgroup c) (cgroup_memory_max c)
  (cgroup_pids_max c) (cgroup_cpu_max c) v.

(** ** Names of the enumerations *)

Definition dispatch_name (m : dispatch_mode_t) : bytes :=
  match m with
  | DISPATCH_SINGLE_SHOT => #"single-shot"
  | DISPATCH_PERSISTENT => #"persistent"
  | DISPATCH_DELEGATING => #"delegating"
  end.
Definition artifact_policy_name (p : artifact_policy_t) : bytes :=
  match p with
  | ARTIFACT_OVERWRITE => #"overwrite"
  | ARTIFACT_VERSIONED => #"versioned"
  | ARTIFACT_APPEND_ONLY => #"append-only"
  end.
Definition parse_dispatch (v : bytes) : dispatch_mode_t :=
  if bytes_eqb v #"single-shot" then DISPATCH_SINGLE_SHOT
  else if bytes_eqb v #"persistent" then DISPATCH_PERSISTENT
  else if bytes_eqb v #"delegating" then DISPATCH_DELEGATING
  else DISPATCH_PERSISTENT.
Definition parse_artifact_policy (v : bytes) : artifact_policy_t :=
  if bytes_eqb v #"overwrite" then ARTIFACT_OVERWRITE
  else if bytes_eqb v #"versioned" then ARTIFACT_VERSIONED
  else if bytes_eqb v #"append-only" then ARTIFACT_APPEND_ONLY
  else ARTIFACT_OVERWRITE.

(** ** KEY=VALUE parsing *)

Definition clamp_idle (v : bytes) : Z :=
  let t := st_val (strtol v) in
  let t := if t <? 0 then 0 else t in
  if 86400 <? t then 86400 else t.

Definition apply_kv (cfg : profile_cfg_t) (k v : bytes) : profile_cfg_t :=
  if bytes_eqb k #"dispatch" then set_dispatch (parse_dispatch v) cfg
  else if bytes_eqb k #"artifact_policy" then set_artifact_policy (parse_artifact_policy v) cfg
  else if bytes_eqb k #"idle_timeout" then set_idle_timeout (to_int32 (clamp_idle v)) cfg
  else if bytes_eqb k #"enforce_fs" then
    set_enforce_fs (if bytes_eqb v #"landlock" then 1 else 0) cfg
  else if bytes_eqb k #"seccomp" then set_seccomp (if bytes_eqb v #"minimal" then 1 else 0) cfg
  else if bytes_eqb k #"cgroup" then set_cgroup (if bytes_eqb v #"on" then 1 else 0) cfg
  else if bytes_eqb k #"CGROUP_MEMORY_MAX" then
    let n := st_val (strtol v) in if 0 <? n then set_memory_max n cfg else cfg
  else if bytes_eqb k #"CGROUP_PIDS_MAX" then
    let n := st_val (strtol v) in if 0 <? n then set_pids_max n cfg else cfg
  else if bytes_eqb k #"CGROUP_CPU_MAX" then set_cpu_max (snprintf_trunc 32 v) cfg
  else cfg.

(** The KEY and VALUE of one line, when it has them: leading blanks skipped,
    comments and lines of 256 bytes or more ignored. *)
Definition kv_of_line (line : bytes) : option (bytes * bytes) :=
  let line := drop_while is_blank line in
  if bytes_eqb line [] || first_is "#" line then None
  else if blen line <? 256 then
    match split_at "=" line with
    | Some (k, v) => Some (rtrim is_blank k, rtrim (λ c, is_blank c || Ascii.eqb c CR) v)
    | None => None
    end
  else None.
Definition parse_line (cfg : profile_cfg_t) (line : bytes) : profile_cfg_t :=
  match kv_of_line line with
  | Some (k, v) => apply_kv cfg k v
  | None => cfg
  end.
Definition parse_lines (cfg : profile_cfg_t) (buf : bytes) : profile_cfg_t :=
  line_loop parse_line (S (length buf)) cfg buf.

(** Only these fields are written; the enforcement fields stay as they were. *)
Definition set_builtin_defaults (cfg : profile_cfg_t) : profile_cfg_t :=
  set_raw [] (set_idle_timeout 0 (set_artifact_policy ARTIFACT_OVERWRITE
    (set_dispatch DISPATCH_PERSISTENT (set_profile_name #"worker" cfg)))).

(** ** Search and load *)

Definition PROFILE_DIRS_DEFAULT : list bytes :=
  [ #"/usr/lib/agents/profiles"; #"/usr/local/lib/agents/profiles"; #"./profiles"].

Definition collect_search_paths (max : nat) : M (list bytes) :=
  env ← sys_getenv #"AGENT_PROFILES_DIR";
  let own := match env with Some (c :: e) => [c :: e] | _ => [] end in
  mret (take (max - 1) (own ++ PROFILE_DIRS_DEFAULT)).

(** [access(path, R_OK)]: the process may read every file that exists. *)
Fixpoint locate_in (dirs : list bytes) (name : bytes) (n : Z) : M bytes :=
  match dirs with
  | [] => throw ENOENT
  | d :: dirs' =>
      match snprintf_ok n (d ++ SLASH :: name ++ #".profile") with
      | None => locate_in dirs' name n
      | Some path =>
          r ← attempt (sys_stat path);
          match r with inr _ => mret path | inl _ => locate_in dirs' name n end
      end
  end.
Definition profile_locate (name : bytes) (n : Z) : M bytes :=
  guard_ EINVAL (negb (bytes_eqb name [])) ;;
  dirs ← collect_search_paths 8;
  locate_in dirs name n.

Definition profile_read_raw (name : bytes) (n : nat) : M bytes :=
  path ← profile_locate name MAX_PATHBUF;
  q ← sys_open_read path;
  r ← attempt (sys_read q 0 (n - 1));
  ignore sys_plain ;;
  match r with inl e => throw e | inr d => mret d end.

(** The [int] result and the struct. *)
Definition profile_load_by_name (name : bytes) (out : profile_cfg_t) : M (bool * profile_cfg_t) :=
  let out := set_profile_name (snprintf_trunc MAX_PROFILE_NAME name) (set_builtin_defaults out) in
  r ← attempt (profile_read_raw name MAX_PROFILE_RAW);
  match r with
  | inl _ => mret (bytes_eqb name #"worker", out)
  | inr buf =>
      let out := set_raw buf out in
      mret (true, parse_lines out (cstr (raw out)))
  end.

Definition profile_word (buf : bytes) : bytes :=
  take (MAX_PROFILE_NAME - 1)
       (take_while (λ c, negb (Ascii.eqb c NL) && negb (is_blank c)) (cstr buf)).

Section profiles.
Context (root : bytes).

Definition agent_profile_name (agent : bytes) : M bytes :=
  r ← attempt (path ← agent_path root agent #"profile"; read_small_file path 128);
  match r with
  | inl _ => mret #"worker"
  | inr buf => match profile_word buf with [] => mret #"worker" | n => mret n end
  end.

Definition profile_load_for_agent (agent : bytes) (out : profile_cfg_t) : M profile_cfg_t :=
  name ← agent_profile_name agent;
  r ← profile_load_by_name name out;
  let '(ok, out) := (r : bool * profile_cfg_t) in
  let out := if ok then out
             else set_profile_name (snprintf_trunc MAX_PROFILE_NAME name)
                    (set_builtin_defaults out) in
  r ← attempt (path ← agent_path root agent #"config"; read_small_file path MAX_PROFILE_RAW);
  match r with
  | inl _ => mret out
  | inr buf => mret (parse_lines out (cstr buf))
  end.

(** ** Artifacts *)

Definition split_stem_ext (base : bytes) (sn en : Z) : option (bytes * bytes) :=
  match split_last "." base with
  | Some (stem, e) =>
      if negb (bytes_eqb stem []) then
        if (sn <=? blen stem) || (en <=? blen ("."%char :: e)) then None
        else Some (stem, "."%char :: e)
      else if sn <=? blen base then None else Some (base, [])
  | None => if sn <=? blen base then None else Some (base, [])
  end.

Definition timestamp_utc (n : Z) : M bytes :=
  t ← sys_time;
  mret (if blen (stamp_compact t) <? n then stamp_compact t else []).

Definition write_artifact (agent base : bytes) (buf : bytes) (policy : artifact_policy_t) : M unit :=
  guard_ EINVAL (valid_artifact_name base) ;;
  match policy with
  | ARTIFACT_OVERWRITE =>
      rel ← of_option ENAMETOOLONG (snprintf_ok 256 (#"artifacts/" ++ base));
      path ← agent_path root agent rel;
      atomic_write_file path buf 384
  | ARTIFACT_VERSIONED =>
      se ← of_option ENAMETOOLONG (split_stem_ext base 128 32);
      ts ← timestamp_utc 24;
      let '(stem, ext) := (se : bytes * bytes) in
      rel ← of_option ENAMETOOLONG
              (snprintf_ok 256 (#"artifacts/" ++ stem ++ #"-" ++ ts ++ ext));
      path ← agent_path root agent rel;
      atomic_write_file path buf 384
  | ARTIFACT_APPEND_ONLY =>
      rel ← of_option ENAMETOOLONG (snprintf_ok 256 (#"artifacts/" ++ base));
      path ← agent_path root agent rel;
      ts ← timestamp_utc 24;
      append_file path (nl ++ #"----- " ++ ts ++ #" -----" ++ nl) 384 ;;
      append_file path buf 384
  end.
End profiles.

(** [profile_list]: the names the callback receives, in order.  Only the
    first 16 are remembered for the duplicate test. *)
Definition profile_entry (e : bytes) : option bytes :=
  if first_is "." e then None
  else if blen e <=? 8 then None
  else if negb (bytes_eqb (drop (length e - 8) e) #".profile") then None
  else let name := take (length e - 8) e in
       if Z.of_nat MAX_PROFILE_NAME <=? blen name then None else Some name.
Definition list_step (st : list bytes * list bytes) (e : bytes) : list bytes * list bytes :=
  let '(seen, out) := st in
  match profile_entry e with
  | None => st
  | Some name =>
      if existsb (bytes_eqb name) seen then st
      else (if (length seen <? 16)%nat then seen ++ [name] else seen, out ++ [name])
  end.
Fixpoint list_dirs (dirs : list bytes) (st : list bytes * list bytes) : M (list bytes * list bytes) :=
  match dirs with
  | [] => mret st
  | d :: dirs' =>
      r ← attempt (sys_readdir d);
      list_dirs dirs' (match r with inl _ => st | inr es => foldl list_step st es end)
  end.
Definition profile_list : M (list bytes) :=
  dirs ← collect_search_paths 8;
  st ← list_dirs dirs ([], []);
  mret (snd st).

(** ** KEY=VALUE upsert *)

(** [p[keylen] == '=' && memcmp(p, kv, keylen) == 0] within the line. *)
Definition kv_line_matches (key line : bytes) : bool := has_prefix (key ++ #"=") line.

(** The rewriting loop over [neu[4096]]: the text so far, whether the key was
    replaced; [None] is [ENAMETOOLONG]. *)
Definition kv_append (cap : Z) (neu s : bytes) : option bytes :=
  if blen neu + blen s + 1 <? cap then Some (neu ++ s ++ nl) else None.
Definition kv_step (key kv : bytes) (st : option (bytes * bool)) (line : bytes) : option (bytes * bool) :=
  match st with
  | None => None
  | Some (neu, replaced) =>
      if kv_line_matches key line then
        match kv_append 4096 neu kv with Some neu => Some (neu, true) | None => None end
      else match line with
           | [] => st
           | _ => match kv_append 4096 neu line with
                  | Some neu => Some (neu, replaced) | None => None end
           end
  end.
Definition kv_rewrite (key kv old : bytes) : option bytes :=
  match line_loop (kv_step key kv) (S (length old)) (Some ([], false)) old with
  | None => None
  | Some (neu, true) => Some neu
  | Some (neu, false) => kv_append 4096 neu kv
  end.

Definition kv_file_set (path kv : bytes) : M unit :=
  match split_at "=" kv with
  | None | Some ([], _) => throw EINVAL
  | Some (key, _) =>
      fd ← attempt (sys_open_read path);
      old ← match fd with
            | inl _ => mret []
            | inr q => r ← attempt (sys_read q 0 4095);
                       ignore sys_plain ;;
                       match r with inl _ => mret [] | inr d => mret d end
            end;
      neu ← of_option ENAMETOOLONG (kv_rewrite key kv (cstr old));
      atomic_write_file path neu 384
  end.

(** ** Reference definitions *)

(** The assignments of a text, in order, and the last one to a key. *)
Definition assignments (buf : bytes) : list (bytes * bytes) := omap kv_of_line (text_lines buf).
Definition last_value (k : bytes) (kvs : list (bytes * bytes)) : option bytes :=
  last (snd <$> filter (λ kv, kv.1 = k) kvs).

(** The upsert as a function on lines. *)
Definition unlines (ls : list bytes) : bytes := concat ((λ l, l ++ nl) <$> ls).
Definition non_empty (l : bytes) : bool := negb (bytes_eqb l []).
Definition kv_lines (key kv : bytes) (ls : list bytes) : list bytes :=
  let ls' := (λ l, if kv_line_matches key l then kv else l) <$> filter (λ l, non_empty l = true) ls in
  if existsb (kv_line_matches key) ls then ls' else ls' ++ [kv].

(** ** Lemmas *)

Lemma parse_lines_assignments cfg buf :
  parse_lines cfg buf = foldl (λ c kv, apply_kv c kv.1 kv.2) cfg (assignments buf).
Proof.
  unfold parse_lines, assignments. rewrite line_loop_spec by lia.
  generalize (text_lines buf). intros ls. revert cfg.
  induction ls as [|l ls IH]; intros cfg; [done|]. simpl. rewrite IH. unfold parse_line.
  by destruct (kv_of_line l) as [[k v]|].
Qed.

(** A field that one key sets and no other touches has the value of the last
    assignment to that key. *)
Lemma field_last {A} (f : profile_cfg_t → A) (k : bytes) (g : bytes → A) :
  (∀ c v, f (apply_kv c k v) = g v) → (∀ c k' v, k' ≠ k → f (apply_kv c k' v) = f c) →
  ∀ cfg buf, f (parse_lines cfg buf) = from_option g (f cfg) (last_value k (assignments buf)).
Proof.
  intros Hk Ho cfg buf. rewrite parse_lines_assignments. generalize (assignments buf). intros kvs.
  unfold last_value. induction kvs as [|[k' v] kvs IH] using rev_ind; [done|].
  rewrite foldl_app, filter_app, fmap_app. simpl.
  destruct (decide (k' = k)) as [->|Hne].
  - rewrite Hk, filter_cons_True, filter_nil by done. simpl. by rewrite last_snoc.
  - rewrite Ho, filter_cons_False, filter_nil by done. simpl. by rewrite app_nil_r.
Qed.

(** Discharge the two conditions of [field_last] for a concrete key. *)
Ltac field_key :=
  intros; unfold apply_kv;
  repeat match goal with
  | H : ?k ≠ ?l |- context [bytes_eqb ?k ?l] => rewrite (proj2 (bytes_eqb_neq k l) H)
  | |- context [bytes_eqb ?k ?l] => destruct (bytes_eqb k l) eqn:?; bool_simpl; subst
  | |- context [if ?b then _ else _] => destruct b
  end; reflexivity || congruence || discriminate.

Lemma enforcement_last cfg buf :
  let val k := last_value k (assignments buf) in
  enforce_fs (parse_lines cfg buf) =
    from_option (λ v, if bytes_eqb v #"landlock" then 1 else 0) (enforce_fs cfg) (val #"enforce_fs") ∧
  seccomp (parse_lines cfg buf) =
    from_option (λ v, if bytes_eqb v #"minimal" then 1 else 0) (seccomp cfg) (val #"seccomp") ∧
  cgroup (parse_lines cfg buf) =
    from_option (λ v, if bytes_eqb v #"on" then 1 else 0) (cgroup cfg) (val #"cgroup").
Proof. repeat split; apply field_last; field_key. Qed.

Lemma clamp_idle_range v : 0 ≤ clamp_idle v ≤ 86400.
Proof. unfold clamp_idle. cbv zeta. repeat case_match; bool_simpl; lia. Qed.

Lemma to_int32_id z : - 2147483648 ≤ z ≤ INT_MAX → to_int32 z = z.
Proof. unfold to_int32, INT_MAX. lia. Qed.

Lemma unlines_app a b : unlines (a ++ b) = unlines a ++ unlines b.
Proof. unfold unlines. by rewrite fmap_app, concat_app. Qed.

Lemma unlines_one l : unlines [l] = l ++ nl.
Proof. unfold unlines. simpl. by rewrite app_nil_r. Qed.

Lemma kv_append_spec cap t s :
  kv_append cap t s = if blen (t ++ unlines [s]) <? cap then Some (t ++ unlines [s]) else None.
Proof.
  unfold kv_append. rewrite unlines_one, !blen_app, Z.add_assoc. by change (blen nl) with 1.
Qed.

Lemma kv_line_nonempty key l : kv_line_matches key l = true → non_empty l = true.
Proof.
  intros [r Hr]%has_prefix_spec. apply negb_true_iff, bytes_eqb_neq. rewrite Hr. by destruct key.
Qed.

(** The capacity checks along the loop amount to one check of the result. *)
Lemma kv_loop_spec key kv ls :
  foldl (kv_step key kv) (Some ([], false)) ls =
  let t := unlines ((λ l, if kv_line_matches key l then kv else l)
                    <$> filter (λ l, non_empty l = true) ls) in
  if blen t <? 4096 then Some (t, existsb (kv_line_matches key) ls) else None.
Proof.
  induction ls as [|l ls IH] using rev_ind; [done|].
  rewrite foldl_app, IH. cbv zeta. rewrite filter_app, fmap_app, unlines_app, existsb_app.
  cbn [foldl existsb]. set (t := unlines (_ <$> filter _ ls)).
  assert (∀ r, 4096 ≤ blen t → (blen (t ++ r) <? 4096) = false) as Hbig.
  { intros r Ht. apply Z.ltb_ge. rewrite blen_app. solve_len. }
  destruct (non_empty l) eqn:Hne.
  - rewrite filter_cons_True, filter_nil, list_fmap_singleton by done.
    destruct (blen t <? 4096) eqn:Et; bool_simpl; [|by rewrite Hbig]. cbn [kv_step].
    destruct (kv_line_matches key l) eqn:Em.
    + rewrite kv_append_spec, orb_true_r. by destruct (_ <? 4096).
    + destruct l as [|x l]; [done|]. rewrite kv_append_spec, !orb_false_r. by destruct (_ <? 4096).
  - rewrite filter_cons_False, filter_nil by congruence. cbn [fmap list_fmap]. rewrite app_nil_r.
    destruct (kv_line_matches key l) eqn:Em; [apply kv_line_nonempty in Em; congruence|].
    rewrite !orb_false_r. apply negb_false_iff, bytes_eqb_eq in Hne. subst l.
    destruct (blen t <? 4096); [|done]. cbn [kv_step]. by rewrite Em.
Qed.

Lemma kv_rewrite_spec key kv old :
  kv_rewrite key kv old =
  let t := unlines (kv_lines key kv (text_lines old)) in
  if blen t <? 4096 then Some t else None.
Proof.
  unfold kv_rewrite. rewrite line_loop_spec, kv_loop_spec by lia. unfold kv_lines. cbv zeta.
  set (t := (_ <$> _)). destruct (existsb _ _).
  - by destruct (blen _ <? 4096).
  - rewrite unlines_app. destruct (blen (unlines t) <? 4096) eqn:Et; bool_simpl.
    + by rewrite kv_append_spec.
    + rewrite (proj2 (Z.ltb_ge _ _)); [done|]. rewrite blen_app. solve_len.
Qed.

Lemma text_lines_unlines ls : Forall (λ l, NL ∉ l) ls → text_lines (unlines ls) = ls.
Proof.
  induction 1 as [|l ls Hl _ IH]; [done|].
  change (unlines (l :: ls)) with ((l ++ nl) ++ unlines ls). rewrite <-app_assoc.
  change (nl ++ unlines ls) with (NL :: unlines ls). by rewrite text_lines_cons, IH.
Qed.

Lemma elem_of_kv_lines key kv ls l :
  l ∈ kv_lines key kv ls ↔
  l = kv ∨ (l ∈ ls ∧ non_empty l = true ∧ kv_line_matches key l = false).
Proof.
  unfold kv_lines. cbv zeta. set (g := λ l, if kv_line_matches key l then kv else l).
  assert (l ∈ g <$> filter (λ l, non_empty l = true) ls ↔
    (l = kv ∧ existsb (kv_line_matches key) ls = true) ∨
    (l ∈ ls ∧ non_empty l = true ∧ kv_line_matches key l = false)) as Hg.
  { rewrite list_elem_of_fmap. setoid_rewrite list_elem_of_filter. unfold g. split.
    - intros (y & -> & Hy & Hin). destruct (kv_line_matches key y) eqn:Em; [|by right].
      left. split; [done|]. apply existsb_exists. exists y. by rewrite <-list_elem_of_In.
    - intros [[-> (y & Hy & Em)%existsb_exists]|(Hin & Hne & Em)].
      + exists y. rewrite Em, list_elem_of_In. split; [done|]. by apply kv_line_nonempty in Em.
      + exists l. by rewrite Em. }
  destruct (existsb _ _) eqn:Ex; [rewrite Hg; naive_solver|].
  rewrite elem_of_app, Hg, list_elem_of_singleton. naive_solver.
Qed.

(** The lines of other keys, in order, are those of the old text. *)
Lemma kv_lines_others key kv ls :
  kv_line_matches key kv = true →
  filter (λ l, kv_line_matches key l = false) (kv_lines key kv ls) =
  filter (λ l, kv_line_matches key l = false) (filter (λ l, non_empty l = true) ls).
Proof.
  intros Hkv. unfold kv_lines. cbv zeta.
  assert (∀ ls : list bytes, filter (λ l, kv_line_matches key l = false)
      ((λ l, if kv_line_matches key l then kv else l) <$> ls) =
      filter (λ l, kv_line_matches key l = false) ls) as HH.
  { clear ls. intros ls. induction ls as [|l ls IH]; [done|]. rewrite fmap_cons.
    destruct (kv_line_matches key l) eqn:Em.
    - by rewrite !filter_cons_False, IH by congruence.
    - by rewrite !filter_cons_True, IH by done. }
  destruct (existsb _ _); [apply HH|]. rewrite filter_app, HH, filter_cons_False, filter_nil by congruence.
  apply app_nil_r.
Qed.

Lemma split_kv key v : "="%char ∉ key → split_at "=" (key ++ #"=" ++ v) = Some (key, v).
Proof. intros. by apply split_at_app. Qed.

(** ** Properties *)


Definition demo_config : world :=
  set_fs (<[ #"/r/agents/a/config/config" :=
            Node (KReg (#"dispatch=persistent" ++ nl ++ nl ++ #"idle_timeout=5" ++ nl)) 384 1000]>)
         demo_world.


(** A failed [open] (say [EMFILE] or [EINTR]) is taken for a missing file:
    the upsert then succeeds and replaces the whole file by the single new
    assignment, so every other setting of the agent is lost. *)
Theorem kv_file_set_read_failure path key v e s w w' :
  let kv := key ++ #"=" ++ v in
  w_sched w = Fail e :: s → key ≠ [] → "="%char ∉ key → NL ∉ kv →
  kv_file_set path kv w = (inr tt, w') →
  w_fs w' = <[path := Node (KReg (kv ++ nl)) 384 (w_uid w)]> (w_fs w).
Proof.
  intros kv Hs Hk He Hnl E.
  unfold kv_file_set in E. unfold kv in E at 1. rewrite split_kv in E by done. destruct key as [|k0 key0]; [done|].
  rewrite bind_attempt in E. unfold sys_open_read, sys in E. rewrite bind_unfold in E.
  unfold pop in E. rewrite Hs in E. cbn [throw] in E. rewrite bind_ret, bind_of_option in E.
  rewrite kv_rewrite_spec in E. cbv zeta in E. destruct (_ <? 4096); [|done].
  apply atomic_write_file_inv in E as [_ E]. rewrite E. cbn. by rewrite app_nil_r.
Qed.

Lemma kv_file_set_read_failure_witness :
  w_fs (exec (kv_file_set #"/r/agents/a/config/config" #"idle_timeout=9")
             (set_sched [Fail EMFILE] demo_config)) !! #"/r/agents/a/config/config" =
  Some (Node (KReg (#"idle_timeout=9" ++ nl)) 384 1000).
Proof.
  rewrite (kv_file_set_read_failure #"/r/agents/a/config/config" #"idle_timeout" #"9" EMFILE []
    (set_sched [Fail EMFILE] demo_config)); [by apply lookup_insert_eq|done|done|..].
  - vm_compute. not_in_list.
  - vm_compute. not_in_list.
  - apply run_exec. vm_compute. reflexivity.
Defined.

(** The parser of profile and config files is "the last assignment wins",
    field by field and independently: the idle timeout is always clamped to a
    day, an unknown word falls back to the category's default, and a field no
    line assigns keeps its previous value. *)
Theorem profile_last_wins cfg buf :
  let c := parse_lines cfg buf in
  let val k := last_value k (assignments buf) in
  dispatch c = from_option parse_dispatch (dispatch cfg) (val #"dispatch") ∧
  artifact_policy c = from_option parse_artifact_policy (artifact_policy cfg) (val #"artifact_policy") ∧
  idle_timeout_sec c = from_option clamp_idle (idle_timeout_sec cfg) (val #"idle_timeout") ∧
  (is_Some (val #"idle_timeout") → 0 ≤ idle_timeout_sec c ≤ 86400) ∧
  enforce_fs c = from_option (λ v, if bytes_eqb v #"landlock" then 1 else 0) (enforce_fs cfg) (val #"enforce_fs") ∧
  seccomp c = from_option (λ v, if bytes_eqb v #"minimal" then 1 else 0) (seccomp cfg) (val #"seccomp") ∧
  cgroup c = from_option (λ v, if bytes_eqb v #"on" then 1 else 0) (cgroup cfg) (val #"cgroup").
Proof.
  intros c val.
  assert (idle_timeout_sec c = from_option clamp_idle (idle_timeout_sec cfg) (val #"idle_timeout")) as Hi.
  { apply (field_last idle_timeout_sec #"idle_timeout" clamp_idle); [|field_key].
    intros. cbn. apply to_int32_id. pose proof (clamp_idle_range v). unfold INT_MAX. lia. }
  split; [unfold c, val; apply field_last; field_key|].
  split; [unfold c, val; apply field_last; field_key|].
  split; [exact Hi|]. split; [|apply enforcement_last].
  intros [v Hv]. rewrite Hi, Hv. apply clamp_idle_range.
Qed.

(** [profile_load_by_name] leaves the enforcement fields of the caller's
    struct as they were unless the profile text assigns them: with no profile
    file (the built-in "worker") whatever the struct held decides whether
    Landlock, seccomp and cgroups are requested. *)
Theorem profile_enforcement_inherited name cfg w ok cfg' w' :
  profile_load_by_name name cfg w = (inr (ok, cfg'), w') →
  let kvs := assignments (cstr (raw cfg')) in
  (last_value #"enforce_fs" kvs = None → enforce_fs cfg' = enforce_fs cfg) ∧
  (last_value #"seccomp" kvs = None → seccomp cfg' = seccomp cfg) ∧
  (last_value #"cgroup" kvs = None → cgroup cfg' = cgroup cfg).
Proof.
  intros E. unfold profile_load_by_name in E. rewrite bind_attempt in E.
  destruct (profile_read_raw _ _ w) as [[e|buf] w1]; run_in E; simplify_eq; [done|].
  set (c0 := set_raw buf _).
  assert (raw (parse_lines c0 (cstr buf)) = buf) as ->.
  { rewrite parse_lines_assignments. change buf with (raw c0) at 2.
    generalize (assignments (cstr buf)). generalize c0. clear.
    intros c0 kvs. revert c0. induction kvs as [|[k v] kvs IH]; intros c0; [done|]. cbn [foldl].
    rewrite IH. unfold apply_kv. cbv zeta. repeat case_match; reflexivity. }
  destruct (enforcement_last c0 (cstr buf)) as (H1 & H2 & H3).
  rewrite H1, H2, H3. repeat split; by intros ->.
Qed.

Definition garbage_cfg : profile_cfg_t :=
  ProfileCfg [] DISPATCH_PERSISTENT ARTIFACT_OVERWRITE 0 1 1 1 0 0 [] [].

Lemma profile_enforcement_inherited_witness :
  ∃ cfg', run (profile_load_by_name #"worker" garbage_cfg) demo_world = inr (true, cfg') ∧
          enforce_fs cfg' = 1 ∧ seccomp cfg' = 1 ∧ cgroup cfg' = 1.
Proof.
  assert (∃ cfg', run (profile_load_by_name #"worker" garbage_cfg) demo_world = inr (true, cfg') ∧
    assignments (cstr (raw cfg')) = []) as (cfg' & Hr & Ha).
  { eexists. split; [vm_compute; reflexivity|reflexivity]. }
  exists cfg'. split; [done|].
  destruct (profile_enforcement_inherited #"worker" garbage_cfg demo_world true cfg' _
              (run_exec _ _ _ Hr)) as (H1 & H2 & H3).
  rewrite Ha in *. repeat split; [apply H1|apply H2|apply H3]; done.
Defined.
