(* ===== verification/Tasks.v ===== *)
(** * tasks.c: the per-agent task store

    Tasks are directories [data/tasks/<id>/] of small files: state, status,
    metadata, an event log, artifacts, checkpoints; the pending table is
    [data/pending/<id>.<downstream>].  The process-wide sequence cache
    [g_seq] is passed explicitly. *)

From S2P Require Import Prelude CLib Posix Names Common Profiles.

Inductive task_state_t :=
| TASK_QUEUED | TASK_RUNNING | TASK_DELEGATED | TASK_COMPLETED | TASK_FAILED | TASK_CANCELLED.
#[export] Instance task_state_eq_dec : EqDecision task_state_t.
Proof. solve_decision. Defined.

Definition task_state_name (s : task_state_t) : bytes :=
  match s with
  | TASK_QUEUED => #"queued" | TASK_RUNNING => #"running" | TASK_DELEGATED => #"delegated"
  | TASK_COMPLETED => #"completed" | TASK_FAILED => #"failed" | TASK_CANCELLED => #"cancelled"
  end.

Definition parse_state (s : bytes) : option task_state_t :=
  if bytes_eqb s #"queued" then Some TASK_QUEUED
  else if bytes_eqb s #"running" then Some TASK_RUNNING
  else if bytes_eqb s #"delegated" then Some TASK_DELEGATED
  else if bytes_eqb s #"completed" then Some TASK_COMPLETED
  else if bytes_eqb s #"failed" then Some TASK_FAILED
  else if bytes_eqb s #"cancelled" then Some TASK_CANCELLED
  else None.

Definition is_active (s : task_state_t) : bool :=
  match s with TASK_QUEUED | TASK_RUNNING | TASK_DELEGATED => true | _ => false end.

(** [strcmp] order, for [qsort]. *)
Fixpoint strcmp_le (a b : bytes) : bool :=
  match a, b with
  | [], _ => true
  | _ :: _, [] => false
  | x :: a', y :: b' => if code x =? code y then strcmp_le a' b' else code x <? code y
  end.

Definition strcmp_rel (a b : bytes) : Prop := strcmp_le a b = true.
#[export] Instance strcmp_rel_dec : RelDecision strcmp_rel.
Proof. intros a b. apply (_ : Decision (_ = true)). Defined.

(** [g_seq]: at most [MAX_SEQ_AGENTS] entries (agent name cut at 63, last number). *)
Definition MAX_SEQ_AGENTS : nat := 4.
Abbreviation seq_table := (list (bytes * Z)).

Fixpoint seq_bump (agent : bytes) (t : seq_table) : option (Z * seq_table) :=
  match t with
  | [] => None
  | (a, n) :: t' =>
      if bytes_eqb a agent then Some (n + 1, (a, n + 1) :: t')
      else match seq_bump agent t' with
           | Some (v, t2) => Some (v, (a, n) :: t2)
           | None => None
           end
  end.

(** The stem and extension of a versioned artifact. *)
Definition split_ext (base_filename : bytes) : option (bytes * bytes) :=
  match split_last "." base_filename with
  | Some (c :: st, ext) =>
      if (128 <=? blen (c :: st)) || (32 <=? blen ext + 1) then None
      else Some (c :: st, "."%char :: ext)
  | _ => Some (snprintf_trunc 128 base_filename, [])
  end.

Section tasks.
Context (root : bytes).

Definition task_rel (task_id leaf : bytes) : bytes :=
  #"tasks/" ++ task_id ++ match leaf with [] => [] | _ => SLASH :: leaf end.

Definition task_leaf_path (agent task_id leaf : bytes) : M bytes :=
  guard_ EINVAL (task_validate_id task_id) ;;
  rel ← of_option ENAMETOOLONG (snprintf_ok 256 (task_rel task_id leaf));
  agent_path root agent rel.

Definition tasks_root (agent : bytes) : M bytes := agent_path root agent #"tasks".

(** *** Ids *)

Definition seq_of_name (e : bytes) : Z :=
  if first_is "." e then 0
  else match split_last "-" e with
       | None => 0
       | Some (_, d) => st_val (strtol d)
       end.
Definition load_max_seq (agent : bytes) : M Z :=
  r ← attempt (tasks_root agent);
  match r with
  | inl _ => mret 0
  | inr p =>
      es ← attempt (sys_readdir p);
      match es with
      | inl _ => mret 0
      | inr es => mret (foldl (λ m e, if m <? seq_of_name e then seq_of_name e else m) 0 es)
      end
  end.

Definition get_next_seq (agent : bytes) (t : seq_table) : M (Z * seq_table) :=
  match seq_bump agent t with
  | Some r => mret r
  | None =>
      m ← load_max_seq agent;
      if (length t <? MAX_SEQ_AGENTS)%nat
      then mret (m + 1, t ++ [(snprintf_trunc 64 agent, m + 1)])
      else mret (m + 1, t)
  end.

Definition task_alloc_id (agent : bytes) (n : Z) (t : seq_table) : M (bytes * seq_table) :=
  guard_ EINVAL (validate_name agent) ;;
  r ← get_next_seq agent t;
  now ← sys_time;
  id ← of_option ENAMETOOLONG (snprintf_ok n (stamp_compact now ++ #"-" ++ fmt_0d 4 r.1));
  mret (id, r.2).

(** *** Files of one task *)

Definition task_dir (agent task_id : bytes) : M bytes := task_leaf_path agent task_id [].

Definition iso_line (now : Z) : bytes := stamp_iso now ++ nl.

Definition write_text_line (agent task_id leaf value : bytes) : M unit :=
  p ← task_leaf_path agent task_id leaf;
  guard_ E2BIG (blen value + 2 <=? 1024) ;;
  atomic_write_file p (value ++ nl) 384.

Definition task_set_state (agent task_id : bytes) (s : task_state_t) : M unit :=
  write_text_line agent task_id #"state" (task_state_name s) ;;
  now ← sys_time;
  p ← attempt (task_leaf_path agent task_id #"updated_at");
  match p with
  | inr path => ignore (atomic_write_file path (iso_line now) 384)
  | inl _ => mret tt
  end.

Definition task_set_status (agent task_id status : bytes) : M unit :=
  write_text_line agent task_id #"status" status.

Definition event_line (now : Z) (msg : bytes) : bytes :=
  take 510 (stamp_iso now ++ #" " ++ msg) ++ nl.
Definition task_append_event (agent task_id msg : bytes) : M unit :=
  path ← task_leaf_path agent task_id #"events.log";
  now ← sys_time;
  append_file path (event_line now msg) 384.

(** A file of the new task that must be written. *)
Definition write_task_file (agent task_id leaf data : bytes) : M unit :=
  path ← task_leaf_path agent task_id leaf;
  atomic_write_file path data 384.

(** A sub-directory of the new task, whose [mkdir] may fail. *)
Definition make_task_subdir (agent task_id leaf : bytes) : M unit :=
  sub ← task_leaf_path agent task_id leaf;
  ignore (sys_mkdir sub 448).

Definition task_create (agent task_id verb : bytes) (sender : option bytes)
    (sender_pid sender_uid : Z) (reply_to incoming_task_id payload : bytes) : M unit :=
  guard_ EINVAL (task_validate_id task_id) ;;
  troot ← tasks_root agent;
  ensure_dir troot 448 ;;
  dir ← task_dir agent task_id;
  sys_mkdir dir 448 ;;
  make_task_subdir agent task_id #"artifacts" ;;
  make_task_subdir agent task_id #"checkpoints" ;;
  now ← sys_time;
  write_task_file agent task_id #"created_at" (iso_line now) ;;
  write_task_file agent task_id #"updated_at" (iso_line now) ;;
  ignore (write_text_line agent task_id #"verb" verb) ;;
  ignore (write_text_line agent task_id #"sender" (default #"-" sender)) ;;
  ignore (write_text_line agent task_id #"sender_pid" (fmt_d sender_pid)) ;;
  ignore (write_text_line agent task_id #"sender_uid" (fmt_d sender_uid)) ;;
  (if bytes_eqb reply_to [] then mret tt
   else ignore (write_text_line agent task_id #"reply_to" reply_to)) ;;
  (if bytes_eqb incoming_task_id [] then mret tt
   else ignore (write_text_line agent task_id #"incoming_task_id" incoming_task_id)) ;;
  (if bytes_eqb payload [] then mret tt
   else write_task_file agent task_id #"payload" payload) ;;
  task_set_state agent task_id TASK_QUEUED ;;
  task_set_status agent task_id #"queued" ;;
  ignore (task_append_event agent task_id
            (#"created verb=" ++ verb ++ #" sender=" ++ default #"-" sender)).

Definition task_read_string (agent task_id leaf : bytes) (n : nat) : M bytes :=
  path ← task_leaf_path agent task_id leaf;
  read_small_file path n.

Definition task_read_state (agent task_id : bytes) : M task_state_t :=
  buf ← task_read_string agent task_id #"state" 64;
  of_option EINVAL
    (parse_state (rtrim (λ c, Ascii.eqb c NL || Ascii.eqb c SP) (cstr buf))).

(** *** Iteration, counts, recovery *)

(** The ids [task_iterate] visits, in order: the first 256 valid names of
    the directory, sorted. *)
Definition task_ids (agent : bytes) : M (list bytes) :=
  r ← attempt (tasks_root agent);
  match r with
  | inl _ => mret []
  | inr p =>
      es ← attempt (sys_readdir p);
      match es with
      | inl _ => mret []
      | inr es =>
          mret (merge_sort strcmp_rel
                           (take 256 (filter (λ e, task_validate_id e = true) es)))
      end
  end.
Definition task_iterate (agent : bytes) (cb : bytes → M unit) : M unit :=
  ids ← task_ids agent; for_each ids cb.

(** The counting callbacks accumulate through [ud]. *)
Fixpoint count_ids (ids : list bytes) (f : bytes → M bool) : M Z :=
  match ids with
  | [] => mret 0
  | id :: ids' => b ← f id; n ← count_ids ids' f; mret (M:=M) (if (b : bool) then (n : Z) + 1 else n)
  end.

Definition task_count_total (agent : bytes) : M Z :=
  ids ← task_ids agent; count_ids ids (λ _, mret true).

Definition inc_active (agent id : bytes) : M bool :=
  st ← attempt (task_read_state agent id);
  match st with inr s => mret (is_active s) | inl _ => mret false end.
Definition task_count_active (agent : bytes) : M Z :=
  ids ← task_ids agent; count_ids ids (inc_active agent).

Definition recover_one (agent id : bytes) : M bool :=
  st ← attempt (task_read_state agent id);
  match st with
  | inr s =>
      if is_active s then
        ignore (task_set_state agent id TASK_FAILED) ;;
        ignore (task_set_status agent id #"failed: interrupted by restart") ;;
        ignore (task_append_event agent id #"recovery: interrupted") ;;
        mret true
      else mret false
  | inl _ => mret false
  end.
Definition task_recover_interrupted (agent : bytes) : M Z :=
  ids ← task_ids agent; count_ids ids (recover_one agent).

(** *** Artifacts *)

Definition task_write_artifact (agent task_id base_filename data : bytes)
    (policy : artifact_policy_t) : M unit :=
  guard_ EINVAL (task_validate_id task_id && task_validate_artifact_name base_filename) ;;
  match policy with
  | ARTIFACT_OVERWRITE =>
      rel ← of_option ENAMETOOLONG (snprintf_ok 256 (#"artifacts/" ++ base_filename));
      path ← task_leaf_path agent task_id rel;
      atomic_write_file path data 384
  | ARTIFACT_VERSIONED =>
      se ← of_option ENAMETOOLONG (split_ext base_filename);
      now ← sys_time;
      rel ← of_option ENAMETOOLONG
              (snprintf_ok 256 (#"artifacts/" ++ se.1 ++ #"-" ++ stamp_compact now ++ se.2));
      path ← task_leaf_path agent task_id rel;
      atomic_write_file path data 384
  | ARTIFACT_APPEND_ONLY =>
      rel ← of_option ENAMETOOLONG (snprintf_ok 256 (#"artifacts/" ++ base_filename));
      path ← task_leaf_path agent task_id rel;
      now ← sys_time;
      append_file path (nl ++ #"----- " ++ stamp_compact now ++ #" -----" ++ nl) 384 ;;
      append_file path data 384
  end.

(** *** The pending table *)

Definition pending_root (agent : bytes) : M bytes := agent_path root agent #"pending".

Definition pending_path (agent task_id downstream : bytes) : M bytes :=
  guard_ EINVAL (task_validate_id task_id && validate_name downstream) ;;
  r ← pending_root agent;
  of_option ENAMETOOLONG (snprintf_ok MAX_PATHBUF (r ++ SLASH :: task_id ++ #"." ++ downstream)).

Definition pending_add (agent task_id downstream : bytes) : M unit :=
  r ← pending_root agent;
  ensure_dir r 448 ;;
  path ← pending_path agent task_id downstream;
  q ← sys_open_create path true 384;
  now ← sys_time;
  ignore (write_all q (iso_line now)) ;;
  ignore sys_plain.

Definition pending_remove (agent task_id downstream : bytes) : M unit :=
  path ← pending_path agent task_id downstream;
  r ← attempt (sys_unlink path);
  match r with
  | inr _ | inl ENOENT => mret tt
  | inl e => throw e
  end.

Definition pending_matches (task_id e : bytes) : bool :=
  negb (first_is "." e) &&
  match strip_prefix task_id e with Some r => first_is "." r | None => false end.
Definition pending_count_for_task (agent task_id : bytes) : M Z :=
  guard_ EINVAL (task_validate_id task_id) ;;
  r ← pending_root agent;
  es ← attempt (sys_readdir r);
  match es with
  | inl _ => mret 0
  | inr es => mret (blen (filter (λ e, pending_matches task_id e = true) es))
  end.

(** *** Checkpoints *)

Definition checkpoint_num (e : bytes) : Z :=
  match strip_prefix #"checkpoint-" e with Some d => atoi d | None => 0 end.
Definition task_write_checkpoint (agent task_id content : bytes) : M unit :=
  dir ← task_leaf_path agent task_id #"checkpoints";
  ensure_dir dir 448 ;;
  es ← attempt (sys_readdir dir);
  let max_n := match es with
               | inr es => foldl (λ m e, if m <? checkpoint_num e then checkpoint_num e else m) 0 es
               | inl _ => 0
               end in
  path ← of_option ENAMETOOLONG
           (snprintf_ok MAX_PATHBUF (dir ++ #"/checkpoint-" ++ fmt_0d 4 (max_n + 1)));
  atomic_write_file path content 384.
End tasks.

(** ** Lemmas: task paths *)

Lemma task_rel_class id leaf : leaf_class (task_rel id leaf) = #"data".
Proof.
  unfold leaf_class. set (x := task_rel id leaf).
  assert (∀ l, l ∈ config_leaves ++ runtime_leaves → bytes_eqb x l = false) as H.
  { intros l Hl. apply bytes_eqb_neq. unfold x, task_rel. intros <-.
    repeat (apply elem_of_cons in Hl as [Hl|Hl]; [discriminate Hl|]). by apply not_elem_of_nil in Hl. }
  assert (∀ ls, (∀ l, l ∈ ls → bytes_eqb x l = false) → existsb (bytes_eqb x) ls = false) as HE.
  { induction ls as [|l ls IH]; intros Hls; [done|]. simpl. rewrite Hls by by left.
    apply IH. intros; apply Hls. by right. }
  rewrite !HE; [done|intros; apply H, elem_of_app; tauto..].
Qed.

Lemma task_rel_slash id leaf : SLASH ∈ task_rel id leaf.
Proof. unfold task_rel. apply elem_of_app. left. by apply (bool_decide_unpack _); vm_compute. Qed.

Lemma shrinks_task_leaf_path root agent id leaf : shrinks (task_leaf_path root agent id leaf).
Proof. unfold task_leaf_path. shrink. Qed.
#[export] Hint Resolve shrinks_task_leaf_path : shrink.
Lemma shrinks_write_text_line root agent id leaf v : shrinks (write_text_line root agent id leaf v).
Proof. unfold write_text_line. shrink. Qed.
#[export] Hint Resolve shrinks_write_text_line : shrink.

Lemma shrinks_get_next_seq root agent t : shrinks (get_next_seq root agent t).
Proof. unfold get_next_seq, load_max_seq, tasks_root. shrink. Qed.
#[export] Hint Resolve shrinks_get_next_seq : shrink.

Section task_lemmas.
Context (root : bytes).

Definition task_path (agent id leaf : bytes) : bytes := leaf_path root agent (task_rel id leaf).

Lemma task_leaf_path_inv agent id leaf w p w' :
  task_leaf_path root agent id leaf w = (inr p, w') →
  p = task_path agent id leaf ∧ task_validate_id id = true ∧ validate_name agent = true.
Proof.
  unfold task_leaf_path. rewrite bind_guard. destruct (task_validate_id id); [|done].
  rewrite bind_of_option. destruct (snprintf_ok _ _) as [rel|] eqn:E; [|done].
  apply snprintf_ok_Some in E as [-> _]. intros H. eapply agent_path_inv in H; [|done].
  by destruct H as (-> & ? & _).
Qed.

(** With the layout in place and no failure ahead, building a task path has
    no effect. *)
Lemma task_leaf_path_quiet agent id leaf w m u :
  w_sched w = [] → validate_name agent = true → task_validate_id id = true →
  blen (base_of root agent) + 300 < MAX_PATHBUF → blen (task_rel id leaf) < 256 →
  w_fs w !! (base_of root agent ++ #"/config") = Some (Node KDir m u) →
  task_leaf_path root agent id leaf w = (inr (task_path agent id leaf), w).
Proof.
  intros Hs Ha Hid Hl Hrel Hcfg. unfold task_leaf_path. rewrite bind_guard, Hid, bind_of_option.
  unfold snprintf_ok. rewrite (proj2 (Z.ltb_lt _ _)) by done.
  destruct (agent_path_quiet root agent (task_rel id leaf) w m u) as (w' & -> & _ & Hw & _);
    [done|done|lia|done|]. by rewrite Hw by apply task_rel_slash.
Qed.

Lemma confined_task_leaf_path agent id leaf :
  confined (in_agent root agent) (task_leaf_path root agent id leaf).
Proof. unfold task_leaf_path. confine. Qed.

(** An operation that starts by building a task path. *)
Lemma confined_at_task {B} agent id leaf (f : bytes → M B) :
  confined (in_agent root agent) (f (task_path agent id leaf)) →
  confined (in_agent root agent) (task_leaf_path root agent id leaf ≫= f).
Proof.
  intros Hf. eapply (confined_bind_inv _ (λ p, p = task_path agent id leaf));
    [apply confined_task_leaf_path| |by intros ? ->].
  intros w a w' H. by apply task_leaf_path_inv in H as (-> & _).
Qed.

Lemma confined_write_task agent id leaf data mode :
  confined (in_agent root agent) (atomic_write_file (task_path agent id leaf) data mode).
Proof. apply confined_write_leaf. Qed.
Hint Resolve confined_task_leaf_path confined_write_task : confine.

Lemma confined_write_text_line agent id leaf v :
  confined (in_agent root agent) (write_text_line root agent id leaf v).
Proof. apply confined_at_task. confine. Qed.
Lemma confined_write_task_file agent id leaf v :
  confined (in_agent root agent) (write_task_file root agent id leaf v).
Proof. apply confined_at_task. confine. Qed.
Hint Resolve confined_write_text_line confined_write_task_file : confine.
Lemma confined_task_set_state agent id s :
  confined (in_agent root agent) (task_set_state root agent id s).
Proof.
  unfold task_set_state. apply confined_bind; [confine|intros _].
  apply confined_bind; [confine|intros now].
  eapply (confined_bind_inv _ (λ r, ∀ p, r = inr p → p = task_path agent id #"updated_at")).
  - confine.
  - intros w a w' H p ->. unfold attempt in H.
    destruct (task_leaf_path root agent id #"updated_at" w) as [[]?] eqn:E; simplify_eq.
    by apply task_leaf_path_inv in E as (-> & _).
  - intros [e|p] Hp; [confine|]. rewrite (Hp p eq_refl). confine.
Qed.

(** The situation most task operations run in: valid names, the agent's
    layout in place, and no spurious "no such file" ahead. *)
Record task_env (agent id : bytes) (w : world) : Prop := {
  te_agent : validate_name agent = true;
  te_id : task_validate_id id = true;
  te_len : blen (base_of root agent) + 300 < MAX_PATHBUF;
  te_layout : ∃ m u, w_fs w !! (base_of root agent ++ #"/config") = Some (Node KDir m u);
  te_sched : Fail ENOENT ∉ w_sched w
}.

Lemma task_leaf_path_env agent id leaf w :
  task_env agent id w → blen (task_rel id leaf) < 256 →
  ∃ s, suffix s (w_sched w) ∧
    task_leaf_path root agent id leaf w = (inr (task_path agent id leaf), set_sched s w).
Proof.
  intros [Ha Hid Hl (m & u & Hcfg) Hs] Hrel. unfold task_leaf_path.
  rewrite bind_guard, Hid, bind_of_option.
  unfold snprintf_ok. rewrite (proj2 (Z.ltb_lt _ _)) by done.
  eapply agent_path_slash; [done|done|apply task_rel_slash|lia|done].
Qed.

Lemma task_rel_len id leaf : task_validate_id id = true → blen (task_rel id leaf) ≤ 38 + blen leaf.
Proof.
  intros Hid%task_validate_id_length. unfold task_rel. rewrite !blen_app.
  change (blen #"tasks/") with 6. destruct leaf; solve_len.
Qed.

Lemma task_path_inj agent id l1 l2 :
  l1 ≠ [] → l2 ≠ [] → task_path agent id l1 = task_path agent id l2 → l1 = l2.
Proof.
  unfold task_path, leaf_path. rewrite !task_rel_class. intros H1 H2 H.
  apply app_inv_head in H. injection H as H. unfold task_rel in H.
  apply app_inv_head in H. destruct l1, l2; simpl in *; congruence.
Qed.

(** Writing the leaf [l1] (or its temporary) does not touch another leaf. *)
Lemma task_path_app agent id l s : l ≠ [] → task_path agent id l ++ s = task_path agent id (l ++ s).
Proof.
  unfold task_path, leaf_path. rewrite !task_rel_class. intros Hl. unfold task_rel.
  destruct l as [|c l]; [done|]. simpl. repeat (rewrite <-app_assoc; simpl). done.
Qed.

Lemma atomic_write_other agent id l1 l2 data mode w r w' :
  l1 ≠ [] → l2 ≠ [] → l2 ≠ l1 → (∀ s, l2 ≠ (l1 ++ #".tmp.") ++ s) →
  atomic_write_file (task_path agent id l1) data mode w = (r, w') →
  w_fs w' !! task_path agent id l2 = w_fs w !! task_path agent id l2.
Proof.
  intros H1 H2 Hne Htmp H.
  eapply (confined_run (λ p, p = task_path agent id l1 ∨ ∃ s, p = (task_path agent id l1 ++ #".tmp.") ++ s));
    [|exact H|].
  - apply confined_atomic_write_file; [by left|]. intros s. right. by exists s.
  - intros [Hp|[s Hp]].
    + by apply task_path_inj in Hp.
    + rewrite <-app_assoc, task_path_app in Hp by done. apply task_path_inj in Hp; [|done|by destruct l1].
      apply (Htmp s). by rewrite <-app_assoc.
Qed.

Lemma task_env_sched agent id w s :
  task_env agent id w → suffix s (w_sched w) → task_env agent id (set_sched s w).
Proof.
  intros [] [pre Hp]. split; try done. simpl. rewrite Hp in te_sched0. set_solver.
Qed.

(** [write_text_line] in such an environment: the leaf becomes the line, or
    an error and the leaf is unchanged. *)
Lemma write_text_line_env agent id leaf v w r w' :
  task_env agent id w → leaf ≠ [] → blen leaf ≤ 200 →
  write_text_line root agent id leaf v w = (r, w') →
  match r with
  | inr _ => w_fs w' = <[task_path agent id leaf := Node (KReg (v ++ nl)) 384 (w_uid w)]> (w_fs w)
  | inl _ => w_fs w' !! task_path agent id leaf = w_fs w !! task_path agent id leaf
  end.
Proof.
  intros He Hne Hl H. unfold write_text_line in H. rewrite bind_unfold in H.
  pose proof (task_rel_len id leaf (te_id _ _ _ He)).
  destruct (task_leaf_path_env agent id leaf w He) as (s & Hs & E); [lia|]. rewrite E in H.
  rewrite bind_guard in H. destruct (_ <=? 1024); [|by simplify_eq].
  apply atomic_write_file_inv in H. destruct r as [e|[]].
  - apply H. left. apply tmp_ne.
  - by destruct H as [_ ->].
Qed.
End task_lemmas.

Lemma parse_state_name s : parse_state (task_state_name s) = Some s.
Proof. by destruct s. Qed.

(** What is read back from a state file. *)
Lemma task_read_state_file root agent id s w m u :
  task_env root agent id w → w_sched w = [] →
  w_fs w !! task_path root agent id #"state" = Some (Node (KReg (task_state_name s ++ nl)) m u) →
  ∃ w', task_read_state root agent id w = (inr s, w') ∧ w_fs w' = w_fs w.
Proof.
  intros He Hs Hf. unfold task_read_state, task_read_string. rewrite bind_assoc, bind_unfold.
  pose proof (task_rel_len id #"state" (te_id _ _ _ _ He)) as Hl. change (blen #"state") with 5 in Hl.
  destruct (task_leaf_path_env root agent id #"state" w He) as (s' & Hs' & ->); [lia|].
  rewrite Hs in Hs'. apply suffix_nil_inv in Hs' as ->.
  destruct (read_small_file_spec (task_path root agent id #"state") 64 (set_sched [] w) _ _ _ Hf)
    as (r & w2 & E & Hfs & Hr); [done|].
  rewrite bind_unfold, E. destruct r as [e|d]; [by apply not_elem_of_nil in Hr|].
  exists w2. split; [|by rewrite Hfs]. subst d. by destruct s.
Qed.

(** ** Properties *)

(** C28: task state changes are atomic and durable: under any schedule of
    failures (other than a spurious ENOENT) [task_set_state] either succeeds
    and [task_read_state] then returns exactly the new state, or fails with
    the state file untouched. *)
Theorem task_state_round_trip root agent id s w :
  task_env root agent id w →
  let '(r, w') := task_set_state root agent id s w in
  match r with
  | inr _ => run (task_read_state root agent id) (set_sched [] w') = inr s
  | inl _ => w_fs w' !! task_path root agent id #"state" = w_fs w !! task_path root agent id #"state"
  end.
Proof.
  intros He. destruct (task_set_state root agent id s w) as [r w'] eqn:E.
  unfold task_set_state in E. rewrite bind_unfold in E.
  destruct (write_text_line root agent id #"state" (task_state_name s) w) as [r1 w1] eqn:E1.
  pose proof E1 as H1. eapply write_text_line_env in H1; [|done|done|done].
  destruct r1 as [e|[]]; [by simplify_eq|]. unfold sys_time in E. rewrite bind_gets, bind_attempt in E.
  assert (w_fs w1 !! task_path root agent id #"state" =
          Some (Node (KReg (task_state_name s ++ nl)) 384 (w_uid w))) as Hst1
    by (rewrite H1; by apply lookup_insert_eq).
  assert (w_fs w1 !! (base_of root agent ++ #"/config") = w_fs w !! (base_of root agent ++ #"/config")) as Hcfg.
  { rewrite H1. apply lookup_insert_ne. unfold task_path, leaf_path. rewrite task_rel_class.
    intros H%app_inv_head. discriminate H. }
  assert (task_env root agent id w1) as He1.
  { destruct He. split; try done; [by rewrite Hcfg|].
    eapply shrinks_run in E1 as [[pre Hp] _]; [|shrink].
    rewrite Hp in te_sched0. set_solver. }
  pose proof (task_rel_len id #"updated_at" (te_id _ _ _ _ He1)) as Hl.
  change (blen #"updated_at") with 10 in Hl.
  destruct (task_leaf_path_env root agent id #"updated_at" w1 He1) as (s2 & Hs2 & E2); [lia|].
  rewrite E2 in E. unfold ignore in E.
  destruct (atomic_write_file _ _ _ _) as [r3 w3] eqn:E3. simplify_eq. unfold run.
  destruct (task_read_state_file root agent id s (set_sched [] w') 384 (w_uid w)) as (w4 & -> & _).
  - destruct He1. split; try done; [|set_solver]. destruct te_layout0 as (m & u & Hc). exists m, u.
    rewrite <-Hc. change (w_fs (set_sched [] w')) with (w_fs w'). change (w_fs w1) with (w_fs (set_sched s2 w1)).
    eapply (confined_run (λ p, ∃ t, p = task_path root agent id #"updated_at" ++ t)); [|exact E3|].
    + apply confined_atomic_write_file; [by exists []; rewrite app_nil_r|].
      intros t. exists (#".tmp." ++ t). by rewrite app_assoc.
    + intros [t Ht]. unfold task_path, leaf_path in Ht. rewrite task_rel_class, <-app_assoc in Ht.
      apply app_inv_head in Ht. discriminate Ht.
  - done.
  - change (w_fs (set_sched [] w')) with (w_fs w').
    eapply (atomic_write_other _ _ _ _ #"state") in E3; [|done..]. by rewrite E3.
  - done.
Qed.

Definition demo_task_world : world :=
  set_fs (λ fs, <[ #"/r/agents/a/data/tasks" := Node KDir 448 1000]>
                (<[ #"/r/agents/a/data/tasks/t1" := Node KDir 448 1000]> fs)) demo_faulty.

Lemma task_state_round_trip_witness :
  let '(r, w') := task_set_state #"/r" #"a" #"t1" TASK_RUNNING (set_sched [Pass; Pass; Pass; Pass; Pass; Short 2; Fail EINTR] demo_task_world) in
  r = inr tt ∧ run (task_read_state #"/r" #"a" #"t1") (set_sched [] w') = inr TASK_RUNNING.
Proof.
  pose proof (task_state_round_trip #"/r" #"a" #"t1" TASK_RUNNING
                (set_sched [Pass; Pass; Pass; Pass; Pass; Short 2; Fail EINTR] demo_task_world)) as H.
  destruct (task_set_state #"/r" #"a" #"t1" TASK_RUNNING _) as [r w'] eqn:E.
  assert (r = inr tt) as -> by (apply (f_equal fst) in E; vm_compute in E; congruence).
  split; [reflexivity|]. apply H. split; try (vm_compute; reflexivity).
  - exists 448, 1000. vm_compute. reflexivity.
  - not_in_list.
Defined.

(** ** Lemmas: ids *)

Lemma split_last_app c (p r : bytes) : c ∉ r → split_last c (p ++ c :: r) = Some (p, r).
Proof.
  intros Hr. unfold split_last. rewrite reverse_app, reverse_cons, <-app_assoc. cbn [app].
  rewrite split_at_app; [by rewrite !reverse_involutive|]. by rewrite elem_of_reverse.
Qed.

Lemma fmt_0d_not_elem w n c : 0 ≤ n → isdigit c = false → c ∉ fmt_0d w n.
Proof.
  intros Hn Hc Hin. pose proof (fmt_0d_digits w n Hn) as HF. rewrite Forall_forall in HF.
  apply HF in Hin. congruence.
Qed.

Lemma seq_of_id now seq :
  0 ≤ now < 253402300800 → 0 ≤ seq ≤ LONG_MAX →
  seq_of_name (stamp_compact now ++ #"-" ++ fmt_0d 4 seq) = seq.
Proof.
  intros Hn Hs. pose proof (stamp_compact_shape now Hn) as [Hl HF].
  unfold seq_of_name.
  assert (first_is "." (stamp_compact now ++ #"-" ++ fmt_0d 4 seq) = false) as ->.
  { destruct (stamp_compact now) as [|c s]; [done|]. inversion HF; subst. simpl.
    apply Ascii.eqb_neq. intros ->. by vm_compute in H1. }
  change (#"-" ++ fmt_0d 4 seq) with ("-"%char :: fmt_0d 4 seq).
  rewrite split_last_app by (by apply fmt_0d_not_elem; [lia|]).
  rewrite <-(app_nil_r (fmt_0d 4 seq)), strtol_digits.
  - simpl. rewrite fmt_0d_val; [done|]. unfold LONG_MAX in Hs. lia.
  - unfold fmt_0d. intros H%app_nil. destruct H as [_ H]. by apply dec_nonempty in H.
  - apply fmt_0d_digits. lia.
  - done.
  - rewrite fmt_0d_val; [done|]. unfold LONG_MAX in Hs. lia.
Qed.

Lemma id_valid now seq :
  0 ≤ now < 253402300800 → 0 ≤ seq →
  blen (stamp_compact now ++ #"-" ++ fmt_0d 4 seq) ≤ 31 →
  task_validate_id (stamp_compact now ++ #"-" ++ fmt_0d 4 seq) = true.
Proof.
  intros Hn Hs Hl. pose proof (stamp_compact_shape now Hn) as [Hsl HF].
  apply validate_path_component_intro; [|done| |].
  - destruct (stamp_compact now); [done|done].
  - destruct (stamp_compact now) as [|c s]; [done|]. inversion HF; subst. simpl.
    apply Ascii.eqb_neq. intros ->. by vm_compute in H1.
  - rewrite !Forall_app. split_and!.
    + eapply Forall_impl; [exact HF|apply name_char_alnum].
    + by repeat constructor.
    + eapply Forall_impl; [by apply fmt_0d_digits|]. intros x Hx. by apply name_char_alnum, isdigit_alnum.
Qed.

Lemma foldl_max (f : bytes → Z) es m :
  let r := foldl (λ m e, if m <? f e then f e else m) m es in
  m ≤ r ∧ Forall (λ e, f e ≤ r) es.
Proof.
  revert m. induction es as [|e es IH]; intros m; simpl; [by split|].
  destruct (IH (if m <? f e then f e else m)) as [H1 H2].
  destruct (m <? f e) eqn:E; bool_simpl; (split; [lia|]); constructor; done || lia.
Qed.

Lemma load_max_seq_nonneg root agent w r w' :
  load_max_seq root agent w = (r, w') → ∃ m, r = inr m ∧ 0 ≤ m.
Proof.
  unfold load_max_seq. rewrite bind_attempt. destruct (tasks_root root agent w) as [[e|p] w1].
  { run_goal. intros; simplify_eq. by exists 0. }
  rewrite bind_attempt. destruct (sys_readdir p w1) as [[e|es] w2]; run_goal; intros; simplify_eq.
  - by exists 0.
  - eexists. split; [done|]. apply foldl_max.
Qed.

Lemma seq_bump_nonneg agent t v t' :
  Forall (λ e, 0 ≤ e.2) t → seq_bump agent t = Some (v, t') → 0 ≤ v ∧ Forall (λ e, 0 ≤ e.2) t'.
Proof.
  intros HF. revert t'. induction HF as [|[a n] t Hn HF IH]; intros t' H; simpl in *; [done|].
  destruct (bytes_eqb a agent); simplify_eq; [split; [lia|constructor; simpl; [lia|done]]|].
  destruct (seq_bump agent t) as [[v2 t2]|]; simplify_eq. destruct (IH t2 eq_refl).
  split; [done|]. by constructor.
Qed.

(** ** Properties: ids and creation *)

(** C29: every id [task_alloc_id] returns in a [MAX_TASK_ID] buffer is a valid
    path component that the task layer accepts (up to the year 9999), whatever
    the cache holds and whatever fails while scanning. *)
Theorem task_alloc_id_valid root agent n t w id t' w' :
  task_alloc_id root agent n t w = (inr (id, t'), w') →
  n ≤ MAX_TASK_ID → Forall (λ e, 0 ≤ e.2) t →
  0 ≤ w_now w < 253402300800 → task_validate_id id = true.
Proof.
  unfold task_alloc_id. rewrite bind_guard. destruct (validate_name agent); [|done].
  rewrite bind_unfold. intros H Hn HF Hnow.
  destruct (get_next_seq root agent t w) as [[e|[v t2]] w1] eqn:E; [done|].
  assert (w_now w1 = w_now w) as Hclk by (eapply shrinks_run in E; [apply E|shrink]).
  rewrite <-Hclk in Hnow. unfold sys_time in H. rewrite bind_gets, bind_of_option in H.
  destruct (snprintf_ok _ _) as [x|] eqn:Ex; [|done]. apply snprintf_ok_Some in Ex as [-> Hlt].
  run_in H. simplify_eq. apply id_valid; [done| |unfold MAX_TASK_ID in Hn; cbn [fst] in Hlt; lia].
  unfold get_next_seq in E. destruct (seq_bump agent t) as [[v' t3]|] eqn:Eb.
  - run_in E. simplify_eq. by eapply seq_bump_nonneg.
  - rewrite bind_unfold in E. destruct (load_max_seq root agent w) as [r w2] eqn:El.
    apply load_max_seq_nonneg in El as (m & -> & Hm).
    destruct (_ <? _)%nat; run_in E; simplify_eq; lia.
Qed.

Lemma task_alloc_id_valid_witness :
  ∃ id t', run (task_alloc_id #"/r" #"a" 32 []) demo_world = inr (id, t') ∧
           task_validate_id id = true.
Proof.
  destruct (task_alloc_id #"/r" #"a" 32 [] demo_world) as [r w'] eqn:E.
  assert (r = inr (#"20260902T120000Z-0001", [( #"a", 1)])) as ->
    by (apply (f_equal fst) in E; cbn [fst] in E; rewrite <-E; vm_compute; reflexivity).
  eexists _, _. split; [unfold run; rewrite E; reflexivity|].
  apply (task_alloc_id_valid _ _ _ _ _ _ _ _ E); [done|constructor|vm_compute; split; congruence].
Defined.

Definition tasks_dir_of (root agent : bytes) : bytes := leaf_path root agent #"tasks".

Lemma load_max_seq_quiet root agent w m u m' u' :
  w_sched w = [] → validate_name agent = true → blen (base_of root agent) + 300 < MAX_PATHBUF →
  w_fs w !! (base_of root agent ++ #"/config") = Some (Node KDir m u) →
  w_fs w !! tasks_dir_of root agent = Some (Node KDir m' u') →
  ∃ k w', load_max_seq root agent w = (inr k, w') ∧
    ∀ e, e ∈ entries (w_fs w) (tasks_dir_of root agent) → seq_of_name e ≤ k.
Proof.
  intros Hs Ha Hl Hcfg Hdir. unfold load_max_seq, tasks_root. rewrite bind_attempt.
  destruct (agent_path_quiet root agent #"tasks" w m u) as (w1 & -> & Hs1 & _ & Hfr);
    [done|done|change (blen #"tasks") with 5; lia|done|].
  fold (tasks_dir_of root agent). rewrite bind_attempt. unfold sys_readdir.
  rewrite sys_quiet by done. rewrite bind_gets.
  assert (∀ x, w_fs w1 !! (tasks_dir_of root agent ++ x) = w_fs w !! (tasks_dir_of root agent ++ x)) as Hx.
  { intros x. apply Hfr. unfold tasks_dir_of, leaf_path. rewrite <-app_assoc.
    intros H%app_inv_head. discriminate H. }
  pose proof (Hx []) as Hx0. rewrite !app_nil_r in Hx0. rewrite Hx0, Hdir.
  eexists _, w1. split; [reflexivity|]. intros e He.
  apply elem_of_entries in He as [He1 He2]. rewrite <-Hx in He1.
  assert (e ∈ entries (w_fs w1) (tasks_dir_of root agent)) as He by by apply elem_of_entries.
  pose proof (foldl_max seq_of_name (entries (w_fs w1) (tasks_dir_of root agent)) 0) as [_ HF].
  rewrite Forall_forall in HF. by apply HF.
Qed.

(** A number of 18 digits or more prints at least 18 characters. *)
Lemma dec_loop_min fuel n acc (w : nat) :
  10 ^ Z.of_nat w ≤ n → (w < fuel)%nat → (w + length acc ≤ length (dec_loop fuel n acc))%nat.
Proof.
  revert n acc w. induction fuel as [|f IH]; intros n acc w Hn Hw; [lia|]. cbn [dec_loop].
  destruct w as [|w].
  - destruct (n <? 10); [cbn [length]; lia|].
    assert (∀ g m a, length a ≤ length (dec_loop g m a))%nat as Hg.
    { induction g as [|g IHg]; intros m a; cbn [dec_loop]; [lia|].
      destruct (m <? 10); [cbn [length]; lia|]. etrans; [|apply IHg]. cbn [length]. lia. }
    etrans; [|apply Hg]. cbn [length]. lia.
  - rewrite Nat2Z.inj_succ, Z.pow_succ_r in Hn by lia.
    pose proof (Z.pow_pos_nonneg 10 (Z.of_nat w)).
    destruct (n <? 10) eqn:E; bool_simpl.
    + assert (w = 0%nat) as -> by (destruct w; [done|]; rewrite Nat2Z.inj_succ, Z.pow_succ_r in Hn by lia;
        pose proof (Z.pow_pos_nonneg 10 (Z.of_nat w)); lia). cbn [length]. lia.
    + specialize (IH (n / 10) (digit_char (n mod 10) :: acc) w). cbn [length] in IH. lia.
Qed.

Lemma fmt_0d_long w n : 10 ^ 18 ≤ n → 18 ≤ blen (fmt_0d w n).
Proof.
  intros Hn. unfold fmt_0d. rewrite blen_app. pose proof (dec_loop_min 20 n [] 18 Hn ltac:(lia)) as Hd.
  unfold dec, blen at 2. cbn [length] in Hd. rewrite Nat.add_0_r in Hd.
  pose proof (blen_nonneg (replicate (w - length (dec_loop 20 n [])) "0"%char)). lia.
Qed.

(** An id that fits its buffer has a sequence number far from overflow. *)
Lemma id_seq_bound now seq :
  0 ≤ now < 253402300800 → blen (stamp_compact now ++ #"-" ++ fmt_0d 4 seq) < 32 → seq ≤ LONG_MAX.
Proof.
  intros Hnow Hlt. pose proof (stamp_compact_shape now Hnow) as [Hsl _].
  assert (blen (stamp_compact now) = 16) as Hs16 by (unfold blen; by rewrite Hsl).
  rewrite !blen_app, Hs16 in Hlt. pose proof (blen_nonneg #"-").
  destruct (decide (10 ^ 18 ≤ seq)) as [Hge|]; [|unfold LONG_MAX; lia].
  pose proof (fmt_0d_long 4 seq Hge). lia.
Qed.

(** The first id allocated by a process is fresh: its sequence number is
    larger than that of every entry of the task directory, so no existing
    task can have it. *)
Theorem task_alloc_id_fresh root agent n t w id t' w' m u m' u' :
  task_alloc_id root agent n t w = (inr (id, t'), w') → seq_bump agent t = None →
  w_sched w = [] → blen (base_of root agent) + 300 < MAX_PATHBUF →
  w_fs w !! (base_of root agent ++ #"/config") = Some (Node KDir m u) →
  w_fs w !! tasks_dir_of root agent = Some (Node KDir m' u') →
  0 ≤ w_now w < 253402300800 → n ≤ MAX_TASK_ID →
  (id ∉ entries (w_fs w) (tasks_dir_of root agent)) ∧
  ∀ e, e ∈ entries (w_fs w) (tasks_dir_of root agent) → seq_of_name e < seq_of_name id.
Proof.
  unfold task_alloc_id. rewrite bind_guard. destruct (validate_name agent) eqn:Ha; [|done].
  rewrite bind_unfold. intros H Hb Hs Hl Hcfg Hdir Hnow Hn.
  destruct (get_next_seq root agent t w) as [[er|[v t2]] w1] eqn:E; [done|].
  assert (w_now w1 = w_now w) as Hclk by (eapply shrinks_run in E; [apply E|shrink]).
  rewrite <-Hclk in Hnow. unfold sys_time in H. rewrite bind_gets, bind_of_option in H.
  destruct (snprintf_ok _ _) as [x|] eqn:Ex; [|done]. apply snprintf_ok_Some in Ex as [Hid Hlt].
  rewrite <-Hid in Hlt. cbn [fst] in Hid. run_in H.
  assert (x = id) as -> by congruence.
  destruct (load_max_seq_quiet root agent w m u m' u') as (k & w2 & El & Hk); [done..|].
  unfold get_next_seq in E. rewrite Hb, bind_unfold, El in E.
  assert (v = k + 1) as -> by (destruct (_ <? _)%nat; run_in E; by simplify_eq).
  apply load_max_seq_nonneg in El as (k' & [= <-] & Hk0).
  assert (k + 1 ≤ LONG_MAX) as Hmax.
  { rewrite Hid in Hlt. eapply id_seq_bound; [exact Hnow|]. unfold MAX_TASK_ID in Hn. lia. }
  assert (∀ e, e ∈ entries (w_fs w) (tasks_dir_of root agent) →
            seq_of_name e < seq_of_name id) as Hlt'.
  { intros e He. rewrite Hid, seq_of_id by lia. apply Hk in He. lia. }
  split; [|exact Hlt']. intros Hin. apply Hlt' in Hin. lia.
Qed.

(** Two tasks in the store: numbers 3 and 41. *)
Definition demo_store : world :=
  set_fs (λ fs, <[ #"/r/agents/a/data/tasks/x-0041" := Node KDir 448 1000]>
                (<[ #"/r/agents/a/data/tasks/y-3" := Node KDir 448 1000]>
                (<[ #"/r/agents/a/data/tasks" := Node KDir 448 1000]> fs))) demo_world.

Lemma task_alloc_id_fresh_witness :
  ∃ id t', run (task_alloc_id #"/r" #"a" 32 []) demo_store = inr (id, t') ∧
           id = #"20260902T120000Z-0042" ∧
           (id ∉ entries (w_fs demo_store) (tasks_dir_of #"/r" #"a")).
Proof.
  assert (run (task_alloc_id #"/r" #"a" 32 []) demo_store =
          inr (#"20260902T120000Z-0042", [( #"a", 42)])) as Hr by (vm_compute; reflexivity).
  eexists _, _. split; [exact Hr|]. split; [reflexivity|].
  eapply (task_alloc_id_fresh #"/r" #"a" 32 [] demo_store).
  - apply run_exec. exact Hr.
  - reflexivity.
  - reflexivity.
  - done.
  - vm_compute. reflexivity.
  - vm_compute. reflexivity.
  - vm_compute. split; congruence.
  - done.
Defined.

(** [task_create] never reopens a task: when the task's directory name
    exists, the call fails and no file of the store changes. *)
Theorem task_create_never_overwrites root agent id verb sender pid uid rp inc payload w m u n m' u' :
  w_sched w = [] → validate_name agent = true → blen (base_of root agent) + 300 < MAX_PATHBUF →
  w_fs w !! (base_of root agent ++ #"/config") = Some (Node KDir m u) →
  w_fs w !! tasks_dir_of root agent = Some (Node KDir m' u') →
  w_fs w !! task_path root agent id [] = Some n →
  let '(r, w') := task_create root agent id verb sender pid uid rp inc payload w in
  (∃ e, r = inl e) ∧ ∀ x, w_fs w' !! (tasks_dir_of root agent ++ x) = w_fs w !! (tasks_dir_of root agent ++ x).
Proof.
  intros Hs Ha Hl Hcfg Hdir Hn. destruct (task_create _ _ _ _ _ _ _ _ _ _ w) as [r w'] eqn:E.
  unfold task_create in E. rewrite bind_guard in E.
  destruct (task_validate_id id) eqn:Hid; [|simplify_eq; split; [by eexists|done]].
  rewrite bind_unfold in E. unfold tasks_root in E.
  destruct (agent_path_quiet root agent #"tasks" w m u) as (w1 & E1 & Hs1 & _ & Hfr);
    [done|done|change (blen #"tasks") with 5; lia|done|]. rewrite E1 in E.
  fold (tasks_dir_of root agent) in E.
  assert (∀ x, w_fs w1 !! (tasks_dir_of root agent ++ x) = w_fs w !! (tasks_dir_of root agent ++ x)) as Hx.
  { intros x. apply Hfr. unfold tasks_dir_of, leaf_path. rewrite <-app_assoc.
    intros H%app_inv_head. discriminate H. }
  pose proof (Hx []) as Hx0. rewrite !app_nil_r in Hx0.
  assert (ensure_dir (tasks_dir_of root agent) 448 w1 = (inr tt, w1)) as Ee.
  { unfold ensure_dir. rewrite bind_attempt. unfold sys_mkdir. rewrite sys_quiet by done.
    run_goal. rewrite Hx0, Hdir. unfold sys_stat. rewrite sys_quiet by done. run_goal.
    rewrite follow_id, Hx0, Hdir by (rewrite Hx0; congruence). done. }
  rewrite bind_unfold, Ee, bind_unfold in E. unfold task_dir in E.
  rewrite (task_leaf_path_quiet root agent id [] w1 m u) in E; try done.
  2:{ pose proof (task_rel_len id [] Hid). change (blen []) with 0 in *. lia. }
  2:{ rewrite <-Hcfg. apply Hfr. intros H%app_inv_head. discriminate H. }
  rewrite bind_unfold in E. unfold sys_mkdir in E. rewrite sys_quiet in E by done. run_in E.
  assert (w_fs w1 !! task_path root agent id [] = Some n) as Hn1.
  { rewrite <-Hn. apply Hfr. unfold task_path, leaf_path. rewrite task_rel_class.
    intros H%app_inv_head. discriminate H. }
  rewrite Hn1 in E. simplify_eq. split; [by eexists|exact Hx].
Qed.

Lemma task_create_never_overwrites_witness :
  ∃ e, run (task_create #"/r" #"a" #"y-3" #"ask" None 1 2 [] [] #"data") demo_store = inl e.
Proof.
  pose proof (task_create_never_overwrites #"/r" #"a" #"y-3" #"ask" None 1 2 [] [] #"data" demo_store
    448 1000 (Node KDir 448 1000) 448 1000 ltac:(reflexivity) ltac:(vm_compute; reflexivity) ltac:(done)
    ltac:(vm_compute; reflexivity) ltac:(vm_compute; reflexivity) ltac:(vm_compute; reflexivity)) as H.
  unfold run. destruct (task_create _ _ _ _ _ _ _ _ _ _ demo_store) as [r w'].
  destruct H as [[e He] _]. exists e. exact He.
Defined.
