(* ===== verification/Enforcement.v ===== *)
(** * enforcement.c: cgroup, Landlock and seccomp backends (Linux)

    The persisted request and result files, the cgroup v2 control files, the
    Landlock ruleset the child builds and the seccomp filter program it
    installs, with the kernel's reading of both: a Landlock access is allowed
    when it is not handled or some rule at or above the path grants it, and a
    filter is a classic BPF program run on the system call.  The numbers of
    the system calls, the audit architecture and the Landlock ABI version come
    from the kernel headers and the running kernel: they are parameters. *)

From S2P Require Import Prelude CLib Posix Names Common.

Inductive enforce_fs_mode_t := ENFORCE_FS_OFF | ENFORCE_FS_LANDLOCK.
Inductive seccomp_mode_t := SECCOMP_OFF | SECCOMP_MINIMAL.

Record enforcement_spec_t := EnforcementSpec {
  fs_mode : enforce_fs_mode_t;
  sc_mode : seccomp_mode_t;
  cgroup_on : bool;
  cg_memory_max : Z;
  cg_pids_max : Z;
  cg_cpu_max : bytes
}.

Definition ENF_STATUS_INACTIVE : Z := 0.
Definition ENF_STATUS_ACTIVE : Z := 1.
Definition ENF_STATUS_UNAVAILABLE : Z := -1.

Record enforcement_state_t := EnforcementState {
  landlock_status : Z;
  landlock_rules : Z;
  seccomp_status : Z;
  cgroup_status : Z;
  cgroup_path : bytes;
  reason : bytes
}.
Definition inactive_state : enforcement_state_t := EnforcementState 0 0 0 0 [] [].

Definition set_landlock (v r : Z) s := EnforcementState v r (seccomp_status s) (cgroup_status s) (cgroup_path s) (reason s).
Definition set_seccomp_st (v : Z) s := EnforcementState (landlock_status s) (landlock_rules s) v (cgroup_status s) (cgroup_path s) (reason s).
Definition set_cgroup_st (v : Z) s := EnforcementState (landlock_status s) (landlock_rules s) (seccomp_status s) v (cgroup_path s) (reason s).
Definition set_cgroup_path (v : bytes) s := EnforcementState (landlock_status s) (landlock_rules s) (seccomp_status s) (cgroup_status s) v (reason s).
(** [snprintf(st->reason, sizeof(st->reason), ...)] *)
Definition set_reason (v : bytes) s := EnforcementState (landlock_status s) (landlock_rules s) (seccomp_status s) (cgroup_status s) (cgroup_path s) (snprintf_trunc 256 v).

(** ** Names *)

Definition enforce_fs_name (m : enforce_fs_mode_t) : bytes :=
  match m with ENFORCE_FS_LANDLOCK => #"landlock" | _ => #"off" end.
Definition seccomp_mode_name (m : seccomp_mode_t) : bytes :=
  match m with SECCOMP_MINIMAL => #"minimal" | _ => #"off" end.
Definition enforce_status_word (status : Z) : bytes :=
  if status =? ENF_STATUS_ACTIVE then #"active"
  else if status =? ENF_STATUS_INACTIVE then #"inactive"
  else if status =? ENF_STATUS_UNAVAILABLE then #"unavailable"
  else #"?".

(** ** The policy walker: parameters of [allow <verb>:<param>] lines *)

Definition allow_param (verb line : bytes) : option bytes :=
  match strip_prefix #"allow " (drop_while is_blank line) with
  | None => None
  | Some kw =>
      match strip_prefix (verb ++ #":") (drop_while is_blank kw) with
      | None => None
      | Some v =>
          let v := rtrim (λ c, is_blank c || Ascii.eqb c CR) v in
          if (0 <? blen v) && (blen v <? 4096) then Some v else None
      end
  end.
Definition iter_allow_with_verb (caps_text verb : bytes) : list bytes :=
  line_loop (λ acc line, match allow_param verb line with Some v => acc ++ [v] | None => acc end)
            (S (length caps_text)) [] caps_text.

(** ** [enforcement.req] and [enforcement.applied] *)

Definition dash_if_empty (s : bytes) : bytes := match s with [] => #"-" | _ => s end.

Definition state_text (st : enforcement_state_t) : bytes :=
  #"landlock_status=" ++ enforce_status_word (landlock_status st) ++ nl ++
  #"landlock_rules=" ++ fmt_d (landlock_rules st) ++ nl ++
  #"seccomp_status=" ++ enforce_status_word (seccomp_status st) ++ nl ++
  #"cgroup_status=" ++ enforce_status_word (cgroup_status st) ++ nl ++
  #"cgroup_path=" ++ dash_if_empty (cgroup_path st) ++ nl ++
  #"reason=" ++ dash_if_empty (reason st) ++ nl.

Definition status_of_word (v : bytes) (old : Z) : Z :=
  if bytes_eqb v #"active" then ENF_STATUS_ACTIVE
  else if bytes_eqb v #"unavailable" then ENF_STATUS_UNAVAILABLE
  else old.

Definition state_line (st : enforcement_state_t) (line : bytes) : enforcement_state_t :=
  match split_at "=" line with
  | None => st
  | Some (k, v) =>
      if bytes_eqb k #"landlock_status" then
        set_landlock (status_of_word v (landlock_status st)) (landlock_rules st) st
      else if bytes_eqb k #"landlock_rules" then set_landlock (landlock_status st) (atoi v) st
      else if bytes_eqb k #"seccomp_status" then
        set_seccomp_st (status_of_word v (seccomp_status st)) st
      else if bytes_eqb k #"cgroup_status" then
        set_cgroup_st (status_of_word v (cgroup_status st)) st
      else if bytes_eqb k #"cgroup_path" then
        if bytes_eqb v #"-" then st else set_cgroup_path (snprintf_trunc 256 v) st
      else if bytes_eqb k #"reason" then
        if bytes_eqb v #"-" then st else set_reason v st
      else st
  end.
Definition parse_state_text (buf : bytes) : enforcement_state_t :=
  line_loop state_line (S (length buf)) inactive_state buf.

(** ** seccomp: a classic BPF program *)

Inductive sock_filter :=
| LdAbs (off : Z)                  (** BPF_LD | BPF_W | BPF_ABS *)
| JeqK (k : Z) (jt jf : nat)       (** BPF_JMP | BPF_JEQ | BPF_K *)
| RetK (k : Z).                    (** BPF_RET | BPF_K *)

Definition SECCOMP_RET_ALLOW : Z := 2147418112.         (* 0x7fff0000 *)
Definition SECCOMP_RET_KILL_PROCESS : Z := 2147483648.  (* 0x80000000 *)
Definition SECCOMP_RET_ERRNO : Z := 327680.             (* 0x00050000 *)
Definition SECCOMP_RET_DATA : Z := 65535.               (* 0x0000ffff *)
Definition EPERM_NUM : Z := 1.

(** [struct seccomp_data]: [nr] at offset 0, [arch] at offset 4. *)
Record seccomp_data := SeccompData { sd_nr : Z; sd_arch : Z }.
Definition load_abs (d : seccomp_data) (off : Z) : option Z :=
  if off =? 0 then Some (sd_nr d) else if off =? 4 then Some (sd_arch d) else None.

(** The kernel's interpreter: accumulator and program counter; each step moves
    forward, so the length of the program bounds the run. *)
Fixpoint bpf_run (prog : list sock_filter) (skip : nat) (acc : Z) (d : seccomp_data) : option Z :=
  match prog with
  | [] => None
  | i :: prog' =>
      match skip with
      | S k => bpf_run prog' k acc d
      | O =>
          match i with
          | LdAbs off => match load_abs d off with
                         | Some v => bpf_run prog' 0 v d
                         | None => None
                         end
          | JeqK k jt jf => bpf_run prog' (if acc =? k then jt else jf) acc d
          | RetK k => Some k
          end
      end
  end.

Definition SC_ALLOW (nr : Z) : list sock_filter := [JeqK nr 0 1; RetK SECCOMP_RET_ALLOW].

(** The allow-list by name, in order. *)
Definition sc_allowed_names : list bytes :=
  [ #"read"; #"write"; #"readv"; #"writev"; #"close"; #"lseek"; #"dup"; #"dup3"; #"fcntl"; #"open";
    #"openat"; #"stat"; #"lstat"; #"fstat"; #"newfstatat"; #"fstatfs"; #"unlinkat"; #"renameat";
    #"renameat2"; #"fchmod"; #"fchmodat"; #"truncate"; #"ftruncate"; #"getdents64"; #"readlinkat";
    #"faccessat"; #"faccessat2"; #"pipe2"; #"mkdir"; #"unlink"; #"rename"; #"chmod"; #"readlink";
    #"access"; #"readdir"; #"ioctl"; #"mmap"; #"munmap"; #"mprotect"; #"brk"; #"madvise"; #"getpid";
    #"getppid"; #"gettid"; #"getuid"; #"geteuid"; #"getgid"; #"getegid"; #"exit"; #"exit_group";
    #"rt_sigaction"; #"rt_sigprocmask"; #"rt_sigreturn"; #"sigaltstack"; #"nanosleep";
    #"clock_gettime"; #"clock_nanosleep"; #"gettimeofday"; #"poll"; #"ppoll"; #"select"; #"pselect6";
    #"socket"; #"socketpair"; #"bind"; #"listen"; #"accept"; #"accept4"; #"connect"; #"shutdown";
    #"setsockopt"; #"getsockopt"; #"getsockname"; #"getpeername"; #"sendto"; #"recvfrom"; #"sendmsg";
    #"recvmsg"; #"futex"; #"set_robust_list"; #"get_robust_list"; #"arch_prctl"; #"getrandom"].

(** ** Landlock access rights (linux/landlock.h) *)

Definition LANDLOCK_ACCESS_FS_EXECUTE : Z := Z.shiftl 1 0.
Definition LANDLOCK_ACCESS_FS_WRITE_FILE : Z := Z.shiftl 1 1.
Definition LANDLOCK_ACCESS_FS_READ_FILE : Z := Z.shiftl 1 2.
Definition LANDLOCK_ACCESS_FS_READ_DIR : Z := Z.shiftl 1 3.
Definition LANDLOCK_ACCESS_FS_REMOVE_DIR : Z := Z.shiftl 1 4.
Definition LANDLOCK_ACCESS_FS_REMOVE_FILE : Z := Z.shiftl 1 5.
Definition LANDLOCK_ACCESS_FS_MAKE_CHAR : Z := Z.shiftl 1 6.
Definition LANDLOCK_ACCESS_FS_MAKE_DIR : Z := Z.shiftl 1 7.
Definition LANDLOCK_ACCESS_FS_MAKE_REG : Z := Z.shiftl 1 8.
Definition LANDLOCK_ACCESS_FS_MAKE_SOCK : Z := Z.shiftl 1 9.
Definition LANDLOCK_ACCESS_FS_MAKE_FIFO : Z := Z.shiftl 1 10.
Definition LANDLOCK_ACCESS_FS_MAKE_BLOCK : Z := Z.shiftl 1 11.
Definition LANDLOCK_ACCESS_FS_MAKE_SYM : Z := Z.shiftl 1 12.
Definition LANDLOCK_ACCESS_FS_REFER : Z := Z.shiftl 1 13.
Definition LANDLOCK_ACCESS_FS_TRUNCATE : Z := Z.shiftl 1 14.

Definition read_mask : Z := Z.lor LANDLOCK_ACCESS_FS_READ_FILE LANDLOCK_ACCESS_FS_READ_DIR.
Definition execute_mask : Z := LANDLOCK_ACCESS_FS_EXECUTE.
Definition write_mask (abi : Z) : Z :=
  foldl Z.lor 0
    [LANDLOCK_ACCESS_FS_WRITE_FILE; LANDLOCK_ACCESS_FS_REMOVE_FILE; LANDLOCK_ACCESS_FS_REMOVE_DIR;
     LANDLOCK_ACCESS_FS_MAKE_REG; LANDLOCK_ACCESS_FS_MAKE_DIR; LANDLOCK_ACCESS_FS_MAKE_SOCK;
     LANDLOCK_ACCESS_FS_MAKE_FIFO; LANDLOCK_ACCESS_FS_MAKE_BLOCK; LANDLOCK_ACCESS_FS_MAKE_CHAR;
     LANDLOCK_ACCESS_FS_MAKE_SYM; if 2 <=? abi then LANDLOCK_ACCESS_FS_REFER else 0].
Definition handled_access_fs (abi : Z) : Z := Z.lor (Z.lor read_mask (write_mask abi)) execute_mask.

(** A rule: the object behind the path when it was opened, and the accesses
    it allows beneath. *)
Definition rule : Type := bytes * Z.
Record ruleset := Ruleset { rs_handled : Z; rs_rules : list rule }.

(** The kernel's decision for access right number [bit] on path [p]. *)
Definition beneath (q p : bytes) : bool := bytes_eqb q #"/" || subtree q p.
Definition ll_permits (rs : ruleset) (p : bytes) (bit : Z) : bool :=
  negb (Z.testbit (rs_handled rs) bit) ||
  existsb (λ r, beneath (fst r) p && Z.testbit (snd r) bit) (rs_rules rs).

(** [open(path, O_PATH)] *)
Definition sys_open_path (p : bytes) : M bytes :=
  sys (fs ← gets w_fs;
       let q := follow MAXSYMLINKS fs p in
       if bytes_eqb q #"/" then mret q
       else match fs !! q with Some _ => mret q | None => throw ENOENT end).

Definition add_path_rule (c : list rule) (path : bytes) (access : Z) : M (list rule) :=
  fd ← attempt (sys_open_path path);
  match fd with
  | inl _ => mret c
  | inr q =>
      rc ← attempt sys_plain;          (* landlock_add_rule *)
      ignore sys_plain ;;
      match rc with inl _ => mret c | inr _ => mret (c ++ [(q, access)]) end
  end.
Fixpoint add_path_rules (c : list rule) (reqs : list (bytes * Z)) : M (list rule) :=
  match reqs with
  | [] => mret c
  | (path, access) :: reqs' => c ← add_path_rule c path access; add_path_rules c reqs'
  end.

Definition default_reads : list bytes := [ #"/etc"; #"/proc"; #"/dev/null"; #"/dev/urandom"].
Definition default_runtime_dirs : list bytes := [ #"/usr"; #"/lib"; #"/lib64"].

(** The directory of the executable; none when the path has no slash. *)
Definition runtime_dir_of (runtime_path : bytes) : option bytes :=
  match split_last SLASH (snprintf_trunc 4096 runtime_path) with
  | None => None
  | Some ([], _) => Some #"/"
  | Some (d, _) => Some d
  end.

Section enforcement.
Context (root : bytes).

Definition enforcement_write_req (name : bytes) (spec : enforcement_spec_t) : M unit :=
  path ← agent_path root name #"enforcement.req";
  buf ← of_option ENAMETOOLONG (snprintf_ok 512
    (#"enforce_fs=" ++ enforce_fs_name (fs_mode spec) ++ nl ++
     #"seccomp=" ++ seccomp_mode_name (sc_mode spec) ++ nl ++
     #"cgroup=" ++ (if cgroup_on spec then #"on" else #"off") ++ nl ++
     #"cgroup_memory_max=" ++ fmt_d (cg_memory_max spec) ++ nl ++
     #"cgroup_pids_max=" ++ fmt_d (cg_pids_max spec) ++ nl ++
     #"cgroup_cpu_max=" ++ dash_if_empty (cg_cpu_max spec) ++ nl));
  atomic_write_file path buf 384.

Definition write_state_file (name : bytes) (st : enforcement_state_t) : M unit :=
  path ← agent_path root name #"enforcement.applied";
  buf ← of_option ENAMETOOLONG (snprintf_ok 1024 (state_text st));
  atomic_write_file path buf 384.

Definition enforcement_read_state (name : bytes) : M enforcement_state_t :=
  path ← agent_path root name #"enforcement.applied";
  buf ← read_small_file path 1024;
  mret (parse_state_text (cstr buf)).

Definition or_question (s : bytes) : bytes := match s with [] => #"?" | _ => s end.

Definition enforcement_audit_status (name : bytes) : M unit :=
  r ← attempt (enforcement_read_state name);
  match r with
  | inl _ => mret tt
  | inr st =>
      (if landlock_status st =? ENF_STATUS_ACTIVE then
         ignore (audit_log root name (#"landlock active rules=" ++ fmt_d (landlock_rules st)))
       else if landlock_status st =? ENF_STATUS_UNAVAILABLE then
         ignore (audit_log root name (#"landlock unavailable: " ++ or_question (reason st)))
       else mret tt) ;;
      (if seccomp_status st =? ENF_STATUS_ACTIVE then
         ignore (audit_log root name #"seccomp minimal active")
       else if seccomp_status st =? ENF_STATUS_UNAVAILABLE then
         ignore (audit_log root name (#"seccomp unavailable: " ++ or_question (reason st)))
       else mret tt) ;;
      (if cgroup_status st =? ENF_STATUS_ACTIVE then
         ignore (audit_log root name (#"cgroup active path=" ++ cgroup_path st))
       else mret tt)
  end.

(** ** cgroup v2 *)

(** [open(path, O_WRONLY)] and one [write] on a control file: a short count
    is reported with whatever [errno] was left, here [E0]. *)
Definition write_str (path val : bytes) : M unit :=
  q ← sys (fs ← gets w_fs;
           let q := follow MAXSYMLINKS fs path in
           match fs !! q with
           | Some (Node (KReg _) _ _) => mret q
           | Some (Node KDir _ _) => throw EISDIR
           | Some (Node (KLnk _) _ _) => throw ELOOP
           | None => throw ENOENT
           end);
  o ← pop;
  match o with
  | Fail e => ignore sys_plain ;; throw e
  | Short k =>
      modify (set_fs (alter (λ n, Node (KReg (take k val)) (n_mode n) (n_uid n)) q)) ;;
      ignore sys_plain ;;
      (if (k <? length val)%nat then throw E0 else mret tt)
  | Pass =>
      modify (set_fs (alter (λ n, Node (KReg val) (n_mode n) (n_uid n)) q)) ;;
      ignore sys_plain
  end.

(** [strchr(buf, '/')] replaced by a space. *)
Definition cpu_max_text (s : bytes) : bytes :=
  let b := snprintf_trunc 64 s in
  match split_at SLASH b with Some (q, p) => q ++ SP :: p | None => b end.

(** [if (write_str(...) != 0) snprintf(st->reason, ...)] *)
Definition control_write (dir leaf val : bytes) (st : enforcement_state_t) : M enforcement_state_t :=
  r ← attempt (write_str (dir ++ SLASH :: leaf) val);
  match r with
  | inr _ => mret st
  | inl e => mret (set_reason (leaf ++ #": " ++ strerror e) st)
  end.

(** [mkdir(...) != 0 && errno != EEXIST] *)
Definition mkdir_existing_ok (p : bytes) : M (option errno) :=
  r ← attempt (sys_mkdir p 493);
  match r with
  | inr _ | inl EEXIST => mret None
  | inl e => mret (Some e)
  end.

(** The result code is ignored by the only caller; the state carries it. *)
Definition cgroup_setup_linux (name : bytes) (spec : enforcement_spec_t) (st : enforcement_state_t)
  : M enforcement_state_t :=
  match snprintf_ok 256 (#"/sys/fs/cgroup/agents/" ++ name) with
  | None => mret st
  | Some dir =>
      e ← mkdir_existing_ok #"/sys/fs/cgroup/agents";
      match e with
      | Some e => mret (set_cgroup_st ENF_STATUS_UNAVAILABLE
                          (set_reason (#"mkdir /sys/fs/cgroup/agents: " ++ strerror e) st))
      | None =>
          e ← mkdir_existing_ok dir;
          match e with
          | Some e => mret (set_cgroup_st ENF_STATUS_UNAVAILABLE
                              (set_reason (#"cgroup mkdir: " ++ take 220 (strerror e)) st))
          | None =>
              let st := set_cgroup_path (snprintf_trunc 256 dir) st in
              st ← (if 0 <? cg_memory_max spec
                    then control_write dir #"memory.max" (fmt_d (cg_memory_max spec)) st
                    else mret st);
              st ← (if 0 <? cg_pids_max spec
                    then control_write dir #"pids.max" (fmt_d (cg_pids_max spec)) st
                    else mret st);
              st ← match cg_cpu_max spec with
                   | [] => mret st
                   | c => control_write dir #"cpu.max" (cpu_max_text c) st
                   end;
              mret (set_cgroup_st ENF_STATUS_ACTIVE st)
          end
      end
  end.

Definition cgroup_attach_pid_linux (st : enforcement_state_t) (pid : Z) : M unit :=
  if negb (cgroup_status st =? ENF_STATUS_ACTIVE) then mret tt
  else write_str (snprintf_trunc 512 (cgroup_path st ++ #"/cgroup.procs")) (snprintf_trunc 32 (fmt_d pid)).

(** The struct and the result of writing it. *)
Definition enforcement_parent_setup (name : bytes) (spec : enforcement_spec_t)
  : M (enforcement_state_t * (errno + unit)) :=
  let st := inactive_state in
  st ← (if cgroup_on spec then cgroup_setup_linux name spec st else mret st);
  r ← attempt (write_state_file name st);
  mret (st, r).
Definition enforcement_parent_attach_pid (st : enforcement_state_t) (pid : Z) : M unit :=
  cgroup_attach_pid_linux st pid.

(** ** Landlock *)

(** The [add_path_rule] calls of [landlock_apply_linux], in order. *)
Definition landlock_requests (abi : Z) (name runtime_path caps_text : bytes) : M (list (bytes * Z)) :=
  cfg ← attempt (agent_config_dir root name);
  rtd ← attempt (agent_runtime_dir root name);
  dat ← attempt (agent_data_dir root name);
  let rw := Z.lor read_mask (write_mask abi) in
  let rx := Z.lor read_mask execute_mask in
  let opt (r : errno + bytes) (m : Z) : list (bytes * Z) :=
    match r with inr d => [(d, m)] | inl _ => [] end in
  mret (((λ p, (p, read_mask)) <$> default_reads) ++
        ((λ p, (p, rx)) <$> default_runtime_dirs) ++
        match runtime_dir_of runtime_path with Some d => [(d, rx)] | None => [] end ++
        opt cfg read_mask ++ opt rtd rw ++ opt dat rw ++
        ((λ p, (p, read_mask)) <$> iter_allow_with_verb caps_text #"fs.read") ++
        ((λ p, (p, rw)) <$> iter_allow_with_verb caps_text #"fs.write")).

(** [abi] is the answer of [landlock_create_ruleset(NULL, 0, VERSION)].  The
    result is the new state and, when [restrict_self] succeeded, the ruleset
    now in force. *)
Definition landlock_apply_linux (abi : errno + Z) (name runtime_path caps_text : bytes)
    (st : enforcement_state_t) : M (enforcement_state_t * option ruleset) :=
  let unavailable msg := set_landlock ENF_STATUS_UNAVAILABLE (landlock_rules st) (set_reason msg st) in
  match abi with
  | inl e => mret (unavailable (#"landlock unsupported: " ++ strerror e), None)
  | inr abi =>
      if abi <? 1 then mret (unavailable (#"landlock unsupported: " ++ strerror E0), None) else
      rsfd ← attempt sys_plain;
      match rsfd with
      | inl e => mret (unavailable (#"landlock create_ruleset: " ++ strerror e), None)
      | inr _ =>
          reqs ← landlock_requests abi name runtime_path caps_text;
          rules ← add_path_rules [] reqs;
          r ← attempt sys_plain;                 (* PR_SET_NO_NEW_PRIVS *)
          match r with
          | inl e => ignore sys_plain ;;
                     mret (unavailable (#"PR_SET_NO_NEW_PRIVS: " ++ strerror e), None)
          | inr _ =>
              r ← attempt sys_plain;             (* landlock_restrict_self *)
              match r with
              | inl e => ignore sys_plain ;;
                         mret (unavailable (#"landlock restrict_self: " ++ strerror e), None)
              | inr _ =>
                  ignore sys_plain ;;
                  mret (set_landlock ENF_STATUS_ACTIVE (blen rules) st,
                        Some (Ruleset (handled_access_fs abi) rules))
              end
          end
      end
  end.

(** ** seccomp *)

(** [NR] gives the number of a system call, [None] where the headers do not
    define it; [arch] is [SC_AUDIT_ARCH], 0 when unsupported. *)
Context (NR : bytes → option Z) (arch : Z).

Definition sc_allowed : list Z := omap NR sc_allowed_names.
Definition sc_program (nrs : list Z) : list sock_filter :=
  [LdAbs 4; JeqK arch 1 0; RetK SECCOMP_RET_KILL_PROCESS; LdAbs 0] ++
  mjoin (SC_ALLOW <$> nrs) ++
  [RetK (Z.lor SECCOMP_RET_ERRNO (Z.land EPERM_NUM SECCOMP_RET_DATA))].
Definition sc_filter : list sock_filter := sc_program sc_allowed.

Definition seccomp_apply_linux (st : enforcement_state_t)
  : M (enforcement_state_t * option (list sock_filter)) :=
  let unavailable msg := set_seccomp_st ENF_STATUS_UNAVAILABLE (set_reason msg st) in
  if arch =? 0 then mret (unavailable #"seccomp arch not supported", None)
  else
    r ← attempt sys_plain;
    match r with
    | inl e => mret (unavailable (#"PR_SET_NO_NEW_PRIVS: " ++ strerror e), None)
    | inr _ =>
        r ← attempt sys_plain;
        match r with
        | inl e => mret (unavailable (#"PR_SET_SECCOMP: " ++ strerror e), None)
        | inr _ => mret (set_seccomp_st ENF_STATUS_ACTIVE st, Some sc_filter)
        end
    end.

(** ** The child's side *)

(** What a failed read of the policy leaves in the buffer is taken to be the
    empty string it held before. *)

Record restrictions := Restrictions {
  r_state : enforcement_state_t;
  r_landlock : option ruleset;
  r_seccomp : option (list sock_filter)
}.

Definition enforcement_child_apply (abi : errno + Z) (name runtime_path : bytes)
    (spec : enforcement_spec_t) (st : enforcement_state_t) : M restrictions :=
  caps ← attempt (path ← agent_path root name #"policy"; read_small_file path 8192);
  let caps := match caps with inr c => cstr c | inl _ => [] end in
  '(st, ll) ← match fs_mode spec with
              | ENFORCE_FS_LANDLOCK => landlock_apply_linux abi name runtime_path caps st
              | ENFORCE_FS_OFF => mret (st, None)
              end;
  ignore (write_state_file name st) ;;
  '(st, sc) ← match sc_mode spec with
              | SECCOMP_MINIMAL => seccomp_apply_linux st
              | SECCOMP_OFF => mret (st, None)
              end;
  ignore (write_state_file name st) ;;
  mret (Restrictions st ll sc).
End enforcement.

(** ** Lemmas *)

Lemma bpf_skip i prog k acc d : bpf_run (i :: prog) (S k) acc d = bpf_run prog k acc d.
Proof. reflexivity. Qed.

(** The compare-and-return pairs of the allow-list, entered with the number in
    the accumulator. *)
Lemma bpf_allow_list nrs rest d acc :
  bpf_run (mjoin (SC_ALLOW <$> nrs) ++ rest) 0 acc d =
  if bool_decide (acc ∈ nrs) then Some SECCOMP_RET_ALLOW else bpf_run rest 0 acc d.
Proof.
  induction nrs as [|n nrs IH]; [done|].
  change (mjoin (SC_ALLOW <$> n :: nrs) ++ rest)
    with (JeqK n 0 1 :: RetK SECCOMP_RET_ALLOW :: (mjoin (SC_ALLOW <$> nrs) ++ rest)).
  cbn [bpf_run]. destruct (Z.eqb_spec acc n) as [->|Hne].
  - by rewrite bool_decide_eq_true_2 by set_solver.
  - rewrite IH. destruct (bool_decide (acc ∈ nrs)) eqn:E; bool_simpl.
    + by rewrite bool_decide_eq_true_2 by set_solver.
    + by rewrite bool_decide_eq_false_2 by set_solver.
Qed.

Lemma sc_program_spec arch nrs d :
  bpf_run (sc_program arch nrs) 0 0 d =
  Some (if negb (sd_arch d =? arch) then SECCOMP_RET_KILL_PROCESS
        else if bool_decide (sd_nr d ∈ nrs) then SECCOMP_RET_ALLOW
        else Z.lor SECCOMP_RET_ERRNO EPERM_NUM).
Proof.
  unfold sc_program. cbn [app bpf_run load_abs Z.eqb Pos.eqb].
  destruct (sd_arch d =? arch); [|done]. cbn [negb bpf_run load_abs Z.eqb].
  rewrite bpf_allow_list. by destruct (bool_decide _).
Qed.

Lemma sc_program_length arch nrs : length (sc_program arch nrs) = (5 + 2 * length nrs)%nat.
Proof.
  unfold sc_program. rewrite !length_app. cbn [length].
  assert (length (mjoin (SC_ALLOW <$> nrs)) = 2 * length nrs)%nat as ->; [|lia].
  induction nrs as [|n nrs IH]; [done|]. 
  change (mjoin (SC_ALLOW <$> n :: nrs)) with (SC_ALLOW n ++ mjoin (SC_ALLOW <$> nrs)).
  rewrite length_app, IH. cbn [length SC_ALLOW]. lia.
Qed.

Lemma sc_allowed_length NR : (length (sc_allowed NR) ≤ 83)%nat.
Proof.
  unfold sc_allowed. change 83%nat with (length sc_allowed_names). generalize sc_allowed_names.
  intros l. induction l as [|s l IH]; [done|]. simpl.
  change (list_omap bytes Z NR l) with (omap NR l). destruct (NR s); simpl;
  change (list_omap bytes Z NR l) with (omap NR l); lia.
Qed.

Lemma elem_of_sc_allowed NR n : n ∈ sc_allowed NR ↔ ∃ s, s ∈ sc_allowed_names ∧ NR s = Some n.
Proof. apply list_elem_of_omap. Qed.

Lemma execve_not_allowed : #"execve" ∉ sc_allowed_names.
Proof. vm_compute. not_in_list. Qed.

Lemma truncate_allowed : #"truncate" ∈ sc_allowed_names.
Proof. apply list_elem_of_In. vm_compute. tauto. Qed.

#[global] Opaque sc_allowed_names.

(** *** Landlock *)

(** Opening, adding and closing change no file. *)
Lemma add_path_rule_inv c path access w r w' :
  add_path_rule c path access w = (r, w') →
  w_fs w' = w_fs w ∧ ∃ c', r = inr c' ∧
    (c' = c ∨ c' = c ++ [(follow MAXSYMLINKS (w_fs w) path, access)]).
Proof.
  intros E. split.
  { eapply confined_none; [|exact E]. unfold add_path_rule, sys_open_path. confine. }
  unfold add_path_rule in E. rewrite bind_attempt in E.
  destruct (sys_open_path path w) as [[e|q] w1] eqn:E1; [run_in E; simplify_eq; eauto|].
  assert (q = follow MAXSYMLINKS (w_fs w) path) as ->.
  { apply sys_inv in E1 as [(?&?&?&_)|(s & _ & E1)]; [done|]. rewrite bind_gets in E1.
    change (w_fs (set_sched s w)) with (w_fs w) in E1.
    generalize dependent (follow MAXSYMLINKS (w_fs w) path). intros q' E1. cbv zeta in E1.
    destruct (bytes_eqb q' _); [by inversion E1|].
    destruct (w_fs w !! q'); by inversion E1. }
  rewrite bind_attempt in E. destruct (sys_plain w1) as [rc w2]. rewrite bind_ignore in E.
  destruct rc; run_in E; simplify_eq; eauto.
Qed.

Lemma add_path_rules_inv reqs c w r w' :
  add_path_rules c reqs w = (r, w') →
  w_fs w' = w_fs w ∧ ∃ c', r = inr c' ∧
    ∀ q m, (q, m) ∈ c' → (q, m) ∈ c ∨
      ∃ path, (path, m) ∈ reqs ∧ q = follow MAXSYMLINKS (w_fs w) path.
Proof.
  revert c w. induction reqs as [|[path access] reqs IH]; intros c w E.
  { simpl in E. run_in E. simplify_eq. split; [done|]. exists c. by split; [|left]. }
  cbn [add_path_rules] in E. rewrite bind_unfold in E.
  destruct (add_path_rule c path access w) as [r1 w1] eqn:E1.
  apply add_path_rule_inv in E1 as (Hfs & c1 & -> & Hc1). apply IH in E as (Hfs' & c' & -> & Hc').
  rewrite Hfs in *. split; [done|]. exists c'. split; [done|]. intros q m Hq.
  apply Hc' in Hq as [Hq|(p & Hp & ->)]; [|right; exists p; split; [by right|done]].
  destruct Hc1 as [->| ->]; [by left|]. apply elem_of_app in Hq as [Hq|Hq]; [by left|].
  apply list_elem_of_singleton in Hq. simplify_eq. right. exists path. split; [by left|done].
Qed.

(** No right to modify is also a right to read or execute. *)
Lemma write_bits_disjoint abi bit :
  Z.testbit (write_mask abi) bit = true →
  Z.testbit read_mask bit = false ∧ Z.testbit (Z.lor read_mask execute_mask) bit = false.
Proof.
  intros Hb.
  assert (Z.land (write_mask abi) (Z.lor read_mask execute_mask) = 0) as H0
    by (unfold write_mask; by destruct (2 <=? abi)).
  apply (f_equal (λ z, Z.testbit z bit)) in H0. rewrite Z.land_spec, Hb, Z.bits_0 in H0.
  simpl in H0. split; [|done]. rewrite Z.lor_spec in H0. by apply orb_false_iff in H0 as [? _].
Qed.

(** Which requested paths carry a right to modify. *)
Lemma landlock_requests_write root abi name rt caps w reqs w' path m bit :
  landlock_requests root abi name rt caps w = (inr reqs, w') →
  (path, m) ∈ reqs → Z.testbit (write_mask abi) bit = true → Z.testbit m bit = true →
  path = base_of root name ++ #"/runtime" ∨ path = base_of root name ++ #"/data" ∨
  path ∈ iter_allow_with_verb caps #"fs.write".
Proof.
  intros E Hin Hb Hm. destruct (write_bits_disjoint _ _ Hb) as [Hr Hx].
  unfold landlock_requests in E. rewrite !bind_attempt in E.
  destruct (agent_config_dir root name w) as [cfg w1]. cbv beta iota in E. rewrite bind_attempt in E.
  destruct (agent_runtime_dir root name w1) as [rtd w2] eqn:Ert. cbv beta iota in E.
  rewrite bind_attempt in E.
  destruct (agent_data_dir root name w2) as [dat w3] eqn:Edat. cbv beta iota zeta in E.
  unfold mret, M_ret in E. injection E as <- <-.
  repeat match goal with
    | H : _ ∈ _ :: _ ++ _ |- _ => apply elem_of_cons in H as [H|H]; [simplify_eq; congruence|]
    | H : _ ∈ _ :: _ :: _ |- _ => apply elem_of_cons in H as [H|H]; [simplify_eq; congruence|]
    | H : _ ∈ _ ++ _ |- _ => apply elem_of_app in H as [H|H]
    end.
  all: repeat match goal with
    | H : _ ∈ _ <$> _ |- _ => apply list_elem_of_fmap in H as (? & ? & ?); simplify_eq
    | H : _ ∈ match ?x with _ => _ end |- _ => destruct x
    | H : _ ∈ [] |- _ => by apply not_elem_of_nil in H
    | H : _ ∈ [_] |- _ => apply list_elem_of_singleton in H; simplify_eq
    end; try congruence; try (by (right; right)).
  - left. by apply agent_subdir_base in Ert.
  - right; left. by apply agent_subdir_base in Edat.
Qed.

(** The ruleset in force: its handled rights, and where its rules come from. *)
Lemma landlock_apply_inv root abi name rt caps st w st' rs w' :
  landlock_apply_linux root (inr abi) name rt caps st w = (inr (st', Some rs), w') →
  rs_handled rs = handled_access_fs abi ∧
  ∀ q m, (q, m) ∈ rs_rules rs → ∃ path reqs w1 w2,
    landlock_requests root abi name rt caps w1 = (inr reqs, w2) ∧
    (path, m) ∈ reqs ∧ q = follow MAXSYMLINKS (w_fs w) path.
Proof.
  intros E. unfold landlock_apply_linux in E.
  destruct (abi <? 1); [run_in E; simplify_eq|]. rewrite bind_attempt in E.
  destruct (sys_plain w) as [r1 w1] eqn:E1. apply sys_plain_fs in E1.
  destruct r1; [run_in E; simplify_eq|]. rewrite bind_unfold in E.
  destruct (landlock_requests root abi name rt caps w1) as [[e|reqs] w2] eqn:Eq; [done|].
  assert (w_fs w2 = w_fs w1) as E2.
  { eapply confined_none; [|exact Eq].
    unfold landlock_requests, agent_config_dir, agent_runtime_dir, agent_data_dir, agent_subdir. confine. }
  rewrite bind_unfold in E. destruct (add_path_rules [] reqs w2) as [r3 w3] eqn:E3.
  apply add_path_rules_inv in E3 as (_ & rules & -> & Hr). rewrite E2, E1 in Hr.
  assert (rs = Ruleset (handled_access_fs abi) rules) as ->.
  { rewrite bind_attempt in E. destruct (sys_plain w3) as [[]]; [run_in E; by destruct (sys_plain w0)|].
    rewrite bind_attempt in E. destruct (sys_plain w0) as [[]]; [run_in E; by destruct (sys_plain w4)|].
    run_in E. destruct (sys_plain w4). by simplify_eq. }
  split; [done|]. intros q m Hin. apply Hr in Hin as [Hin|(path & Hin & ->)]; [by apply not_elem_of_nil in Hin|].
  by exists path, reqs, w1, w2.
Qed.

(** The agent's own directories are apart. *)
Lemma beneath_sibling root name a b p :
  beneath (base_of root name ++ SLASH :: a) p = true → subtree (base_of root name ++ SLASH :: b) p = true →
  SLASH ∉ a → SLASH ∉ b → a = b.
Proof.
  unfold beneath. rewrite orb_true_iff, bytes_eqb_eq. intros Ha Hb Hsa Hsb.
  destruct Ha as [Ha|Ha].
  { exfalso. apply (f_equal length) in Ha. unfold base_of, agent_root in Ha.
    rewrite !length_app in Ha. change (length #"/") with 1%nat in Ha.
    change (length #"/agents") with 7%nat in Ha. lia. }
  assert (∀ x, subtree (base_of root name ++ SLASH :: x) p = true → SLASH ∉ x →
    ∃ r, p = (base_of root name ++ [SLASH]) ++ r ∧ split_at SLASH (r ++ [SLASH]) ≫= (λ y, Some y.1) = Some x) as HH.
  { intros x Hx Hs. apply subtree_prefix in Hx as [->|[r ->]].
    - exists x. rewrite <-app_assoc. split; [done|]. by rewrite split_at_app.
    - exists (x ++ SLASH :: r). rewrite <-!app_assoc. split; [done|]. simpl. by rewrite split_at_app. }
  destruct (HH a Ha Hsa) as (ra & Hra & Ea). destruct (HH b Hb Hsb) as (rb & Hrb & Eb).
  assert (ra = rb) as -> by (eapply app_inv_head; by rewrite <-Hra). congruence.
Qed.

(** ** Properties *)


(** The numbers of the x86_64 system calls used here. *)
Definition x86_64_numbers : list (bytes * Z) :=
  [( #"read", 0); ( #"write", 1); ( #"open", 2); ( #"close", 3); ( #"stat", 4); ( #"fstat", 5);
   ( #"lstat", 6); ( #"poll", 7); ( #"lseek", 8); ( #"mmap", 9); ( #"mprotect", 10); ( #"munmap", 11);
   ( #"brk", 12); ( #"truncate", 76); ( #"socket", 41); ( #"connect", 42); ( #"sendmsg", 46);
   ( #"recvmsg", 47); ( #"clone", 56); ( #"fork", 57); ( #"execve", 59); ( #"exit", 60);
   ( #"openat", 257); ( #"getrandom", 318)].
Definition x86_64_nr (s : bytes) : option Z := (list_to_map x86_64_numbers : gmap bytes Z) !! s.
Definition AUDIT_ARCH_X86_64 : Z := 3221225534.

Lemma sc_filter_execve (NR : bytes → option Z) (arch n : Z) :
  NR #"execve" = Some n →
  (∀ s, s ∈ sc_allowed_names → NR s = NR #"execve" → s = #"execve") →
  bpf_run (sc_filter NR arch) 0 0 (SeccompData n arch) = Some (Z.lor SECCOMP_RET_ERRNO EPERM_NUM).
Proof.
  intros Hn Hinj. unfold sc_filter. rewrite sc_program_spec. cbn [sd_arch sd_nr]. rewrite Z.eqb_refl.
  rewrite bool_decide_eq_false_2; [done|]. intros (s & Hs & E)%elem_of_sc_allowed.
  apply execve_not_allowed. rewrite <-(Hinj s); congruence.
Qed.

Lemma x86_64_execve_apart s :
  s ∈ sc_allowed_names → x86_64_nr s = x86_64_nr #"execve" → s = #"execve".
Proof.
  assert (forallb (λ s, negb (bool_decide (x86_64_nr s = x86_64_nr #"execve"))) sc_allowed_names = true)
    as Hall by (vm_compute; reflexivity).
  intros Hs E. rewrite forallb_forall in Hall.
  apply list_elem_of_In in Hs. specialize (Hall s Hs). by rewrite bool_decide_eq_true_2 in Hall.
Qed.



(** Truncation is outside the ruleset: [LANDLOCK_ACCESS_FS_TRUNCATE] is
    never among the handled rights, whatever the ABI, so the kernel lets the
    child truncate any file by path, its policy included (and the seccomp
    filter lists [truncate]). *)
Theorem landlock_truncate_unhandled root abi name rt caps st w st' rs w' p :
  landlock_apply_linux root (inr abi) name rt caps st w = (inr (st', Some rs), w') →
  Z.testbit LANDLOCK_ACCESS_FS_TRUNCATE 14 = true ∧ ll_permits rs p 14 = true ∧
  #"truncate" ∈ sc_allowed_names.
Proof.
  intros E. apply landlock_apply_inv in E as (Hh & _). split; [done|]. split.
  - unfold ll_permits. rewrite Hh. unfold handled_access_fs, write_mask.
    by destruct (2 <=? abi).
  - apply truncate_allowed.
Qed.

Lemma landlock_truncate_unhandled_witness :
  ∃ st' rs, run (landlock_apply_linux #"/r" (inr 3) #"a" #"/usr/bin/rt" [] inactive_state) demo_world =
              inr (st', Some rs) ∧
    ll_permits rs #"/r/agents/a/config/policy" 14 = true.
Proof.
  assert (∃ x, run (landlock_apply_linux #"/r" (inr 3) #"a" #"/usr/bin/rt" [] inactive_state) demo_world = inr x ∧
               is_Some (snd x)) as ((st' & rs) & Hr & [rs' Hrs]).
  { eexists. split; [vm_compute; reflexivity|by eexists]. }
  simpl in Hrs. subst rs. exists st', rs'. split; [done|].
  eapply (landlock_truncate_unhandled #"/r" 3 #"a" #"/usr/bin/rt" [] inactive_state demo_world).
  apply run_exec. exact Hr.
Defined.
