(* ===== verification/Lifecycle.v ===== *)
(** * common.c: processes

    The process calls of the operating system, the pidfd and signal helpers
    ([lifecycle_*], [run_alive]) and [spawn_agent_runtime], parent and child
    side.  The child runs in a process of its own: [spawn_child] is its
    program up to [execl], on the child's copy of the world.  Close-on-exec
    flags are not modelled. *)

From S2P Require Import Prelude CLib Posix Names Common Ipc Profiles Enforcement.

(** ** Process calls *)

(** [kill(pid, sig)], [pid > 0]: a zombie still has its table entry. *)
Definition sys_kill (pid sig : Z) : M unit :=
  sys (procs ← gets w_procs;
       match procs !! pid with
       | None => throw ESRCH
       | Some _ => if sig =? 0 then mret tt else modify (push_trace (EvKill pid sig))
       end).

(** [killpg]: the group is named by its leader. *)
Definition sys_killpg (pgid sig : Z) : M unit :=
  sys (procs ← gets w_procs;
       match procs !! pgid with
       | None => throw ESRCH
       | Some _ => modify (push_trace (EvKillGroup pgid sig))
       end).

Definition sys_pidfd_open (pid : Z) : M Z :=
  sys (procs ← gets w_procs;
       match procs !! pid with None => throw ESRCH | Some _ => install (FdPid pid) end).
Definition sys_pidfd_send_signal (fd sig : Z) : M unit :=
  sys (fds ← gets w_fds; procs ← gets w_procs;
       match fds !! fd with
       | Some (FdPid pid) =>
           match procs !! pid with
           | None => throw ESRCH
           | Some _ => if sig =? 0 then mret tt else modify (push_trace (EvKill pid sig))
           end
       | _ => throw EBADF
       end).

(** [waitpid(-1, &status, WNOHANG)]: some zombie, which leaves the table;
    [None] when there is none (or no child at all). *)
Definition zombies (procs : gmap Z pstate) : list (Z * exit_status) :=
  omap (λ e : Z * pstate, match snd e with PZombie st => Some (fst e, st) | _ => None end)
       (map_to_list procs).
Definition sys_waitpid : M (option (Z * exit_status)) :=
  procs ← gets w_procs;
  match zombies procs with
  | [] => mret None
  | (pid, st) :: _ => modify (set_procs (delete pid)) ;; mret (Some (pid, st))
  end.

(** [nanosleep]: the processes the environment lets exit meanwhile do so. *)
Definition apply_exit (procs : gmap Z pstate) (e : Z * exit_status) : gmap Z pstate :=
  match procs !! (fst e) with
  | Some PLive => <[fst e := PZombie (snd e)]> procs
  | Some PForeign => delete (fst e) procs
  | _ => procs
  end.
Definition sys_nanosleep : M unit := λ w,
  match w_exits w with
  | [] => (inr tt, w)
  | b :: bs => (inr tt, set_exits bs (set_procs (λ procs, foldl apply_exit procs b) w))
  end.

(** [fork], parent side: a pid that is not in the table. *)
Definition next_pid (self : Z) (procs : gmap Z pstate) : Z :=
  1 + foldr Z.max self (map_to_list procs).*1.
Definition sys_fork (name : bytes) : M Z :=
  sys (self ← gets w_self; procs ← gets w_procs;
       let pid := next_pid self procs in
       modify (set_procs (<[pid := PLive]>)) ;;
       modify (push_trace (EvSpawn name pid)) ;;
       mret pid).

Definition sys_dup2 (old new : Z) : M unit :=
  sys (fds ← gets w_fds;
       match fds !! old with
       | Some o => modify (set_fds (<[new := o]>))
       | None => throw EBADF
       end).
Definition sys_setenv (v x : bytes) : M unit := modify (set_env (<[v := x]>)).

(** [open] of a file the code keeps by number. *)
Definition sys_open_fd (path : bytes) (mode : Z) : M Z :=
  q ← sys_open_create path false mode; install FdOther.

(** [realpath] and [access(X_OK)] of a runtime. *)
Definition sys_realpath (p : bytes) : M bytes :=
  sys (fs ← gets w_fs;
       let q := follow MAXSYMLINKS fs p in
       match fs !! q with Some _ => mret q | None => throw ENOENT end).
Definition sys_access_x (p : bytes) : M unit :=
  sys (fs ← gets w_fs;
       match fs !! follow MAXSYMLINKS fs p with
       | Some n => guard_ EACCES (negb (Z.land (n_mode n) 64 =? 0))
       | None => throw ENOENT
       end).

(** ** Liveness and signals *)

Definition SIGHUP : Z := 1.
Definition SIGKILL : Z := 9.
Definition SIGTERM : Z := 15.

Definition run_alive (pid : Z) : M bool :=
  if pid <=? 0 then mret false
  else r ← attempt (sys_kill pid 0);
       match r with
       | inr _ => mret true
       | inl EPERM => mret true
       | inl _ => mret false
       end.

Definition lifecycle_pidfd_open (pid : Z) : M Z := sys_pidfd_open pid.

(** [Some] is the answer 1 or 0, [None] is -1. *)
Definition lifecycle_pidfd_alive (pidfd : Z) : M (option bool) :=
  if pidfd <? 0 then mret None
  else r ← attempt (sys_pidfd_send_signal pidfd 0);
       match r with
       | inr _ => mret (Some true)
       | inl ESRCH => mret (Some false)
       | inl _ => mret None
       end.
Definition lifecycle_pidfd_signal (pidfd sig : Z) : M unit :=
  if pidfd <? 0 then throw EBADF else sys_pidfd_send_signal pidfd sig.
Definition lifecycle_signal_group (pgid sig : Z) : M unit := sys_killpg pgid sig.

Definition lifecycle_cgroup_kill (cg_path : bytes) : M unit :=
  guard_ EINVAL (negb (bytes_eqb cg_path [])) ;;
  path ← of_option ENAMETOOLONG (snprintf_ok MAX_PATHBUF (cg_path ++ #"/cgroup.kill"));
  q ← sys_open_read path;
  r ← attempt (sys (modify (push_trace (EvCgroupKill cg_path))));
  ignore sys_plain ;;
  match r with inl e => throw e | inr _ => mret tt end.

(** ** Starting a runtime *)

Section spawn.
Context (root cwd : bytes).

Definition export_profiles_dir_once : M unit :=
  e ← sys_getenv #"AGENT_PROFILES_DIR";
  match e with
  | Some _ => mret tt
  | None =>
      match snprintf_ok MAX_PATHBUF (cwd ++ #"/profiles") with
      | None => mret tt
      | Some d =>
          r ← attempt (sys_stat d);
          match r with
          | inr _ => sys_setenv #"AGENT_PROFILES_DIR" d
          | inl _ => mret tt
          end
      end
  end.

Definition label_or_direct (l : option bytes) : bytes := default #"direct" l.

Definition resolve_spec (pcfg : profile_cfg_t) (fs_override sc_override cg_override : Z)
  : enforcement_spec_t :=
  let fs_on := if 0 <=? fs_override then fs_override else enforce_fs pcfg in
  let sc_on := if 0 <=? sc_override then sc_override else seccomp pcfg in
  let cg_on := if 0 <=? cg_override then cg_override else cgroup pcfg in
  EnforcementSpec (if fs_on =? 0 then ENFORCE_FS_OFF else ENFORCE_FS_LANDLOCK)
                  (if sc_on =? 0 then SECCOMP_OFF else SECCOMP_MINIMAL)
                  (negb (cg_on =? 0))
                  (cgroup_memory_max pcfg) (cgroup_pids_max pcfg)
                  (snprintf_trunc 32 (cgroup_cpu_max pcfg)).

(** What [spawn_agent_runtime] leaves to the processes after [fork]. *)
Record spawn_env := SpawnEnv {
  se_data_dir : bytes;
  se_runtime_abs : bytes;
  se_audit_fd : option Z;
  se_broker : option (Z * Z);
  se_lock : option Z;
  se_inbox : option (Z * Z);
  se_spec : enforcement_spec_t;
  se_enf : enforcement_state_t
}.

(** [if (fd != -1) close(fd);] *)
Definition close_opt (fd : option Z) : M unit :=
  match fd with Some k => ignore (sys_close k) | None => mret tt end.
Definition close_pair (p : option (Z * Z)) : M unit :=
  match p with Some (a, b) => ignore (sys_close a) ;; ignore (sys_close b) | None => mret tt end.

(** The broker channel and its lock descriptor. *)
Definition make_broker (runtime_dir : bytes) (audit_fd : option Z) : M ((Z * Z) * Z) :=
  r ← attempt sys_socketpair;
  match r with
  | inl e => close_opt audit_fd ;; throw e
  | inr sv =>
      r ← attempt (lock_path ← of_option ENAMETOOLONG
                                 (snprintf_ok MAX_PATHBUF (runtime_dir ++ #"/broker.lock"));
                   k ← sys_open_fd lock_path 384;
                   mret (lock_path, k));
      match r with
      | inl e => close_pair (Some sv) ;; close_opt audit_fd ;; throw e
      | inr (lock_path, k) => ignore (sys_unlink lock_path) ;; mret (sv, k)
      end
  end.

(** Everything up to [fork]: the checks, the records, the enforcement request
    and the channels.  [garbage] is what the uninitialised [pcfg] held. *)
Definition spawn_prepare (garbage : profile_cfg_t) (name runtime_path : bytes) (label : option bytes)
    (fs_override sc_override cg_override : Z) (want_broker want_inbox : bool) : M spawn_env :=
  guard_ EINVAL (validate_name name) ;;
  dir ← agent_dir root name;
  agent_ensure_layout root name ;;
  data_dir ← agent_data_dir root name;
  runtime_dir ← agent_runtime_dir root name;
  sys_stat dir ;;
  runtime_abs ← sys_realpath runtime_path;
  x ← attempt (sys_access_x runtime_abs);
  match x with inl _ => throw EACCES | inr _ => mret tt end ;;
  audit_path ← agent_path root name #"audit.log";
  audit ← attempt (sys_open_fd audit_path 384);
  let audit_fd := match audit with inr k => Some k | inl _ => None end in
  ignore (write_agent_setting root name #"supervisor" (label_or_direct label)) ;;
  ignore (write_status root name #"starting") ;;
  export_profiles_dir_once ;;
  pcfg ← profile_load_for_agent root name garbage;
  let spec := resolve_spec pcfg fs_override sc_override cg_override in
  ignore (enforcement_write_req root name spec) ;;
  '(enf, _) ← enforcement_parent_setup root name spec;
  ignore (audit_log root name (label_or_direct label ++ #": enforcement requested fs=" ++
    enforce_fs_name (fs_mode spec) ++ #" seccomp=" ++ seccomp_mode_name (sc_mode spec) ++
    #" cgroup=" ++ (if cgroup_on spec then #"on" else #"off"))) ;;
  (if cgroup_status enf =? ENF_STATUS_ACTIVE then
     ignore (audit_log root name (#"cgroup active path=" ++ cgroup_path enf))
   else if cgroup_status enf =? ENF_STATUS_UNAVAILABLE then
     ignore (audit_log root name (#"cgroup unavailable: " ++ or_question (reason enf)))
   else mret tt) ;;
  broker ← (if (want_broker : bool) then b ← make_broker runtime_dir audit_fd; mret (Some b)
            else mret None);
  let sv := fst <$> broker in
  let lock := snd <$> broker in
  inbox ← (if (want_inbox : bool) then
             r ← attempt sys_socketpair;
             match r with
             | inl e => close_pair sv ;; close_opt lock ;; close_opt audit_fd ;; throw e
             | inr p => mret (Some p)
             end
           else mret None);
  mret (SpawnEnv data_dir runtime_abs audit_fd sv lock inbox spec enf).

(** The poll for the status to leave "starting"; only time depends on it. *)
Fixpoint await_status (n : nat) (status_path : bytes) (pid : Z) : M unit :=
  match n with
  | O => mret tt
  | S n' =>
      r ← attempt (read_small_file status_path 64);
      let moved := match r with
                   | inl _ => false
                   | inr s => let w := take_while (λ c, negb (Ascii.eqb c NL)) (cstr s) in
                              negb (bytes_eqb w #"starting") && negb (bytes_eqb w #"created")
                   end in
      if moved then mret tt
      else
        alive ← run_alive pid;
        if (alive : bool) then sys_nanosleep ;; await_status n' status_path pid else mret tt
  end.

(** The parent after [fork]. *)
Definition spawn_parent (name runtime_path : bytes) (label : option bytes) (env : spawn_env) (pid : Z)
  : M unit :=
  close_opt (se_audit_fd env) ;;
  close_opt (snd <$> se_broker env) ;;
  close_opt (snd <$> se_inbox env) ;;
  close_opt (se_lock env) ;;
  pidbuf ← of_option E0 (snprintf_ok 32 (fmt_d pid ++ nl));
  pid_path ← agent_path root name #"pid";
  atomic_write_file pid_path pidbuf 384 ;;
  ignore (enforcement_parent_attach_pid (se_enf env) pid) ;;
  ignore (audit_log root name (label_or_direct label ++ #" forked pid=" ++ fmt_d pid ++
                               #" pgid=" ++ fmt_d pid ++ #" runtime=" ++ se_runtime_abs env)) ;;
  ignore (write_agent_setting root name #"exec" runtime_path) ;;
  sp ← attempt (agent_path root name #"status");
  match sp with inr p => await_status 40 p pid | inl _ => mret tt end.

(** The pid and the supervisor's ends of the channels. *)
Definition spawn_agent_runtime (garbage : profile_cfg_t) (name runtime_path : bytes)
    (label : option bytes) (fs_override sc_override cg_override : Z) (want_broker want_inbox : bool)
  : M (Z * option Z * option Z) :=
  env ← spawn_prepare garbage name runtime_path label fs_override sc_override cg_override
                      want_broker want_inbox;
  r ← attempt (sys_fork name);
  match r with
  | inl e =>
      close_opt (se_audit_fd env) ;; close_pair (se_broker env) ;; close_pair (se_inbox env) ;;
      close_opt (se_lock env) ;; throw e
  | inr pid =>
      spawn_parent name runtime_path label env pid ;;
      mret (pid, fst <$> se_broker env, fst <$> se_inbox env)
  end.

(** ** The child *)

Inductive child_end :=
| ChildExit (code : Z)
| ChildExec (path argv0 arg : bytes) (limits : list (rlimit_t * Z)) (r : restrictions).

(** [dup2(fd, slot)], then close the original unless it is the slot. *)
Definition move_fd (fd slot : Z) : M unit :=
  sys_dup2 fd slot ;;
  if fd =? slot then mret tt else ignore (sys_close fd).

(** [throw] stands for [_exit(127)]. *)
Definition child_fds (env : spawn_env) : M unit :=
  sys_plain ;;                                   (* setsid *)
  sys (fs ← gets w_fs; guard_ ENOENT (is_dir fs (se_data_dir env))) ;;   (* chdir *)
  (dn ← attempt (q ← sys_open_read #"/dev/null"; install FdOther);
   match dn with
   | inr k => ignore (sys_dup2 k 0) ;; ignore (sys_close k)
   | inl _ => mret tt
   end) ;;
  match se_audit_fd env with
  | Some k => ignore (sys_dup2 k 1) ;; ignore (sys_dup2 k 2) ;; ignore (sys_close k)
  | None => mret tt
  end ;;
  match se_broker env with
  | Some (a, b) => ignore (sys_close a) ;; move_fd b BROKER_FD_SLOT
  | None => mret tt
  end ;;
  match se_inbox env with
  | Some (a, b) => ignore (sys_close a) ;; move_fd b INBOX_FD_SLOT ;;
                   sys_setenv #"AGENTCTL_INBOX_FD" #"4"
  | None => mret tt
  end ;;
  match se_lock env with
  | Some k => move_fd k BROKER_LOCK_FD_SLOT ;; sys_setenv #"AGENTCTL_BROKER_LOCK_FD" #"5"
  | None => mret tt
  end.

(** What the system answers to [execl]: only a filter can refuse it here. *)
Definition exec_allowed (NR : bytes → option Z) (arch : Z) (r : restrictions) : bool :=
  match r_seccomp r, NR #"execve" with
  | Some prog, Some n => bool_decide (bpf_run prog 0 0 (SeccompData n arch) = Some SECCOMP_RET_ALLOW)
  | _, _ => true
  end.

Definition spawn_child (NR : bytes → option Z) (arch : Z) (abi : errno + Z) (name : bytes)
    (env : spawn_env) : M child_end :=
  r ← attempt (child_fds env);
  match r with
  | inl _ => mret (ChildExit 127)
  | inr _ =>
      lp ← attempt (agent_path root name #"limits");
      limits ← match lp with inr p => apply_limits_from_file p | inl _ => mret [] end;
      rs ← enforcement_child_apply root NR arch abi name (se_runtime_abs env) (se_spec env) (se_enf env);
      match snprintf_ok 80 (#"agent:" ++ name) with
      | None => mret (ChildExit 127)
      | Some argv0 =>
          if exec_allowed NR arch rs
          then mret (ChildExec (se_runtime_abs env) argv0 name limits rs)
          else mret (ChildExit 127)
      end
  end.
End spawn.

(** ** Lemmas *)

Lemma seccomp_apply_inv NR arch st w st' prog w' :
  seccomp_apply_linux NR arch st w = (inr (st', Some prog), w') → prog = sc_filter NR arch.
Proof.
  unfold seccomp_apply_linux. destruct (arch =? 0); [run_goal; intros; by simplify_eq|].
  rewrite bind_attempt. destruct (sys_plain w) as [[e|[]] w1]; [run_goal; intros; by simplify_eq|].
  rewrite bind_attempt. destruct (sys_plain w1) as [[e|[]] w2]; cbv [mret M_ret]; intros; by simplify_eq.
Qed.

(** The only filter [enforcement_child_apply] installs is [sc_filter]. *)
Lemma child_apply_filter root NR arch abi name rt spec st w rs w' prog :
  enforcement_child_apply root NR arch abi name rt spec st w = (inr rs, w') →
  r_seccomp rs = Some prog → prog = sc_filter NR arch.
Proof.
  unfold enforcement_child_apply. rewrite bind_attempt.
  match goal with |- context [let '(_, _) := ?x in _] => destruct x as [caps w1] end.
  cbv beta zeta. rewrite bind_unfold.
  match goal with |- context [match ?x with (_, _) => _ end = _] => destruct x as [[e|[st1 ll]] w2] end;
    [done|]. rewrite bind_ignore, bind_unfold.
  generalize (write_state_file root name st1 w2).2. intros w3.
  destruct (_ w3) as [[e|[st2 sc]] w4] eqn:E4; [done|]. rewrite bind_ignore. intros E Hp.
  cbv [mret M_ret] in E. simplify_eq. cbn [r_seccomp] in Hp. subst sc.
  destruct (sc_mode spec); [cbv [mret M_ret] in E4; simplify_eq|]. by eapply seccomp_apply_inv.
Qed.

(** C31: a runtime is never started under the seccomp filter: on a kernel that
    numbers [execve] apart from the listed calls, every child that reaches its
    [execl] successfully has no filter installed, whatever its profile asked
    for. *)
Theorem spawn_never_filtered root NR arch abi name env n w path a0 arg lim rs w' :
  NR #"execve" = Some n →
  (∀ s, s ∈ sc_allowed_names → NR s = NR #"execve" → s = #"execve") →
  spawn_child root NR arch abi name env w = (inr (ChildExec path a0 arg lim rs), w') →
  r_seccomp rs = None.
Proof.
  intros Hn Hinj E. unfold spawn_child in E. rewrite bind_attempt in E.
  destruct (child_fds env w) as [[e|[]] w1]; [cbv [mret M_ret] in E; simplify_eq|].
  rewrite bind_attempt in E. destruct (agent_path root name _ w1) as [lp w2]. cbv beta iota in E.
  rewrite bind_unfold in E. destruct (_ w2) as [[e|limits] w3]; [done|]. rewrite bind_unfold in E.
  destruct (enforcement_child_apply _ _ _ _ _ _ _ _ w3) as [[e|rs0] w4] eqn:Ec; [done|].
  destruct (snprintf_ok 80 _); [|cbv [mret M_ret] in E; simplify_eq].
  destruct (exec_allowed NR arch rs0) eqn:Ex; cbv [mret M_ret] in E; simplify_eq.
  destruct (r_seccomp rs) as [prog|] eqn:Er; [exfalso|done].
  rewrite (child_apply_filter _ _ _ _ _ _ _ _ _ _ _ _ Ec Er) in Er. unfold exec_allowed in Ex.
  rewrite Er, Hn, (sc_filter_execve NR arch n Hn Hinj) in Ex. by bool_simpl.
Qed.

(** The world of the witnesses: a runtime and the tree of agent ["a"]. *)
Definition demo_spawn_world : world :=
  set_fs (<[ #"/bin/rt" := Node (KReg []) 493 1000]>) demo_world.
Definition demo_env : spawn_env :=
  SpawnEnv #"/r/agents/a/data" #"/bin/rt" None None None None
           (EnforcementSpec ENFORCE_FS_OFF SECCOMP_OFF false 0 0 []) inactive_state.

Lemma spawn_never_filtered_witness :
  ∃ path a0 arg lim rs,
    run (spawn_child #"/r" x86_64_nr AUDIT_ARCH_X86_64 (inr 3) #"a" demo_env) demo_spawn_world =
      inr (ChildExec path a0 arg lim rs) ∧ r_seccomp rs = None.
Proof.
  assert (∃ path a0 arg lim rs,
    run (spawn_child #"/r" x86_64_nr AUDIT_ARCH_X86_64 (inr 3) #"a" demo_env) demo_spawn_world =
      inr (ChildExec path a0 arg lim rs)) as (path & a0 & arg & lim & rs & Hr).
  { eexists _, _, _, _, _. vm_compute. reflexivity. }
  exists path, a0, arg, lim, rs. split; [done|].
  eapply (spawn_never_filtered #"/r" x86_64_nr AUDIT_ARCH_X86_64 (inr 3) #"a" demo_env 59 demo_spawn_world).
  - vm_compute. reflexivity.
  - exact x86_64_execve_apart.
  - apply run_exec. exact Hr.
Defined.

(** *** The parent after [fork] *)

Lemma shrinks_spawn_alive pid : shrinks (run_alive pid).
Proof. unfold run_alive, sys_kill. cbn [Z.eqb]. shrink. Qed.

Lemma await_status_total n p pid w : ∃ w', await_status n p pid w = (inr tt, w').
Proof.
  revert w. induction n as [|n IH]; intros w; [by eexists|]. cbn [await_status].
  rewrite bind_attempt. destruct (read_small_file p 64 w) as [r w1]. cbv beta zeta.
  destruct (match r with inl _ => false | inr _ => _ end); [by eexists|]. rewrite bind_unfold.
  assert (∃ b w2, run_alive pid w1 = (inr b, w2)) as (b & w2 & ->).
  { unfold run_alive. destruct (pid <=? 0); [by eexists _, _|]. rewrite bind_attempt.
    destruct (sys_kill pid 0 w1) as [[[]|] w2]; by eexists _, _. }
  destruct b; [|by eexists]. rewrite bind_unfold.
  assert (∃ w3, sys_nanosleep w2 = (inr tt, w3)) as [w3 ->] by (unfold sys_nanosleep; destruct (w_exits w2); eauto).
  apply IH.
Qed.

(** The descriptors [spawn_parent] closes: the child's. *)
Definition child_side (env : spawn_env) : list Z :=
  option_list (se_audit_fd env) ++ option_list (snd <$> se_broker env) ++
  option_list (snd <$> se_inbox env) ++ option_list (se_lock env).

Definition keeps_procs (ks : list Z) (w w' : world) : Prop :=
  w_procs w' = w_procs w ∧ w_trace w' = w_trace w ∧ ∀ k, k ∉ ks → w_fds w' !! k = w_fds w !! k.

Lemma close_opt_keeps ks o w :
  (∀ k, o = Some k → k ∈ ks) → ∃ w', close_opt o w = (inr tt, w') ∧ keeps_procs ks w w'.
Proof.
  intros Hk. destruct o as [k|]; [|exists w; by repeat split]. unfold close_opt, ignore, sys_close.
  rewrite bind_unfold. unfold pop.
  assert (∀ x, x ∉ ks → delete k (w_fds w) !! x = w_fds w !! x) as Hd.
  { intros x Hx. apply lookup_delete_ne. intros ->. apply Hx, Hk. done. }
  destruct (w_sched w) as [|[] ?]; run_goal; eexists; (split; [reflexivity|]); by repeat split.
Qed.

Lemma keeps_procs_trans ks a b c : keeps_procs ks a b → keeps_procs ks b c → keeps_procs ks a c.
Proof.
  intros (?&?&Ha) (?&?&Hb). split; [congruence|]. split; [congruence|]. intros k Hk.
  by rewrite Hb, Ha.
Qed.
Lemma later_keeps_procs ks w w' : later w w' → keeps_procs ks w w'.
Proof. intros (?&?&?&?&?&Hf&?&?&?&?&?). split; [done|]. split; [done|]. intros. by rewrite Hf. Qed.

(** It fails only before the pid file is in place, and then it has only closed
    the child's descriptors. *)
Lemma spawn_parent_inl root name rp label env pid w e w' :
  spawn_parent root name rp label env pid w = (inl e, w') → keeps_procs (child_side env) w w'.
Proof.
  intros E. unfold spawn_parent in E. unfold child_side.
  set (ks := option_list (se_audit_fd env) ++ _).
  assert (∀ o, (∀ k, o = Some k → k ∈ ks) → ∀ w, ∃ w', close_opt o w = (inr tt, w') ∧ keeps_procs ks w w')
    as Hc by (intros; by apply close_opt_keeps).
  destruct (Hc (se_audit_fd env)) with w as (w1 & E1 & H1).
  { intros k Hk. unfold ks. rewrite Hk. by left. }
  destruct (Hc (snd <$> se_broker env)) with w1 as (w2 & E2 & H2).
  { intros k Hk. unfold ks. rewrite Hk. apply elem_of_app. right. by left. }
  destruct (Hc (snd <$> se_inbox env)) with w2 as (w3 & E3 & H3).
  { intros k Hk. unfold ks. rewrite Hk. apply elem_of_app. right. apply elem_of_app. right. by left. }
  destruct (Hc (se_lock env)) with w3 as (w4 & E4 & H4).
  { intros k Hk. unfold ks. rewrite Hk. do 3 (apply elem_of_app; right). by left. }
  rewrite bind_unfold, E1, bind_unfold, E2, bind_unfold, E3, bind_unfold, E4 in E.
  assert (keeps_procs ks w w4) as Hw4 by eauto using keeps_procs_trans.
  rewrite bind_of_option in E. destruct (snprintf_ok 32 _) as [pidbuf|]; [|by simplify_eq].
  rewrite bind_unfold in E. destruct (agent_path root name #"pid" w4) as [r5 w5] eqn:E5.
  assert (later w4 w5) as H5 by (eapply shrinks_run; [|exact E5]; shrink).
  destruct r5 as [e5|pp].
  { simplify_eq. eapply keeps_procs_trans; [done|by apply later_keeps_procs]. }
  rewrite bind_unfold in E. destruct (atomic_write_file pp pidbuf 384 w5) as [r6 w6] eqn:E6.
  assert (later w5 w6) as H6 by (eapply shrinks_run; [|exact E6]; shrink).
  destruct r6 as [e6|[]].
  { simplify_eq. eapply keeps_procs_trans; [done|]. apply later_keeps_procs. by etrans. }
  exfalso. rewrite !bind_ignore, bind_attempt in E.
  destruct (agent_path root name #"status" _) as [[e7|p7] w7]; [by cbv [mret M_ret] in E; simplify_eq|].
  destruct (await_status_total 40 p7 pid w7) as [w8 E8]. rewrite E8 in E. simplify_eq.
Qed.

(** A start can fail after it forked: when the pid file cannot be written,
    [spawn_agent_runtime] reports the error while the child it created runs on,
    and every descriptor of the supervisor's side (its ends of the broker and
    inbox channels) stays open, with no record of either. *)
Theorem spawn_failure_orphan root cwd g name rp label fo so co w env w1 pid w2 e w' :
  spawn_prepare root cwd g name rp label fo so co true true w = (inr env, w1) →
  sys_fork name w1 = (inr pid, w2) →
  spawn_parent root name rp label env pid w2 = (inl e, w') →
  spawn_agent_runtime root cwd g name rp label fo so co true true w = (inl e, w') ∧
  w_procs w' !! pid = Some PLive ∧
  (∀ k, k ∉ child_side env → w_fds w' !! k = w_fds w1 !! k).
Proof.
  intros E1 E2 E3. split.
  { unfold spawn_agent_runtime. rewrite bind_unfold, E1, bind_attempt, E2, bind_unfold, E3. done. }
  apply spawn_parent_inl in E3 as (Hp & _ & Hf).
  apply sys_inv in E2 as [(?&?&?&_)|(s & _ & E2)]; [done|]. run_in E2. simplify_eq.
  split; [rewrite Hp; apply lookup_insert_eq|]. intros k Hk. by rewrite Hf.
Qed.

(** The same world where writing the pid file will fail. *)
Definition demo_full_disk : world := set_sched (replicate 83 Pass ++ [Fail ENOSPC]) demo_spawn_world.
Definition demo_prepare : M spawn_env :=
  spawn_prepare #"/r" #"/" garbage_cfg #"a" #"/bin/rt" (Some #"agentd") 0 0 0 true true.

Lemma spawn_failure_orphan_witness :
  let m := spawn_agent_runtime #"/r" #"/" garbage_cfg #"a" #"/bin/rt" (Some #"agentd") 0 0 0 true true in
  run m demo_full_disk = inl ENOSPC ∧ w_procs (exec m demo_full_disk) !! 101 = Some PLive.
Proof.
  intros m.
  assert (run (env ← demo_prepare; sys_fork #"a") demo_full_disk = inr 101) as H2
    by (vm_compute; reflexivity).
  assert (run (env ← demo_prepare; pid ← sys_fork #"a";
               spawn_parent #"/r" #"a" #"/bin/rt" (Some #"agentd") env pid) demo_full_disk = inl ENOSPC)
    as H3 by (vm_compute; reflexivity).
  unfold run in H2, H3. rewrite bind_unfold in H2. rewrite bind_unfold in H3.
  destruct (demo_prepare demo_full_disk) as [[e|env] w1] eqn:E1; [discriminate H2|].
  rewrite bind_unfold in H3. destruct (sys_fork #"a" w1) as [[e|pid] w2] eqn:E2; [discriminate H2|].
  injection H2 as ->.
  destruct (spawn_parent _ _ _ _ env 101 w2) as [r w'] eqn:E3. cbn [fst] in H3. subst r.
  destruct (spawn_failure_orphan _ _ _ _ _ _ _ _ _ _ _ _ _ _ _ _ E1 E2 E3) as (Hr & Hp & _).
  fold m in Hr. unfold run, exec. rewrite Hr. by split.
Defined.
