(* ===== verification/Agentd.v ===== *)
(** * agentd.c: the supervisor

    The table of managed agents, starting and stopping them, reaping and the
    restart policy, reconciliation with the desired state on disk, the
    capability broker, the control socket and one turn of the main loop.

    The daemon's globals are a [dstate]; its functions run in the state monad
    [D] over them and the world.  A C function that returns nothing never
    fails in [D]: an error of a call is a value ([try]) or ignored ([run_]). *)

From S2P Require Import Prelude CLib Posix Names Common Broker Profiles Enforcement Lifecycle.

Definition MAX_MANAGED : nat := 32.
Definition RESTART_STABLE_SEC : Z := 30.
Definition RESTART_BACKOFF_MAX_SEC : Z := 30.
Definition RESTART_BURST_LIMIT : Z := 5.
Definition RECONCILE_INTERVAL_SEC : Z := 5.
Definition INOTIFY_SAFETY_SEC : Z := 60.

Inductive restart_policy := POLICY_NEVER | POLICY_ON_FAILURE | POLICY_ALWAYS.
#[export] Instance restart_policy_eq_dec : EqDecision restart_policy.
Proof. solve_decision. Defined.

Record managed := Managed {
  used : bool;
  m_name : bytes;
  m_pid : Z;                 (** 0 if not running *)
  pidfd : Z;                 (** -1 unless held *)
  broker_fd : Z;
  inbox_fd : Z;
  restart_count : Z;
  consecutive_failures : Z;
  last_started_at : Z;
  next_restart_at : Z;
  external : bool
}.
(** [memset(m, 0, sizeof *m)] *)
Definition zero_slot : managed := Managed false [] 0 0 0 0 0 0 0 0 false.

Record dstate := DState {
  g_agents : list managed;
  g_shutdown : bool;
  g_watches : list (Z * bytes)     (** inotify watches: [wd], 0 when free, and name *)
}.
Definition dstate0 : dstate :=
  DState (replicate MAX_MANAGED zero_slot) false (replicate MAX_MANAGED (0, [])).

(** ** The monad *)

Definition D (A : Type) : Type := dstate → world → A * dstate * world.
#[export] Instance D_ret : MRet D := λ A a d w, (a, d, w).
#[export] Instance D_bind : MBind D := λ A B f m d w, let '(a, d', w') := m d w in f a d' w'.
Definition try {A} (m : M A) : D (errno + A) := λ d w, let '(r, w') := m w in (r, d, w').
Definition run_ {A} (m : M A) : D unit := λ d w, let '(_, w') := m w in (tt, d, w').
(** An [M] computation that cannot fail; [a] is never used. *)
Definition total {A} (a : A) (m : M A) : D A := λ d w,
  let '(r, w') := m w in (match r with inr x => x | inl _ => a end, d, w').
Definition dget {A} (f : dstate → A) : D A := λ d w, (f d, d, w).
Definition dmodify (f : dstate → dstate) : D unit := λ d w, (tt, f d, w).
Fixpoint dfor_each {A} (l : list A) (f : A → D unit) : D unit :=
  match l with [] => mret tt | x :: l' => f x ;; dfor_each l' f end.

Definition slot (i : nat) : D managed := dget (λ d, default zero_slot (g_agents d !! i)).
Definition set_agents (f : list managed → list managed) : D unit :=
  dmodify (λ d, DState (f (g_agents d)) (g_shutdown d) (g_watches d)).
Definition upd (i : nat) (f : managed → managed) : D unit := set_agents (alter f i).

Definition set_fds_closed (m : managed) : managed :=
  Managed (used m) (m_name m) 0 (-1) (-1) (-1) (restart_count m) (consecutive_failures m)
          (last_started_at m) (next_restart_at m) (external m).
Definition set_external (b : bool) (m : managed) : managed :=
  Managed (used m) (m_name m) (m_pid m) (pidfd m) (broker_fd m) (inbox_fd m) (restart_count m)
          (consecutive_failures m) (last_started_at m) (next_restart_at m) b.
Definition set_next_restart (t : Z) (m : managed) : managed :=
  Managed (used m) (m_name m) (m_pid m) (pidfd m) (broker_fd m) (inbox_fd m) (restart_count m)
          (consecutive_failures m) (last_started_at m) t (external m).
Definition set_failures (k : Z) (m : managed) : managed :=
  Managed (used m) (m_name m) (m_pid m) (pidfd m) (broker_fd m) (inbox_fd m) (restart_count m)
          k (last_started_at m) (next_restart_at m) (external m).
Definition set_restart_count (k : Z) (m : managed) : managed :=
  Managed (used m) (m_name m) (m_pid m) (pidfd m) (broker_fd m) (inbox_fd m) k
          (consecutive_failures m) (last_started_at m) (next_restart_at m) (external m).
Definition set_process (pid fd : Z) (ext : bool) (m : managed) : managed :=
  Managed (used m) (m_name m) pid fd (broker_fd m) (inbox_fd m) (restart_count m)
          (consecutive_failures m) (last_started_at m) (next_restart_at m) ext.
Definition set_broker_fd (fd : Z) (m : managed) : managed :=
  Managed (used m) (m_name m) (m_pid m) (pidfd m) fd (inbox_fd m) (restart_count m)
          (consecutive_failures m) (last_started_at m) (next_restart_at m) (external m).

(** ** Slots *)

Definition find_by_name (name : bytes) (l : list managed) : option nat :=
  fst <$> list_find (λ m, used m = true ∧ m_name m = name) l.
Definition find_by_pid (pid : Z) (l : list managed) : option nat :=
  if pid <=? 0 then None else fst <$> list_find (λ m, used m = true ∧ m_pid m = pid) l.
Definition find_free (l : list managed) : option nat :=
  fst <$> list_find (λ m, used m = false) l.

(** [snprintf] into [name[MAX_NAME]]. *)
Definition new_slot (name : bytes) : managed :=
  Managed true (snprintf_trunc 64 name) 0 (-1) (-1) (-1) 0 0 0 0 false.
Definition alloc_slot (name : bytes) : D (option nat) :=
  l ← dget g_agents;
  match find_by_name name l with
  | Some i => mret (Some i)
  | None =>
      match find_free l with
      | Some i => upd i (λ _, new_slot name) ;; mret (Some i)
      | None => mret None
      end
  end.

Definition close_field (fd : Z) : D unit :=
  if 0 <=? fd then run_ (sys_close fd) else mret tt.
Definition close_fields (m : managed) : D unit :=
  close_field (pidfd m) ;; close_field (broker_fd m) ;; close_field (inbox_fd m).
Definition clear_runtime_state (i : nat) : D unit :=
  m ← slot i; close_fields m ;; upd i set_fds_closed.
Definition release_slot (i : nat) : D unit :=
  m ← slot i; close_fields m ;; upd i (λ _, zero_slot).

Section agentd.
Context (root cwd : bytes) (garbage : profile_cfg_t).

Definition daemon_log (msg : bytes) : D unit :=
  run_ (path ← agentd_log_path root;
        now ← sys_time;
        pid ← gets w_self;
        q ← sys_open_create path false 384;
        ignore (sys_write q (log_line 512 now pid msg)) ;;
        ignore sys_plain).
Definition audit (name msg : bytes) : D unit := run_ (audit_log root name msg).

(** ** Settings *)

Definition load_enabled (name : bytes) : D bool :=
  v ← try (read_agent_setting root name #"enabled" 16);
  mret (match v with inl _ => true | inr v => bytes_eqb v #"yes" end).
Definition load_desired_running (name : bytes) : D bool :=
  v ← try (read_agent_setting root name #"desired_state" 16);
  mret (match v with inl _ => false | inr v => bytes_eqb v #"running" end).
Definition parse_policy (v : errno + bytes) : restart_policy :=
  match v with
  | inl _ => POLICY_ON_FAILURE
  | inr v => if bytes_eqb v #"never" then POLICY_NEVER
             else if bytes_eqb v #"always" then POLICY_ALWAYS else POLICY_ON_FAILURE
  end.
Definition load_policy (name : bytes) : D restart_policy :=
  v ← try (read_agent_setting root name #"restart_policy" 32); mret (parse_policy v).
Definition load_runtime_path (name : bytes) : M bytes :=
  v ← attempt (read_agent_setting root name #"exec" MAX_PATHBUF);
  match v with inr p => mret p | inl _ => read_agent_setting root name #"runtime" MAX_PATHBUF end.
Definition persist_restart_count (m : managed) : D unit :=
  run_ (write_agent_setting root (m_name m) #"restart_count" (snprintf_trunc 16 (fmt_d (restart_count m)))).

(** ** Start and stop *)

Definition or_minus1 (o : option Z) : Z := default (-1) o.

(** The error of a failed start, for the caller's [strerror(errno)]. *)
Definition spawn_agent (i : nat) : D (errno + unit) :=
  m ← slot i;
  p ← try (load_runtime_path (m_name m));
  match p with
  | inl e =>
      daemon_log (#"start " ++ m_name m ++ #": no runtime file") ;;
      audit (m_name m) #"agentd: cannot start (no runtime file)" ;;
      mret (inl e)
  | inr runtime_path =>
      r ← try (spawn_agent_runtime root cwd garbage (m_name m) runtime_path (Some #"agentd")
                 (-1) (-1) (-1) true true);
      match r with
      | inl e =>
          daemon_log (#"start " ++ m_name m ++ #": spawn failed: " ++ strerror e) ;;
          audit (m_name m) (#"agentd: spawn failed: " ++ strerror e) ;;
          mret (inl e)
      | inr (pid, bfd, ifd) =>
          now ← total 0 sys_time;
          fd ← try (lifecycle_pidfd_open pid);
          let pfd := match fd with inr k => k | inl _ => -1 end in
          upd i (λ m, Managed (used m) (m_name m) pid pfd (or_minus1 bfd) (or_minus1 ifd)
                        (restart_count m) (consecutive_failures m) now 0 false) ;;
          match fd with
          | inl ENOSYS | inr _ => mret tt
          | inl e => daemon_log (#"pidfd_open(" ++ fmt_d pid ++ #") for " ++ m_name m ++
                                 #": " ++ strerror e)
          end ;;
          daemon_log (#"started " ++ m_name m ++ #" pid=" ++ fmt_d pid ++ #" pidfd=" ++ fmt_d pfd ++
                      #" broker_fd=" ++ fmt_d (or_minus1 bfd) ++ #" inbox_fd=" ++ fmt_d (or_minus1 ifd)) ;;
          mret (inr tt)
      end
  end.

Definition agent_alive (m : managed) : D bool :=
  if m_pid m <=? 0 then mret false
  else
    r ← (if 0 <=? pidfd m then total None (lifecycle_pidfd_alive (pidfd m)) else mret None);
    match r with
    | Some b => mret b
    | None => total false (run_alive (m_pid m))
    end.

(** ** Reaping and the restart policy *)

Definition restart_wanted (p : restart_policy) (failed : bool) : bool :=
  match p with POLICY_ALWAYS => true | POLICY_ON_FAILURE => failed | POLICY_NEVER => false end.
Definition next_failures (uptime failures : Z) : Z :=
  (if RESTART_STABLE_SEC <=? uptime then 0 else failures) + 1.
Definition restart_delay (failures : Z) : Z :=
  let shift := failures - 1 in
  let delay := if 5 <=? shift then RESTART_BACKOFF_MAX_SEC else Z.shiftl 1 shift in
  if RESTART_BACKOFF_MAX_SEC <? delay then RESTART_BACKOFF_MAX_SEC else delay.

Definition exit_code (st : exit_status) : Z := match st with Exited c => c | Signaled _ => 0 end.
Definition exit_signal (st : exit_status) : Z := match st with Signaled s => s | Exited _ => 0 end.
Definition exit_failed (st : exit_status) : bool :=
  negb (exit_signal st =? 0) || negb (exit_code st =? 0).

Definition reap_one (pid : Z) (st : exit_status) : D unit :=
  l ← dget g_agents;
  match find_by_pid pid l with
  | None => mret tt
  | Some i =>
      m ← slot i;
      now ← total 0 sys_time;
      let uptime := if 0 <? last_started_at m then now - last_started_at m else 0 in
      clear_runtime_state i ;;
      let code := exit_code st in
      let signum := exit_signal st in
      (if negb (signum =? 0) then
         audit (m_name m) (#"runtime crashed signal=" ++ fmt_d signum) ;;
         daemon_log (m_name m ++ #" crashed signal=" ++ fmt_d signum)
       else
         audit (m_name m) (#"runtime exited status=" ++ fmt_d code) ;;
         daemon_log (m_name m ++ #" exited status=" ++ fmt_d code)) ;;
      run_ (write_status root (m_name m)
              (if negb (signum =? 0) then #"crashed" else if code =? 0 then #"stopped" else #"failed")) ;;
      en ← load_enabled (m_name m);
      de ← (if (en : bool) then load_desired_running (m_name m) else mret false);
      if negb de then daemon_log (m_name m ++ #" not restarted (disabled or stopped)")
      else
        p ← load_policy (m_name m);
        if negb (restart_wanted p (exit_failed st)) then
          audit (m_name m) (#"no restart (policy=" ++
            (if bool_decide (p = POLICY_NEVER) then #"never" else #"on-failure") ++ #")") ;;
          run_ (write_agent_setting root (m_name m) #"desired_state" #"stopped")
        else
          let k := next_failures uptime (consecutive_failures m) in
          upd i (set_failures k) ;;
          upd i (set_restart_count (restart_count m + 1)) ;;
          m' ← slot i;
          persist_restart_count m' ;;
          if RESTART_BURST_LIMIT <=? k then
            audit (m_name m) (#"restart suppressed crash-loop failures=" ++ fmt_d k ++
                              #" window=" ++ fmt_d RESTART_STABLE_SEC ++ #"s") ;;
            daemon_log (m_name m ++ #" restart suppressed after " ++ fmt_d k ++ #" short runs") ;;
            run_ (write_status root (m_name m) #"crash-loop") ;;
            run_ (write_agent_setting root (m_name m) #"desired_state" #"stopped") ;;
            upd i (set_next_restart 0)
          else
            let delay := restart_delay k in
            upd i (set_next_restart (now + delay)) ;;
            audit (m_name m) (#"restart scheduled policy=" ++
              (if bool_decide (p = POLICY_ALWAYS) then #"always" else #"on-failure") ++
              #" delay=" ++ fmt_d delay ++ #"s failure=" ++ fmt_d k)
  end.

(** [for (;;) { pid = waitpid(-1, ...); if (pid <= 0) break; ... }]: each turn
    takes one zombie off the table, so their number bounds the loop. *)
Fixpoint reap_loop (fuel : nat) : D unit :=
  match fuel with
  | O => mret tt
  | S fuel' =>
      r ← total None sys_waitpid;
      match r with
      | None => mret tt
      | Some (pid, st) => reap_one pid st ;; reap_loop fuel'
      end
  end.
Definition reap_zombies : D unit := λ d w, reap_loop (S (length (zombies (w_procs w)))) d w.

(** The poll loop of [stop_agent], one turn per 50 ms; [true] when the agent
    was seen to exit. *)
Fixpoint await_exit (n : nat) (i : nat) : D bool :=
  match n with
  | O => mret false
  | S n' =>
      reap_zombies ;;
      m ← slot i;
      alive ← agent_alive m;
      if (alive : bool) then run_ sys_nanosleep ;; await_exit n' i
      else clear_runtime_state i ;; mret true
  end.

(** [kill(m->pid, sig)] through the pidfd when one is held. *)
Definition signal_leader (m : managed) (sig : Z) : M unit :=
  if 0 <=? pidfd m then lifecycle_pidfd_signal (pidfd m) sig else sys_kill (m_pid m) sig.

Definition stop_agent (i : nat) (timeout_ms : Z) : D unit :=
  m ← slot i;
  alive ← agent_alive m;
  if (m_pid m <=? 0) || negb alive then clear_runtime_state i
  else
    r ← try (signal_leader m SIGTERM);
    match r with
    | inl ESRCH | inr _ => mret tt
    | inl e => daemon_log (#"stop " ++ m_name m ++ (if 0 <=? pidfd m then #": pidfd SIGTERM: "
                                                  else #": kill -TERM: ") ++ strerror e)
    end ;;
    r ← try (lifecycle_signal_group (m_pid m) SIGTERM);
    match r with
    | inl ESRCH | inr _ => mret tt
    | inl e => daemon_log (#"stop " ++ m_name m ++ #": killpg -TERM: " ++ strerror e)
    end ;;
    audit (m_name m) #"agentd: SIGTERM sent" ;;
    gone ← await_exit (Z.to_nat ((timeout_ms + 49) / 50)) i;
    if (gone : bool) then mret tt
    else
      m ← slot i;
      daemon_log (#"stop " ++ m_name m ++ #": still alive after " ++ fmt_d timeout_ms ++ #"ms; SIGKILL") ;;
      es ← try (enforcement_read_state root (m_name m));
      used_cgroup ← match es with
        | inr st =>
            if (cgroup_status st =? ENF_STATUS_ACTIVE) && negb (bytes_eqb (cgroup_path st) []) then
              r ← try (lifecycle_cgroup_kill (cgroup_path st));
              match r with
              | inr _ => audit (m_name m) (#"agentd: cgroup.kill atomic subtree SIGKILL path=" ++
                                           cgroup_path st) ;; mret true
              | inl e => audit (m_name m) (#"agentd: cgroup.kill failed (" ++ strerror e ++
                                           #"); falling back to pidfd+killpg") ;; mret false
              end
            else mret false
        | inl _ => mret false
        end;
      (if (used_cgroup : bool) then mret tt
       else run_ (signal_leader m SIGKILL) ;; run_ (lifecycle_signal_group (m_pid m) SIGKILL)) ;;
      audit (m_name m) #"agentd: SIGKILL after stop timeout".

(** ** Reconciliation *)

Fixpoint scan_names (names : list bytes) (cb : bytes → D unit) : D unit :=
  match names with
  | [] => mret tt
  | e :: names' =>
      (if first_is "." e || negb (validate_name e) then mret tt
       else match snprintf_ok MAX_PATHBUF (agent_root root ++ SLASH :: e) with
            | None => mret tt
            | Some path =>
                st ← try (sys_stat path);
                match st with
                | inr (Node KDir _ _) => cb e
                | _ => mret tt
                end
            end) ;;
      scan_names names' cb
  end.
Definition scan_disk_agents (cb : bytes → D unit) : D unit :=
  names ← try (sys_readdir (agent_root root));
  match names with inl _ => mret tt | inr names => scan_names names cb end.

Definition recover_cb (name : bytes) : D unit :=
  pid ← try (read_pid_file root name);
  alive ← match pid with inr p => total false (run_alive p) | inl _ => mret false end;
  match pid, alive with
  | inr pid, true =>
      mi ← alloc_slot name;
      match mi with
      | None => mret tt
      | Some i =>
          fd ← try (lifecycle_pidfd_open pid);
          let pfd := match fd with inr k => k | inl _ => -1 end in
          upd i (set_process pid pfd true) ;;
          rc ← try (read_agent_setting root name #"restart_count" 16);
          match rc with inr v => upd i (set_restart_count (atoi v)) | inl _ => mret tt end ;;
          daemon_log (#"recovered running agent " ++ name ++ #" pid=" ++ fmt_d pid ++ #" pidfd=" ++
                      fmt_d pfd ++ #" (external)") ;;
          audit name (#"agentd: recovered running pid=" ++ fmt_d pid)
      end
  | _, _ =>
      match pid with
      | inr _ =>
          p ← try (agent_path root name #"pid");
          match p with
          | inr p => run_ (sys_unlink p) ;;
                     daemon_log (#"removed stale pid file for " ++ name) ;;
                     audit name #"agentd: stale pid file removed"
          | inl _ => mret tt
          end
      | inl _ => mret tt
      end ;;
      en ← load_enabled name;
      de ← (if (en : bool) then load_desired_running name else mret false);
      if (de : bool) then
        mi ← alloc_slot name;
        match mi with
        | None => mret tt
        | Some i =>
            daemon_log (#"restarting " ++ name ++ #" (recovery)") ;;
            audit name #"agentd: restarting (recovery)" ;;
            r ← spawn_agent i;
            match r with inl _ => release_slot i | inr _ => mret tt end
        end
      else mret tt
  end.

(** The check on an agent that is not a child. *)
Definition reconcile_external (name : bytes) (i : nat) : D unit :=
  m ← slot i;
  if external m && (0 <? m_pid m) then
    alive ← agent_alive m;
    if (alive : bool) then mret tt
    else
      audit name (#"agentd: external pid " ++ fmt_d (m_pid m) ++ #" is gone") ;;
      run_ (write_status root name #"stopped") ;;
      clear_runtime_state i ;;
      upd i (set_external false)
  else mret tt.

Definition reconcile_cb (name : bytes) : D unit :=
  enabled ← load_enabled name;
  desire ← load_desired_running name;
  l ← dget g_agents;
  let mi := find_by_name name l in
  match mi with Some i => reconcile_external name i | None => mret tt end ;;
  alive ← match mi with
          | Some i => m ← slot i; agent_alive m
          | None => mret false
          end;
  if enabled && desire && negb alive then
    mi ← match mi with Some i => mret (Some i) | None => alloc_slot name end;
    match mi with
    | None => mret tt
    | Some i =>
        m ← slot i;
        now ← total 0 sys_time;
        if now <? next_restart_at m then mret tt
        else
          audit name #"agentd: reconcile -> start" ;;
          r ← spawn_agent i;
          match r with
          | inl _ => audit name #"agentd: restart spawn failed" ;; upd i (set_next_restart (now + 1))
          | inr _ =>
              m ← slot i;
              if 0 <? restart_count m then
                audit name (#"restarted pid=" ++ fmt_d (m_pid m) ++ #" restart_count=" ++
                            fmt_d (restart_count m))
              else mret tt
          end
    end
  else if (alive : bool) && (negb enabled || negb desire) then
    audit name #"agentd: reconcile -> stop" ;;
    match mi with Some i => stop_agent i 2000 | None => mret tt end
  else mret tt.

Definition restart_pending (m : managed) : bool :=
  used m && negb (0 <? m_pid m) && (0 <? next_restart_at m).
Definition restart_ms (now : Z) (m : managed) : Z := Z.max 0 ((next_restart_at m - now) * 1000).
Definition scheduled_restart_timeout_ms (now fallback_ms : Z) (l : list managed) : Z :=
  foldl (λ best m, if restart_pending m && (restart_ms now m <? best)
                   then restart_ms now m else best) fallback_ms l.
Definition scheduled_restart_due (now : Z) (l : list managed) : bool :=
  existsb (λ m, restart_pending m && (next_restart_at m <=? now)) l.

(** ** The capability broker *)

(** The patterns of the policy's [allow] lines, at most [max]. *)
Definition allow_line (line : bytes) : option bytes :=
  match strip_prefix #"allow " (drop_while is_blank line) with
  | None => None
  | Some p => match rtrim is_blank (drop_while is_blank p) with [] => None | q => Some q end
  end.
Definition pattern_step (max : nat) (acc : list bytes) (line : bytes) : list bytes :=
  if (length acc <? max)%nat then
    match allow_line line with Some p => acc ++ [p] | None => acc end
  else acc.
Definition allow_patterns (max : nat) (text : bytes) : list bytes :=
  line_loop (pattern_step max) (S (length text)) [] text.
Definition load_allow_patterns (name : bytes) (workcap max : nat) : M (list bytes) :=
  r ← attempt (p ← agent_path root name #"policy"; read_small_file p 8192);
  match r with
  | inl _ => mret []
  | inr text => mret (allow_patterns max (take (workcap - 1) (cstr text)))
  end.

Definition broker_reply (chan : Z) (data : bytes) (fd : option Z) : M unit :=
  retry_eintr (sys_sendmsg chan data (match fd with Some k => [k] | None => [] end)).

(** [inl None] is the result [-2] (no listener), [inl (Some errno)] is [-1]. *)
Definition meta_text (sender : bytes) (pid uid : Z) : bytes :=
  #"SENDER " ++ sender ++ nl ++ #"PID " ++ fmt_d pid ++ nl ++ #"UID " ++ fmt_d uid ++ nl ++ nl.
Definition issue_mailbox_channel (sender : bytes) (sender_pid sender_uid : Z) (target : bytes)
  : D (option errno + Z) :=
  l ← dget g_agents;
  match find_by_name target l with
  | None => mret (inl None)
  | Some j =>
      dst ← slot j;
      if (m_pid dst <=? 0) || (inbox_fd dst <? 0) then mret (inl None)
      else
        alive ← agent_alive dst;
        if negb alive then mret (inl None)
        else
          sv ← try sys_socketpair;
          match sv with
          | inl e => mret (inl (Some e))
          | inr (a, b) =>
              r ← try (retry_eintr (sys_sendmsg (inbox_fd dst) (meta_text sender sender_pid sender_uid) [b]));
              run_ (sys_close b) ;;
              match r with
              | inl e => run_ (sys_close a) ;; mret (inl (Some e))
              | inr _ => mret (inr a)
              end
          end
  end.

(** A denial on the channel and in the two logs. *)
Definition deny (m : managed) (cap reason_ : bytes) : D unit :=
  match broker_format_denied BROKER_MSG_MAX cap (Some reason_) with
  | Some resp => run_ (broker_reply (broker_fd m) resp None)
  | None => mret tt
  end.
Definition deny_logged (m : managed) (cap reason_ : bytes) : D unit :=
  deny m cap reason_ ;;
  daemon_log (#"broker denied cap=" ++ cap ++ #" to=" ++ m_name m ++ #" reason=" ++ reason_) ;;
  audit (m_name m) (#"broker denied cap=" ++ cap ++ #" reason=" ++ reason_).

Definition drop_channel (i : nat) : D unit :=
  m ← slot i; run_ (sys_close (broker_fd m)) ;; upd i (set_broker_fd (-1)).

(** The part after the channel was made: token, reply, close our copy. *)
Definition finish_issue (entropy : bool * list (errno + bytes)) (m : managed) (cap target : bytes)
    (cap_fd : Z) : D unit :=
  match broker_make_token (fst entropy) (snd entropy) with
  | None =>
      run_ (sys_close cap_fd) ;;
      deny m cap #"entropy-failure" ;;
      daemon_log (#"broker " ++ m_name m ++ #": audit token generation failed: " ++ strerror EIO) ;;
      audit (m_name m) (#"broker denied cap=" ++ cap ++ #" reason=entropy-failure")
  | Some token =>
      match broker_format_issued BROKER_MSG_MAX cap token with
      | None => run_ (sys_close cap_fd)
      | Some resp =>
          r ← try (broker_reply (broker_fd m) resp (Some cap_fd));
          run_ (sys_close cap_fd) ;;
          match r with
          | inl e => daemon_log (#"broker " ++ m_name m ++ #": response sendmsg failed: " ++ strerror e)
          | inr _ =>
              daemon_log (#"broker issued cap=" ++ cap ++ #" to=" ++ m_name m ++ #" token=" ++ token) ;;
              audit (m_name m) (#"broker issued cap=" ++ cap ++ #" token=" ++ token ++
                                #" target=" ++ target)
          end
      end
  end.

Definition broker_serve (entropy : bool * list (errno + bytes)) (m : managed) (data : bytes) : D unit :=
  match broker_parse data with
  | Some (BrokerMsg BROKER_VERB_REQUEST cap _ _ _) =>
      patterns ← total [] (load_allow_patterns (m_name m) 8192 32);
      if negb (broker_policy_check cap patterns) then deny_logged m cap #"not-in-caps"
      else match strip_prefix #"mailbox.send:" cap with
           | None => deny_logged m cap #"unknown-cap-kind"
           | Some target =>
               uid ← total 0 (gets w_uid);
               r ← issue_mailbox_channel (m_name m) (m_pid m) uid target;
               match r with
               | inl None => deny_logged m cap #"no-listener"
               | inl (Some e) => deny_logged m cap (strerror e)
               | inr cap_fd => finish_issue entropy m cap target cap_fd
               end
           end
  | _ =>
      deny m #"?" #"malformed-request" ;;
      daemon_log (#"broker " ++ m_name m ++ #": malformed request") ;;
      audit (m_name m) #"broker malformed request from agent"
  end.

Definition broker_handle_event (entropy : bool * list (errno + bytes)) (i : nat) : D unit :=
  m ← slot i;
  r ← try (retry_eintr (sys_recvmsg (broker_fd m) 512 4));
  match r with
  | inl _ => drop_channel i
  | inr (Recvd [] _ _ _) => drop_channel i
  | inr (Recvd data fds trunc ctrunc) =>
      if trunc || ctrunc then
        daemon_log (#"broker " ++ m_name m ++ #": oversized or cmsg-truncated; closing channel") ;;
        audit (m_name m) #"broker protocol violation (truncated); channel closed" ;;
        drop_channel i
      else
        dfor_each fds (λ k, run_ (sys_close k)) ;;
        broker_serve entropy m data
  end.

(** ** inotify *)

Definition set_watches (f : list (Z * bytes) → list (Z * bytes)) : D unit :=
  dmodify (λ d, DState (g_agents d) (g_shutdown d) (f (g_watches d))).

(** A watch descriptor is a positive number the kernel has not used yet. *)
Definition sys_inotify_add_watch (path : bytes) : M Z :=
  sys (fs ← gets w_fs; n ← gets w_uniq;
       if is_dir fs path then modify (set_uniq (S n)) ;; mret (Z.of_nat n + 1) else throw ENOENT).

Definition inotify_add_agent (name : bytes) : D unit :=
  path ← try (agent_ensure_layout root name ;; agent_config_dir root name);
  match path with
  | inl _ => mret tt
  | inr path =>
      ws ← dget g_watches;
      if existsb (λ w : Z * bytes, negb (fst w =? 0) && bytes_eqb (snd w) name) ws then mret tt
      else
        wd ← try (sys_inotify_add_watch path);
        match wd with
        | inl e => daemon_log (#"inotify add " ++ path ++ #": " ++ strerror e)
        | inr wd =>
            match list_find (λ w : Z * bytes, fst w = 0) ws with
            | Some (k, _) => set_watches (<[k := (wd, snprintf_trunc 64 name)]>)
            | None => mret tt
            end
        end
  end.
Definition inotify_lookup_wd (wd : Z) (ws : list (Z * bytes)) : option bytes :=
  (λ e : nat * (Z * bytes), snd (snd e)) <$> list_find (λ w : Z * bytes, fst w = wd) ws.
Definition inotify_release_wd (wd : Z) : D unit :=
  set_watches (λ ws, match list_find (λ w : Z * bytes, fst w = wd) ws with
                     | Some (k, _) => <[k := (0, [])]> ws
                     | None => ws
                     end).

(** The events of one [read]: what happened, on which watch, to which name. *)
Inductive in_mask := IN_Q_OVERFLOW | IN_APPEARED | IN_VANISHED | IN_SELF_GONE | IN_CHANGED.
Record in_event := InEvent { ev_wd : Z; ev_mask : in_mask; ev_name : bytes }.

Definition release_if_idle (name : bytes) : D unit :=
  l ← dget g_agents;
  match find_by_name name l with
  | None => mret tt
  | Some i => m ← slot i; if m_pid m <=? 0 then release_slot i else mret tt
  end.

Definition inotify_event (root_wd : Z) (ev : in_event) : D unit :=
  match ev_mask ev with
  | IN_Q_OVERFLOW =>
      daemon_log #"inotify queue overflow; full rescan" ;;
      scan_disk_agents reconcile_cb
  | mask =>
      if ev_wd ev =? root_wd then
        if bytes_eqb (ev_name ev) [] || negb (validate_name (ev_name ev)) then mret tt
        else match mask with
             | IN_APPEARED => inotify_add_agent (ev_name ev) ;; reconcile_cb (ev_name ev)
             | IN_VANISHED => release_if_idle (ev_name ev)
             | _ => mret tt
             end
      else
        ws ← dget g_watches;
        match inotify_lookup_wd (ev_wd ev) ws with
        | None => mret tt
        | Some name =>
            match mask with
            | IN_SELF_GONE => inotify_release_wd (ev_wd ev) ;; release_if_idle name
            | _ =>
                if existsb (bytes_eqb (ev_name ev)) [ #"desired_state"; #"enabled"; #"exec"]
                then reconcile_cb name else mret tt
            end
        end
  end.
Definition inotify_drain (root_wd : Z) (evs : list in_event) : D unit :=
  dfor_each evs (inotify_event root_wd).

(** ** The control socket *)

(** A handler's result code and response, as [snprintf(resp, n, ...)] left it. *)
Definition reply (n : nat) (rc : Z) (s : bytes) : D (Z * bytes) := mret (rc, snprintf_trunc n s).

Definition handle_cmd_start (n : nat) (name : bytes) : D (Z * bytes) :=
  if negb (validate_name name) then reply n 1 #"ERROR invalid name"
  else
    dir ← try (agent_dir root name);
    match dir with
    | inl _ => reply n 1 #"ERROR invalid name"
    | inr dir =>
        st ← try (sys_stat dir);
        match st with
        | inl _ => reply n 1 #"ERROR no such agent"
        | inr _ =>
            run_ (write_agent_setting root name #"desired_state" #"running") ;;
            en ← load_enabled name;
            (if (en : bool) then mret tt else run_ (write_agent_setting root name #"enabled" #"yes")) ;;
            mi ← alloc_slot name;
            match mi with
            | None => reply n 1 #"ERROR slots full"
            | Some i =>
                m ← slot i;
                alive ← agent_alive m;
                if (alive : bool) then reply n 0 (#"OK already running pid=" ++ fmt_d (m_pid m))
                else
                  upd i (set_failures 0) ;;
                  upd i (set_next_restart 0) ;;
                  r ← spawn_agent i;
                  match r with
                  | inl e => reply n 1 (#"ERROR spawn failed: " ++ strerror e)
                  | inr _ => m ← slot i; reply n 0 (#"OK started pid=" ++ fmt_d (m_pid m))
                  end
            end
        end
    end.

Definition handle_cmd_stop (n : nat) (name : bytes) : D (Z * bytes) :=
  if negb (validate_name name) then reply n 1 #"ERROR invalid name"
  else
    st ← try (dir ← agent_dir root name; sys_stat dir);
    match st with
    | inl _ => reply n 1 #"ERROR no such agent"
    | inr _ =>
        run_ (write_agent_setting root name #"desired_state" #"stopped") ;;
        l ← dget g_agents;
        match find_by_name name l with
        | None => reply n 0 #"OK no live process"
        | Some i => stop_agent i 2000 ;; release_slot i ;; reply n 0 #"OK stopped"
        end
    end.

Definition handle_cmd_restart (n : nat) (name : bytes) : D (Z * bytes) :=
  '(rc, tmp) ← handle_cmd_stop 256 name;
  if negb (rc =? 0) then reply n 1 tmp else handle_cmd_start n name.

Definition handle_cmd_reload (n : nat) (name : bytes) : D (Z * bytes) :=
  if negb (validate_name name) then reply n 1 #"ERROR invalid name"
  else
    l ← dget g_agents;
    match find_by_name name l with
    | None => reply n 1 #"ERROR not running"
    | Some i =>
        m ← slot i;
        if m_pid m <=? 0 then reply n 1 #"ERROR not running"
        else
          r ← try (signal_leader m SIGHUP);
          match r with
          | inl e => reply n 1 (#"ERROR signal: " ++ strerror e)
          | inr _ => audit name #"agentd: SIGHUP sent (reload)" ;; reply n 0 #"OK reloaded"
          end
    end.

Definition handle_cmd_status (n : nat) (name : bytes) : D (Z * bytes) :=
  if negb (validate_name name) then reply n 1 #"ERROR invalid name"
  else
    l ← dget g_agents;
    p ← try (read_pid_file root name);
    alive ← match p with inr p => total false (run_alive p) | inl _ => mret false end;
    d ← try (read_agent_setting root name #"desired_state" 16);
    let desired := match d with inr v => v | inl _ => #"stopped" end in
    restarts ← match find_by_name name l with
               | Some i => m ← slot i; mret (restart_count m)
               | None => mret 0
               end;
    let pid := match p with inr p => if (alive : bool) then p else 0 | inl _ => 0 end in
    reply n 0 (#"OK desired=" ++ desired ++ #" actual=" ++
               (if (alive : bool) then #"running" else #"stopped") ++
               #" pid=" ++ fmt_d pid ++ #" restarts=" ++ fmt_d restarts).

(** The verb (cut at 31 characters) and the argument of a command line. *)
Definition split_command (line : bytes) : bytes * bytes :=
  let line := drop_while is_blank line in
  let verb := take 31 (take_while (λ c, negb (is_blank c)) line) in
  (verb, drop_while is_blank (drop (length verb) line)).

Definition handle_command (n : nat) (line : bytes) : D (Z * bytes) :=
  let '(verb, arg) := split_command line in
  if bytes_eqb verb #"start" then handle_cmd_start n arg
  else if bytes_eqb verb #"stop" then handle_cmd_stop n arg
  else if bytes_eqb verb #"restart" then handle_cmd_restart n arg
  else if bytes_eqb verb #"reload" then handle_cmd_reload n arg
  else if bytes_eqb verb #"status" then handle_cmd_status n arg
  else if bytes_eqb verb #"shutdown" then
    dmodify (λ d, DState (g_agents d) true (g_watches d)) ;; reply n 0 #"OK shutting down"
  else if bytes_eqb verb #"kick" then
    (if bytes_eqb arg [] then scan_disk_agents reconcile_cb
     else if validate_name arg then reconcile_cb arg else mret tt) ;;
    reply n 0 #"OK kicked"
  else reply n 1 (#"ERROR unknown verb '" ++ verb ++ #"'").

(** The [read] loop of a connection: the results of the successive [read]s,
    until a newline, end of file, an error or 1023 bytes. *)
Fixpoint read_request (reads : list (errno + bytes)) (acc : bytes) : bytes :=
  if (1023 <=? length acc)%nat then acc
  else match reads with
       | inl EINTR :: reads' => read_request reads' acc
       | inl _ :: _ | inr [] :: _ | [] => acc
       | inr d :: reads' =>
           let acc := acc ++ take (1023 - length acc) d in
           if bool_decide (NL ∈ acc) then acc else read_request reads' acc
       end.

(** The token check: the command when the line is [AUTH <token> <command>]. *)
Definition authenticate (expected line : bytes) : option bytes :=
  match strip_prefix #"AUTH " line with
  | None => None
  | Some presented =>
      match split_at SP presented with
      | None => None
      | Some (tok, command) => if bytes_eqb tok expected then Some command else None
      end
  end.
Definition token_of (buf : bytes) : bytes :=
  take_while (λ c, negb (Ascii.eqb c CR) && negb (Ascii.eqb c NL)) (cstr buf).

Record connection := Connection {
  cn_fd : Z;
  cn_creds : errno + Z * Z;             (** [get_peer_creds]: pid and uid *)
  cn_reads : list (errno + bytes)
}.

(** The response of a connection after the request line was read: a text, or
    (for [issue]) a descriptor sent with ["OK issued"]. *)
Definition respond (cn : connection) (line : bytes) : D (bytes + Z) :=
  tok ← try (p ← agentd_token_path root; read_small_file p 129);
  match tok with
  | inl _ => mret (inl #"ERROR control authentication unavailable")
  | inr buf =>
      match authenticate (token_of buf) line with
      | None => mret (inl #"ERROR unauthorized")
      | Some command =>
          match strip_prefix #"issue " command with
          | Some target =>
              let '(pid, uid) := match cn_creds cn with inr c => c | inl _ => (0, 0) end in
              if negb (validate_name target) then mret (inl #"ERROR no-listener")
              else
                r ← issue_mailbox_channel #"operator" pid uid target;
                match r with
                | inl _ => mret (inl #"ERROR no-listener")
                | inr fd => mret (inr fd)
                end
          | None =>
              '(_, resp) ← handle_command 512 command;
              mret (inl resp)
          end
      end
  end.

Definition serve_one_connection (cn : connection) : D unit :=
  uid ← total 0 (gets w_uid);
  let foreign := match cn_creds cn with
                 | inr (_, u) => negb (u =? 0) && negb (u =? uid)
                 | inl _ => false
                 end in
  if (foreign : bool) then
    run_ (sys_sendmsg (cn_fd cn) (#"ERROR forbidden uid" ++ nl) []) ;; run_ (sys_close (cn_fd cn))
  else
    match read_request (cn_reads cn) [] with
    | [] => run_ (sys_close (cn_fd cn))
    | line =>
        let line := take_while (λ c, negb (Ascii.eqb c NL)) (cstr line) in
        r ← respond cn line;
        match r with
        | inr capfd =>
            run_ (broker_reply (cn_fd cn) (#"OK issued" ++ nl) (Some capfd)) ;;
            run_ (sys_close capfd) ;; run_ (sys_close (cn_fd cn))
        | inl resp =>
            run_ (sys_sendmsg (cn_fd cn) (if blen resp <? 511 then resp ++ nl else resp) []) ;;
            run_ (sys_close (cn_fd cn))
        end
    end.

(** ** Start-up and one turn of the main loop *)

Definition write_pid_file : M unit :=
  pid ← gets w_self;
  path ← agentd_pid_path root;
  atomic_write_file path (fmt_d pid ++ nl) 384.

(** [raw] is what [/dev/urandom] delivered. *)
Definition ensure_control_token (raw_ : errno + bytes) : M unit :=
  path ← agentd_token_path root;
  r ← attempt (sys_lstat path);
  match r with
  | inr st =>
      uid ← gets w_uid;
      match n_kind st with
      | KReg _ => guard_ EACCES ((n_uid st =? uid) && (Z.land (n_mode st) S_IRWXGO =? 0))
      | _ => throw EACCES
      end
  | inl ENOENT =>
      match raw_ with
      | inl e => throw e
      | inr raw_ => guard_ EIO (length raw_ =? 32)%nat ;;
                   atomic_write_file path (concat (hex_byte <$> raw_) ++ nl) 384
      end
  | inl e => throw e
  end.

(** What one [poll] reported. *)
Record wakeup := Wakeup {
  wk_sigchld : bool;
  wk_conn : option connection;
  wk_inotify : list in_event;
  wk_pidfds : list nat;                 (** slots whose pidfd fired *)
  wk_brokers : list nat;                (** slots whose channel fired *)
  wk_timeout : bool
}.

Definition external_exited (i : nat) : D unit :=
  m ← slot i;
  if (pidfd m <? 0) || negb (external m) then mret tt
  else
    audit (m_name m) (#"agentd: external pid " ++ fmt_d (m_pid m) ++ #" exited (pidfd)") ;;
    daemon_log (#"external " ++ m_name m ++ #" pid=" ++ fmt_d (m_pid m) ++ #" exited") ;;
    run_ (write_status root (m_name m) #"stopped") ;;
    clear_runtime_state i ;;
    upd i (set_external false).

Definition serve_broker (entropy : bool * list (errno + bytes)) (i : nat) : D unit :=
  m ← slot i;
  if broker_fd m <? 0 then mret tt else broker_handle_event entropy i.

Definition main_turn (inotify_ok : bool) (root_wd : Z) (entropy : bool * list (errno + bytes))
    (wk : wakeup) : D unit :=
  (if wk_sigchld wk then reap_zombies else mret tt) ;;
  match wk_conn wk with Some cn => serve_one_connection cn | None => mret tt end ;;
  (if (inotify_ok : bool) then inotify_drain root_wd (wk_inotify wk) else mret tt) ;;
  dfor_each (wk_pidfds wk) external_exited ;;
  dfor_each (wk_brokers wk) (serve_broker entropy) ;;
  l ← dget g_agents;
  now ← total 0 sys_time;
  if negb inotify_ok || wk_timeout wk || scheduled_restart_due now l
  then scan_disk_agents reconcile_cb else mret tt.
End agentd.
