(* ===== verification/AgentdSpec.v ===== *)
(** * agentd.c: properties of the supervisor

    What the broker may hand out, the restart policy, reaping, the control
    channel's authentication and the table of slots. *)

From S2P Require Import Prelude CLib Posix Names Common Broker Profiles Enforcement Lifecycle Agentd.

(** ** Reasoning about [D] *)

(** [dkeeps R m]: [m] leaves the daemon's globals alone and relates the worlds
    before and after by [R]. *)
Definition dkeeps {A} (R : world → world → Prop) (m : D A) : Prop :=
  ∀ d w, let '(_, d', w') := m d w in d' = d ∧ R w w'.

Create HintDb dkeep.

Section dkeeps_lemmas.
Context (R : world → world → Prop) `{!PreOrder R}.

Lemma dkeeps_ret {A} (a : A) : dkeeps R (mret a).
Proof. intros d w. by split. Qed.
Lemma dkeeps_dget {A} (f : dstate → A) : dkeeps R (dget f).
Proof. intros d w. by split. Qed.
Lemma dkeeps_bind {A B} (m : D A) (f : A → D B) :
  dkeeps R m → (∀ a, dkeeps R (f a)) → dkeeps R (m ≫= f).
Proof.
  intros Hm Hf d w. unfold mbind, D_bind. specialize (Hm d w).
  destruct (m d w) as [[a d1] w1]. destruct Hm as [-> Hm]. specialize (Hf a d w1).
  destruct (f a d w1) as [[b d2] w2]. destruct Hf as [-> Hf]. split; [done|by etrans].
Qed.
Lemma dkeeps_if {A} (b : bool) (m1 m2 : D A) :
  dkeeps R m1 → dkeeps R m2 → dkeeps R (if b then m1 else m2).
Proof. by destruct b. Qed.
Lemma dkeeps_try {A} (m : M A) : (∀ w, R w (m w).2) → dkeeps R (try m).
Proof. intros Hm d w. specialize (Hm w). unfold try. by destruct (m w). Qed.
Lemma dkeeps_run {A} (m : M A) : (∀ w, R w (m w).2) → dkeeps R (run_ m).
Proof. intros Hm d w. specialize (Hm w). unfold run_. by destruct (m w). Qed.
Lemma dkeeps_total {A} (a : A) (m : M A) : (∀ w, R w (m w).2) → dkeeps R (total a m).
Proof. intros Hm d w. specialize (Hm w). unfold total. by destruct (m w) as [[]]. Qed.
End dkeeps_lemmas.

Lemma dkeeps_impl {A} (R S : world → world → Prop) (m : D A) :
  (∀ w w', R w w' → S w w') → dkeeps R m → dkeeps S m.
Proof. intros H Hm d w. specialize (Hm d w). destruct (m d w) as [[? ?] ?]. naive_solver. Qed.

Lemma dbind_unfold {A B} (m : D A) (f : A → D B) d w :
  (m ≫= f) d w = let '(a, d', w') := m d w in f a d' w'.
Proof. reflexivity. Qed.
Lemma dbind_dget {A B} (g : dstate → A) (f : A → D B) d w : (dget g ≫= f) d w = f (g d) d w.
Proof. reflexivity. Qed.
Lemma dbind_slot {B} i (f : managed → D B) d w :
  (slot i ≫= f) d w = f (default zero_slot (g_agents d !! i)) d w.
Proof. reflexivity. Qed.

(** [mret a d w = (r, d', w') → ...] *)
Ltac ret_eq := let H := fresh in intros H; cbv [mret D_ret] in H; simplify_eq.

Ltac dkeep_step :=
  match goal with
  | |- dkeeps _ (mbind _ _) => apply dkeeps_bind; [exact _| |]
  | |- dkeeps _ (if _ then _ else _) => apply dkeeps_if
  | |- dkeeps _ (match ?x with _ => _ end) => destruct x
  | |- dkeeps _ (let _ := _ in _) => cbv zeta
  | |- dkeeps _ (mret _) => apply dkeeps_ret; exact _
  | |- dkeeps _ (dget _) => apply dkeeps_dget; exact _
  | |- dkeeps _ (slot _) => apply dkeeps_dget; exact _
  | |- ∀ _, dkeeps _ _ => intros ?
  | |- dkeeps _ _ => progress eauto with dkeep nocore
  end.
Ltac dkeep := repeat dkeep_step.

(** ** File work: the daemon's log, audits, settings *)

Section logs.
Context (root : bytes).

Lemma shrinks_daemon_log msg : dkeeps later (daemon_log root msg).
Proof.
  apply dkeeps_run. unfold agentd_log_path, root_child_path.
  match goal with |- ∀ w, later w (?m w).2 => change (shrinks m) end. shrink.
Qed.
Lemma shrinks_audit name msg : dkeeps later (audit root name msg).
Proof. apply dkeeps_run. apply shrinks_audit_log. Qed.
Lemma shrinks_read_setting name leaf n : shrinks (read_agent_setting root name leaf n).
Proof. unfold read_agent_setting. shrink. Qed.
Lemma shrinks_write_setting name leaf v : shrinks (write_agent_setting root name leaf v).
Proof. unfold write_agent_setting. shrink. Qed.
Lemma shrinks_write_status name v : shrinks (write_status root name v).
Proof. unfold write_status. shrink. Qed.
Lemma shrinks_run_alive pid : shrinks (run_alive pid).
Proof. unfold run_alive, sys_kill. cbn [Z.eqb]. shrink. Qed.
Lemma shrinks_pidfd_alive fd : shrinks (lifecycle_pidfd_alive fd).
Proof. unfold lifecycle_pidfd_alive, sys_pidfd_send_signal. cbn [Z.eqb]. shrink. Qed.
Lemma shrinks_load_patterns name k n : shrinks (load_allow_patterns root name k n).
Proof. unfold load_allow_patterns. shrink. Qed.
Lemma dkeeps_alive m : dkeeps later (agent_alive m).
Proof.
  unfold agent_alive. dkeep; apply dkeeps_total;
    [apply shrinks_pidfd_alive|apply shrinks_run_alive].
Qed.
Lemma dkeeps_enabled name : dkeeps later (load_enabled root name).
Proof. unfold load_enabled. dkeep. apply dkeeps_try, shrinks_read_setting. Qed.
Lemma dkeeps_desired name : dkeeps later (load_desired_running root name).
Proof. unfold load_desired_running. dkeep. apply dkeeps_try, shrinks_read_setting. Qed.
Lemma dkeeps_policy name : dkeeps later (load_policy root name).
Proof. unfold load_policy. dkeep. apply dkeeps_try, shrinks_read_setting. Qed.
Lemma dkeeps_persist m : dkeeps later (persist_restart_count root m).
Proof. apply dkeeps_run, shrinks_write_setting. Qed.
Lemma dkeeps_set_status name v : dkeeps later (run_ (write_status root name v)).
Proof. apply dkeeps_run, shrinks_write_status. Qed.
Lemma dkeeps_set_setting name leaf v : dkeeps later (run_ (write_agent_setting root name leaf v)).
Proof. apply dkeeps_run, shrinks_write_setting. Qed.
Lemma dkeeps_time : dkeeps later (total 0 sys_time).
Proof. apply dkeeps_total, shrinks_time. Qed.
End logs.
#[export] Hint Resolve shrinks_daemon_log shrinks_audit dkeeps_alive dkeeps_enabled dkeeps_desired
  dkeeps_policy dkeeps_persist dkeeps_set_status dkeeps_set_setting dkeeps_time : dkeep.

(** ** The broker *)

(** The messages that carry descriptors. *)
Definition passes_fd (ev : event) : bool :=
  match ev with EvSend _ (Packet _ (_ :: _)) => true | _ => false end.
Definition fd_sends (tr : list event) : list event := filter (λ ev, passes_fd ev = true) tr.

(** Nothing was handed out and the daemon's descriptors are as before. *)
Definition no_grant (w w' : world) : Prop :=
  w_fds w' = w_fds w ∧ w_procs w' = w_procs w ∧ w_uid w' = w_uid w ∧
  fd_sends (w_trace w') = fd_sends (w_trace w).
#[export] Instance no_grant_preorder : PreOrder no_grant.
Proof.
  split; [by intros w|]. intros a b c (?&?&?&?) (?&?&?&?). repeat split; congruence.
Qed.
Lemma later_no_grant w w' : later w w' → no_grant w w'.
Proof. intros (?&?&?&?&?&?&?&?&?&Ht&?). repeat split; try done. by rewrite Ht. Qed.
Lemma dkeeps_later_no_grant {A} (m : D A) : dkeeps later m → dkeeps no_grant m.
Proof. apply dkeeps_impl, later_no_grant. Qed.

(** [sendmsg] with retries, whatever the descriptor: one event or none. *)
Lemma reply_spec chan data pass w r w' :
  retry_eintr (sys_sendmsg chan data pass) w = (r, w') →
  w_fds w' = w_fds w ∧ w_procs w' = w_procs w ∧ w_uid w' = w_uid w ∧
  match r with
  | inl _ => w_trace w' = w_trace w
  | inr _ => ∃ e objs, w_fds w !! chan = Some (FdSock e) ∧ mapM (λ k, w_fds w !! k) pass = Some objs ∧
               w_trace w' = EvSend e (Packet data objs) :: w_trace w
  end.
Proof.
  unfold retry_eintr. rewrite bind_gets. unfold sys_sendmsg. intros H.
  eapply eintr_sys in H; [|lia|].
  - destruct H as [(er & s & -> & _ & -> & _)|(s & _ & H)]; [done|]. run_in H.
    destruct (w_fds w !! chan) as [[e|?|]|] eqn:Hc; try (by run_in H; simplify_eq).
    destruct (mapM _ pass) as [objs|] eqn:Hp; run_in H; simplify_eq; [|done].
    repeat split; try done. by exists e, objs.
  - intros s er w2 H'. run_in H'.
    destruct (w_fds w !! chan) as [[e|?|]|]; try (run_in H'; by simplify_eq).
    destruct (mapM _ pass); run_in H'; by simplify_eq.
Qed.

Lemma reply_plain chan data w : no_grant w (broker_reply chan data None w).2.
Proof.
  unfold broker_reply. destruct (retry_eintr _ w) as [r w'] eqn:E. apply reply_spec in E as (?&?&?&Hr).
  repeat split; try done. simpl. destruct r as [e|[]]; [by rewrite Hr|].
  destruct Hr as (e & objs & _ & [= <-] & ->). unfold fd_sends. by rewrite filter_cons_False.
Qed.

Lemma dkeeps_deny m cap r : dkeeps no_grant (deny m cap r).
Proof. unfold deny. dkeep. apply dkeeps_run, reply_plain. Qed.
Lemma dkeeps_nolog root msg : dkeeps no_grant (daemon_log root msg).
Proof. apply dkeeps_later_no_grant. dkeep. Qed.
Lemma dkeeps_noaudit root name msg : dkeeps no_grant (audit root name msg).
Proof. apply dkeeps_later_no_grant. dkeep. Qed.
#[export] Hint Resolve dkeeps_deny dkeeps_nolog dkeeps_noaudit : dkeep.
Lemma dkeeps_deny_logged root m cap r : dkeeps no_grant (deny_logged root m cap r).
Proof. unfold deny_logged. dkeep. Qed.
#[export] Hint Resolve dkeeps_deny_logged : dkeep.

(** A socket pair is two fresh descriptors for the two ends. *)
Lemma socketpair_spec w r w' :
  sys_socketpair w = (r, w') →
  w_procs w' = w_procs w ∧ w_uid w' = w_uid w ∧ w_trace w' = w_trace w ∧
  match r with
  | inl _ => w_fds w' = w_fds w
  | inr (a, b) => ∃ n, w_fds w !! a = None ∧ w_fds w !! b = None ∧ a ≠ b ∧
      w_fds w' = <[b := FdSock (2 * n + 1)]> (<[a := FdSock (2 * n)]> (w_fds w))
  end.
Proof.
  unfold sys_socketpair. intros [(e & s & -> & -> & _)|(s & _ & H)]%sys_inv; [done|].
  unfold install in H. run_in H. simplify_eq. simpl. repeat split; try done.
  set (a := fd_alloc (w_fds w)). set (b := fd_alloc (<[a := _]> (w_fds w))).
  exists (Z.of_nat (w_uniq w)).
  pose proof (fd_alloc_fresh (w_fds w)) as Ha. fold a in Ha.
  pose proof (fd_alloc_fresh (<[a := FdSock (2 * Z.of_nat (w_uniq w))]> (w_fds w))) as Hb. fold b in Hb.
  assert (a ≠ b) as Hne by (intros Heq; rewrite <-Heq, lookup_insert_eq in Hb; done).
  rewrite lookup_insert_ne in Hb by done. done.
Qed.

Lemma close_spec fd w r w' :
  sys_close fd w = (r, w') →
  w_fds w' = delete fd (w_fds w) ∧ w_procs w' = w_procs w ∧ w_uid w' = w_uid w ∧ w_trace w' = w_trace w.
Proof.
  unfold sys_close. rewrite bind_unfold. unfold pop.
  destruct (w_sched w) as [|[|e|k] s]; run_goal; intros; by simplify_eq.
Qed.

Lemma find_by_name_Some name l i :
  find_by_name name l = Some i → ∃ m, l !! i = Some m ∧ used m = true ∧ m_name m = name.
Proof.
  unfold find_by_name. destruct (list_find _ l) as [[k m]|] eqn:E; simpl; intros; simplify_eq.
  apply list_find_Some in E as (? & [? ?] & _). by exists m.
Qed.

(** The descriptors of the slots are open. *)
Definition slots_open (d : dstate) (w : world) : Prop :=
  ∀ i m, g_agents d !! i = Some m → used m = true → 0 ≤ inbox_fd m → is_Some (w_fds w !! inbox_fd m).

(** What a successful issue did: the target was live, one end is queued at it
    with the sender's identity, the other is the only new descriptor. *)
Definition issued (sender : bytes) (pid uid : Z) (target : bytes) (d : dstate) (w : world)
    (a n e : Z) (w' : world) : Prop :=
  (∃ j dst w1, find_by_name target (g_agents d) = Some j ∧ g_agents d !! j = Some dst ∧
     0 < m_pid dst ∧ agent_alive dst d w = (true, d, w1) ∧
     w_fds w !! inbox_fd dst = Some (FdSock e)) ∧
  w_fds w !! a = None ∧ w_fds w' = <[a := FdSock (2 * n)]> (w_fds w) ∧
  w_procs w' = w_procs w ∧ w_uid w' = w_uid w ∧
  w_trace w' = EvSend e (Packet (meta_text sender pid uid) [FdSock (2 * n + 1)]) :: w_trace w.

Lemma issue_spec sender pid uid target d w r d' w' :
  slots_open d w →
  issue_mailbox_channel sender pid uid target d w = (r, d', w') →
  d' = d ∧ match r with
           | inl _ => no_grant w w'
           | inr a => ∃ n e, issued sender pid uid target d w a n e w'
           end.
Proof.
  intros Hopen. unfold issue_mailbox_channel. rewrite dbind_dget.
  destruct (find_by_name target (g_agents d)) as [j|] eqn:Ej; [|ret_eq; split; reflexivity].
  destruct (find_by_name_Some _ _ _ Ej) as (dst & Hj & Hu & Hn). rewrite dbind_slot, Hj.
  change (default zero_slot (Some dst)) with dst.
  destruct ((m_pid dst <=? 0) || (inbox_fd dst <? 0)) eqn:Hpi; [ret_eq; split; reflexivity|].
  apply orb_false_iff in Hpi as [Hp Hi]. bool_simpl.
  rewrite dbind_unfold. pose proof (dkeeps_alive dst d w) as Hal.
  destruct (agent_alive dst d w) as [[b d0] w1] eqn:Ea. destruct Hal as [-> Hlat].
  pose proof (later_no_grant _ _ Hlat) as (Hf1 & Hp1 & Hu1 & Ht1).
  assert (w_trace w1 = w_trace w) as Htr1 by apply Hlat.
  destruct b; cbn [negb]; [|ret_eq; by split].
  rewrite dbind_unfold. unfold try at 1. destruct (sys_socketpair w1) as [r2 w2] eqn:E2.
  apply socketpair_spec in E2 as (Hp2 & Hu2 & Ht2 & Hr2).
  destruct r2 as [er|[a b]].
  { ret_eq. split; [done|]. repeat split; congruence. }
  destruct Hr2 as (n & Ha & Hb & Hab & Hf2). rewrite dbind_unfold. unfold try.
  destruct (retry_eintr _ w2) as [r3 w3] eqn:E3. apply reply_spec in E3 as (Hf3 & Hp3 & Hu3 & Hr3).
  rewrite dbind_unfold. unfold run_ at 1. destruct (sys_close b w3) as [r4 w4] eqn:E4.
  apply close_spec in E4 as (Hf4 & Hp4 & Hu4 & Ht4).
  assert (w_fds w4 = <[a := FdSock (2 * n)]> (w_fds w)) as Hfds.
  { rewrite Hf4, Hf3, Hf2, Hf1. rewrite Hf1 in Hb. rewrite delete_insert_eq. apply delete_id.
    by rewrite lookup_insert_ne. }
  rewrite Hf1 in Ha, Hb.
  destruct r3 as [er|[]].
  - rewrite dbind_unfold. unfold run_. destruct (sys_close a w4) as [r5 w5] eqn:E5.
    apply close_spec in E5 as (Hf5 & Hp5 & Hu5 & Ht5). ret_eq. split; [done|].
    repeat split; [|congruence..]. rewrite Hf5, Hfds. by rewrite delete_insert_id.
  - ret_eq. split; [done|].
    destruct Hr3 as (e & objs & He & Ho & Ht3). exists n, e.
    destruct (Hopen j dst Hj Hu Hi) as [o Ho'].
    assert (w_fds w !! inbox_fd dst = Some (FdSock e)) as Hinbox.
    { rewrite Hf2, Hf1, lookup_insert_ne, lookup_insert_ne in He by congruence. done. }
    simpl in Ho. rewrite Hf2, lookup_insert_eq in Ho. cbv [mret option_ret mbind option_bind] in Ho.
    injection Ho as <-. split; [by exists j, dst, w1|]. repeat split; congruence.
Qed.

(** The last step of a grant: whatever fails, our copy of the sender's end is
    closed; only a formatted [issued] reply may carry it. *)
Lemma finish_spec root ent m cap target d w w1 a n d' w' :
  is_Some (w_fds w !! broker_fd m) → w_fds w !! a = None →
  w_fds w1 = <[a := FdSock (2 * n)]> (w_fds w) →
  finish_issue root ent m cap target a d w1 = (tt, d', w') →
  d' = d ∧ w_fds w' = w_fds w ∧ w_procs w' = w_procs w1 ∧
  (fd_sends (w_trace w') = fd_sends (w_trace w1) ∨
   ∃ eb tok resp, w_fds w !! broker_fd m = Some (FdSock eb) ∧
     broker_format_issued BROKER_MSG_MAX cap tok = Some resp ∧
     fd_sends (w_trace w') = EvSend eb (Packet resp [FdSock (2 * n)]) :: fd_sends (w_trace w1)).
Proof.
  intros [ob Hob] Ha Hf1. unfold finish_issue.
  assert (∀ w2, w_fds w2 = w_fds w1 → w_fds (sys_close a w2).2 = w_fds w ∧
            w_procs (sys_close a w2).2 = w_procs w2 ∧ w_trace (sys_close a w2).2 = w_trace w2) as Hcl.
  { intros w2 H2. destruct (sys_close a w2) as [r3 w3] eqn:E3.
    apply close_spec in E3 as (Hf3 & Hp3 & _ & Ht3). split; [|by split].
    simpl. rewrite Hf3, H2, Hf1. by apply delete_insert_id. }
  destruct (broker_make_token _ _) as [tok|].
  - destruct (broker_format_issued _ cap tok) as [resp|] eqn:Er.
    + rewrite dbind_unfold. unfold try, broker_reply.
      destruct (retry_eintr _ w1) as [r2 w2] eqn:E2. apply reply_spec in E2 as (Hf2 & Hp2 & _ & Hr2).
      destruct (Hcl w2 Hf2) as (Hfc & Hpc & Htc).
      rewrite dbind_unfold. unfold run_ at 1. destruct (sys_close a w2) as [r3 w3]. simpl in *.
      set (log := match r2 with inl _ => _ | inr _ => _ end). intros E.
      assert (dkeeps no_grant log) as Hlog by (unfold log; dkeep).
      specialize (Hlog d w3). rewrite E in Hlog. destruct Hlog as (-> & Hf & Hp & _ & Ht).
      split; [done|]. split; [congruence|]. split; [congruence|].
      destruct r2 as [er|[]]; [left; rewrite Ht, Htc, Hr2; done|]. right.
      destruct Hr2 as (eb & objs & Hb & Ho & Ht2). simpl in Ho.
      rewrite Hf1, lookup_insert_eq in Ho. injection Ho as <-.
      rewrite Hf1, lookup_insert_ne in Hb by congruence. exists eb, tok, resp.
      split; [done|]. split; [done|]. rewrite Ht, Htc, Ht2. unfold fd_sends.
      by rewrite filter_cons_True.
    + intros E. unfold run_ in E. destruct (Hcl w1 eq_refl) as (? & ? & Ht).
      destruct (sys_close a w1) as [r3 w3]. simpl in *. simplify_eq.
      repeat split; try done. left. by rewrite Ht.
  - rewrite dbind_unfold. unfold run_ at 1. destruct (Hcl w1 eq_refl) as (Hfc & Hpc & Htc).
    destruct (sys_close a w1) as [r3 w3]. simpl in *. intros E.
    match type of E with ?log d w3 = _ => assert (dkeeps no_grant log) as Hlog by dkeep end.
    specialize (Hlog d w3). rewrite E in Hlog. destruct Hlog as (-> & Hf & Hp & _ & Ht).
    split; [done|]. split; [congruence|]. split; [congruence|]. left. by rewrite Ht, Htc.
Qed.

(** Why a capability may be handed out, and to whom: the request parses, the
    requester's policy allows it, it names a live agent, and its two ends, the
    only descriptors sent, go to that agent's inbox (with the requester's
    identity) and, in an [issued] reply, to the requester. *)
Definition grant root (m : managed) (data : bytes) (d : dstate) (w : world) (sends : list event) : Prop :=
  ∃ cap tid rs tk ps target j dst n e wp w1 w2,
    broker_parse data = Some (BrokerMsg BROKER_VERB_REQUEST cap tid rs tk) ∧
    load_allow_patterns root (m_name m) 8192 32 w = (inr ps, wp) ∧
    broker_policy_check cap ps = true ∧ cap = #"mailbox.send:" ++ target ∧
    find_by_name target (g_agents d) = Some j ∧ g_agents d !! j = Some dst ∧
    0 < m_pid dst ∧ agent_alive dst d w1 = (true, d, w2) ∧
    w_fds w !! inbox_fd dst = Some (FdSock e) ∧
    let deliver := EvSend e (Packet (meta_text (m_name m) (m_pid m) (w_uid w)) [FdSock (2 * n + 1)]) in
    (sends = [deliver] ∨
     ∃ eb tok resp, w_fds w !! broker_fd m = Some (FdSock eb) ∧
       broker_format_issued BROKER_MSG_MAX cap tok = Some resp ∧
       sends = [EvSend eb (Packet resp [FdSock (2 * n)]); deliver]).

Lemma shrinks_patterns_inr root name k n w :
  ∃ ps w', load_allow_patterns root name k n w = (inr ps, w').
Proof.
  unfold load_allow_patterns. rewrite bind_attempt.
  match goal with |- context [let '(_, _) := ?x in _] => destruct x as [[e|t] w1] end; run_goal; eauto.
Qed.

Lemma broker_serve_spec root ent m data d w d' w' :
  slots_open d w → is_Some (w_fds w !! broker_fd m) →
  broker_serve root ent m data d w = (tt, d', w') →
  d' = d ∧ w_fds w' = w_fds w ∧ w_procs w' = w_procs w ∧
  ∃ sends, fd_sends (w_trace w') = sends ++ fd_sends (w_trace w) ∧
    (sends = [] ∨ grant root m data d w sends).
Proof.
  intros Hopen Hb. unfold broker_serve.
  assert (∀ (x : D unit) w0 d1 w1, no_grant w w0 → dkeeps no_grant x → x d w0 = (tt, d1, w1) →
    d1 = d ∧ w_fds w1 = w_fds w ∧ w_procs w1 = w_procs w ∧
    ∃ sends, fd_sends (w_trace w1) = sends ++ fd_sends (w_trace w) ∧
      (sends = [] ∨ grant root m data d w sends)) as Hno.
  { intros x w0 d1 w1 H0 Hx E. specialize (Hx d w0). rewrite E in Hx. destruct Hx as [-> Hx].
    assert (no_grant w w1) as (? & ? & ? & ?) by by etrans.
    split; [done|]. split; [done|]. split; [done|]. exists []. by split; [|left]. }
  destruct (broker_parse data) as [[[] cap tid rs tk]|] eqn:Ep;
    try solve [apply Hno; [reflexivity|dkeep]].
  rewrite dbind_unfold. unfold total at 1.
  destruct (shrinks_patterns_inr root (m_name m) 8192 32 w) as (ps & wp & Eps). rewrite Eps.
  pose proof (shrinks_run _ _ _ _ (shrinks_load_patterns root _ _ _) Eps) as Hlat.
  pose proof (later_no_grant _ _ Hlat) as Hng.
  destruct (broker_policy_check cap ps) eqn:Epol; cbn [negb]; [|apply Hno; [done|dkeep]].
  destruct (strip_prefix _ cap) as [target|] eqn:Et; [|apply Hno; [done|dkeep]].
  apply strip_prefix_Some in Et. rewrite dbind_unfold. unfold total at 1. cbn [gets].
  rewrite dbind_unfold. destruct (issue_mailbox_channel _ _ _ _ d wp) as [[r d1] w1] eqn:Ei.
  destruct Hng as (Hfp & Hpp & Hup & Htp).
  apply issue_spec in Ei as [-> Hr]; [|intros i0 m0 ???; rewrite Hfp; by eapply Hopen].
  destruct r as [[e|]|a]; try (apply Hno; [etrans; [|exact Hr]; done|dkeep]).
  destruct Hr as (n & e & (j & dst & w3 & Hj & Hdst & Hpid & Hal & Hin) & Ha & Hf1 & Hp1 & Hu1 & Ht1).
  rewrite Hfp in *. intros E. eapply finish_spec in E as (-> & Hf & Hp & Ht); [|done|exact Ha|exact Hf1].
  split; [done|]. split; [done|]. split; [congruence|].
  assert (fd_sends (w_trace w1) = EvSend e (Packet (meta_text (m_name m) (m_pid m) (w_uid w))
            [FdSock (2 * n + 1)]) :: fd_sends (w_trace w)) as Ht1'.
  { rewrite Ht1, Hup. unfold fd_sends in *. rewrite filter_cons_True by done. by rewrite Htp. }
  destruct Ht as [Ht|(eb & tok & resp & Heb & Hresp & Ht)].
  - eexists [_]. split; [by rewrite Ht, Ht1'|]. right.
    exists cap, tid, rs, tk, ps, target, j, dst, n, e, wp, wp, w3. repeat split; try done. by left.
  - eexists [_; _]. split; [by rewrite Ht, Ht1'|]. right.
    exists cap, tid, rs, tk, ps, target, j, dst, n, e, wp, wp, w3. repeat split; try done. right.
    by exists eb, tok, resp.
Qed.

(** A received request: its bytes are the first packet waiting, and the
    descriptors it brought are new. *)
Lemma recv_spec fd cap fdcap w r w' :
  retry_eintr (sys_recvmsg fd cap fdcap) w = (r, w') →
  w_procs w' = w_procs w ∧ w_uid w' = w_uid w ∧ w_trace w' = w_trace w ∧ w_fs w' = w_fs w ∧
  match r with
  | inl _ => w_fds w' = w_fds w
  | inr (Recvd data ks tr ctr) => ∃ e p q, w_fds w !! fd = Some (FdSock e) ∧
      default [] (w_inq w !! e) = p :: q ∧ data = take cap (pk_data p) ∧
      tr = (cap <? length (pk_data p))%nat ∧
      (∀ k, k ∈ ks → w_fds w !! k = None) ∧ (∀ k, k ∉ ks → w_fds w' !! k = w_fds w !! k)
  end.
Proof.
  unfold retry_eintr. rewrite bind_gets. unfold sys_recvmsg. intros H.
  eapply eintr_sys in H; [|lia|].
  - destruct H as [(er & s & -> & _ & -> & _)|(s & _ & H)]; [done|].
    rewrite !bind_gets in H. change (w_fds (set_sched s w)) with (w_fds w) in H.
    change (w_inq (set_sched s w)) with (w_inq w) in H.
    destruct (w_fds w !! fd) as [[e|?|]|] eqn:Hc; try (by run_in H; simplify_eq).
    destruct (default [] (w_inq w !! e)) as [|p q] eqn:Hq; [by run_in H; simplify_eq|].
    rewrite bind_modify, bind_unfold in H.
    destruct (install_all_spec (take fdcap (pk_fds p)) (set_inq (<[e := q]>) (set_sched s w)))
      as (ks & fds' & Ei & HF & Ho). rewrite Ei in H. run_in H. simplify_eq. simpl in *.
    repeat split; try done. exists e, p, q. repeat split; try done.
    intros k Hk. apply list_elem_of_lookup in Hk as [i Hi].
    eapply Forall2_lookup_l in HF as (o & _ & _ & Hn); done.
  - intros s er w2 H'. rewrite !bind_gets in H'. change (w_fds (set_sched s w)) with (w_fds w) in H'.
    change (w_inq (set_sched s w)) with (w_inq w) in H'.
    destruct (w_fds w !! fd) as [[e|?|]|] eqn:Hc; try (by run_in H'; simplify_eq).
    destruct (default [] (w_inq w !! e)) as [|p q] eqn:Hq; [by run_in H'; simplify_eq|].
    rewrite bind_modify, bind_unfold in H'.
    destruct (install_all_spec (take fdcap (pk_fds p)) (set_inq (<[e := q]>) (set_sched s w)))
      as (ks & fds' & Ei & _). rewrite Ei in H'. by run_in H'.
Qed.

Lemma close_all_spec ks d w :
  ∃ w', dfor_each ks (λ k, run_ (sys_close k)) d w = (tt, d, w') ∧
    w_procs w' = w_procs w ∧ w_uid w' = w_uid w ∧ w_trace w' = w_trace w ∧ w_fs w' = w_fs w ∧
    (∀ k, k ∈ ks → w_fds w' !! k = None) ∧ (∀ k, k ∉ ks → w_fds w' !! k = w_fds w !! k).
Proof.
  revert w. induction ks as [|k ks IH]; intros w.
  { exists w. repeat split; try done. intros ? []%not_elem_of_nil. }
  cbn [dfor_each]. rewrite dbind_unfold. unfold run_ at 1.
  assert (w_fs (sys_close k w).2 = w_fs w) as Hfs0.
  { unfold sys_close. rewrite bind_unfold. unfold pop. by destruct (w_sched w) as [|[] ?]. }
  destruct (sys_close k w) as [r w1] eqn:E. apply close_spec in E as (Hf & Hp & Hu & Ht).
  destruct (IH w1) as (w' & -> & Hp' & Hu' & Ht' & Hfs & Hin & Hout). exists w'.
  simpl in Hfs0. repeat split; try congruence.
  - intros x [->|Hx]%elem_of_cons; [|by apply Hin].
    destruct (decide (k ∈ ks)); [by apply Hin|]. rewrite Hout, Hf by done. apply lookup_delete_eq.
  - intros x [Hne Hx]%not_elem_of_cons. rewrite Hout, Hf by done. by apply lookup_delete_ne.
Qed.

Lemma drop_channel_spec i d w d' w' :
  drop_channel i d w = (tt, d', w') →
  g_agents d' = alter (set_broker_fd (-1)) i (g_agents d) ∧ w_procs w' = w_procs w ∧
  fd_sends (w_trace w') = fd_sends (w_trace w).
Proof.
  unfold drop_channel. rewrite dbind_slot, dbind_unfold. unfold run_ at 1.
  destruct (sys_close _ w) as [r w1] eqn:E. apply close_spec in E as (_ & Hp & _ & Ht).
  intros H. cbv [upd set_agents dmodify] in H. simplify_eq. simpl. by rewrite Ht.
Qed.

(** ** Properties *)


(** The daemon of the witnesses: ["a"], which may send to ["b"], and ["b"],
    both running; ["a"] has a request waiting on its broker channel. *)
Definition demo_slot (name : bytes) (pid bfd ifd : Z) : managed :=
  Managed true name pid (-1) bfd ifd 0 0 1788350000 0 false.
Definition demo_daemon : dstate :=
  DState (demo_slot #"a" 201 5 6 :: demo_slot #"b" 202 7 8 :: replicate 30 zero_slot) false
         (replicate MAX_MANAGED (0, [])).
Definition demo_request : packet :=
  Packet (#"VERB request" ++ nl ++ #"CAP mailbox.send:b" ++ nl ++ nl) [].
Definition demo_brokered : world :=
  World (<[ #"/r/agents/a/config/policy" := Node (KReg (#"allow mailbox.send:b" ++ nl)) 384 1000]> demo_fs)
        [] 1788350400 100 1000 ∅ 50
        (list_to_map [(5, FdSock 10); (6, FdSock 20); (7, FdSock 30); (8, FdSock 40)])
        (<[10 := [demo_request]]> ∅) (list_to_map [(201, PLive); (202, PLive)]) [] [].
Definition demo_entropy : bool * list (errno + bytes) := (true, [inr #"0123"]).


(** ** Reaping *)

(** Step over an operation that keeps the globals. *)
Ltac dstep_in E :=
  rewrite dbind_unfold in E;
  match type of E with
  | match ?m ?d ?w with (_, _) => _ end = _ =>
      let H := fresh "Hk" in
      assert (dkeeps later m) as H by dkeep; specialize (H d w);
      destruct (m d w) as [[? ?] ?]; destruct H as [-> H]
  end; cbv beta iota zeta in E.

(** Closing descriptors changes nothing else. *)
Definition only_fds (w w' : world) : Prop :=
  w_procs w' = w_procs w ∧ w_now w' = w_now w ∧ w_trace w' = w_trace w ∧ w_exits w' = w_exits w.
#[export] Instance only_fds_preorder : PreOrder only_fds.
Proof. split; [by intros w|]. intros a b c (?&?&?&?) (?&?&?&?). repeat split; congruence. Qed.
Lemma later_only_fds w w' : later w w' → only_fds w w'.
Proof. intros (?&?&?&?&?&?&?&?&?&?&?). by repeat split. Qed.
Lemma dkeeps_close fd : dkeeps only_fds (close_field fd).
Proof.
  unfold close_field. dkeep. apply dkeeps_run. intros w. unfold sys_close. rewrite bind_unfold.
  unfold pop. by destruct (w_sched w) as [|[] ?].
Qed.
#[export] Hint Resolve dkeeps_close : dkeep.
Lemma dkeeps_close_fields m : dkeeps only_fds (close_fields m).
Proof. unfold close_fields. dkeep. Qed.

Lemma clear_spec i d w :
  ∃ w', clear_runtime_state i d w =
    (tt, DState (alter set_fds_closed i (g_agents d)) (g_shutdown d) (g_watches d), w') ∧ only_fds w w'.
Proof.
  unfold clear_runtime_state. rewrite dbind_slot, dbind_unfold.
  pose proof (dkeeps_close_fields (default zero_slot (g_agents d !! i)) d w) as H.
  destruct (close_fields _ d w) as [[[] d1] w1]. destruct H as [-> H]. exists w1. by split.
Qed.

Lemma find_by_pid_Some pid l i :
  find_by_pid pid l = Some i → ∃ m, l !! i = Some m ∧ used m = true ∧ m_pid m = pid ∧ 0 < pid.
Proof.
  unfold find_by_pid. destruct (pid <=? 0) eqn:Hp; [done|]. bool_simpl.
  destruct (list_find _ l) as [[k m]|] eqn:E; simpl; intros; simplify_eq.
  apply list_find_Some in E as (? & [? ?] & _). by exists m.
Qed.

Definition uptime_of (now : Z) (m : managed) : Z :=
  if 0 <? last_started_at m then now - last_started_at m else 0.

(** The slot after its process was reaped: the runtime fields are cleared, and
    either no restart was due or the failure count, the restart count and the
    next attempt are those of the policy. *)
Definition reaped (now : Z) (m m' : managed) : Prop :=
  let k := next_failures (uptime_of now m) (consecutive_failures m) in
  m_name m' = m_name m ∧ used m' = used m ∧ m_pid m' = 0 ∧
  pidfd m' = -1 ∧ broker_fd m' = -1 ∧ inbox_fd m' = -1 ∧
  ((consecutive_failures m' = consecutive_failures m ∧ restart_count m' = restart_count m ∧
    next_restart_at m' = next_restart_at m) ∨
   (consecutive_failures m' = k ∧ restart_count m' = restart_count m + 1 ∧
    next_restart_at m' = if k <? RESTART_BURST_LIMIT then now + restart_delay k else 0)).

Lemma alter_alter {A} (f g : A → A) i (l : list A) : alter f i (alter g i l) = alter (f ∘ g) i l.
Proof.
  apply list_eq. intros j. destruct (decide (i = j)) as [<-|Hne].
  - rewrite !list_lookup_alter_eq. by destruct (l !! i).
  - by rewrite !list_lookup_alter_ne.
Qed.

Lemma dbind_upd {B} i f (g : unit → D B) d w :
  (upd i f ≫= g) d w = g tt (DState (alter f i (g_agents d)) (g_shutdown d) (g_watches d)) w.
Proof. reflexivity. Qed.

(** The end of a sequence of operations that keep the globals. *)
Ltac dlast_in E :=
  match type of E with
  | ?m ?d ?w = (_, ?d', ?w') =>
      let H := fresh "Hk" in
      assert (dkeeps later m) as H by dkeep; specialize (H d w); rewrite E in H;
      destruct H as [-> H]
  end.
Ltac chain_worlds H :=
  etrans; [exact H|]; repeat (etrans; [apply later_only_fds; eassumption|]); reflexivity.

Lemma reap_one_spec root pid st d w d' w' i m :
  find_by_pid pid (g_agents d) = Some i → g_agents d !! i = Some m →
  reap_one root pid st d w = (tt, d', w') →
  only_fds w w' ∧ ∃ h, g_agents d' = alter h i (g_agents d) ∧ reaped (w_now w) m (h m).
Proof.
  intros Hf Hm E. unfold reap_one in E. rewrite dbind_dget, Hf, dbind_slot, Hm in E.
  change (default zero_slot (Some m)) with m in E. rewrite dbind_unfold in E.
  change (total 0 sys_time d w) with (w_now w, d, w) in E. cbv beta iota zeta in E.
  fold (uptime_of (w_now w) m) in E. unfold reaped. set (k := next_failures _ _) in *.
  rewrite dbind_unfold in E. destruct (clear_spec i d w) as (w1 & E1 & H1). rewrite E1 in E. clear E1.
  set (d1 := DState _ _ _) in E. cbv beta iota in E. do 4 dstep_in E.
  destruct b0; cbn [negb] in E.
  2:{ dlast_in E. split; [chain_worlds H1|]. exists set_fds_closed. split; [done|]. repeat split. by left. }
  dstep_in E. destruct (restart_wanted r (exit_failed st)); cbn [negb] in E.
  2:{ dstep_in E. dlast_in E. split; [chain_worlds H1|]. exists set_fds_closed. split; [done|].
      repeat split. by left. }
  rewrite !dbind_upd, dbind_slot in E. cbn [g_agents g_shutdown g_watches d1] in E. dstep_in E.
  destruct (RESTART_BURST_LIMIT <=? k) eqn:Hburst; bool_simpl.
  - do 4 dstep_in E. cbv [upd set_agents dmodify] in E. injection E as <- <-.
    split; [chain_worlds H1|]. eexists. cbn [g_agents]. split; [by rewrite !alter_alter|].
    repeat split. right. rewrite (proj2 (Z.ltb_ge _ _)) by done. done.
  - rewrite dbind_upd in E. dlast_in E. split; [chain_worlds H1|]. eexists. cbn [g_agents].
    split; [by rewrite !alter_alter|]. repeat split. right. rewrite (proj2 (Z.ltb_lt _ _)) by done. done.
Qed.

(** The zombies of a table, and the table without them. *)
Definition is_zombie (s : pstate) : bool := match s with PZombie _ => true | _ => false end.
Definition living (procs : gmap Z pstate) : gmap Z pstate :=
  filter (λ e : Z * pstate, is_zombie (snd e) = false) procs.

Lemma elem_of_zombies procs pid st : (pid, st) ∈ zombies procs ↔ procs !! pid = Some (PZombie st).
Proof.
  unfold zombies. rewrite list_elem_of_omap. split.
  - intros ([k s] & Hin & He). apply elem_of_map_to_list in Hin. simpl in He.
    destruct s; by simplify_eq.
  - intros H. exists (pid, PZombie st). split; [by apply elem_of_map_to_list|done].
Qed.

Lemma zombies_delete procs pid st :
  procs !! pid = Some (PZombie st) → length (zombies procs) = S (length (zombies (delete pid procs))).
Proof.
  intros H. rewrite <-(insert_delete_id procs pid (PZombie st)) at 1 by done. unfold zombies.
  pose proof (map_to_list_insert (delete pid procs) pid (PZombie st) (lookup_delete_eq _ _)) as HP.
  by rewrite HP.
Qed.

Lemma living_none procs : zombies procs = [] → living procs = procs.
Proof.
  intros H. unfold living. apply map_filter_id. intros k s Hk. destruct s as [|st|]; try done.
  apply elem_of_zombies in Hk. rewrite H in Hk. by apply not_elem_of_nil in Hk.
Qed.

Lemma living_delete procs pid st :
  procs !! pid = Some (PZombie st) → living (delete pid procs) = living procs.
Proof.
  intros H. unfold living. rewrite map_filter_delete. apply delete_id, map_lookup_filter_None.
  right. intros s Hs. by simplify_eq.
Qed.

(** Clearing another slot does not change which slot a pid belongs to. *)
Lemma find_by_pid_alter pid l i j m h :
  find_by_pid pid l = Some i → l !! j = Some m → m_pid m ≠ pid → m_pid (h m) = 0 →
  find_by_pid pid (alter h j l) = Some i.
Proof.
  unfold find_by_pid. destruct (pid <=? 0) eqn:Hp; [done|]. bool_simpl. intros Hf Hj Hne H0.
  destruct (list_find _ l) as [[k x]|] eqn:E; simplify_eq/=.
  apply list_find_Some in E as (Hk & [Hu Hx] & Hbefore).
  assert (list_find (λ m, used m = true ∧ m_pid m = pid) (alter h j l) = Some (i, x)) as ->; [|done].
  assert (j ≠ i) by (intros ->; simplify_eq).
  apply list_find_Some. split; [by rewrite list_lookup_alter_ne|]. split; [done|].
  intros a y Ha Hlt [Hy1 Hy2]. destruct (decide (j = a)) as [->|Hja].
  - rewrite list_lookup_alter_eq, Hj in Ha. simpl in Ha. simplify_eq. lia.
  - rewrite list_lookup_alter_ne in Ha by done. by eapply Hbefore.
Qed.

(** What the loop does to every slot. *)
Definition reap_result (d d' : dstate) (w : world) : Prop :=
  (∀ i m, g_agents d !! i = Some m → ∃ m', g_agents d' !! i = Some m' ∧
     (m' = m ∨ 0 < m_pid m ∧ (∃ st, w_procs w !! m_pid m = Some (PZombie st)) ∧
               reaped (w_now w) m m')) ∧
  (∀ pid st i m, w_procs w !! pid = Some (PZombie st) → find_by_pid pid (g_agents d) = Some i →
     g_agents d !! i = Some m → ∃ m', g_agents d' !! i = Some m' ∧ reaped (w_now w) m m').

Lemma reap_loop_spec root fuel d w d' w' :
  (length (zombies (w_procs w)) < fuel)%nat → reap_loop root fuel d w = (tt, d', w') →
  w_procs w' = living (w_procs w) ∧ w_trace w' = w_trace w ∧ reap_result d d' w.
Proof.
  revert d w. induction fuel as [|fuel IH]; intros d w Hf E; [lia|].
  cbn [reap_loop] in E. rewrite dbind_unfold in E. unfold total, sys_waitpid in E.
  rewrite bind_gets in E. destruct (zombies (w_procs w)) as [|[pid st] zs] eqn:Ez.
  { cbv [mret M_ret D_ret] in E. injection E as <- <-. rewrite living_none by done.
    split; [done|]. split; [done|]. split.
    - intros i m Hm. exists m. by split; [|left].
    - intros pid st i m Hz. apply elem_of_zombies in Hz. rewrite Ez in Hz. by apply not_elem_of_nil in Hz. }
  assert (w_procs w !! pid = Some (PZombie st)) as Hz by (apply elem_of_zombies; rewrite Ez; by left).
  rewrite bind_modify in E. cbv [mret M_ret] in E. cbv beta iota in E.
  set (w1 := set_procs (delete pid) w) in *. rewrite dbind_unfold in E.
  destruct (reap_one root pid st d w1) as [[[] d1] w2] eqn:E1.
  assert (only_fds w1 w2 ∧ ((find_by_pid pid (g_agents d) = None ∧ d1 = d) ∨
    ∃ i m h, find_by_pid pid (g_agents d) = Some i ∧ g_agents d !! i = Some m ∧ m_pid m = pid ∧ 0 < pid ∧
      g_agents d1 = alter h i (g_agents d) ∧ reaped (w_now w) m (h m))) as [Hw2 Hd1].
  { destruct (find_by_pid pid (g_agents d)) as [i|] eqn:Ei.
    - destruct (find_by_pid_Some _ _ _ Ei) as (m & Hm & _ & Hpid & Hpos).
      eapply reap_one_spec in E1 as (Hof & h & Hh & Hr); [|done|done]. split; [done|].
      right. exists i, m, h. done.
    - unfold reap_one in E1. rewrite dbind_dget, Ei in E1. cbv [mret D_ret] in E1. simplify_eq.
      split; [reflexivity|by left]. }
  destruct Hw2 as (Hp2 & Hn2 & Ht2 & _). change (w_procs w1) with (delete pid (w_procs w)) in Hp2.
  apply IH in E as (Hp & Ht & Hr1 & Hr2).
  2:{ rewrite Hp2. pose proof (zombies_delete _ _ _ Hz) as Hlen. rewrite Ez in Hlen. cbn [length] in *. lia. }
  rewrite Hp2 in *. rewrite (living_delete _ _ _ Hz) in Hp. rewrite Hn2 in *.
  change (w_now w1) with (w_now w) in *.
  split; [done|]. split; [by rewrite Ht, Ht2|].
  destruct Hd1 as [[Hnone ->]|(i0 & m0 & h & Hf0 & Hm0 & Hpid0 & Hpos & Hd1 & Hreap)].
  - split.
    + intros i m Hm. destruct (Hr1 i m Hm) as (m' & Hm' & [->|(Hpos & [st' Hz'] & Hr)]); eauto 10.
      exists m'. split; [done|]. right. apply lookup_delete_Some in Hz' as [_ Hz']. eauto.
    + intros pid' st' i m Hz' Hf' Hm. assert (pid' ≠ pid) as Hne by congruence.
      eapply Hr2; [|done|done]. by rewrite lookup_delete_ne.
  - assert (m_pid (h m0) = 0) as H0 by apply Hreap.
    assert (g_agents d1 !! i0 = Some (h m0)) as Hi0 by (by rewrite Hd1, list_lookup_alter_eq, Hm0).
    destruct (Hr1 i0 _ Hi0) as (m0' & Hm0' & Hor).
    assert (m0' = h m0) as -> by (destruct Hor as [->|(? & _)]; [done|lia]). split.
    + intros i m Hm. destruct (decide (i = i0)) as [->|Hne].
      * assert (m = m0) as -> by congruence. exists (h m0). split; [done|]. right.
        rewrite Hpid0. eauto.
      * assert (g_agents d1 !! i = Some m) as Hi by (rewrite Hd1, list_lookup_alter_ne; done).
        destruct (Hr1 i m Hi) as (m' & Hm' & [->|(Hpos' & [st' Hz'] & Hr)]); [eauto|].
        exists m'. split; [done|]. right. apply lookup_delete_Some in Hz' as [_ Hz']. eauto.
    + intros pid' st' i m Hz' Hf' Hm. destruct (decide (pid' = pid)) as [->|Hne].
      * assert (i = i0) as -> by congruence.
        assert (m = m0) as -> by congruence. eauto.
      * destruct (find_by_pid_Some _ _ _ Hf') as (mx & Hmx & _ & Hpx & _).
        assert (mx = m) as -> by congruence.
        eapply Hr2; [by rewrite lookup_delete_ne| |].
        -- rewrite Hd1. eapply find_by_pid_alter; [done|exact Hm0|congruence|done].
        -- rewrite Hd1, list_lookup_alter_ne; [done|]. congruence.
Qed.

(** C14: reaping always terminates and is complete: whatever the schedule, after
    [reap_zombies] no zombie is left and the running processes are untouched;
    every slot that owned a zombie is reaped (its descriptors closed, its pid
    cleared, its restart decided by the policy), and every other slot is
    exactly as before. *)
Theorem reap_zombies_complete root d w :
  let '(_, d', w') := reap_zombies root d w in
  zombies (w_procs w') = [] ∧ w_procs w' = living (w_procs w) ∧ w_trace w' = w_trace w ∧
  reap_result d d' w.
Proof.
  destruct (reap_zombies root d w) as [[[] d'] w'] eqn:E. unfold reap_zombies in E.
  apply reap_loop_spec in E as (Hp & Ht & Hr); [|lia]. split; [|done]. rewrite Hp.
  destruct (zombies (living (w_procs w))) as [|[pid st] zs] eqn:Ez; [done|]. exfalso.
  assert (living (w_procs w) !! pid = Some (PZombie st)) as Hl by (apply elem_of_zombies; rewrite Ez; by left).
  unfold living in Hl. apply map_lookup_filter_Some in Hl as [_ Hl]. discriminate Hl.
Qed.

(** ** The restart policy over a history of runs *)

(** The failure counter after a history of failing runs, given their uptimes. *)
Definition failures_after (uptimes : list Z) : Z := foldl (λ k u, next_failures u k) 0 uptimes.

Lemma failures_short k us :
  Forall (λ u, u < RESTART_STABLE_SEC) us →
  foldl (λ k u, next_failures u k) k us = k + blen us.
Proof.
  revert k. induction us as [|u us IH]; intros k HF; [rewrite blen_nil; cbn [foldl]; lia|].
  inversion HF; subst.
  cbn [foldl]. rewrite IH by done. unfold next_failures.
  rewrite (proj2 (Z.leb_gt _ _)) by done. rewrite blen_cons. lia.
Qed.



(** The main loop never sleeps through a scheduled restart: the poll
    timeout is at most the fallback and at most the time left to every pending
    restart, it is never negative, and it is 0 as soon as one is due (which is
    exactly when [scheduled_restart_due] answers yes). *)
Theorem restart_timeout_bound now fallback l :
  0 ≤ fallback →
  let t := scheduled_restart_timeout_ms now fallback l in
  0 ≤ t ≤ fallback ∧
  (∀ m, m ∈ l → restart_pending m = true → t ≤ Z.max 0 ((next_restart_at m - now) * 1000)) ∧
  (scheduled_restart_due now l = true → t = 0).
Proof.
  intros Hf t. unfold t, scheduled_restart_timeout_ms. clear t.
  assert (∀ l b, 0 ≤ b → let t := foldl (λ best m, if restart_pending m && (restart_ms now m <? best)
            then restart_ms now m else best) b l in
    0 ≤ t ≤ b ∧ ∀ m, m ∈ l → restart_pending m = true → t ≤ restart_ms now m) as HH.
  { clear. intros l. induction l as [|m l IH]; intros b Hb; cbn [foldl].
    - split; [lia|]. intros m Hm. by apply not_elem_of_nil in Hm.
    - assert (0 ≤ restart_ms now m) by (unfold restart_ms; lia).
      destruct (restart_pending m && (restart_ms now m <? b)) eqn:E; bool_simpl.
      + destruct (IH (restart_ms now m)) as [Ht Hall]; [done|]. split; [lia|].
        intros x [->|Hx]%elem_of_cons Hp; [lia|]. by apply Hall.
      + destruct (IH b Hb) as [Ht Hall]. split; [done|].
        intros x [->|Hx]%elem_of_cons Hp; [|by apply Hall]. rewrite Hp in E. simpl in E. bool_simpl. lia. }
  destruct (HH l fallback Hf) as [Ht Hall]. split; [done|]. split; [exact Hall|].
  intros (m & Hm & Hp)%existsb_exists. apply list_elem_of_In in Hm. bool_simpl.
  specialize (Hall m Hm H). assert (restart_ms now m = 0) as Hz by (unfold restart_ms; lia). lia.
Qed.

Lemma restart_timeout_bound_witness :
  let m := Managed true #"a" 0 (-1) (-1) (-1) 1 1 100 110 false in
  scheduled_restart_timeout_ms 108 60000 [zero_slot; m] ≤ 2000.
Proof.
  intros m. destruct (restart_timeout_bound 108 60000 [zero_slot; m]) as (_ & Hall & _); [done|].
  apply (Hall m); [by right; left|reflexivity].
Defined.

(** ** The table of slots *)

(** A slot stores 63 bytes of a name, while [validate_name] accepts 64: an
    agent with a 64-byte name is never found in the table again, and every
    attempt to manage it takes one more slot. *)
Theorem slot_name_truncated name d w :
  validate_name name = true → blen name = 64 →
  Forall (λ m, (length (m_name m) ≤ 63)%nat) (g_agents d) →
  find_by_name name (g_agents d) = None ∧
  let '(r, d', _) := alloc_slot name d w in
  (r = find_free (g_agents d)) ∧ find_by_name name (g_agents d') = None ∧
  Forall (λ m, (length (m_name m) ≤ 63)%nat) (g_agents d') ∧
  (∀ i, r = Some i → g_agents d' !! i = Some (new_slot name)).
Proof.
  intros Hv Hl HF.
  assert (∀ l, Forall (λ m, (length (m_name m) ≤ 63)%nat) l → find_by_name name l = None) as Hnone.
  { intros l Hall. destruct (find_by_name name l) as [i|] eqn:E; [|done].
    apply find_by_name_Some in E as (m & Hm & _ & Hn). rewrite Forall_lookup in Hall.
    apply Hall in Hm. rewrite Hn in Hm. unfold blen in Hl. lia. }
  split; [by apply Hnone|]. unfold alloc_slot. rewrite dbind_dget, Hnone by done.
  destruct (find_free (g_agents d)) as [i|] eqn:Ei; [|by repeat split; auto].
  rewrite dbind_upd. cbv [mret D_ret]. cbn [g_agents]. rewrite <-list_insert_alter.
  assert (Forall (λ m, (length (m_name m) ≤ 63)%nat) (<[i := new_slot name]> (g_agents d))) as HF'.
  { apply Forall_insert; [done|]. cbn. unfold snprintf_trunc. rewrite length_take. lia. }
  split; [done|]. split; [by apply Hnone|]. split; [done|]. intros j [= <-].
  unfold find_free in Ei. destruct (list_find _ _) as [[k m]|] eqn:E; simplify_eq/=.
  apply list_find_Some in E as (Hk & _). apply list_lookup_insert_eq. by eapply lookup_lt_Some.
Qed.

Lemma slot_name_truncated_witness :
  let name := replicate 64 "a"%char in
  let '(r, d', _) := alloc_slot name dstate0 demo_world in
  r = Some 0%nat ∧ find_by_name name (g_agents d') = None.
Proof.
  intros name.
  pose proof (slot_name_truncated name dstate0 demo_world ltac:(vm_compute; reflexivity)
    ltac:(vm_compute; reflexivity)) as H.
  destruct H as [_ H]; [apply Forall_replicate; vm_compute; lia|].
  destruct (alloc_slot name dstate0 demo_world) as [[r d'] w']. destruct H as (-> & Hn & _).
  split; [vm_compute; reflexivity|exact Hn].
Defined.

(** ** The control channel *)

Lemma authenticate_spec expected line cmd :
  authenticate expected line = Some cmd ↔
  SP ∉ expected ∧ line = #"AUTH " ++ expected ++ SP :: cmd.
Proof.
  unfold authenticate. split.
  - destruct (strip_prefix _ line) as [pr|] eqn:E1; [|done]. apply strip_prefix_Some in E1 as ->.
    destruct (split_at SP pr) as [[tok c]|] eqn:E2; [|done]. apply split_at_Some in E2 as [-> Hn].
    destruct (bytes_eqb tok expected) eqn:E3; [|done]. apply bytes_eqb_eq in E3 as ->.
    intros [= ->]. done.
  - intros [Hn ->]. rewrite strip_prefix_app, split_at_app, bytes_eqb_refl by done. done.
Qed.

(** C16: nothing is done for a client that does not present the control token:
    unless the line is [AUTH <token> <command>] with exactly the token of the
    token file (which then has no blank), the answer is an error and neither
    the daemon's globals, nor the file system, nor its processes, descriptors
    or messages change; an unreadable token file refuses everyone. *)
Theorem control_requires_token root cwd garbage cn line d w :
  let '(r, d', w') := respond root cwd garbage cn line d w in
  (∃ buf cmd w1, (p ← agentd_token_path root; read_small_file p 129) w = (inr buf, w1) ∧
     SP ∉ token_of buf ∧ line = #"AUTH " ++ token_of buf ++ SP :: cmd) ∨
  ((r = inl #"ERROR unauthorized" ∨ r = inl #"ERROR control authentication unavailable") ∧
   d' = d ∧ later w w' ∧ w_fs w' = w_fs w).
Proof.
  destruct (respond root cwd garbage cn line d w) as [[r d'] w'] eqn:E. unfold respond in E.
  rewrite dbind_unfold in E. unfold try at 1 in E. set (rd := (p ← _; _)) in *.
  destruct (rd w) as [tok w1] eqn:Er.
  assert (later w w1) as Hl.
  { eapply shrinks_run; [|exact Er]. unfold rd, agentd_token_path, root_child_path. shrink. }
  assert (w_fs w1 = w_fs w) as Hfs.
  { eapply confined_none; [|exact Er]. unfold rd, agentd_token_path, root_child_path. confine. }
  destruct tok as [e|buf].
  { cbv [mret D_ret] in E. simplify_eq. right. split; [by right|done]. }
  destruct (authenticate (token_of buf) line) as [cmd|] eqn:Ea.
  - apply authenticate_spec in Ea as [Hs Hline]. left. by exists buf, cmd, w1.
  - cbv [mret D_ret] in E. simplify_eq. right. split; [by left|done].
Qed.
