(* ===== verification/BrokerSpec.v ===== *)
(** * The capability broker: its abstract specification

    What agentd's [broker_handle_event] promises an agent, without system
    calls, descriptors or logs: a pure function from the requester's allow
    patterns, the table of agents, the entropy read and the bytes of a request
    to a verdict.  The verdict says which bytes the requester is answered,
    whether they carry a channel, and which agent is delivered its other end.
    The detailed handler refines it ([broker_refines]); the clients of the
    broker are proved against the verdict. *)

From S2P Require Import Prelude CLib Posix Names Common Broker Ipc Profiles Enforcement Lifecycle Agentd AgentdSpec.

(** ** System calls when none fails *)

Lemma sendmsg_quiet fd data pass e objs w :
  w_sched w = [] → w_fds w !! fd = Some (FdSock e) → mapM (λ k, w_fds w !! k) pass = Some objs →
  sys_sendmsg fd data pass w =
  (inr tt, push_trace (EvSend e (Packet data objs)) (set_inq (enqueue (peer_end e) (Packet data objs)) w)).
Proof. intros Hs Hf Hp. unfold sys_sendmsg. by rewrite sys_quiet, bind_gets, Hf, Hp, bind_modify. Qed.
Lemma send_retry_quiet fd data pass e objs w :
  w_sched w = [] → w_fds w !! fd = Some (FdSock e) → mapM (λ k, w_fds w !! k) pass = Some objs →
  retry_eintr (sys_sendmsg fd data pass) w =
  (inr tt, push_trace (EvSend e (Packet data objs)) (set_inq (enqueue (peer_end e) (Packet data objs)) w)).
Proof.
  intros Hs Hf Hp. pose proof (sendmsg_quiet fd data pass e objs w Hs Hf Hp) as H.
  unfold sys_sendmsg in *. rewrite sys_quiet in H by done.
  rewrite retry_quiet; [exact H|done|]. intros w2. by rewrite H.
Qed.

Lemma enqueue_eq e p q : enqueue e p q !! e = Some (default [] (q !! e) ++ [p]).
Proof. apply lookup_insert_eq. Qed.
Lemma enqueue_ne e e' p q : e ≠ e' → enqueue e p q !! e' = q !! e'.
Proof. apply lookup_insert_ne. Qed.
Lemma peer_ne e : peer_end e ≠ e.
Proof.
  unfold peer_end. intros H. assert (Z.lxor (Z.lxor e 1) e = 0) as H0 by by rewrite H, Z.lxor_nilpotent.
  rewrite Z.lxor_comm, <-Z.lxor_assoc, Z.lxor_nilpotent in H0. done.
Qed.

Lemma peer_even n : 0 ≤ n → peer_end (2 * n) = 2 * n + 1.
Proof. by destruct n. Qed.
(** Both ends of a pair lie on the same side of an even bound. *)
Lemma peer_bound u x : 0 ≤ x < 2 * u → 0 ≤ peer_end x < 2 * u.
Proof.
  intros Hx. unfold peer_end. destruct x as [|[p|p|]|p]; try lia.
  - change (Z.lxor 0 1) with 1. lia.
  - change (Z.lxor (Z.pos p~1) 1) with (Z.pos p~0). lia.
  - change (Z.lxor (Z.pos p~0) 1) with (Z.pos p~1). lia.
  - change (Z.lxor 1 1) with 0. lia.
Qed.

(** A received packet without descriptors, and with one. *)
Lemma recvmsg_plain fd cap fdcap e data q w :
  w_sched w = [] → w_fds w !! fd = Some (FdSock e) → default [] (w_inq w !! e) = Packet data [] :: q →
  (length data ≤ cap)%nat →
  sys_recvmsg fd cap fdcap w = (inr (Recvd data [] false false), set_inq (<[e := q]>) w).
Proof.
  intros Hs Hf Hq Hc. unfold sys_recvmsg. rewrite sys_quiet, !bind_gets, Hf, Hq, bind_modify by done.
  cbn [pk_data pk_fds]. rewrite take_nil. cbn [install_all]. rewrite bind_ret.
  by rewrite take_ge, (proj2 (Nat.ltb_ge _ _)) by done.
Qed.
Lemma recvmsg_one fd cap fdcap e data o q w :
  w_sched w = [] → w_fds w !! fd = Some (FdSock e) → default [] (w_inq w !! e) = Packet data [o] :: q →
  (length data ≤ cap)%nat → (1 ≤ fdcap)%nat →
  sys_recvmsg fd cap fdcap w =
  (inr (Recvd data [fd_alloc (w_fds w)] false false),
   set_fds (<[fd_alloc (w_fds w) := o]>) (set_inq (<[e := q]>) w)).
Proof.
  intros Hs Hf Hq Hc H1. unfold sys_recvmsg. rewrite sys_quiet, !bind_gets, Hf, Hq, bind_modify by done.
  cbn [pk_data pk_fds]. destruct fdcap as [|n]; [lia|]. cbn [take]. rewrite take_nil.
  rewrite take_ge, (proj2 (Nat.ltb_ge _ _)) by done. reflexivity.
Qed.
Lemma recv_retry_quiet fd cap fdcap w r w' :
  w_sched w = [] → sys_recvmsg fd cap fdcap w = (inr r, w') →
  retry_eintr (sys_recvmsg fd cap fdcap) w = (inr r, w').
Proof.
  intros Hs H. unfold sys_recvmsg in *. rewrite sys_quiet in H by done.
  rewrite retry_quiet; [exact H|done|]. intros w2. by rewrite H.
Qed.
Lemma close_quiet fd w : w_sched w = [] → sys_close fd w = (inr tt, set_fds (delete fd) w).
Proof. intros Hs. unfold sys_close. rewrite bind_unfold. unfold pop. by rewrite Hs. Qed.

Definition pair_ends (w : world) : Z := 2 * Z.of_nat (w_uniq w).
Lemma socketpair_quiet w :
  w_sched w = [] →
  let a := fd_alloc (w_fds w) in
  let fds1 := <[a := FdSock (pair_ends w)]> (w_fds w) in
  let b := fd_alloc fds1 in
  sys_socketpair w =
  (inr (a, b), set_fds (λ _, <[b := FdSock (pair_ends w + 1)]> fds1) (set_uniq (S (w_uniq w)) w)).
Proof. intros Hs a fds1 b. unfold sys_socketpair. by rewrite sys_quiet. Qed.

(** ** The specification *)

(** What a request leads to: the bytes of the answer, whether they carry a
    channel, and the slot that is delivered the other end. *)
Record verdict := Verdict { v_reply : bytes; v_channel : bool; v_deliver : option managed }.

Definition denied_text (cap reason : bytes) : bytes :=
  #"VERB denied" ++ nl ++ #"CAP " ++ cap ++ nl ++ #"REASON " ++ reason ++ nl ++ nl.
Definition issued_text (cap token : bytes) : bytes :=
  #"VERB issued" ++ nl ++ #"CAP " ++ cap ++ nl ++ #"TOKEN " ++ token ++ nl ++ nl.
Definition refuse (cap reason : bytes) : verdict := Verdict (denied_text cap reason) false None.

(** An agent can be reached: its process lives and its inbox is open. *)
Definition slot_alive (fds : gmap Z fdobj) (procs : gmap Z pstate) (m : managed) : bool :=
  (0 <? m_pid m) &&
  match (if 0 <=? pidfd m then fds !! pidfd m else None) with
  | Some (FdPid p) => bool_decide (is_Some (procs !! p))
  | _ => bool_decide (is_Some (procs !! m_pid m))
  end.
Definition listening (fds : gmap Z fdobj) (procs : gmap Z pstate) (m : managed) : bool :=
  (0 <=? inbox_fd m) && slot_alive fds procs m.

Definition agent_named (name : bytes) (l : list managed) : option managed :=
  find_by_name name l ≫= λ j, l !! j.

Definition broker_verdict (patterns : list bytes) (l : list managed) (reach : managed → bool)
    (token : option bytes) (data : bytes) : verdict :=
  match broker_parse data with
  | Some (BrokerMsg BROKER_VERB_REQUEST cap _ _ _) =>
      if negb (broker_policy_check cap patterns) then refuse cap #"not-in-caps"
      else match strip_prefix #"mailbox.send:" cap with
           | None => refuse cap #"unknown-cap-kind"
           | Some target =>
               match agent_named target l with
               | Some dst =>
                   if reach dst then
                     match token with
                     | Some t => Verdict (issued_text cap t) true (Some dst)
                     | None => Verdict (denied_text cap #"entropy-failure") false (Some dst)
                     end
                   else refuse cap #"no-listener"
               | None => refuse cap #"no-listener"
               end
           end
  | _ => refuse #"?" #"malformed-request"
  end.

(** The queues after a verdict for the requester [m], whose channel ends at
    [eb]: [n] and [n + 1] are the ends of the new channel. *)
Definition verdict_queues (m : managed) (eb n uid : Z) (v : verdict) (inbox : managed → Z)
    (inq : gmap Z (list packet)) : gmap Z (list packet) :=
  enqueue (peer_end eb) (Packet (v_reply v) (if v_channel v then [FdSock n] else []))
    (match v_deliver v with
     | Some dst => enqueue (peer_end (inbox dst))
                     (Packet (meta_text (m_name m) (m_pid m) uid) [FdSock (n + 1)]) inq
     | None => inq
     end).

(** Everything but the queues, the files and the trace is as before. *)
Record answered (q : gmap Z (list packet)) (w w' : world) : Prop := {
  an_sched : w_sched w' = [];
  an_fds : w_fds w' = w_fds w;
  an_procs : w_procs w' = w_procs w;
  an_uid : w_uid w' = w_uid w;
  an_env : w_env w' = w_env w;
  an_uniq : (w_uniq w ≤ w_uniq w')%nat;
  an_inq : w_inq w' = q
}.
Lemma answered_later q w w1 w2 : answered q w w1 → later w1 w2 → answered q w w2.
Proof.
  intros [] (Hs&?&?&?&?&?&?&?&?&?&?). rewrite an_sched0 in Hs. apply suffix_nil_inv in Hs.
  split; congruence || lia.
Qed.
Lemma later_answered w w' : w_sched w = [] → later w w' → answered (w_inq w) w w'.
Proof. intros Hs. by apply answered_later. Qed.

(** ** Lemmas: the parts of the handler *)

Lemma alive_quiet m d w :
  w_sched w = [] → agent_alive m d w = (slot_alive (w_fds w) (w_procs w) m, d, w).
Proof.
  intros Hs. unfold agent_alive, slot_alive. destruct (m_pid m <=? 0) eqn:Ep; bool_simpl.
  { by rewrite (proj2 (Z.ltb_ge _ _)). }
  rewrite (proj2 (Z.ltb_lt _ _)) by done. cbn [andb]. rewrite dbind_unfold.
  assert (total false (run_alive (m_pid m)) d w =
          (bool_decide (is_Some (w_procs w !! m_pid m)), d, w)) as Hrun.
  { unfold total, run_alive. rewrite (proj2 (Z.leb_gt _ _)), bind_attempt by done. unfold sys_kill.
    rewrite sys_quiet, bind_gets by done. by destruct (w_procs w !! m_pid m). }
  destruct (0 <=? pidfd m) eqn:Ef; [|cbv [mret D_ret]; exact Hrun].
  unfold total at 1, lifecycle_pidfd_alive. bool_simpl. rewrite (proj2 (Z.ltb_ge _ _)) by done.
  rewrite bind_attempt. unfold sys_pidfd_send_signal. rewrite sys_quiet, !bind_gets by done.
  destruct (w_fds w !! pidfd m) as [[e|p|]|]; try exact Hrun. by destruct (w_procs w !! p).
Qed.

Lemma broker_parse_cap buf m : broker_parse buf = Some m → blen (bm_cap m) < BROKER_CAP_MAX.
Proof.
  unfold broker_parse. intros H.
  destruct (broker_loop _ _ _) as [[vb cp tk rs to]|] eqn:E; [|done].
  apply broker_loop_Some in E as (lines & rest & -> & HF & Hl).
  apply broker_lines_fields in Hl. simpl in Hl. destruct Hl as (_ & Hc & _).
  destruct vb as [vb|]; [|done]. destruct cp as [cp|]; [|done].
  destruct (_ && _) eqn:Ei; [done|]. injection H as <-. cbn [bm_cap]. unfold field_of in Hc.
  destruct (values #"CAP " lines) as [|c [|]] eqn:Ec; [done| |done]. destruct Hc as [Hc _].
  unfold copy_field in Hc. destruct ((_ =? 0) || _) eqn:Eb; [done|]. bool_simpl. simplify_eq.
  pose proof (cstr_length (skip_spaces c)). lia.
Qed.
Lemma denied_fits cap reason :
  blen cap < BROKER_CAP_MAX → blen reason < BROKER_REASON_MAX →
  broker_format_denied BROKER_MSG_MAX cap (Some reason) = Some (denied_text cap reason).
Proof.
  intros Hc Hr. unfold broker_format_denied, snprintf_ok. change (default _ (Some reason)) with reason.
  fold (denied_text cap reason). rewrite (proj2 (Z.ltb_lt _ _)); [done|].
  unfold denied_text, BROKER_MSG_MAX, BROKER_CAP_MAX, BROKER_REASON_MAX in *. fit_len.
Qed.
Lemma issued_fits cap token :
  blen cap < BROKER_CAP_MAX → blen token ≤ BROKER_TOKEN_LEN →
  broker_format_issued BROKER_MSG_MAX cap token = Some (issued_text cap token).
Proof.
  intros Hc Hr. unfold broker_format_issued, snprintf_ok.
  fold (issued_text cap token). rewrite (proj2 (Z.ltb_lt _ _)); [done|].
  unfold issued_text, BROKER_MSG_MAX, BROKER_CAP_MAX, BROKER_TOKEN_LEN in *. fit_len.
Qed.

(** File work after an answer changes nothing of it. *)
Lemma after_answer (x : D unit) q d w w1 :
  dkeeps later x → answered q w w1 → ∃ w2, x d w1 = (tt, d, w2) ∧ answered q w w2.
Proof.
  intros Hx Ha. specialize (Hx d w1). destruct (x d w1) as [[[] d'] w2]. destruct Hx as [-> Hx].
  exists w2. split; [done|by eapply answered_later].
Qed.

Section handler.
Context (root : bytes) (ent : bool * list (errno + bytes)) (m : managed) (eb : Z) (d : dstate).
Let token : option bytes := broker_make_token (fst ent) (snd ent).

Lemma reply_quiet data pass objs w :
  w_sched w = [] → w_fds w !! broker_fd m = Some (FdSock eb) →
  match pass with Some k => mapM (λ k, w_fds w !! k) [k] | None => Some [] end = Some objs →
  ∃ w', broker_reply (broker_fd m) data pass w = (inr tt, w') ∧
    answered (enqueue (peer_end eb) (Packet data objs) (w_inq w)) w w'.
Proof.
  intros Hs Hb Hp. unfold broker_reply. eexists. split.
  - apply send_retry_quiet; [done|exact Hb|]. by destruct pass.
  - split; done.
Qed.

Lemma deny_quiet cap reason w :
  w_sched w = [] → w_fds w !! broker_fd m = Some (FdSock eb) →
  blen cap < BROKER_CAP_MAX → blen reason < BROKER_REASON_MAX →
  ∃ w', deny m cap reason d w = (tt, d, w') ∧
    answered (enqueue (peer_end eb) (Packet (denied_text cap reason) []) (w_inq w)) w w'.
Proof.
  intros Hs Hb Hc Hr. unfold deny. rewrite denied_fits by done.
  destruct (reply_quiet (denied_text cap reason) None [] w Hs Hb eq_refl) as (w' & E & Ha).
  exists w'. unfold run_. by rewrite E.
Qed.
Lemma deny_then x cap reason w :
  w_sched w = [] → w_fds w !! broker_fd m = Some (FdSock eb) →
  blen cap < BROKER_CAP_MAX → blen reason < BROKER_REASON_MAX → dkeeps later x →
  ∃ w', (deny m cap reason ;; x) d w = (tt, d, w') ∧
    answered (enqueue (peer_end eb) (Packet (denied_text cap reason) []) (w_inq w)) w w'.
Proof.
  intros Hs Hb Hc Hr Hx. rewrite dbind_unfold.
  destruct (deny_quiet cap reason w Hs Hb Hc Hr) as (w1 & -> & Ha). by apply after_answer.
Qed.

(** Making a channel to an agent that listens. *)
Lemma issue_quiet sender pid uid target dst ei w :
  w_sched w = [] → agent_named target (g_agents d) = Some dst →
  listening (w_fds w) (w_procs w) dst = true → w_fds w !! inbox_fd dst = Some (FdSock ei) →
  let a := fd_alloc (w_fds w) in
  ∃ w', issue_mailbox_channel sender pid uid target d w = (inr a, d, w') ∧
    answered (enqueue (peer_end ei) (Packet (meta_text sender pid uid) [FdSock (pair_ends w + 1)]) (w_inq w))
      (set_fds (<[a := FdSock (pair_ends w)]>) w) w'.
Proof.
  intros Hs Hn Hl Hi a. unfold agent_named in Hn. unfold issue_mailbox_channel. rewrite dbind_dget.
  destruct (find_by_name target (g_agents d)) as [j|] eqn:Ej; [|done]. cbn [mbind option_bind] in Hn.
  rewrite dbind_slot, Hn. change (default zero_slot (Some dst)) with dst.
  unfold listening in Hl. apply andb_true_iff in Hl as [H0 Hl]. bool_simpl.
  assert (0 < m_pid dst) by (unfold slot_alive in Hl; bool_simpl; done).
  rewrite (proj2 (Z.leb_gt _ _)), (proj2 (Z.ltb_ge _ _)) by done. cbn [orb].
  rewrite dbind_unfold, alive_quiet, Hl by done. cbn [negb]. rewrite dbind_unfold. unfold try at 1.
  rewrite socketpair_quiet by done. fold a. set (fds1 := <[a := _]> (w_fds w)). set (b := fd_alloc fds1).
  assert (w_fds w !! a = None) as Ha by apply fd_alloc_fresh.
  assert (fds1 !! b = None) as Hb by apply fd_alloc_fresh.
  rewrite dbind_unfold. unfold try. set (w2 := set_fds _ _).
  assert (w_fds w2 = <[b := FdSock (pair_ends w + 1)]> fds1) as Hf2 by done.
  rewrite (send_retry_quiet _ _ _ ei [FdSock (pair_ends w + 1)] w2); [|done|..].
  - rewrite dbind_unfold. unfold run_. rewrite close_quiet by done. eexists. split; [done|].
    split; try done; cbn; [|lia]. rewrite delete_insert_eq. by apply delete_id.
  - rewrite Hf2. unfold fds1. rewrite !lookup_insert_ne; [done| |]; [congruence|].
    intros Heq. rewrite Heq in Hb. unfold fds1 in Hb. rewrite lookup_insert_ne in Hb; congruence.
  - cbn [mapM]. rewrite Hf2, lookup_insert_eq. done.
Qed.

(** The answer to a request whose channel was made, and the closing of our
    copy. *)
Lemma finish_quiet cap target a n q w w1 :
  w_fds w !! a = None → w_fds w !! broker_fd m = Some (FdSock eb) → blen cap < BROKER_CAP_MAX →
  answered q (set_fds (<[a := FdSock n]>) w) w1 →
  ∃ w', finish_issue root ent m cap target a d w1 = (tt, d, w') ∧
    answered (enqueue (peer_end eb)
      (match token with
       | Some t => Packet (issued_text cap t) [FdSock n]
       | None => Packet (denied_text cap #"entropy-failure") []
       end) q) w w'.
Proof.
  intros Ha Hb Hc [Hs Hf Hp Hu He Hn Hq]. cbn in Hf, Hp, Hu, He, Hn.
  assert (∀ w2 q2, answered q2 w1 w2 → answered q2 w (set_fds (delete a) w2)) as Hcl.
  { intros w2 q2 []. split; cbn; try congruence || lia. rewrite an_fds0, Hf.
    by apply delete_insert_id. }
  assert (w_fds w1 !! broker_fd m = Some (FdSock eb)) as Hb1.
  { rewrite Hf, lookup_insert_ne; [done|congruence]. }
  unfold finish_issue. fold token. destruct token as [t|] eqn:Et.
  - assert (blen t ≤ BROKER_TOKEN_LEN) as Ht.
    { destruct (broker_make_token_spec _ _ _ Et) as (_ & -> & _). done. }
    rewrite issued_fits, dbind_unfold by done. unfold try.
    destruct (reply_quiet (issued_text cap t) (Some a) [FdSock n] w1) as (w2 & -> & Ha2); [done..| |].
    { cbn [mapM]. by rewrite Hf, lookup_insert_eq. }
    rewrite dbind_unfold. unfold run_ at 1. rewrite close_quiet by apply Ha2.
    rewrite <-Hq. apply after_answer; [dkeep|by apply Hcl].
  - rewrite dbind_unfold. unfold run_ at 1. rewrite close_quiet by done.
    assert (answered (w_inq w1) w (set_fds (delete a) w1)) as Ha1.
    { apply Hcl. by split. }
    match goal with |- context [deny _ _ _ ;; ?x] =>
      destruct (deny_then x cap #"entropy-failure" (set_fds (delete a) w1)) as (w' & E & Ha2) end;
      [done|by rewrite (an_fds _ _ _ Ha1)|done|done|dkeep|].
    exists w'. split; [exact E|]. destruct Ha1, Ha2. rewrite <-Hq. split; congruence || lia.
Qed.

Lemma answered_trans q1 q2 w w1 w2 : answered q1 w w1 → answered q2 w1 w2 → answered q2 w w2.
Proof. intros [] []. split; congruence || lia. Qed.
End handler.

(** The endpoint behind an agent's inbox; every inbox descriptor of a used
    slot is an open socket. *)
Definition inbox_end (fds : gmap Z fdobj) (m : managed) : Z :=
  match fds !! inbox_fd m with Some (FdSock e) => e | _ => 0 end.
Definition inboxes_open (d : dstate) (w : world) : Prop :=
  ∀ m, m ∈ g_agents d → used m = true → 0 ≤ inbox_fd m → w_fds w !! inbox_fd m = Some (FdSock (inbox_end (w_fds w) m)).

Lemma agent_named_elem name l m : agent_named name l = Some m → m ∈ l ∧ used m = true ∧ m_name m = name.
Proof.
  unfold agent_named. destruct (find_by_name name l) as [j|] eqn:Ej; [|done]. cbn [mbind option_bind].
  intros Hm. apply find_by_name_Some in Ej as (m' & Hm' & Hu & Hn). simplify_eq.
  split; [by eapply list_elem_of_lookup_2|done].
Qed.

(** An agent that cannot be reached gets no channel. *)
Lemma issue_none sender pid uid target d w :
  w_sched w = [] →
  match agent_named target (g_agents d) with
  | Some dst => listening (w_fds w) (w_procs w) dst = false
  | None => True
  end →
  issue_mailbox_channel sender pid uid target d w = (inl None, d, w).
Proof.
  intros Hs Hn. unfold agent_named in Hn. unfold issue_mailbox_channel. rewrite dbind_dget.
  destruct (find_by_name target (g_agents d)) as [j|] eqn:Ej; [|done]. cbn [mbind option_bind] in Hn.
  destruct (find_by_name_Some _ _ _ Ej) as (dst & Hj & _). rewrite Hj in Hn.
  rewrite dbind_slot, Hj. change (default zero_slot (Some dst)) with dst.
  destruct ((m_pid dst <=? 0) || (inbox_fd dst <? 0)) eqn:Eb; [done|]. bool_simpl.
  unfold listening in Hn. rewrite (proj2 (Z.leb_le 0 _)) in Hn by done. cbn [andb] in Hn.
  by rewrite dbind_unfold, alive_quiet, Hn by done.
Qed.

Lemma serve_verdict root ent m eb data ps d w :
  w_sched w = [] → w_fds w !! broker_fd m = Some (FdSock eb) → inboxes_open d w →
  run (load_allow_patterns root (m_name m) 8192 32) w = inr ps →
  ∃ n w', broker_serve root ent m data d w = (tt, d, w') ∧ (w_uniq w ≤ n)%nat ∧
    answered (verdict_queues m eb (2 * Z.of_nat n) (w_uid w)
      (broker_verdict ps (g_agents d) (listening (w_fds w) (w_procs w))
         (broker_make_token (fst ent) (snd ent)) data) (inbox_end (w_fds w)) (w_inq w)) w w'.
Proof.
  intros Hs Hb Ho Hps. unfold broker_serve, broker_verdict.
  assert (∀ cap reason (x : D unit) w0, answered (w_inq w) w w0 → blen cap < BROKER_CAP_MAX →
    blen reason < BROKER_REASON_MAX → dkeeps later x →
    ∃ n w', (deny m cap reason ;; x) d w0 = (tt, d, w') ∧ (w_uniq w ≤ n)%nat ∧
      answered (verdict_queues m eb (2 * Z.of_nat n) (w_uid w) (refuse cap reason) (inbox_end (w_fds w)) (w_inq w)) w w')
    as Hrefuse.
  { intros cap reason x w0 Ha Hc Hr Hx.
    destruct (deny_then m eb d x cap reason w0) as (w' & E & Ha'); [apply Ha| |done..|].
    { by rewrite (an_fds _ _ _ Ha). }
    exists (w_uniq w), w'. split; [exact E|]. split; [done|].
    rewrite (an_inq _ _ _ Ha) in Ha'. by eapply answered_trans. }
  assert (answered (w_inq w) w w) as Hrefl by by split.
  destruct (broker_parse data) as [[[] cap tid rs tk]|] eqn:Ep;
    try (apply Hrefuse; [exact Hrefl|done|done|dkeep]).
  apply broker_parse_cap in Ep. cbn [bm_cap] in Ep. rewrite dbind_unfold. unfold total at 1.
  destruct (load_allow_patterns root (m_name m) 8192 32 w) as [r wp] eqn:Eps.
  unfold run in Hps. rewrite Eps in Hps. cbn [fst] in Hps. subst r.
  pose proof (shrinks_run _ _ _ _ (shrinks_load_patterns root _ _ _) Eps) as Hlat.
  pose proof (later_answered _ _ Hs Hlat) as Hap.
  destruct (broker_policy_check cap ps); cbn [negb]; [|apply Hrefuse; [exact Hap|done|done|dkeep]].
  destruct (strip_prefix _ cap) as [target|]; [|apply Hrefuse; [exact Hap|done|done|dkeep]].
  rewrite dbind_unfold. unfold total at 1. cbn [gets]. rewrite dbind_unfold.
  pose proof Hap as [Hsp Hfp Hpp Hup Hep Hnp Hqp].
  destruct (agent_named target (g_agents d)) as [dst|] eqn:En;
    [destruct (listening (w_fds w) (w_procs w) dst) eqn:El|].
  - destruct (agent_named_elem _ _ _ En) as (Hin & Hu & _).
    assert (0 ≤ inbox_fd dst) as H0 by (unfold listening in El; by bool_simpl).
    destruct (issue_quiet d (m_name m) (m_pid m) (w_uid wp) target dst (inbox_end (w_fds w) dst) wp)
      as (w1 & -> & Ha1); [done|done|by rewrite Hfp, Hpp|rewrite Hfp; by apply Ho|].
    assert (w_fds wp !! broker_fd m = Some (FdSock eb)) as Hbp by by rewrite Hfp.
    destruct (finish_quiet root ent m eb d cap target _ _ _ wp w1 (fd_alloc_fresh _) Hbp Ep Ha1)
      as (w' & E & Ha').
    exists (w_uniq wp), w'. split; [exact E|]. split; [lia|].
    change (pair_ends wp) with (2 * Z.of_nat (w_uniq wp)) in Ha'.
    rewrite Hqp, Hup in Ha'. destruct (broker_make_token _ _); by eapply answered_trans.
  - rewrite issue_none; [|done|by rewrite En, Hfp, Hpp].
    apply Hrefuse; [exact Hap|done|done|dkeep].
  - rewrite issue_none; [|done|by rewrite En]. apply Hrefuse; [exact Hap|done|done|dkeep].
Qed.

Lemma handle_plain root ent i m eb data q d w :
  w_sched w = [] → g_agents d !! i = Some m → w_fds w !! broker_fd m = Some (FdSock eb) →
  default [] (w_inq w !! eb) = Packet data [] :: q → data ≠ [] → blen data ≤ BROKER_MSG_MAX →
  broker_handle_event root ent i d w = broker_serve root ent m data d (set_inq (<[eb := q]>) w).
Proof.
  intros Hs Hi Hb Hq Hne Hlen. unfold broker_handle_event. rewrite dbind_slot, Hi.
  change (default zero_slot (Some m)) with m. rewrite dbind_unfold. unfold try.
  rewrite (recv_retry_quiet _ _ _ _ (Recvd data [] false false) (set_inq (<[eb := q]>) w)); [|done|].
  - by destruct data.
  - eapply recvmsg_plain; [done|exact Hb|exact Hq|]. unfold BROKER_MSG_MAX, blen in Hlen. lia.
Qed.

(** ** The requester's identity, as the target reads it *)

Lemma dec_scan n c r :
  0 ≤ n ≤ LONG_MAX → isspace c = true → isdigit c = false →
  scan_long (scan_ws (SP :: dec n ++ c :: r)) = Some (n, c :: r).
Proof.
  intros Hn Hc Hd. unfold scan_ws. cbn [drop_while]. change (isspace SP) with true. cbv iota.
  pose proof (strtol_dec n (c :: r) Hn Hd) as Hs.
  pose proof (dec_digits n ltac:(lia)) as HF. pose proof (dec_nonempty n) as Hne.
  destruct (dec n) as [|x ds]; [done|]. cbn [app] in *.
  rewrite drop_while_id by (inversion HF; eauto using isdigit_not_space). unfold scan_long. by rewrite Hs.
Qed.

Lemma meta_text_clean s pid uid :
  validate_name s = true → 0 ≤ pid → 0 ≤ uid → NUL ∉ meta_text s pid uid.
Proof.
  intros Hs Hp Hu. unfold meta_text, fmt_d. rewrite !(proj2 (Z.ltb_ge _ _)) by done.
  assert (∀ n, 0 ≤ n → NUL ∉ dec n) as Hd.
  { intros n Hn H. pose proof (dec_digits n Hn) as HF. rewrite Forall_forall in HF. by apply HF in H. }
  rewrite !not_elem_of_app. repeat split; auto; try not_in_list. by apply (safe_no_nul (v:=validate_name)).
Qed.

(** What the daemon writes is what the target's [sscanf] recovers. *)
Lemma parse_meta_text s pid uid :
  validate_name s = true → blen s < MAX_NAME → 0 ≤ pid < 2147483648 → 0 ≤ uid < 4294967296 →
  parse_meta (cstr (meta_text s pid uid)) = PeerId pid uid 0 s.
Proof.
  intros Hs Hl Hp Hu. rewrite cstr_id by (apply meta_text_clean; done || lia).
  unfold parse_meta, meta_text, scan_lit, fmt_d. rewrite !(proj2 (Z.ltb_ge _ _)) by lia.
  change (#"SENDER " ++ ?x) with (#"SENDER" ++ SP :: x). rewrite strip_prefix_app.
  cbn [mbind option_bind]. pose proof (safe_not_space s Hs) as HF. pose proof (safe_nonempty s Hs) as Hne.
  set (rest := nl ++ #"PID " ++ _).
  assert (drop_while isspace (s ++ rest) = s ++ rest) as Hd.
  { destruct s as [|x s]; [done|]. cbn [app]. apply drop_while_id. by inversion HF. }
  assert (scan_ws (SP :: s ++ rest) = s ++ rest) as -> by exact Hd.
  unfold scan_word. rewrite !Hd, take_while_app by (eapply Forall_impl; [exact HF|]; cbn; by intros x ->).
  unfold rest at 1, nl at 1. cbn [app take_while]. change (isspace NL) with true. cbn [negb].
  cbv iota. rewrite app_nil_r, take_ge by (unfold MAX_NAME, blen in Hl; lia).
  destruct s as [|x0 s0] eqn:Es; [done|]. rewrite <-Es in *. clear Es x0 s0.
  rewrite drop_app_length. unfold rest.
  change (scan_ws (nl ++ #"PID " ++ ?x)) with (#"PID" ++ SP :: x). rewrite strip_prefix_app.
  cbn [mbind option_bind]. unfold nl at 1. cbn [app].
  rewrite dec_scan by (done || unfold LONG_MAX; lia).
  change (scan_ws (NL :: #"UID " ++ ?x)) with (#"UID" ++ SP :: x). rewrite strip_prefix_app.
  cbn [mbind option_bind]. unfold nl at 1. cbn [app].
  rewrite dec_scan by (done || unfold LONG_MAX; lia).
  f_equal; [unfold to_int32|]; lia.
Qed.


