(* ===== verification/Transport.v ===== *)
(** * Transports: what the three ways to carry a message have in common

    A message travels between agents over a packet socket (ipc.c on Linux), a
    byte stream (ipc.c elsewhere) or a mailbox of the kernel module
    (kernel/agentfs.c with the framing of common.c).  The runtimes use any of
    them for the same conversation.  [Transport] is the interface they rely
    on: letters that were accepted come out once, unchanged and in order.  The
    client's theorem ([transport_fifo]) is proved against the interface; the
    three implementations discharge its laws. *)

From S2P Require Import Prelude CLib Posix Names Common Broker Ipc IpcStream Agentfs Profiles Enforcement Lifecycle Agentd AgentdSpec BrokerSpec.

(** ** The interface *)

Record letter := Letter { l_verb : bytes; l_reply_to : bytes; l_task_id : bytes; l_payload : bytes }.

(** The limits every transport shares: text without line ends, and fields that
    fit the receivers' buffers. *)
Definition letter_ok (l : letter) : bool :=
  text_ok (l_verb l) && text_ok (l_reply_to l) && text_ok (l_task_id l) &&
  (0 <? blen (l_verb l)) && (blen (l_verb l) <? MAX_VERB) &&
  (blen (l_reply_to l) <? MAX_NAME) && (blen (l_task_id l) <? MAX_TASK_ID_INLINE).

(** [tr_send] is [None] when the transport reports a failure, [tr_recv] when
    nothing is waiting; [tr_rep s q] says that [s] carries exactly [q]. *)
Class Transport (S : Type) := {
  tr_send : letter → S → option S;
  tr_recv : S → option (letter * S);
  tr_rep : S → list letter → Prop
}.
Class TransportLaws (S : Type) `{!Transport S} := {
  tr_send_law s q l s' : tr_rep s q → letter_ok l = true → tr_send l s = Some s' → tr_rep s' (q ++ [l]);
  tr_recv_law s l q : tr_rep s (l :: q) → ∃ s', tr_recv s = Some (l, s') ∧ tr_rep s' q;
  tr_empty_law s : tr_rep s [] → tr_recv s = None
}.

(** ** A conversation, on a transport and on a queue *)

Inductive act := Post (l : letter) | Take.

(** What a party sees of each [Take], in order. *)
Fixpoint converse {S} `{!Transport S} (acts : list act) (s : S) : option (list (option letter) * S) :=
  match acts with
  | [] => Some ([], s)
  | Post l :: acts' => s' ← tr_send l s; converse acts' s'
  | Take :: acts' =>
      match tr_recv s with
      | Some (l, s') => '(out, s'') ← converse acts' s'; Some (Some l :: out, s'')
      | None => '(out, s'') ← converse acts' s; Some (None :: out, s'')
      end
  end.
Fixpoint queue_run (acts : list act) (q : list letter) : list (option letter) * list letter :=
  match acts with
  | [] => ([], q)
  | Post l :: acts' => queue_run acts' (q ++ [l])
  | Take :: acts' =>
      let '(out, q') := queue_run acts' (tail q) in (head q :: out, q')
  end.
Definition posted (acts : list act) : list letter :=
  omap (λ a, match a with Post l => Some l | Take => None end) acts.

Section client.
Context {S : Type} `{!Transport S, !TransportLaws S}.

Lemma converse_refines acts s q out s' :
  tr_rep s q → Forall (λ l, letter_ok l = true) (posted acts) → converse acts s = Some (out, s') →
  out = (queue_run acts q).1 ∧ tr_rep s' (queue_run acts q).2.
Proof.
  revert s q out. induction acts as [|[l|] acts IH]; intros s q out Hr HF E; cbn in *.
  - by simplify_eq.
  - apply Forall_cons in HF as [Hl HF]. destruct (tr_send l s) as [s1|] eqn:Es; [|done].
    by eapply IH; [eapply tr_send_law|done|exact E].
  - destruct q as [|l q].
    + rewrite (tr_empty_law s Hr) in E. destruct (converse acts s) as [[out1 s1]|] eqn:Ec; [|done].
      cbn in E. simplify_eq. destruct (IH s [] out1 Hr HF Ec) as [-> Hr'].
      cbn. by destruct (queue_run acts []).
    + destruct (tr_recv_law s l q Hr) as (s1 & E1 & Hr1). rewrite E1 in E.
      destruct (converse acts s1) as [[out1 s2]|] eqn:Ec; [|done]. cbn in E. simplify_eq.
      destruct (IH s1 q out1 Hr1 HF Ec) as [-> Hr']. cbn. by destruct (queue_run acts q).
Qed.
End client.

(** On the queue, what was taken and what is left is what was posted, in
    order. *)
Lemma queue_run_order acts q :
  omap id (queue_run acts q).1 ++ (queue_run acts q).2 = q ++ posted acts.
Proof.
  revert q. induction acts as [|[l|] acts IH]; intros q; cbn.
  - by rewrite app_nil_r.
  - rewrite IH, <-app_assoc. done.
  - specialize (IH (tail q)). destruct (queue_run acts (tail q)) as [out q']. cbn in *.
    destruct q as [|l q]; cbn in *; by rewrite IH.
Qed.

(** ** The packet socket *)

Definition to_msg (l : letter) : ipc_msg_t :=
  IpcMsg (l_verb l) (l_reply_to l) (l_task_id l) (l_payload l) [].
Definition of_msg (m : ipc_msg_t) : letter :=
  Letter (im_verb m) (im_reply_to m) (im_task_id m) (im_payload m).
Lemma of_to_msg l : of_msg (to_msg l) = l.
Proof. by destruct l. Qed.
Lemma letter_msg_ok l : letter_ok l = true → msg_ok (to_msg l) = true ∧ l_verb l ≠ [].
Proof.
  unfold letter_ok, msg_ok. intros H. bool_simpl. cbn. split; [by rewrite !andb_true_iff|].
  intros E. rewrite E in *. done.
Qed.

(** A frame of the given build of ipc.c. *)
Definition framed_as (wire_len : bool) (l : letter) (f : bytes) : Prop :=
  letter_ok l = true ∧ blen (l_payload l) ≤ IPC_MSG_HARD_CAP ∧
  ∃ hdr, build_header wire_len (to_msg l) IPC_HEADER_HEADROOM = inr hdr ∧ f = hdr ++ l_payload l.
Lemma framed_bound wl l f : framed_as wl l f → blen f ≤ IPC_BUF_CAP ∧ f ≠ [].
Proof.
  intros (_ & Hp & hdr & Hh & ->). destruct (build_header_bytes _ _ _ _ (l_payload l) Hh) as (_ & Hl & Hb).
  split; [|rewrite Hb; by unfold header_lines]. rewrite blen_app.
  unfold IPC_BUF_CAP, IPC_MSG_HARD_CAP, IPC_HEADER_HEADROOM in *. lia.
Qed.

(** Two descriptors of the two ends of a connection. *)
Record plink := PLink { pl_a : Z; pl_b : Z; pl_w : world }.

#[export] Instance plink_transport : Transport plink := {|
  tr_send l s := match ipc_send (pl_a s) (to_msg l) (pl_w s) with
                 | (inr (IPC_OK _), w') => Some (PLink (pl_a s) (pl_b s) w')
                 | _ => None
                 end;
  tr_recv s := match ipc_recv (pl_b s) IPC_BUF_CAP (pl_w s) with
               | (inr (IPC_OK m), w') => Some (of_msg m, PLink (pl_a s) (pl_b s) w')
               | _ => None
               end;
  tr_rep s q := w_sched (pl_w s) = [] ∧
    ∃ e ps, w_fds (pl_w s) !! pl_a s = Some (FdSock e) ∧ w_fds (pl_w s) !! pl_b s = Some (FdSock (peer_end e)) ∧
      default [] (w_inq (pl_w s) !! peer_end e) = ps ∧
      Forall2 (λ l p, framed_as false l (pk_data p) ∧ pk_fds p = []) q ps
|}.

Lemma ipc_send_quiet fd x msg w w' :
  w_sched w = [] → w_fds w !! fd = Some (FdSock x) → im_fds msg = [] →
  ipc_send fd msg w = (inr (IPC_OK tt), w') →
  ∃ hdr, build_header false msg IPC_HEADER_HEADROOM = inr hdr ∧ blen (im_payload msg) ≤ IPC_MSG_HARD_CAP ∧
    w' = push_trace (EvSend x (Packet (hdr ++ im_payload msg) []))
           (set_inq (enqueue (peer_end x) (Packet (hdr ++ im_payload msg) [])) w).
Proof.
  intros Hs Hf Hd. unfold ipc_send. rewrite Hd. destruct (build_header _ _ _) as [e|hdr]; [done|].
  rewrite bind_guard. destruct (_ <=? IPC_MSG_HARD_CAP) eqn:El; [|done]. rewrite bind_guard.
  change (blen (@nil Z) <=? IPC_MAX_FDS) with true. cbv iota. unfold IPC_SEND_RETRIES. cbn [send_attempts].
  rewrite bind_attempt, (send_retry_quiet _ _ _ x []) by done. cbv [mret M_ret]. intros [= <-].
  exists hdr. bool_simpl. done.
Qed.

Lemma ipc_recv_quiet fd x l f q w :
  w_sched w = [] → w_fds w !! fd = Some (FdSock x) → default [] (w_inq w !! x) = Packet f [] :: q →
  framed_as false l f →
  ipc_recv fd IPC_BUF_CAP w = (inr (IPC_OK (to_msg l)), set_inq (<[x := q]>) w).
Proof.
  intros Hs Hf Hq Hfr. destruct (framed_bound _ _ _ Hfr) as [Hb Hne].
  destruct Hfr as (Hok & Hp & hdr & Hh & Ef). apply letter_msg_ok in Hok as [Hok _].
  unfold ipc_recv. rewrite bind_guard. change (IPC_MSG_DEFAULT_CAP <=? IPC_BUF_CAP) with true. cbv iota.
  rewrite bind_unfold. erewrite recv_retry_quiet; [|done|eapply recvmsg_plain; [done|exact Hf|exact Hq|]].
  - cbn [rc_data rc_fds rc_trunc rc_ctrunc orb]. pose proof (parse_built _ _ _ _ [] Hh Hok Hp) as Hpb.
    change (im_payload (to_msg l)) with (l_payload l) in Hpb. rewrite <-Ef in Hpb.
    destruct f as [|c t]; [done|]. by rewrite Hpb.
  - unfold blen, IPC_BUF_CAP, IPC_MSG_HARD_CAP, IPC_HEADER_HEADROOM in *. lia.
Qed.

#[export] Instance plink_laws : TransportLaws plink.
Proof.
  split.
  - intros s q l s' (Hs & e & ps & Ha & Hb & Hps & HF) Hok E. cbn in E |- *.
    destruct (ipc_send _ _ _) as [[|[[]| |]] w'] eqn:Es; simplify_eq. cbn [pl_w pl_a pl_b].
    destruct (ipc_send_quiet _ e (to_msg l) _ _ Hs Ha eq_refl Es) as (hdr & Hh & Hp & ->). split; [done|].
    eexists e, _. split_and!; [done|done|reflexivity|]. cbn. rewrite enqueue_eq. cbn.
    apply Forall2_app; [done|]. constructor; [|done]. split; [|done]. split; [done|]. split; [done|]. by exists hdr.
  - intros s l q (Hs & e & ps & Ha & Hb & Hps & HF). apply Forall2_cons_inv_l in HF as (p & ps' & [Hp Hd] & HF & ->).
    destruct p as [f fds]. cbn in Hp, Hd. subst fds. cbn.
    erewrite ipc_recv_quiet by done. eexists. rewrite of_to_msg. split; [done|]. split; [done|].
    eexists e, ps'. split_and!; [done|done| |done]. cbn. by rewrite lookup_insert_eq.
  - intros s (Hs & e & ps & Ha & Hb & Hps & HF). apply Forall2_nil_inv_l in HF as ->. cbn.
    unfold ipc_recv. rewrite bind_guard. change (IPC_MSG_DEFAULT_CAP <=? IPC_BUF_CAP) with true. cbv iota.
    rewrite bind_unfold. unfold sys_recvmsg.
    rewrite retry_quiet; [|done|]; rewrite !bind_gets, Hb, Hps; done.
Qed.

(** ** The byte stream *)

(** The bytes under way, with what the coming [send]s and [read]s will do. *)
Record slink := SLink { sl_sends : list (list snd_out); sl_reads : list rcv_out; sl_bytes : bytes }.

#[export] Instance slink_transport : Transport slink := {|
  tr_send l s := match ipc_send_macos (default [] (head (sl_sends s))) (to_msg l) with
                 | (inr (IPC_OK _), sent) => Some (SLink (tail (sl_sends s)) (sl_reads s) (sl_bytes s ++ sent))
                 | _ => None
                 end;
  tr_recv s := match ipc_recv_stream IPC_BUF_CAP (sl_reads s, sl_bytes s) with
               | (inr (IPC_OK m), (rs, bs)) => Some (of_msg m, SLink (sl_sends s) rs bs)
               | _ => None
               end;
  tr_rep s q := Forall soft (sl_reads s) ∧
    ∃ frames, sl_bytes s = concat frames ∧ Forall2 (framed_as true) q frames
|}.

Lemma read_end rs : Forall soft rs → ∃ rs', read_retry 1 rs [] = (inr [], (rs', [])).
Proof.
  induction rs as [|[k|e] rs IH]; intros HF; cbn [read_retry]; [by eexists|..]; inversion_clear HF as [|?? Hs HF'].
  - rewrite take_nil, drop_nil. by eexists.
  - cbn in Hs. subst e. by apply IH.
Qed.
Lemma stream_empty rs : Forall soft rs → (ipc_recv_stream IPC_BUF_CAP (rs, [])).1 = inr IPC_PEER_GONE.
Proof.
  intros HF. destruct (read_end rs HF) as [rs' E]. unfold ipc_recv_stream, recv_stream_into.
  change (IPC_BUF_CAP <? IPC_MSG_DEFAULT_CAP) with false. cbn [snd length header_loop].
  change (IPC_BUF_CAP <=? blen [] + 1) with false. cbn [fst snd]. by rewrite E.
Qed.

#[export] Instance slink_laws : TransportLaws slink.
Proof.
  split.
  - intros s q l s' (Hs & frames & Hb & HF) Hok E. cbn in E |- *.
    destruct (ipc_send_macos _ _) as [[|[[]| |]] sent] eqn:Es; simplify_eq. split; [done|].
    apply ipc_send_macos_frame in Es as (hdr & Hh & -> & Hp). exists (frames ++ [hdr ++ l_payload l]). cbn.
    split; [by rewrite concat_app, Hb; cbn; rewrite app_nil_r|]. apply Forall2_app; [done|].
    constructor; [|done]. split; [done|]. split; [done|]. by exists hdr.
  - intros s l q (Hs & frames & Hb & HF). apply Forall2_cons_inv_l in HF as (f & fs & Hf & HF & ->).
    destruct (framed_bound _ _ _ Hf) as [Hlen _]. destruct Hf as (Hok & Hp & hdr & Hh & ->).
    apply letter_msg_ok in Hok as [Hok _]. cbn [tr_recv slink_transport]. rewrite Hb. cbn [concat].
    destruct (stream_frame_received (to_msg l) hdr IPC_BUF_CAP (sl_reads s) (concat fs))
      as (rs' & Hs' & E); [done..|].
    change (im_payload (to_msg l)) with (l_payload l) in E. rewrite E, of_to_msg.
    eexists. split; [done|]. split; [done|]. by exists fs.
  - intros s (Hs & frames & Hb & HF). apply Forall2_nil_inv_l in HF as ->. cbn [tr_recv slink_transport].
    pose proof (stream_empty (sl_reads s) Hs) as E. cbn in Hb. rewrite Hb.
    destruct (ipc_recv_stream _ _) as [r st]. cbn in E. by subst r.
Qed.

(** ** The kernel mailbox *)

(** The module's state and the agent whose inbox is meant. *)
Record mlink := MLink { ml_target : bytes; ml_k : kstate }.

Definition inbox_agent (s : mlink) : option agent :=
  addr ← find_inbox (ml_k s) (ml_target s); find (λ a, a_addr a =? addr) (k_agents (ml_k s)).
Definition upd_inbox (f : agent → agent) (s : mlink) : mlink :=
  match find_inbox (ml_k s) (ml_target s) with
  | Some addr => MLink (ml_target s) (Agentfs.set_agents (upd_agent addr f) (ml_k s))
  | None => s
  end.

Definition mail_framed (l : letter) (m : bytes) : Prop :=
  letter_ok l = true ∧ blen (l_payload l) ≤ MAX_PAYLOAD ∧ blen m ≤ AGENTFS_MAX_MESSAGE ∧
  agentfs_frame (l_verb l) (l_reply_to l) (l_task_id l) (l_payload l) = inr m.

#[export] Instance mlink_transport : Transport mlink := {|
  tr_send l s := match agentfs_send (ml_target s) (l_verb l) (l_reply_to l) (l_task_id l) (l_payload l) (ml_k s) with
                 | (inr (Some _), k') => Some (MLink (ml_target s) k')
                 | _ => None
                 end;
  tr_recv s := match inbox_agent s with
               | Some a => match (agentfs_recv a true).1 with
                           | Some (inr (h, payload)) =>
                               Some (Letter (ah_verb h) (ah_reply_to h) (ah_task_id h) payload,
                                     upd_inbox (λ a, (agentfs_recv a true).2) s)
                           | _ => None
                           end
               | None => None
               end;
  tr_rep s q := kstate_ok (ml_k s) ∧
    ∃ a, inbox_agent s = Some a ∧ Forall2 mail_framed q (mb_messages (a_inbox a))
|}.

Lemma find_upd_agent addr f l a :
  (∀ a, a_addr (f a) = a_addr a) → find (λ a, a_addr a =? addr) l = Some a →
  find (λ a, a_addr a =? addr) (upd_agent addr f l) = Some (f a).
Proof.
  intros Hf. induction l as [|b l IH]; [done|]. cbn. destruct (a_addr b =? addr) eqn:E.
  - intros [= ->]. by rewrite Hf, E.
  - rewrite E. apply IH.
Qed.
Lemma recv_agent a : (agentfs_recv a true).2 = (mailbox_read a MBOX_INBOX (Z.to_nat AGENTFS_BUF_CAP) true true).2.
Proof. unfold agentfs_recv. by destruct (mailbox_read _ _ _ _ _) as [[]]. Qed.

Lemma letter_parses l m : mail_framed l m →
  parse_framed_in_buf m = Some (AgentMsgHdr (l_verb l) (l_reply_to l) (l_task_id l) (blen (l_payload l)), l_payload l).
Proof.
  intros (Hok & Hp & _ & Hf). unfold letter_ok in Hok. bool_simpl. by eapply parse_frame.
Qed.

#[export] Instance mlink_laws : TransportLaws mlink.
Proof.
  split.
  - intros s q l s' (Hk & a & Ha & HF) Hok E. cbn [tr_send mlink_transport] in E.
    destruct (agentfs_send _ _ _ _ _ _) as [[er|[u|]] k'] eqn:Es; simplify_eq.
    apply agentfs_send_inv in Es as (frame & addr & a0 & Hfr & Hi & Hf & Hw & -> & Hp & _).
    unfold inbox_agent in Ha. rewrite Hi in Ha. cbn in Ha. rewrite Hf in Ha. simplify_eq.
    assert (agent_ok a) as Haok.
    { destruct Hk as [Hall _]. rewrite Forall_forall in Hall. apply Hall, list_elem_of_In.
      by apply find_some in Hf as [? _]. }
    split; cbn [ml_k ml_target].
    + apply upd_agent_ok; [intros; by apply mailbox_write_ok|intros; apply mailbox_write_id|done].
    + eexists. split.
      { unfold inbox_agent. cbn [ml_k ml_target]. unfold find_inbox in *. cbn [k_dentries Agentfs.set_agents].
        rewrite Hi. cbn. apply find_upd_agent; [|exact Hf]. intros a1. apply mailbox_write_id. }
      apply mailbox_write_inv in Hw as [(n & [= <-] & _ & Hn & _ & _ & _ & ->)|[_ [[[= Hb] ->]|[e [=]]]]]; [| |done].
      * cbn. apply Forall2_app; [exact HF|]. constructor; [|done]. split_and!; [done|done|lia|done].
      * apply letter_msg_ok in Hok as [_ Hv]. by apply agentfs_frame_bytes in Hfr.
  - intros s l q (Hk & a & Ha & HF). apply Forall2_cons_inv_l in HF as (m & ms & Hm & HF & Hms).
    pose proof (letter_parses l m Hm) as Hparse. destruct Hm as (_ & _ & Hlen & _).
    cbn [tr_recv mlink_transport]. rewrite Ha. pose proof (recv_agent a) as Hra.
    assert ((agentfs_recv a true).1 =
      Some (inr (AgentMsgHdr (l_verb l) (l_reply_to l) (l_task_id l) (blen (l_payload l)), l_payload l))) as ->.
    { unfold agentfs_recv, mailbox_read. cbn [agent_mailbox]. rewrite Hms.
      rewrite take_ge by (unfold AGENTFS_BUF_CAP, MAX_PAYLOAD, AGENTFS_MAX_MESSAGE, blen in *; lia).
      cbn [fst]. by rewrite Hparse. }
    eexists. split; [by destruct l|]. unfold inbox_agent in Ha.
    destruct (find_inbox (ml_k s) (ml_target s)) as [addr|] eqn:Ei; [|done]. cbn in Ha.
    unfold upd_inbox. rewrite Ei. split; cbn [ml_k ml_target].
    + apply upd_agent_ok; [|intros b; rewrite recv_agent; apply mailbox_read_id|done].
      intros b Hb. rewrite recv_agent. by apply mailbox_read_ok.
    + eexists. split.
      { unfold inbox_agent. cbn [ml_k ml_target]. unfold find_inbox in *. cbn [k_dentries Agentfs.set_agents].
        rewrite Ei. cbn. apply find_upd_agent; [|exact Ha]. intros b. rewrite recv_agent. apply mailbox_read_id. }
      rewrite Hra. unfold mailbox_read. cbn [agent_mailbox]. by rewrite Hms.
  - intros s (Hk & a & Ha & HF). apply Forall2_nil_inv_l in HF. cbn [tr_recv mlink_transport]. rewrite Ha.
    unfold agentfs_recv, mailbox_read. cbn [agent_mailbox]. rewrite HF. by destruct (a_dead a).
Qed.

(** ** Properties *)

(** C4: the transports are interchangeable.  The same conversation (any
    interleaving of posting and taking letters) held over a packet socket, a
    byte stream with any cuts and interrupts, and a kernel mailbox, when each
    accepts the letters, lets the receiver see the same: each refines a queue,
    so what is taken together with what is left is what was there and what was
    posted, in order, without loss, duplication or change. *)
Theorem transports_agree acts (p p' : plink) (s s' : slink) (m m' : mlink) q outp outs outm :
  Forall (λ l, letter_ok l = true) (posted acts) →
  tr_rep p q → tr_rep s q → tr_rep m q →
  converse acts p = Some (outp, p') → converse acts s = Some (outs, s') → converse acts m = Some (outm, m') →
  let '(out, rest) := queue_run acts q in
  outp = out ∧ outs = out ∧ outm = out ∧ omap id out ++ rest = q ++ posted acts ∧
  tr_rep p' rest ∧ tr_rep s' rest ∧ tr_rep m' rest.
Proof.
  intros HF Hp Hs Hm Ep Es Em.
  destruct (converse_refines acts p q _ _ Hp HF Ep) as [-> Hp'].
  destruct (converse_refines acts s q _ _ Hs HF Es) as [-> Hs'].
  destruct (converse_refines acts m q _ _ Hm HF Em) as [-> Hm'].
  pose proof (queue_run_order acts q) as Hq. by destruct (queue_run acts q).
Qed.

Definition demo_letter (t : bytes) : letter := Letter #"ask" #"b" #"t1" t.
Definition demo_acts : list act := [Post (demo_letter #"one"); Post (demo_letter #"two"); Take; Take; Take].
Definition demo_plink : plink := PLink 6 7 (set_sched [] demo_pair).
Definition demo_slink : slink := SLink [[Sent 3; SendErr EINTR]] [Got 1; ReadErr EINTR] [].
Definition demo_mlink : mlink := MLink #"a" demo_kstate.

Lemma transports_agree_witness :
  ∃ p' s' m', let out := [Some (demo_letter #"one"); Some (demo_letter #"two"); None] in
    converse demo_acts demo_plink = Some (out, p') ∧ converse demo_acts demo_slink = Some (out, s') ∧
    converse demo_acts demo_mlink = Some (out, m').
Proof.
  assert (is_Some (converse demo_acts demo_plink)) as [[outp p'] Ep] by (eexists; vm_compute; reflexivity).
  assert (is_Some (converse demo_acts demo_slink)) as [[outs s'] Es] by (eexists; vm_compute; reflexivity).
  assert (is_Some (converse demo_acts demo_mlink)) as [[outm m'] Em] by (eexists; vm_compute; reflexivity).
  destruct (transports_agree demo_acts demo_plink p' demo_slink s' demo_mlink m' [] outp outs outm)
    as (-> & -> & -> & _); [| | | |exact Ep|exact Es|exact Em|].
  - repeat constructor.
  - split; [reflexivity|]. exists 0, []. split_and!; [reflexivity..|constructor].
  - split; [by repeat constructor|]. exists []. split; [reflexivity|constructor].
  - split; [exact demo_kstate_ok|]. eexists. split; [vm_compute; reflexivity|constructor].
  - exists p', s', m'. split_and!; [exact Ep|exact Es|exact Em].
Defined.
