(* ===== verification/AgentdMain.v ===== *)
(** * agentd.c: start-up, signals and the life of the daemon

    The exclusive lock on the data root (common.c), the control socket, the
    self-pipe that turns signals into poll events, the inotify set-up, and
    [main] from its first check to its last unlink.

    [bind] of a socket to a path is the argument [sys_bind].  The lock table
    of the kernel is threaded explicitly, since it outlives one process. *)

From S2P Require Import Prelude CLib Posix Names Common Broker Ipc Profiles Enforcement Lifecycle Agentd AgentdSpec.

(** ** The root lock *)

(** The files locked with [flock(LOCK_EX)] and the process that holds each
    lock. *)
Definition locks : Type := gmap bytes Z.
Definition sys_flock (lk : locks) (q : bytes) : M locks :=
  sys (self ← gets w_self;
       match lk !! q with Some _ => throw EAGAIN | None => mret (<[q := self]> lk) end).
Definition empty_file (n : node) : node :=
  match n with Node (KReg _) m u => Node (KReg []) m u | _ => n end.
Definition sys_ftruncate (q : bytes) : M unit := sys (modify (set_fs (alter empty_file q))).
(** [write] at offset 0 of an existing file. *)
Definition overwrite (d : bytes) (n : node) : node :=
  match n with Node (KReg c) m u => Node (KReg (d ++ drop (length d) c)) m u | _ => n end.
Definition sys_write0 (q data : bytes) : M unit :=
  o ← pop;
  match o with
  | Fail e => throw e
  | Short k => modify (set_fs (alter (overwrite (take (Nat.max 1 k) data)) q))
  | Pass => modify (set_fs (alter (overwrite data) q))
  end.

Definition lock_path (root : bytes) : bytes := root ++ #"/agentd.lock".
(** [EWOULDBLOCK] is [EAGAIN]. *)
Definition agentctl_root_lock (root : bytes) (lk : locks) : M locks :=
  path ← of_option ENAMETOOLONG (snprintf_ok MAX_PATHBUF (lock_path root));
  q ← sys_open_create path false 384;
  r ← attempt (sys_flock lk q);
  match r with
  | inl e => ignore sys_plain ;; throw e
  | inr lk' =>
      ignore (sys_ftruncate q) ;;
      self ← gets w_self;
      ignore (sys_write0 q (fmt_d self ++ nl)) ;;
      mret lk'
  end.

(** ** Signals *)

(** [fcntl] to read the flags, and to set them when that worked. *)
Definition set_fd_flag : M unit :=
  r ← attempt sys_plain;
  match r with inl _ => mret tt | inr _ => ignore sys_plain end.
(** The pipe's two ends; installing the handlers cannot fail. *)
Definition setup_signals : M (Z * Z) :=
  p ← sys (a ← install FdOther; b ← install FdOther; mret (a, b));
  set_fd_flag ;;
  mret p.

(** The handler's globals: [g_sigchld], [g_shutdown] and the bytes waiting in
    the self-pipe, whose write end does not block. *)
Inductive dsignal := DChld | DTerm.
Record sigstate := SigState { sg_child : bool; sg_shutdown : bool; sg_pipe : bytes }.
Definition sig_byte (sg : dsignal) : ascii := match sg with DChld => "c" | DTerm => "t" end.
Definition on_signal (cap : nat) (sg : dsignal) (s : sigstate) : sigstate :=
  SigState (match sg with DChld => true | DTerm => sg_child s end)
           (match sg with DTerm => true | DChld => sg_shutdown s end)
           (if (length (sg_pipe s) <? cap)%nat then sg_pipe s ++ [sig_byte sg] else sg_pipe s).
(** [read(g_self_pipe[0], drain, sizeof drain)] *)
Definition drain_pipe (s : sigstate) : sigstate :=
  SigState (sg_child s) (sg_shutdown s) (drop 64 (sg_pipe s)).
Definition clear_child (s : sigstate) : sigstate := SigState false (sg_shutdown s) (sg_pipe s).

(** ** The daemon *)

Section main.
Context (cwd : bytes) (garbage : profile_cfg_t) (sys_bind : Z → bytes → M unit).

Section rooted.
Context (root : bytes).

Definition bind_control_socket : M Z :=
  fd ← sys (install FdOther);
  set_fd_flag ;;
  path ← agentd_sock_path root;
  if negb (blen path <? SUN_PATH_MAX) then ignore (sys_close fd) ;; throw ENAMETOOLONG
  else
    r ← attempt (sys_bind fd path);
    r ← match r with
        | inl EADDRINUSE => ignore (sys_unlink path) ;; attempt (sys_bind fd path)
        | r => mret r
        end;
    match r with
    | inl e => ignore (sys_close fd) ;; throw e
    | inr _ =>
        ignore (sys_fchmod path 384) ;;
        l ← attempt sys_plain;                          (* listen(fd, 8) *)
        match l with
        | inl e => ignore (sys_close fd) ;; throw e
        | inr _ => mret fd
        end
    end.

(** The inotify descriptor and the watch on the agents directory. *)
Definition inotify_setup_linux : D (option (Z * Z)) :=
  fd ← try (sys (install FdOther));
  match fd with
  | inl e => daemon_log root (#"inotify_init1: " ++ strerror e ++ #" (falling back to periodic scan)") ;;
             mret None
  | inr fd =>
      wd ← try (sys_inotify_add_watch (agent_root root));
      match wd with
      | inl e => daemon_log root (#"inotify watch " ++ agent_root root ++ #": " ++ strerror e) ;;
                 run_ (sys_close fd) ;;
                 mret None
      | inr wd =>
          es ← try (sys_readdir (agent_root root));
          match es with
          | inl _ => mret tt
          | inr es => dfor_each es (λ e, if first_is "." e || negb (validate_name e) then mret tt
                                         else inotify_add_agent root e)
          end ;;
          daemon_log root (#"inotify active (root_wd=" ++ fmt_d wd ++ #")") ;;
          mret (Some (fd, wd))
      end
  end.

(** One pass of the loop: whether SIGTERM or SIGINT arrived by the end of
    [poll], and what [poll] returned. *)
Record turn := Turn { tn_stop : bool; tn_poll : errno + wakeup; tn_entropy : bool * list (errno + bytes) }.
Definition set_stop : D unit := dmodify (λ d, DState (g_agents d) true (g_watches d)).
(** [false]: the passes are used up and the daemon is waiting in [poll]. *)
Fixpoint agentd_loop (ino : option (Z * Z)) (turns : list turn) : D bool :=
  stop ← dget g_shutdown;
  if (stop : bool) then mret true
  else match turns with
       | [] => mret false
       | t :: ts =>
           (if tn_stop t then set_stop else mret tt) ;;
           match tn_poll t with
           | inl EINTR => agentd_loop ino ts
           | inl e => daemon_log root (#"poll: " ++ strerror e) ;; mret true
           | inr wk =>
               main_turn root cwd garbage (bool_decide (is_Some ino)) (default (-1) (snd <$> ino))
                         (tn_entropy t) wk ;;
               agentd_loop ino ts
           end
       end.

Definition agentd_stop (ino : option (Z * Z)) (srv : Z) : D unit :=
  daemon_log root #"agentd shutting down" ;;
  match ino with Some (fd, _) => run_ (sys_close fd) | None => mret tt end ;;
  run_ (sys_close srv) ;;
  run_ (p ← agentd_sock_path root; sys_unlink p) ;;
  run_ (p ← agentd_pid_path root; sys_unlink p).

(** From the listening socket to the end; [None] while the daemon runs. *)
Definition agentd_serve (srv : Z) (turns : list turn) : D (option Z) :=
  run_ (write_pid_file root) ;;
  self ← total 0 (gets w_self);
  daemon_log root (#"agentd started pid=" ++ fmt_d self) ;;
  a ← try (agent_root_init root);
  match a with
  | inl _ => mret (Some 1)
  | inr _ =>
      run_ (ensure_dir (agent_root root) 448) ;;
      ino ← inotify_setup_linux;
      scan_disk_agents root (recover_cb root cwd garbage) ;;
      left ← agentd_loop ino turns;
      if (left : bool) then agentd_stop ino srv ;; mret (Some 0) else mret None
  end.
End rooted.

(** What the process did: its exit code, none while it runs, and the text of
    its refusal; and the locks it leaves. *)
Definition agentd_main (argv : list bytes) (lk : locks) (raw_ : errno + bytes) (turns : list turn)
    : D (option Z * bytes * locks) :=
  let refuse code diag := mret (M:=D) (Some code, diag ++ nl, lk) in
  r ← try refuse_root;
  match r with
  | inl _ => mret (Some 1, [], lk)
  | inr _ =>
      match argv with
      | _ :: _ => refuse 2 #"usage: agentd (no args; runs in foreground)"
      | [] =>
          root ← try agentctl_root;
          match root with
          | inl _ => mret (Some 1, [], lk)
          | inr root =>
              l ← try (agentctl_root_lock root lk);
              match l with
              | inl EAGAIN => refuse 1 (#"agentd: another instance is already running under " ++ root ++
                                        #" (lockfile held)")
              | inl e => refuse 1 (#"agentd: cannot acquire lockfile: " ++ strerror e)
              | inr lk' =>
                  (* the kernel releases the lock when the process ends *)
                  t ← try (ensure_control_token root raw_);
                  match t with
                  | inl e => refuse 1 (#"agentd: control token: " ++ strerror e)
                  | inr _ =>
                      p ← try setup_signals;
                      match p with
                      | inl e => refuse 1 (#"agentd: signals: " ++ strerror e)
                      | inr _ =>
                          srv ← try (bind_control_socket root);
                          match srv with
                          | inl e => refuse 1 (#"agentd: bind: " ++ strerror e)
                          | inr srv =>
                              code ← agentd_serve root srv turns;
                              mret (code, [], match code with Some _ => lk | None => lk' end)
                          end
                      end
                  end
              end
          end
      end
  end.
End main.

(** ** What the daemon's globals may become

    [evolves]: the tables keep their size and every stored name its buffer,
    and a requested shutdown stays requested. *)

Definition NAME_BUF : nat := 64.
Definition tables_ok (d : dstate) : Prop :=
  length (g_agents d) = MAX_MANAGED ∧ length (g_watches d) = MAX_MANAGED ∧
  Forall (λ m, length (m_name m) < NAME_BUF)%nat (g_agents d) ∧
  Forall (λ w : Z * bytes, length w.2 < NAME_BUF)%nat (g_watches d).
Definition evolves (d d' : dstate) : Prop :=
  (tables_ok d → tables_ok d') ∧ (g_shutdown d = true → g_shutdown d' = true).
#[export] Instance evolves_preorder : PreOrder evolves.
Proof. split; [by intros d|]. intros a b c [] []. split; auto. Qed.

Definition sound {A} (m : D A) : Prop := ∀ d w, evolves d (m d w).1.2.

Create HintDb sound.
#[export] Hint Constants Opaque : sound.

Lemma sound_ret {A} (a : A) : sound (mret a).
Proof. by intros d w. Qed.
Lemma sound_dget {A} (f : dstate → A) : sound (dget f).
Proof. by intros d w. Qed.
Lemma sound_slot i : sound (slot i).
Proof. by intros d w. Qed.
Lemma sound_try {A} (m : M A) : sound (try m).
Proof. intros d w. unfold try. by destruct (m w). Qed.
Lemma sound_run {A} (m : M A) : sound (run_ m).
Proof. intros d w. unfold run_. by destruct (m w). Qed.
Lemma sound_total {A} (a : A) (m : M A) : sound (total a m).
Proof. intros d w. unfold total. by destruct (m w). Qed.
Lemma sound_bind {A B} (m : D A) (f : A → D B) : sound m → (∀ a, sound (f a)) → sound (m ≫= f).
Proof.
  intros Hm Hf d w. rewrite dbind_unfold. specialize (Hm d w). destruct (m d w) as [[a d1] w1].
  etrans; [exact Hm|apply Hf].
Qed.
Lemma sound_if {A} (b : bool) (m1 m2 : D A) : sound m1 → sound m2 → sound (if b then m1 else m2).
Proof. by destruct b. Qed.
Lemma sound_for_each {A} (l : list A) f : (∀ x, sound (f x)) → sound (dfor_each l f).
Proof. intros Hf. induction l; cbn [dfor_each]; [apply sound_ret|by apply sound_bind]. Qed.

Lemma sound_upd i f : (∀ m, length (m_name m) < NAME_BUF → length (m_name (f m)) < NAME_BUF)%nat →
  sound (upd i f).
Proof.
  intros Hf d w. split; [|done]. intros (L1 & L2 & H1 & H2).
  split_and!; cbn; [by rewrite length_alter|done| |done].
  apply Forall_alter; [done|]. intros m Hm _. apply Hf. by apply (Forall_lookup_1 _ _ _ _ H1 Hm).
Qed.
Lemma sound_watches f :
  (∀ ws, length (f ws) = length ws) →
  (∀ ws, Forall (λ w : Z * bytes, length w.2 < NAME_BUF)%nat ws →
         Forall (λ w : Z * bytes, length w.2 < NAME_BUF)%nat (f ws)) →
  sound (set_watches f).
Proof.
  intros Hl Hf d w. split; [|done]. intros (L1 & L2 & H1 & H2).
  split_and!; cbn; [done|by rewrite Hl|done|by apply Hf].
Qed.
Lemma sound_stop : sound (dmodify (λ d, DState (g_agents d) true (g_watches d))).
Proof. intros d w. by split. Qed.
#[export] Hint Resolve sound_ret sound_dget sound_slot sound_try sound_run sound_total sound_stop : sound.

Lemma trunc_name name : (length (snprintf_trunc 64 name) < NAME_BUF)%nat.
Proof. unfold snprintf_trunc, NAME_BUF. rewrite length_take. lia. Qed.

Ltac sound_step :=
  match goal with
  | |- sound (mbind _ _) => apply sound_bind
  | |- sound (if _ then _ else _) => apply sound_if
  | |- sound (match ?x with _ => _ end) => destruct x
  | |- sound (let _ := _ in _) => cbv zeta
  | |- sound (dfor_each _ _) => apply sound_for_each
  | |- sound (upd _ _) => apply sound_upd; solve [done|intros; apply trunc_name|intros; cbn; unfold NAME_BUF; lia]
  | |- ∀ _, sound _ => intros ?
  | |- sound _ => progress eauto with sound nocore
  end.
Ltac soundly := repeat sound_step.

Section sound.
Context (root cwd : bytes) (garbage : profile_cfg_t).

Lemma sound_alloc name : sound (alloc_slot name).
Proof. unfold alloc_slot. soundly. Qed.
Lemma sound_close fd : sound (close_field fd).
Proof. unfold close_field. soundly. Qed.
Lemma sound_log msg : sound (daemon_log root msg).
Proof. apply sound_run. Qed.
Lemma sound_audit name msg : sound (audit root name msg).
Proof. apply sound_run. Qed.
Hint Resolve sound_alloc sound_close sound_log sound_audit : sound.
Lemma sound_clear i : sound (clear_runtime_state i).
Proof. unfold clear_runtime_state, close_fields. soundly. Qed.
Lemma sound_release i : sound (release_slot i).
Proof. unfold release_slot, close_fields. soundly. Qed.
Lemma sound_enabled name : sound (load_enabled root name).
Proof. unfold load_enabled. soundly. Qed.
Lemma sound_desired name : sound (load_desired_running root name).
Proof. unfold load_desired_running. soundly. Qed.
Lemma sound_policy name : sound (load_policy root name).
Proof. unfold load_policy. soundly. Qed.
Lemma sound_persist m : sound (persist_restart_count root m).
Proof. apply sound_run. Qed.
Lemma sound_spawn i : sound (spawn_agent root cwd garbage i).
Proof. unfold spawn_agent. soundly. Qed.
Lemma sound_alive m : sound (agent_alive m).
Proof. unfold agent_alive. soundly. Qed.
Hint Resolve sound_clear sound_release sound_enabled sound_desired sound_policy sound_persist
  sound_spawn sound_alive : sound.
Lemma sound_reap_one pid st : sound (reap_one root pid st).
Proof. unfold reap_one. soundly. Qed.
Hint Resolve sound_reap_one : sound.
Lemma sound_reap : sound (reap_zombies root).
Proof.
  assert (∀ n, sound (reap_loop root n)) as H.
  { intros n. induction n; cbn [reap_loop]; soundly. }
  intros d w. apply H.
Qed.
Hint Resolve sound_reap : sound.
Lemma sound_await n i : sound (await_exit root n i).
Proof. induction n; cbn [await_exit]; soundly. Qed.
Hint Resolve sound_await : sound.
Lemma sound_stop_agent i ms : sound (stop_agent root i ms).
Proof. unfold stop_agent. soundly. Qed.
Hint Resolve sound_stop_agent : sound.
Lemma sound_scan cb : (∀ e, sound (cb e)) → sound (scan_disk_agents root cb).
Proof.
  intros Hcb. unfold scan_disk_agents. soundly. rename l into names.
  induction names; cbn [scan_names]; soundly.
Qed.
Lemma sound_recover name : sound (recover_cb root cwd garbage name).
Proof. unfold recover_cb. soundly. Qed.
Lemma sound_reconcile name : sound (reconcile_cb root cwd garbage name).
Proof. unfold reconcile_cb, reconcile_external. soundly. Qed.
Hint Resolve sound_scan sound_recover sound_reconcile : sound.

Lemma sound_issue s p u t : sound (issue_mailbox_channel s p u t).
Proof. unfold issue_mailbox_channel. soundly. Qed.
Lemma sound_deny m cap r : sound (deny m cap r).
Proof. unfold deny. soundly. Qed.
Lemma sound_drop i : sound (drop_channel i).
Proof. unfold drop_channel. soundly. Qed.
Hint Resolve sound_issue sound_deny sound_drop : sound.
Lemma sound_broker e i : sound (broker_handle_event root e i).
Proof.
  unfold broker_handle_event, broker_serve, deny_logged, finish_issue. soundly.
Qed.

Lemma sound_release_wd wd : sound (inotify_release_wd wd).
Proof.
  apply sound_watches; intros ws; destruct (list_find _ ws) as [[k ?]|]; try done.
  - apply length_insert.
  - intros H. apply Forall_insert; [done|]. cbn. unfold NAME_BUF. lia.
Qed.
Lemma sound_add_agent name : sound (inotify_add_agent root name).
Proof.
  unfold inotify_add_agent. soundly. apply sound_watches; intros ws.
  - apply length_insert.
  - intros H. apply Forall_insert; [done|]. apply trunc_name.
Qed.
Hint Resolve sound_release_wd sound_add_agent : sound.
Lemma sound_event wd ev : sound (inotify_event root cwd garbage wd ev).
Proof. unfold inotify_event, release_if_idle. soundly. Qed.
Hint Resolve sound_event : sound.

Lemma sound_reply n rc t : sound (reply n rc t).
Proof. apply sound_ret. Qed.
Hint Resolve sound_reply : sound.
Lemma sound_cmd_start n name : sound (handle_cmd_start root cwd garbage n name).
Proof. unfold handle_cmd_start. soundly. Qed.
Lemma sound_cmd_stop n name : sound (handle_cmd_stop root n name).
Proof. unfold handle_cmd_stop. soundly. Qed.
Lemma sound_cmd_reload n name : sound (handle_cmd_reload root n name).
Proof. unfold handle_cmd_reload. soundly. Qed.
Lemma sound_cmd_status n name : sound (handle_cmd_status root n name).
Proof. unfold handle_cmd_status. soundly. Qed.
Hint Resolve sound_cmd_start sound_cmd_stop sound_cmd_reload sound_cmd_status : sound.
Lemma sound_command n line : sound (handle_command root cwd garbage n line).
Proof. unfold handle_command, handle_cmd_restart. soundly. Qed.
Hint Resolve sound_command : sound.
Lemma sound_serve cn : sound (serve_one_connection root cwd garbage cn).
Proof. unfold serve_one_connection, respond. soundly. Qed.
Hint Resolve sound_broker sound_serve : sound.
Lemma sound_turn ok wd e wk : sound (main_turn root cwd garbage ok wd e wk).
Proof. unfold main_turn, inotify_drain, external_exited, serve_broker. soundly. Qed.
Hint Resolve sound_turn : sound.
Lemma sound_loop ino ts : sound (agentd_loop cwd garbage root ino ts).
Proof. induction ts; cbn [agentd_loop]; unfold set_stop; soundly. Qed.
Lemma sound_ino : sound (inotify_setup_linux root).
Proof. unfold inotify_setup_linux. soundly. Qed.
Hint Resolve sound_loop sound_ino : sound.
Lemma sound_serving srv ts : sound (agentd_serve cwd garbage root srv ts).
Proof. unfold agentd_serve, agentd_stop. soundly. Qed.
End sound.
#[export] Hint Resolve sound_serving sound_turn : sound.

(** C38: the daemon's tables are never overrun.  From its start, whatever
    requests, events and failures it meets, the daemon has its 32 slots and
    32 watches, every name they hold fits its buffer of 64 bytes with the
    terminator, and a shutdown that was requested stays requested. *)
Theorem daemon_tables_invariant cwd garbage bind argv lk raw_ turns w :
  let '(_, d, _) := agentd_main cwd garbage bind argv lk raw_ turns dstate0 w in
  tables_ok d ∧
  ∀ root ok wd e wk w1, let '(_, d', _) := main_turn root cwd garbage ok wd e wk d w1 in
    tables_ok d' ∧ (g_shutdown d = true → g_shutdown d' = true).
Proof.
  assert (sound (agentd_main cwd garbage bind argv lk raw_ turns)) as H.
  { unfold agentd_main. soundly. }
  specialize (H dstate0 w) as [H _].
  destruct (agentd_main cwd garbage bind argv lk raw_ turns dstate0 w) as [[x d] w'].
  assert (tables_ok d) as Hd.
  { apply H. split_and!; [done..| |]; apply Forall_replicate; cbn; unfold NAME_BUF; lia. }
  split; [done|]. intros root ok wd e wk w1.
  pose proof (sound_turn root cwd garbage ok wd e wk d w1) as [H1 H2].
  destruct (main_turn root cwd garbage ok wd e wk d w1) as [[? d'] w2]. auto.
Qed.

(** ** Stopping *)

Section stopping.
Context (cwd root : bytes) (garbage : profile_cfg_t).

Lemma loop_stopped ino ts d w : g_shutdown d = true →
  agentd_loop cwd garbage root ino ts d w = (true, d, w).
Proof. intros Hd. by destruct ts; cbn [agentd_loop]; rewrite dbind_dget, Hd. Qed.

(** The first pass that sees the signal is the last one. *)
Lemma loop_graceful ino ts1 t ts2 d w : tn_stop t = true →
  agentd_loop cwd garbage root ino (ts1 ++ t :: ts2) d w =
    agentd_loop cwd garbage root ino (ts1 ++ [t]) d w ∧
  (agentd_loop cwd garbage root ino (ts1 ++ [t]) d w).1.1 = true.
Proof.
  intros Ht. revert d w. induction ts1 as [|u ts1 IH]; intros d w; cbn [app agentd_loop];
    rewrite !dbind_dget; destruct (g_shutdown d) eqn:Hd; try done.
  - rewrite Ht. unfold set_stop. rewrite !dbind_unfold. cbn [dmodify].
    set (d1 := DState _ true _).
    destruct (tn_poll t) as [[]|wk]; try (rewrite loop_stopped by done; done);
      try (rewrite !dbind_unfold; destruct (daemon_log root _ d1 w) as [[? ?] ?]; done).
    rewrite !dbind_unfold.
    destruct (sound_turn root cwd garbage (bool_decide (is_Some ino)) (default (-1) (snd <$> ino))
                (tn_entropy t) wk d1 w) as [_ Hs].
    destruct (main_turn root cwd garbage _ _ _ wk d1 w) as [[x d2] w2].
    rewrite loop_stopped, dbind_dget by (by apply Hs). cbn in Hs. by rewrite Hs.
  - rewrite !dbind_unfold. destruct ((if tn_stop u then set_stop else mret tt) d w) as [[? d1] w1].
    destruct (tn_poll u) as [[]|wk]; try apply IH;
      rewrite !dbind_unfold;
      [destruct (daemon_log root _ d1 w1) as [[? ?] ?]; done..|].
    destruct (main_turn root cwd garbage _ _ _ wk d1 w1) as [[x d2] w2]. apply IH.
Qed.
End stopping.

(** SIGTERM and SIGINT end the daemon.  Whatever failed before, the pass
    of the loop that sees the signal is the last: the later events are not
    served, and the process ends (with 0, or with 1 when the agents directory
    could not be made) instead of waiting on. *)
Theorem agentd_graceful cwd garbage root srv ts1 t ts2 d w :
  tn_stop t = true →
  agentd_serve cwd garbage root srv (ts1 ++ t :: ts2) d w =
    agentd_serve cwd garbage root srv (ts1 ++ [t]) d w ∧
  ((agentd_serve cwd garbage root srv (ts1 ++ [t]) d w).1.1 = Some 0 ∨
   (agentd_serve cwd garbage root srv (ts1 ++ [t]) d w).1.1 = Some 1).
Proof.
  intros Ht. unfold agentd_serve.
  rewrite !(dbind_unfold (run_ _)). destruct (run_ _ d w) as [[? d1] w1].
  rewrite !(dbind_unfold (total _ _)). destruct (total _ _ d1 w1) as [[self d2] w2].
  rewrite !(dbind_unfold (daemon_log _ _)). destruct (daemon_log _ _ d2 w2) as [[? d3] w3].
  rewrite !(dbind_unfold (try _)). destruct (try _ d3 w3) as [[[e|a] d4] w4]; [by auto|].
  rewrite !(dbind_unfold (run_ _)). destruct (run_ _ d4 w4) as [[? d5] w5].
  rewrite !(dbind_unfold (inotify_setup_linux _)). destruct (inotify_setup_linux _ d5 w5) as [[ino d6] w6].
  rewrite !(dbind_unfold (scan_disk_agents _ _)). destruct (scan_disk_agents _ _ d6 w6) as [[? d7] w7].
  rewrite !(dbind_unfold (agentd_loop _ _ _ _ _)).
  destruct (loop_graceful cwd root garbage ino ts1 t ts2 d7 w7 Ht) as [-> Hl].
  destruct (agentd_loop _ _ _ _ (ts1 ++ [t]) d7 w7) as [[left_ d8] w8]. cbn in Hl. subst left_.
  split; [done|]. left. rewrite dbind_unfold. by destruct (agentd_stop _ _ _ _ _) as [[? ?] ?].
Qed.
Lemma agentd_graceful_witness :
  let t := Turn true (inl EINTR) (false, []) in
  let late := Turn false (inr (Wakeup true None [] [] [] true)) (false, []) in
  tn_stop t = true ∧
  agentd_serve #"/" garbage_cfg #"/r" 5 ([] ++ t :: [late]) dstate0 demo_world =
    agentd_serve #"/" garbage_cfg #"/r" 5 ([] ++ [t]) dstate0 demo_world.
Proof.
  intros t late. split; [done|].
  apply (agentd_graceful #"/" garbage_cfg #"/r" 5 [] t [late] dstate0 demo_world). reflexivity.
Defined.

(** ** The self-pipe *)

(** The places of the loop a signal can fall between, in order: the test of
    [g_shutdown], the [poll], the [read] that drains the pipe when [poll]
    reported it, the test of [g_sigchld], [reap_zombies], the rest of the
    pass. *)
Inductive place := AtTest | AtPoll | AtDrain (ready : bool) | AtCheck | AtReap | AtRest | AtEnd.
(** [ls_owed]: a SIGCHLD was delivered and no reaping has begun since. *)
Record lstate := LState { ls_at : place; ls_sig : sigstate; ls_owed : bool }.
Definition lstate0 : lstate := LState AtTest (SigState false false []) false.
Definition readable (s : sigstate) : bool := match sg_pipe s with [] => false | _ => true end.
Definition owes (sg : dsignal) : bool := match sg with DChld => true | DTerm => false end.

Inductive loop_step (cap : nat) : lstate → lstate → Prop :=
| step_signal p s o sg : loop_step cap (LState p s o) (LState p (on_signal cap sg s) (owes sg || o))
| step_enter s o : sg_shutdown s = false → loop_step cap (LState AtTest s o) (LState AtPoll s o)
| step_leave s o : sg_shutdown s = true → loop_step cap (LState AtTest s o) (LState AtEnd s o)
| step_poll s o : loop_step cap (LState AtPoll s o) (LState (AtDrain (readable s)) s o)
| step_eintr s o : loop_step cap (LState AtPoll s o) (LState AtTest s o)
| step_drain r s o :
    loop_step cap (LState (AtDrain r) s o) (LState AtCheck (if r then drain_pipe s else s) o)
| step_child s o : sg_child s = true →
    loop_step cap (LState AtCheck s o) (LState AtReap (clear_child s) o)
| step_no_child s o : sg_child s = false → loop_step cap (LState AtCheck s o) (LState AtRest s o)
| step_reap s o : loop_step cap (LState AtReap s o) (LState AtRest s false)
| step_rest s o : loop_step cap (LState AtRest s o) (LState AtTest s o)
| step_command c p o :       (** the control command [shutdown] *)
    loop_step cap (LState AtRest (SigState c false p) o) (LState AtRest (SigState c true p) o).

Definition pipe_inv (st : lstate) : Prop :=
  let s := ls_sig st in
  (ls_owed st = true → sg_child s = true ∨ ls_at st = AtReap) ∧
  (sg_child s = true → readable s = true ∨ ls_at st = AtCheck) ∧
  (ls_at st = AtPoll → sg_shutdown s = true → readable s = true).

Lemma signal_readable cap sg s : (0 < cap)%nat → readable (on_signal cap sg s) = true.
Proof.
  intros Hc. unfold readable, on_signal. cbn [sg_pipe]. destruct (Nat.ltb_spec (length (sg_pipe s)) cap).
  - by destruct (sg_pipe s).
  - destruct (sg_pipe s); [cbn in *; lia|done].
Qed.

(** By rule induction. *)
Lemma pipe_invariant cap st : (0 < cap)%nat → rtc (loop_step cap) lstate0 st → pipe_inv st.
Proof.
  intros Hc. revert st. apply (rtc_ind_r pipe_inv); [by split_and!|].
  intros a b _ Hs. unfold pipe_inv.
  destruct Hs as [p s o sg| | | | |r s o| | | | |]; cbn [ls_owed ls_sig ls_at sg_child sg_shutdown];
    intros (I1 & I2 & I3); split_and!.
  1: { intros Ho. destruct sg; cbn in *; [by left|by apply I1]. }
  1,2: intros; rewrite signal_readable by done; by eauto.
  all: try (intuition congruence).
  - destruct r; cbn; intuition congruence.
  - done.
Qed.

(** C7: no signal is lost.  Whatever the interleaving of signals with the
    loop, and however full the self-pipe is, when the loop reaches [poll]
    with nothing to read from the pipe no shutdown signal is unseen and no
    child death is unreaped; while one is owed, the flag that makes the loop
    reap is set (or it is about to), and a pass that meets the flag reaps. *)
Theorem self_pipe_no_lost_wakeup cap st :
  (0 < cap)%nat → rtc (loop_step cap) lstate0 st →
  (ls_at st = AtPoll → readable (ls_sig st) = false →
     ls_owed st = false ∧ sg_shutdown (ls_sig st) = false) ∧
  (ls_owed st = true → sg_child (ls_sig st) = true ∨ ls_at st = AtReap) ∧
  (ls_at st = AtCheck → ls_owed st = true → ∀ st', loop_step cap st st' →
     ls_at st' = AtReap ∨ ls_at st' = AtCheck ∧ ls_owed st' = true).
Proof.
  intros Hc Hr. destruct (pipe_invariant cap st Hc Hr) as (I1 & I2 & I3).
  split_and!; [|done|].
  - intros Hp Hn. split; apply not_true_iff_false; intros H.
    + destruct (I1 H) as [Hk|Hk]; [|congruence]. destruct (I2 Hk); congruence.
    + rewrite (I3 Hp H) in Hn. done.
  - intros Hp Ho st' Hs. destruct Hs as [p s o sg| | | | | | |s o Hf| | |]; cbn in *; try discriminate.
    + right. split; [done|]. rewrite Ho. apply orb_true_r.
    + by left.
    + destruct (I1 Ho); congruence.
Qed.
Lemma self_pipe_no_lost_wakeup_witness :
  (0 < 1)%nat ∧
  ∃ st, rtc (loop_step 1) lstate0 st ∧ ls_at st = AtPoll ∧ ls_owed st = true ∧
    sg_child (ls_sig st) = true.
Proof.
  split; [lia|].
  set (st := LState AtPoll (SigState true false [ "c"%char]) true).
  assert (rtc (loop_step 1) lstate0 st) as Hr.
  { eapply rtc_l; [by apply step_enter|].
    eapply rtc_l; [apply (step_signal 1 AtPoll _ _ DChld)|]. apply rtc_refl. }
  exists st. split_and!; [done..|].
  destruct (self_pipe_no_lost_wakeup 1 st ltac:(lia) Hr) as (_ & [H|H] & _); [done|done|done].
Defined.

(** ** One daemon per data root *)

Definition plain_lock (root : bytes) (w : world) : Prop :=
  ∀ t m u, w_fs w !! lock_path root ≠ Some (Node (KLnk t) m u).

Lemma lock_taken root lk w lk' w' :
  plain_lock root w → agentctl_root_lock root lk w = (inr lk', w') →
  lk !! lock_path root = None ∧ lk' = <[lock_path root := w_self w]> lk.
Proof.
  intros Hp. unfold agentctl_root_lock.
  destruct (snprintf_ok MAX_PATHBUF (lock_path root)) as [path|] eqn:Es; [|done].
  apply snprintf_ok_Some in Es as [-> _]. cbn [of_option]. rewrite bind_unfold. cbv [mret M_ret].
  rewrite bind_unfold. destruct (sys_open_create _ false 384 w) as [[e|q] w1] eqn:Eo; [done|].
  pose proof (shrinks_open_create (lock_path root) false 384 w) as (_&_&_&Hs&_).
  rewrite Eo in Hs. cbn in Hs.
  assert (q = lock_path root) as ->.
  { apply sys_inv in Eo as [(?&?&?&_)|(s & _ & E)]; [done|]. rewrite !bind_gets in E.
    cbv zeta in E. change (w_fs (set_sched s w)) with (w_fs w) in E.
    rewrite (follow_id MAXSYMLINKS (w_fs w)) in E by done.
    destruct (w_fs w !! lock_path root) as [[[] ? ?]|] eqn:Ef; try done.
    - by inversion E.
    - by destruct (is_dir _ _); inversion E. }
  rewrite bind_attempt. destruct (sys_flock lk (lock_path root) w1) as [[e|l] w2] eqn:El.
  { by rewrite bind_ignore. }
  rewrite !bind_ignore, bind_gets, bind_ignore. intros [= -> _].
  apply sys_inv in El as [(?&?&?&_)|(s & _ & E)]; [done|]. rewrite bind_gets in E.
  destruct (lk !! lock_path root); [done|]. cbn in E. inversion E. by rewrite Hs.
Qed.

Lemma dbind_try {A B} (m : M A) (f : errno + A → D B) d w :
  (try m ≫= f) d w = f (m w).1 d (m w).2.
Proof. rewrite dbind_unfold. unfold try. by destruct (m w). Qed.
Lemma refuse_root_pure w : (refuse_root w).2 = w.
Proof.
  unfold refuse_root. rewrite bind_gets. destruct (w_uid w =? 0); [|done].
  unfold sys_getenv. rewrite bind_gets. by destruct (w_env w !! _) as [v|]; [destruct (bytes_eqb _ _)|].
Qed.
Lemma shrinks_root : shrinks agentctl_root.
Proof. unfold agentctl_root, sys_getenv, validate_root_ownership_path. shrink. Qed.

(** A daemon that runs has taken the lock of its root. *)
Lemma main_running cwd garbage bind argv lk raw_ turns d w diag lk' d' w' :
  agentd_main cwd garbage bind argv lk raw_ turns d w = ((None, diag, lk'), d', w') →
  ∃ root w1 w2, agentctl_root w = (inr root, w1) ∧ agentctl_root_lock root lk w1 = (inr lk', w2).
Proof.
  unfold agentd_main. rewrite dbind_try, refuse_root_pure.
  destruct (refuse_root w).1; [done|]. destruct argv; [|done].
  rewrite dbind_try. destruct (agentctl_root w) as [[e|root] w1]; [done|]. cbn [fst snd].
  rewrite dbind_try. destruct (agentctl_root_lock root lk w1) as [[e|l] w2] eqn:El; cbn [fst snd].
  { by destruct e. }
  rewrite dbind_try. destruct (ensure_control_token root raw_ w2) as [[e|[]] w3]; cbn [fst snd]; [done|].
  rewrite dbind_try. destruct (setup_signals w3) as [[e|p] w4]; cbn [fst snd]; [done|].
  rewrite dbind_try. destruct (bind_control_socket bind root w4) as [[e|srv] w5]; cbn [fst snd]; [done|].
  rewrite dbind_unfold. destruct (agentd_serve _ _ _ _ _ d w5) as [[[c|] d6] w6]; [done|].
  intros [= <- <- <- <-]. eauto 8.
Qed.

(** Daemons over one root: a process becomes one by running [main] without
    ending, and when it ends, in whatever way, the kernel drops its locks.
    Nobody replaces the lock file by a link. *)
Inductive daemon_step (root : bytes) : locks * gset Z → locks * gset Z → Prop :=
| daemon_starts lk run cwd garbage bind argv raw_ turns d w diag lk' d' w' w1 :
    agentd_main cwd garbage bind argv lk raw_ turns d w = ((None, diag, lk'), d', w') →
    agentctl_root w = (inr root, w1) → plain_lock root w1 →
    daemon_step root (lk, run) (lk', {[w_self w]} ∪ run)
| daemon_ends lk run pid :
    daemon_step root (lk, run) (filter (λ kv, kv.2 ≠ pid) lk, run ∖ {[pid]}).

Definition holders (root : bytes) (st : locks * gset Z) : Prop :=
  ∀ pid, pid ∈ st.2 → st.1 !! lock_path root = Some pid.

Lemma daemon_holds root st st' : daemon_step root st st' → holders root st → holders root st'.
Proof.
  destruct 1 as [lk run cwd garbage bind argv raw_ turns d w diag lk' d' w' w1 E Er Hp|lk run pid];
    intros H p; cbn.
  - apply main_running in E as (root' & w1' & w2 & Er' & El). rewrite Er' in Er.
    injection Er as -> ->. apply lock_taken in El as [Hn ->]; [|done].
    pose proof (shrinks_run _ _ _ _ shrinks_root Er') as (_&_&_&Hs&_). rewrite Hs.
    intros [->%elem_of_singleton|Hin]%elem_of_union; [apply lookup_insert_eq|].
    apply H in Hin. cbn in Hin. congruence.
  - intros [Hin Hne]%elem_of_difference. apply map_lookup_filter_Some. split; [by apply H|].
    cbn. set_solver.
Qed.
Lemma holders_single root lk run : holders root (lk, run) → (size run ≤ 1)%nat.
Proof.
  intros H. destruct (decide (run = ∅)) as [->|Hne]; [by rewrite size_empty; lia|].
  apply set_choose_L in Hne as [p Hp].
  assert (run ⊆ {[p]}) as Hs.
  { intros q Hq. apply H in Hp, Hq. cbn in *. set_solver. }
  apply subseteq_size in Hs. by rewrite size_singleton in Hs.
Qed.

(** A start under a held lock. *)
Lemma lock_held root lk w other c m u :
  w_sched w = [] → w_fs w !! lock_path root = Some (Node (KReg c) m u) →
  lk !! lock_path root = Some other →
  ∃ e w', agentctl_root_lock root lk w = (inl e, w') ∧ w_fs w' = w_fs w ∧
    (blen (lock_path root) < MAX_PATHBUF → e = EAGAIN).
Proof.
  intros Hs Hf Hl. unfold agentctl_root_lock.
  destruct (snprintf_ok MAX_PATHBUF (lock_path root)) as [path|] eqn:Es.
  2:{ eexists _, w. split_and!; [done..|]. intros Hlen.
      unfold snprintf_ok in Es. apply Z.ltb_lt in Hlen. by rewrite Hlen in Es. }
  apply snprintf_ok_Some in Es as [-> _]. cbn [of_option]. rewrite bind_unfold. cbv [mret M_ret].
  assert (sys_open_create (lock_path root) false 384 w =
          (inr (lock_path root), set_fs (<[lock_path root := Node (KReg c) m u]>) w)) as Eo.
  { unfold sys_open_create, sys. rewrite bind_unfold. unfold pop. rewrite Hs, !bind_gets. cbv zeta.
    rewrite (follow_reg _ _ _ _ _ _ Hf), Hf. done. }
  rewrite bind_unfold, Eo, bind_attempt. set (w1 := set_fs _ w).
  assert (sys_flock lk (lock_path root) w1 = (inl EAGAIN, w1)) as ->.
  { unfold sys_flock, sys. rewrite bind_unfold. unfold pop. cbn [w1 set_fs w_sched].
    rewrite Hs, bind_gets, Hl. done. }
  rewrite bind_ignore. eexists _, _. split; [reflexivity|]. split; [|done].
  unfold sys_plain, sys. rewrite bind_unfold. unfold pop. cbn [w1 set_fs w_sched]. rewrite Hs. cbn.
  by apply insert_id.
Qed.

(** C6: at most one daemon runs per data root.  Over every sequence of starts
    and ends (crashes included) of daemons, at most one is running; while one
    is, a further start ends with exit code 1, says that another instance is
    running and changes no file: neither the token, nor the control socket,
    nor the pid file of the running daemon. *)
Theorem daemon_singleton root lk run :
  rtc (daemon_step root) (∅, ∅) (lk, run) →
  (size run ≤ 1)%nat ∧
  ∀ pid cwd garbage bind raw_ turns d w w1 c m u, pid ∈ run →
    refuse_root w = (inr tt, w) → agentctl_root w = (inr root, w1) → w_sched w1 = [] →
    w_fs w1 !! lock_path root = Some (Node (KReg c) m u) → blen (lock_path root) < MAX_PATHBUF →
    ∃ w2, agentd_main cwd garbage bind [] lk raw_ turns d w =
        ((Some 1, #"agentd: another instance is already running under " ++ root ++
                  #" (lockfile held)" ++ nl, lk), d, w2) ∧
      w_fs w2 = w_fs w1.
Proof.
  intros Hr. assert (holders root (lk, run)) as H.
  { revert Hr. generalize (lk, run). apply (rtc_ind_r (holders root)); [intros p Hp; set_solver|].
    intros a b _ Hs IH. by eapply daemon_holds. }
  split; [by eapply holders_single|].
  intros pid cwd garbage bind raw_ turns d w w1 c m u Hp E0 E1 Hs Hf Hlen.
  apply H in Hp. cbn in Hp. destruct (lock_held root lk w1 pid c m u Hs Hf Hp) as (e & w2 & El & Hw & He).
  rewrite (He Hlen) in El. exists w2. split; [|done].
  unfold agentd_main. rewrite dbind_try, E0. cbn [fst snd]. rewrite dbind_try, E1. cbn [fst snd].
  rewrite dbind_try, El. cbn [fst snd]. cbv [mret D_ret]. by rewrite <-!app_assoc.
Qed.

Definition demo_bind (_ : Z) (_ : bytes) : M unit := sys_plain.
Definition demo_rooted : world := set_env (<[ #"AGENTCTL_ROOT" := #"/r"]>) demo_world.
Definition demo_random : errno + bytes := inr (replicate 32 "k"%char).
Lemma demo_start :
  let r := agentd_main #"/" garbage_cfg demo_bind [] ∅ demo_random [] dstate0 demo_rooted in
  (r.1.1.1.1, r.1.1.1.2, r.1.1.2 !! #"/r/agentd.lock") = (None, [], Some 100).
Proof. vm_compute. reflexivity. Qed.
Lemma daemon_singleton_witness :
  ∃ lk, rtc (daemon_step #"/r") (∅, ∅) (lk, {[100]}) ∧ lk !! #"/r/agentd.lock" = Some 100 ∧
    (size ({[100%Z]} : gset Z) ≤ 1)%nat.
Proof.
  pose proof demo_start as H. cbv zeta in H.
  destruct (agentd_main #"/" garbage_cfg demo_bind [] ∅ demo_random [] dstate0 demo_rooted)
    as [[[[c diag] lk] d'] w'] eqn:E.
  cbn [fst snd] in H. injection H as -> -> Hl.
  assert (rtc (daemon_step #"/r") (∅, ∅) (lk, {[100]})) as Hr.
  { replace ({[100]} : gset Z) with ({[w_self demo_rooted]} ∪ ∅ : gset Z) by (by rewrite union_empty_r_L).
    eapply rtc_l; [|apply rtc_refl].
    destruct (agentctl_root demo_rooted) as [[e|root] w1] eqn:Er; [vm_compute in Er; discriminate|].
    assert (root = #"/r") as -> by (apply (f_equal fst) in Er; vm_compute in Er; injection Er as <-; reflexivity).
    eapply daemon_starts; [exact E|exact Er|].
    intros t m u Hf. apply (f_equal snd) in Er. cbn [snd] in Er. subst w1.
    vm_compute in Hf. discriminate. }
  exists lk. split_and!; [done..|]. by apply (daemon_singleton #"/r" lk {[100]}).
Defined.

(** ** A slot released in the middle of a pass

    [release_slot] clears the slot with [memset], which leaves 0 in
    [broker_fd]; the guard of the main loop only skips negative descriptors.
    A channel that fired before the slot was released (by the stop command
    served in the same pass) is then served on descriptor 0, and an error or
    end of file there closes it. *)
Lemma released_slot_served root e i d w r w1 :
  (i < length (g_agents d))%nat →
  let d1 := (release_slot i d w).1.2 in
  retry_eintr (sys_recvmsg 0 512 4) w = (inl r, w1) →
  serve_broker root e i d1 w =
    (tt, DState (alter (set_broker_fd (-1)) i (g_agents d1)) (g_shutdown d1) (g_watches d1),
     (sys_close 0 w1).2).
Proof.
  intros Hi d1 Er.
  assert (g_agents d1 !! i = Some zero_slot) as Hz.
  { unfold d1, release_slot. rewrite dbind_slot, dbind_unfold.
    pose proof (dkeeps_close_fields (default zero_slot (g_agents d !! i)) d w) as Hk.
    destruct (close_fields _ d w) as [[x d2] w2]. destruct Hk as [-> _]. cbn.
    rewrite list_lookup_alter_eq. apply lookup_lt_is_Some in Hi as [m ->]. done. }
  unfold serve_broker. rewrite dbind_slot, Hz. cbn [default from_option id broker_fd zero_slot].
  change (0 <? 0) with false. cbn beta iota. unfold broker_handle_event. rewrite dbind_slot, Hz.
  cbn [default from_option id broker_fd zero_slot]. rewrite dbind_try, Er. cbn [fst snd].
  unfold drop_channel. rewrite dbind_slot, Hz. cbn [default from_option id broker_fd zero_slot].
  rewrite dbind_unfold. unfold run_. by destruct (sys_close 0 w1).
Qed.
