(* ===== verification/Runtime.v ===== *)
(** * The agent runtimes' shared shell

    What fanout-agent.c and reviewer-agent.c have in common: the listener and
    the accept call of ipc.c, the transport-independent send of common.c, the
    signal flags, and the front half of their message loops (receive one
    message over either transport, identify the sender, apply the receive
    policy).  A runtime never aborts on an error: its functions catch every
    [errno], so the computations below end in [inr]. *)

From S2P Require Import Prelude CLib Posix Names Common Broker Ipc Agentfs Profiles Tasks Enforcement.

(** ** Sending to an agent over its transport *)

Inductive send_res := Sent | NoListener | SendFailed (e : errno).

Section transport.
Context (root : bytes) (sys_connect : bytes → M Z).

Definition send_to_agent_uds (target verb reply_to task_id payload : bytes) : M send_res :=
  r ← attempt (ipc_send_oneshot root sys_connect target verb reply_to task_id payload);
  mret (match r with
        | inr (IPC_OK _) => Sent
        | inr IPC_PEER_GONE => NoListener
        | inr IPC_PROTO_VIOLATION => SendFailed EPROTO
        | inl e => SendFailed e
        end).

(** The target's transport decides, per call; a failed lookup falls back to
    the socket. *)
Definition send_to_agent_ex (target verb reply_to task_id payload : bytes) (k : kstate)
    : M (send_res * kstate) :=
  t ← attempt (transport_resolve root target);
  match t with
  | inr (TransportCfg TRANSPORT_AGENTFS _) =>
      let '(r, k') := agentfs_send target verb reply_to task_id payload k in
      mret (match r with
            | inr (Some _) => Sent | inr None => NoListener | inl e => SendFailed e
            end, k')
  | _ => r ← send_to_agent_uds target verb reply_to task_id payload; mret (r, k)
  end.
Definition send_to_agent (target verb payload : bytes) (k : kstate) : M (send_res * kstate) :=
  send_to_agent_ex target verb [] [] payload k.
End transport.

(** ** Listening and accepting

    [sys_bind] stands for [bind] of a socket to a path, [sys_accept] for
    [accept] followed by [SO_PEERCRED]. *)

Section listen.
Context (root : bytes).
Context (sys_bind : Z → bytes → M unit) (sys_accept : Z → M (Z * peer_id_t)).

Definition ipc_listen (agent_name : bytes) : M Z :=
  inherited ← sys_getenv #"AGENTCTL_INBOX_FD";
  fds ← gets w_fds;
  if bool_decide (inherited = Some #"4") && bool_decide (is_Some (fds !! INBOX_FD_SLOT))
  then mret INBOX_FD_SLOT
  else
    path ← sock_path_for root agent_name;
    ignore (sys_unlink path) ;;
    fd ← sys (install FdOther);
    r ← attempt (guard_ ENAMETOOLONG (blen path <? SUN_PATH_MAX) ;; sys_bind fd path);
    match r with
    | inl e => ignore (sys_close fd) ;; throw e
    | inr _ =>
        ignore (sys_fchmod path 384) ;;
        r ← attempt sys_plain;                    (* listen(fd, 8) *)
        match r with
        | inl e => ignore (sys_close fd) ;; throw e
        | inr _ => mret fd
        end
    end.

(** [None]: the supervisor closed the delivery channel. *)
Definition ipc_accept (server_fd : Z) : M (option (Z * peer_id_t)) :=
  if server_fd =? INBOX_FD_SLOT then ipc_accept_inbox
  else
    r ← retry_eintr (sys_accept server_fd);
    ignore sys_plain ;;
    mret (Some r).
End listen.

(** Registering with agentfs and opening the inbox: the address of the
    kernel object stands for the descriptor. *)
Definition mount_or_default (mount : bytes) : bytes :=
  match mount with [] => default_mount | _ => mount end.
Definition agentfs_listen (cur : task) (agent mount : bytes) (alloc_ok : bool)
    (fail_at : option nat) (k : kstate) : (errno + Z) * kstate :=
  if negb (blen (mount_or_default mount ++ #"/register") <? MAX_PATHBUF) then (inl ENAMETOOLONG, k)
  else
    match register_write cur agent true alloc_ok fail_at k with
    | (inl e, k') => (inl e, k')
    | (inr _, k') =>
        if negb (blen (mount_or_default mount ++ #"/agents/" ++ agent ++ #"/inbox") <? MAX_PATHBUF)
        then (inl ENAMETOOLONG, k')
        else match find_inbox k' agent with
             | Some addr => (inr addr, k')
             | None => (inl ENOENT, k')
             end
    end.

(** ** The runtime's state *)

Inductive server := SrvUds (fd : Z) | SrvAgentfs (addr : Z).

Record rt := Rt {
  rt_cfg : profile_cfg_t;
  rt_shutdown : bool;            (** [shutdown_flag] *)
  rt_reload : bool;
  rt_snapshot : bool;
  rt_rotate : bool;
  rt_messages : Z;               (** [messages_total] *)
  rt_last_verb : bytes;          (** [last_verb_seen] *)
  rt_last_at : Z;                (** [last_message_at]; only the reviewer shows it *)
  rt_delivered : Z;              (** [deliveries_total] (fanout) *)
  rt_skipped : Z;                (** [deliveries_skipped] (fanout) *)
  rt_seq : seq_table;            (** [g_seq] of tasks.c *)
  rt_kernel : kstate             (** the agentfs mount *)
}.

Definition set_cfg (c : profile_cfg_t) (s : rt) : rt :=
  Rt c (rt_shutdown s) (rt_reload s) (rt_snapshot s) (rt_rotate s) (rt_messages s)
     (rt_last_verb s) (rt_last_at s) (rt_delivered s) (rt_skipped s) (rt_seq s) (rt_kernel s).
Definition set_shutdown (s : rt) : rt :=
  Rt (rt_cfg s) true (rt_reload s) (rt_snapshot s) (rt_rotate s) (rt_messages s)
     (rt_last_verb s) (rt_last_at s) (rt_delivered s) (rt_skipped s) (rt_seq s) (rt_kernel s).
Definition clear_flags (s : rt) : rt :=
  Rt (rt_cfg s) (rt_shutdown s) false false false (rt_messages s)
     (rt_last_verb s) (rt_last_at s) (rt_delivered s) (rt_skipped s) (rt_seq s) (rt_kernel s).
Definition set_kernel (k : kstate) (s : rt) : rt :=
  Rt (rt_cfg s) (rt_shutdown s) (rt_reload s) (rt_snapshot s) (rt_rotate s) (rt_messages s)
     (rt_last_verb s) (rt_last_at s) (rt_delivered s) (rt_skipped s) (rt_seq s) k.
Definition set_seq (t : seq_table) (s : rt) : rt :=
  Rt (rt_cfg s) (rt_shutdown s) (rt_reload s) (rt_snapshot s) (rt_rotate s) (rt_messages s)
     (rt_last_verb s) (rt_last_at s) (rt_delivered s) (rt_skipped s) t (rt_kernel s).
(** [messages_total++] and [last_verb_seen]. *)
Definition count_message (verb : bytes) (now : Z) (s : rt) : rt :=
  Rt (rt_cfg s) (rt_shutdown s) (rt_reload s) (rt_snapshot s) (rt_rotate s)
     (u64 (rt_messages s + 1)) (take 63 verb) now (rt_delivered s) (rt_skipped s)
     (rt_seq s) (rt_kernel s).
Definition count_deliveries (sent skipped : Z) (s : rt) : rt :=
  Rt (rt_cfg s) (rt_shutdown s) (rt_reload s) (rt_snapshot s) (rt_rotate s) (rt_messages s)
     (rt_last_verb s) (rt_last_at s) (u64 (rt_delivered s + sent)) (u64 (rt_skipped s + skipped))
     (rt_seq s) (rt_kernel s).

(** The handlers [on_term], [on_hup], [on_usr1], [on_usr2]. *)
Inductive signal_t := SigTerm | SigHup | SigUsr1 | SigUsr2.
Definition on_signal (s : rt) (sg : signal_t) : rt :=
  match sg with
  | SigTerm => set_shutdown s
  | SigHup => Rt (rt_cfg s) (rt_shutdown s) true (rt_snapshot s) (rt_rotate s) (rt_messages s)
     (rt_last_verb s) (rt_last_at s) (rt_delivered s) (rt_skipped s) (rt_seq s) (rt_kernel s)
  | SigUsr1 => Rt (rt_cfg s) (rt_shutdown s) (rt_reload s) true (rt_rotate s) (rt_messages s)
     (rt_last_verb s) (rt_last_at s) (rt_delivered s) (rt_skipped s) (rt_seq s) (rt_kernel s)
  | SigUsr2 => Rt (rt_cfg s) (rt_shutdown s) (rt_reload s) (rt_snapshot s) true (rt_messages s)
     (rt_last_verb s) (rt_last_at s) (rt_delivered s) (rt_skipped s) (rt_seq s) (rt_kernel s)
  end.

(** What one turn of the loop meets: the signals that arrived before it and
    during [poll], and what [poll] returned. *)
Inductive poll_res := PollErr (e : errno) | PollTimeout | PollReady.
Record tick := Tick { tk_before : list signal_t; tk_during : list signal_t; tk_poll : poll_res }.

(** [poll]'s timeout argument. *)
Definition poll_timeout_ms (cfg : profile_cfg_t) : Z :=
  if 0 <? idle_timeout_sec cfg then idle_timeout_sec cfg * 1000 else -1.

(** ** The front half of the loop *)

(** What came in: nothing usable ([stop]: leave the loop), or a message. *)
Record message := Message {
  m_hdr : agent_msg_hdr;
  m_payload : bytes;
  m_sender : bytes;              (** [sender_name] *)
  m_peer : peer_id_t;
  m_client : option Z            (** [client_fd]; none over agentfs *)
}.
Inductive rx := RxNone (stop : bool) | RxMsg (m : message).

Definition close_client (c : option Z) : M unit :=
  match c with Some fd => ignore (sys_close fd) | None => mret tt end.

Section runtime.
Context (root name : bytes) (start ppid : Z).
Context (sys_accept : Z → M (Z * peer_id_t)).

Definition audit (msg : bytes) : M unit := ignore (audit_log root name msg).
Definition set_state (id : bytes) (st : task_state_t) : M unit :=
  ignore (task_set_state root name id st).
Definition set_status (id status : bytes) : M unit := ignore (task_set_status root name id status).
Definition event (id msg : bytes) : M unit := ignore (task_append_event root name id msg).

(** The three flags, drained before [poll]; [extra] is the runtime's part of
    the snapshot text, cut by [snprintf] at 768. *)
Definition drain_flags (extra : rt → bytes) (s : rt) : M rt :=
  s ← (if rt_reload s then
         do_reload root name ;;
         cfg ← profile_load_for_agent root name (rt_cfg s); mret (set_cfg cfg s)
       else mret s);
  (if rt_rotate s then ignore (do_rotate_artifacts root name) else mret tt) ;;
  (if rt_snapshot s then ignore (snapshot_state root start ppid name (snprintf_trunc 768 (extra s)))
   else mret tt) ;;
  mret (clear_flags s).

(** An interrupted call ends the loop when [shutdown_flag] is set; other
    errors are logged. *)
Definition rx_error (e : errno) (what : bytes) (s : rt) : M (rx * rt) :=
  if bool_decide (e = EINTR) then mret (RxNone (rt_shutdown s), s)
  else audit (what ++ strerror e) ;; mret (RxNone false, s).

(** The sender's name: what the supervisor vouched for, else the agent whose
    pid file names the peer, else ["?"] (["-"] with no peer pid). *)
Definition sender_of (peer : peer_id_t) : M bytes :=
  match pi_name peer with
  | [] =>
      if 0 <? pi_pid peer then
        r ← attempt (resolve_agent_by_pid root (pi_pid peer) 64);
        mret (match r with inr n => n | inl _ => #"?" end)
      else mret #"-"
  | n => mret (snprintf_trunc 64 n)
  end.

Definition describe_peer (sender : bytes) (peer : peer_id_t) : bytes :=
  sender ++ #" pid=" ++ fmt_d (pi_pid peer) ++ #" uid=" ++ fmt_d (pi_uid peer).

(** Over agentfs the sender is the message's own REPLY-TO.  A read that would
    sleep is ended by a signal. *)
Definition receive_agentfs (addr : Z) (s : rt) : M (rx * rt) :=
  match find (λ a, a_addr a =? addr) (k_agents (rt_kernel s)) with
  | None => rx_error EBADF #"agentfs_recv error: " s
  | Some a =>
      let '(r, a') := agentfs_recv a false in
      let s := set_kernel (Agentfs.set_agents (upd_agent addr (λ _, a')) (rt_kernel s)) s in
      match r with
      | None => rx_error EINTR [] s
      | Some (inl e) => rx_error e #"agentfs_recv error: " s
      | Some (inr (hdr, payload)) =>
          let sender := match ah_reply_to hdr with [] => #"?" | n => snprintf_trunc 64 n end in
          mret (RxMsg (Message hdr payload sender peer0 None), s)
      end
  end.

Definition receive_uds (server_fd : Z) (s : rt) : M (rx * rt) :=
  c ← attempt (ipc_accept sys_accept server_fd);
  match c with
  | inl e => rx_error e #"accept error: " s
  | inr None => mret (RxNone true, set_shutdown s)
  | inr (Some (client_fd, peer)) =>
      sender ← sender_of peer;
      m ← attempt (read_message client_fd);
      match m with
      | inl e =>
          audit (#"recv error from=" ++ describe_peer sender peer ++ #": " ++ strerror e) ;;
          ignore (sys_close client_fd) ;;
          mret (RxNone false, s)
      | inr (hdr, payload) => mret (RxMsg (Message hdr payload sender peer (Some client_fd)), s)
      end
  end.

Definition receive (srv : server) (s : rt) : M (rx * rt) :=
  match srv with
  | SrvAgentfs addr => receive_agentfs addr s
  | SrvUds fd => receive_uds fd s
  end.

(** The policy text, re-read for every message. *)
Definition load_caps : M bytes :=
  r ← attempt (p ← agent_path root name #"policy"; read_small_file p 8192);
  mret (match r with inr d => cstr d | inl _ => [] end).

(** Receiver-side authorisation, then the audit line, the counters and the
    health probe.  [None]: the message has been dealt with. *)
Definition admit_message (caps : bytes) (m : message) (s : rt) : M (option unit * rt) :=
  let hdr := m_hdr m in
  if recv_is_denied caps (m_sender m) then
    audit (#"reject verb=" ++ ah_verb hdr ++ #" from=" ++ describe_peer (m_sender m) (m_peer m) ++
           #" (deny recv:)") ;;
    close_client (m_client m) ;;
    mret (None, s)
  else
    audit (#"recv verb=" ++ ah_verb hdr ++ #" from=" ++ describe_peer (m_sender m) (m_peer m) ++
           #" len=" ++ fmt_d (ah_payload_len hdr)) ;;
    now ← sys_time;
    let s := count_message (ah_verb hdr) now s in
    if bytes_eqb (ah_verb hdr) #"ping" then
      match m_client m with
      | Some fd =>
          pid ← gets w_self;
          ignore (retry_eintr (sys_sendmsg fd (snprintf_trunc 64
                    (#"pong agent=" ++ name ++ #" pid=" ++ fmt_d pid ++ nl)) [])) ;;
          ignore (sys_close fd)
      | None => mret tt
      end ;;
      mret (None, s)
    else mret (Some tt, s).

(** [poll] and what precedes it: [true] when a message is waiting, [false]
    to go round; the second component leaves the loop. *)
Definition await_message (extra : rt → bytes) (idle_note : bytes) (tk : tick) (s : rt) : M ((bool * bool) * rt) :=
  s ← drain_flags extra (foldl on_signal s (tk_before tk));
  let s := foldl on_signal s (tk_during tk) in
  match tk_poll tk with
  | PollErr EINTR => mret ((false, rt_shutdown s), s)
  | PollErr e => audit (#"poll error: " ++ strerror e) ;; mret ((false, false), s)
  | PollTimeout =>
      if bool_decide (dispatch (rt_cfg s) = DISPATCH_SINGLE_SHOT) then
        audit (#"idle " ++ fmt_d (idle_timeout_sec (rt_cfg s)) ++ #"s; exiting" ++ idle_note) ;;
        mret ((false, true), s)
      else mret ((false, false), s)
  | PollReady => mret ((true, false), s)
  end.

(** ** Start and shutdown

    [cur] is the calling task as agentfs sees it; [malloc] succeeds. *)

Definition open_server (sys_bind : Z → bytes → M unit) (cur : task) (tcfg : transport_cfg_t) (k : kstate)
    : M (option server * kstate) :=
  match tc_kind tcfg with
  | TRANSPORT_AGENTFS =>
      match agentfs_listen cur name (tc_mount tcfg) true None k with
      | (inr addr, k) => mret (Some (SrvAgentfs addr), k)
      | (inl e, k) =>
          audit (#"agentfs_listen(" ++ tc_mount tcfg ++ #") failed: " ++ strerror e) ;; mret (None, k)
      end
  | TRANSPORT_UDS =>
      r ← attempt (ipc_listen root sys_bind name);
      match r with
      | inr fd => mret (Some (SrvUds fd), k)
      | inl e => audit (#"create_server_socket failed: " ++ strerror e) ;; mret (None, k)
      end
  end.

(** [inl code]: [main] returns before the loop.  [transport_resolve] leaves
    the socket default behind when it fails. *)
Definition runtime_start (sys_bind : Z → bytes → M unit) (cur : task) (garbage : profile_cfg_t)
    (banner : profile_cfg_t → transport_cfg_t → Z → bytes) (k : kstate) : M (Z + (server * rt)) :=
  r ← attempt refuse_root;
  match r with
  | inl _ => mret (inl 1)
  | inr _ =>
      if negb (validate_name name) then mret (inl 2)
      else
        cfg ← profile_load_for_agent root name garbage;
        t ← attempt (transport_resolve root name);
        let tcfg := match t with inr t => t | inl _ => TransportCfg TRANSPORT_UDS [] end in
        r ← open_server sys_bind cur tcfg k;
        match r with
        | (None, _) => mret (inl 1)
        | (Some srv, k) =>
            ignore (write_status root name #"idle") ;;
            pid ← gets w_self;
            audit (banner cfg tcfg pid) ;;
            ignore (enforcement_audit_status root name) ;;
            n ← task_recover_interrupted root name;
            (if 0 <? n then audit (#"recovery: marked " ++ fmt_d n ++ #" interrupted task(s) failed")
             else mret tt) ;;
            mret (inr (srv, Rt cfg false false false false 0 [] 0 0 0 [] k))
        end
  end.

Definition runtime_stop (label : bytes) (srv : server) : M unit :=
  ignore (write_status root name #"stopping") ;;
  audit (label ++ #" shutting down") ;;
  match srv with
  | SrvAgentfs _ => mret tt
  | SrvUds fd =>
      ignore (sys_close fd) ;;
      r ← attempt (agent_path root name #"agent.sock");
      match r with inr p => ignore (sys_unlink p) | inl _ => mret tt end
  end ;;
  ignore (write_status root name #"stopped").
End runtime.

(** ** Robustness: a computation that always returns a value *)

Definition total {A} (m : M A) : Prop := ∀ w, ∃ a w', m w = (inr a, w').

Create HintDb total.
#[export] Hint Constants Opaque : total.

Lemma total_ret {A} (a : A) : total (mret a).
Proof. intros w. by exists a, w. Qed.
Lemma total_gets {A} (f : world → A) : total (gets f).
Proof. intros w. by exists (f w), w. Qed.
Lemma total_bind {A B} (m : M A) (f : A → M B) : total m → (∀ a, total (f a)) → total (m ≫= f).
Proof.
  intros Hm Hf w. destruct (Hm w) as (a & w1 & E). destruct (Hf a w1) as (b & w2 & E2).
  exists b, w2. by rewrite bind_unfold, E.
Qed.
Lemma total_attempt {A} (m : M A) : total (attempt m).
Proof. intros w. unfold attempt. destruct (m w) as [r w']. by exists r, w'. Qed.
Lemma total_ignore {A} (m : M A) : total (ignore m).
Proof. intros w. unfold ignore. destruct (m w) as [r w']. by exists tt, w'. Qed.
Lemma total_if {A} (b : bool) (m1 m2 : M A) : total m1 → total m2 → total (if b then m1 else m2).
Proof. by destruct b. Qed.
#[export] Hint Resolve total_ret total_gets total_attempt total_ignore : total.

Ltac total_step :=
  match goal with
  | |- total (mbind _ _) => apply total_bind
  | |- total (if _ then _ else _) => apply total_if
  | |- total (match ?x with _ => _ end) => destruct x
  | |- total (let _ := _ in _) => cbv zeta
  | |- ∀ _, total _ => intros ?
  | |- total _ => progress eauto with total nocore
  end.
Ltac totality := repeat total_step.

Lemma total_load_by_name n out : total (profile_load_by_name n out).
Proof. unfold profile_load_by_name. totality. Qed.
#[export] Hint Resolve total_load_by_name : total.
Lemma total_load_for_agent root n out : total (profile_load_for_agent root n out).
Proof. unfold profile_load_for_agent, agent_profile_name. totality. Qed.
Lemma total_count_ids ids f : (∀ id, total (f id)) → total (count_ids ids f).
Proof. intros Hf. induction ids; simpl; totality. Qed.
Lemma total_recover root n : total (task_recover_interrupted root n).
Proof.
  unfold task_recover_interrupted, task_ids. apply total_bind; [totality|intros ids].
  apply total_count_ids. intros id. unfold recover_one. totality.
Qed.
Lemma total_do_reload root n : total (do_reload root n).
Proof. unfold do_reload. totality. Qed.
Lemma total_time : total sys_time.
Proof. unfold sys_time. totality. Qed.
#[export] Hint Resolve total_load_for_agent total_recover total_do_reload total_time : total.
Lemma total_send root conn t v r i p k : total (send_to_agent_ex root conn t v r i p k).
Proof. unfold send_to_agent_ex, send_to_agent_uds. totality. Qed.
Lemma total_close_client c : total (close_client c).
Proof. unfold close_client. totality. Qed.
#[export] Hint Resolve total_send total_close_client : total.

Lemma total_audit root n m : total (audit root n m).
Proof. unfold audit. totality. Qed.
#[export] Hint Resolve total_audit : total.
Lemma total_rx_error root n e t s : total (rx_error root n e t s).
Proof. unfold rx_error. totality. Qed.
Lemma total_sender_of root peer : total (sender_of root peer).
Proof. unfold sender_of. totality. Qed.
#[export] Hint Resolve total_rx_error total_sender_of : total.
Lemma total_receive_agentfs root n a s : total (receive_agentfs root n a s).
Proof.
  unfold receive_agentfs. destruct (find _ _) as [ag|]; [|totality].
  destruct (agentfs_recv ag false) as [[[e|[hdr pl]]|] a']; totality.
Qed.
Lemma total_receive_uds root n acc fd s : total (receive_uds root n acc fd s).
Proof. unfold receive_uds. totality. Qed.
#[export] Hint Resolve total_receive_agentfs total_receive_uds : total.
Lemma total_receive root n acc srv s : total (receive root n acc srv s).
Proof. unfold receive. totality. Qed.
Lemma total_await root n st pp extra note tk s : total (await_message root n st pp extra note tk s).
Proof. unfold await_message, drain_flags. totality. Qed.
Lemma total_load_caps root n : total (load_caps root n).
Proof. unfold load_caps. totality. Qed.
Lemma total_admit root n caps m s : total (admit_message root n caps m s).
Proof. unfold admit_message. totality. Qed.
Lemma total_start root n bind cur g b k : total (runtime_start root n bind cur g b k).
Proof. unfold runtime_start, open_server. totality. Qed.
Lemma total_stop root n l srv : total (runtime_stop root n l srv).
Proof. unfold runtime_stop. totality. Qed.
Lemma total_set_state root n id st : total (set_state root n id st).
Proof. unfold set_state. totality. Qed.
Lemma total_set_status root n id st : total (set_status root n id st).
Proof. unfold set_status. totality. Qed.
Lemma total_event root n id st : total (event root n id st).
Proof. unfold event. totality. Qed.
#[export] Hint Resolve total_receive total_await total_load_caps total_admit total_start total_stop
  total_set_state total_set_status total_event : total.

(** ** What a computation returns *)

Definition post {A} (P : A → Prop) (m : M A) : Prop := ∀ w a w', m w = (inr a, w') → P a.

Create HintDb post.
#[export] Hint Constants Opaque : post.

Lemma post_ret {A} (P : A → Prop) a : P a → post P (mret a).
Proof. intros H w b w' [= -> ->]. done. Qed.
Lemma post_bind {A B} (Q : A → Prop) (P : B → Prop) (m : M A) (f : A → M B) :
  post Q m → (∀ a, Q a → post P (f a)) → post P (m ≫= f).
Proof.
  intros Hm Hf w b w'. rewrite bind_unfold. destruct (m w) as [[e|a] w1] eqn:E; [done|].
  intros E'. exact (Hf a (Hm _ _ _ E) _ _ _ E').
Qed.
Lemma post_then {A B} (P : B → Prop) (m : M A) (f : A → M B) :
  (∀ a, post P (f a)) → post P (m ≫= f).
Proof. intros Hf. apply (post_bind (λ _, True)); [by intros w|auto]. Qed.

(** Once [shutdown_flag] is set it stays set. *)
Definition downward (s s' : rt) : Prop := rt_shutdown s = true → rt_shutdown s' = true.

Lemma on_signals_down s sgs : downward s (foldl on_signal s sgs).
Proof.
  revert s. induction sgs as [|sg sgs IH]; intros s Hs; [done|]. simpl. apply IH. by destruct sg.
Qed.
Lemma on_signals_term s sgs : SigTerm ∈ sgs → rt_shutdown (foldl on_signal s sgs) = true.
Proof.
  revert s. induction sgs as [|sg sgs IH]; intros s Hin; [by apply not_elem_of_nil in Hin|].
  apply elem_of_cons in Hin as [<-|Hin]; simpl; [by apply on_signals_down|by apply IH].
Qed.

(** Walk a body down to its [mret]s. *)
Ltac post_step :=
  match goal with
  | |- post _ (mret _) => apply post_ret
  | |- post _ (mbind _ _) => apply post_then
  | |- post _ (match ?x with _ => _ end) => destruct x
  | |- post _ (let _ := _ in _) => cbv zeta
  | |- ∀ _, post _ _ => intros ?
  | |- post _ _ => progress eauto with post nocore
  end.
Ltac postcond := repeat post_step; try (unfold downward in *; cbn in *; tauto).

Lemma drain_flags_down root n st pp extra s : post (downward s) (drain_flags root n st pp extra s).
Proof.
  unfold drain_flags. apply (post_bind (downward s)); [postcond|]. intros s1 H1. postcond.
Qed.

Lemma await_down root n st pp extra note tk s :
  post (λ r, downward s r.2 ∧ (SigTerm ∈ tk_before tk ++ tk_during tk → rt_shutdown r.2 = true))
       (await_message root n st pp extra note tk s).
Proof.
  unfold await_message. eapply post_bind; [apply drain_flags_down|]. intros s1 H1.
  set (s2 := foldl on_signal s1 (tk_during tk)).
  assert (downward s s2 ∧ (SigTerm ∈ tk_before tk ++ tk_during tk → rt_shutdown s2 = true)) as H2.
  { split.
    - intros Hs. by apply on_signals_down, H1, on_signals_down.
    - intros [Hin|Hin]%elem_of_app; [|by apply on_signals_term].
      by apply on_signals_down, H1, on_signals_term. }
  cbv zeta. postcond.
Qed.

Lemma rx_error_down root n e t s : post (λ r, downward s r.2) (rx_error root n e t s).
Proof. unfold rx_error. postcond. Qed.
#[export] Hint Resolve rx_error_down : post.

Lemma receive_down root n acc srv s : post (λ r, downward s r.2) (receive root n acc srv s).
Proof.
  unfold receive. destruct srv as [fd|addr].
  - unfold receive_uds. postcond.
  - unfold receive_agentfs. destruct (find _ _) as [a|]; [|postcond].
    destruct (agentfs_recv a false) as [[[e|[hdr pl]]|] a'].
    1,3: apply (rx_error_down root n _ _ (set_kernel _ s)).
    postcond.
Qed.
Lemma admit_down root n caps m s : post (λ r, downward s r.2) (admit_message root n caps m s).
Proof. unfold admit_message. postcond. Qed.
