(* ===== verification/Fanout.v ===== *)
(** * fanout-agent.c: the delegating runtime

    For every message it creates a task, forwards the message to each agent
    its policy allows ([allow send:<name>], less the [deny send:] entries),
    records one pending entry per accepted delegation, and completes the task
    when the last downstream's [result] message has come back. *)

From S2P Require Import Prelude CLib Posix Names Common Broker Ipc Agentfs Profiles Tasks Enforcement Runtime.

Definition MAX_TARGETS : nat := 16.

(** ** The delegation targets *)

(** One line of the policy: [(is_allow, target)]. *)
Definition send_entry (line : bytes) : option (bool * bytes) :=
  let line := drop_while isspace line in
  kw ← match strip_prefix #"allow " line with
       | Some k => Some (true, k)
       | None => match strip_prefix #"deny " line with
                 | Some k => Some (false, k)
                 | None => None
                 end
       end;
  match strip_prefix #"send:" (drop_while isspace kw.2) with
  | Some (c :: t) => Some (kw.1, rtrim isspace (c :: t))
  | _ => None
  end.

Record collect := Collect { co_targets : list bytes; co_denies : list bytes; co_deny_all : bool }.

Definition collect_line (st : collect) (line : bytes) : collect :=
  let '(Collect targets denies all) := st in
  match send_entry line with
  | None => st
  | Some (is_allow, t) =>
      if bytes_eqb t #"*" && negb is_allow then Collect targets denies true
      else if (0 <? blen t) && (blen t <? MAX_NAME) && negb (first_is "*" t) then
        if is_allow && (length targets <? MAX_TARGETS)%nat then Collect (targets ++ [t]) denies all
        else if negb is_allow && (length denies <? MAX_TARGETS)%nat then Collect targets (denies ++ [t]) all
        else st
      else st
  end.

Definition collect_send_targets (caps_text : bytes) : list bytes :=
  let '(Collect targets denies all) :=
    line_loop collect_line (S (length caps_text)) (Collect [] [] false) caps_text in
  if all then [] else filter (λ t, t ∉ denies) targets.

(** ** Handling one message *)

Section fanout.
Context (root name : bytes) (start ppid : Z) (sys_connect : bytes → M Z).
Context (sys_bind : Z → bytes → M unit) (sys_accept : Z → M (Z * peer_id_t)).

#[local] Abbreviation audit := (Runtime.audit root name).
#[local] Abbreviation set_state := (Runtime.set_state root name).
#[local] Abbreviation set_status := (Runtime.set_status root name).
#[local] Abbreviation event := (Runtime.event root name).

(** A downstream's [result] reply to the task [id]: its pending entry goes,
    and the last one completes the task.  [pending_count_for_task] is [-1] on
    error. *)
Definition note_reply (id sender : bytes) : M Z :=
  ignore (pending_remove root name id sender) ;;
  r ← attempt (pending_count_for_task root name id);
  let remaining := match r with inr n => n | inl _ => -1 end in
  audit (#"result task=" ++ id ++ #" from=" ++ sender ++ #" remaining=" ++ fmt_d remaining) ;;
  event id (#"reply from=" ++ sender ++ #" remaining=" ++ fmt_d remaining) ;;
  mret remaining.
Definition complete_task (id : bytes) : M unit :=
  set_state id TASK_COMPLETED ;;
  set_status id #"completed" ;;
  event id #"completed (all downstreams replied)".
Definition record_reply (id sender : bytes) : M unit :=
  remaining ← note_reply id sender;
  if remaining =? 0 then complete_task id else mret tt.
Definition handle_result (hdr : agent_msg_hdr) (sender : bytes) : M unit :=
  match ah_task_id hdr with
  | [] => audit #"result without TASK-ID dropped"
  | id => record_reply id sender
  end.

(** The delivery loop: [sent], [skipped], [failed]. *)
Record tally := Tally { ta_sent : Z; ta_skipped : Z; ta_failed : Z }.

Definition deliver_one (id verb payload target : bytes) (st : tally * kstate) : M (tally * kstate) :=
  let '(Tally sent skipped failed, k) := st in
  r ← send_to_agent_ex root sys_connect target verb name id payload k;
  match r with
  | (Sent, k) =>
      ignore (pending_add root name id target) ;;
      audit (#"delegated task=" ++ id ++ #" -> " ++ target) ;;
      event id (#"delegated -> " ++ target) ;;
      mret (Tally (sent + 1) skipped failed, k)
  | (NoListener, k) =>
      audit (#"fanout -> " ++ target ++ #" skipped (no listener)") ;;
      event id (#"skipped -> " ++ target ++ #" (no listener)") ;;
      mret (Tally sent (skipped + 1) failed, k)
  | (SendFailed e, k) =>
      audit (#"fanout -> " ++ target ++ #" failed: " ++ strerror e) ;;
      event id (#"failed -> " ++ target ++ #": " ++ strerror e) ;;
      mret (Tally sent skipped (failed + 1), k)
  end.

Fixpoint deliver (id verb payload : bytes) (targets : list bytes) (st : tally * kstate)
    : M (tally * kstate) :=
  match targets with
  | [] => mret st
  | t :: ts => st ← deliver_one id verb payload t st; deliver id verb payload ts st
  end.

Definition delegate (caps id : bytes) (hdr : agent_msg_hdr) (payload : bytes) (s : rt) : M rt :=
  let targets := collect_send_targets caps in
  match targets with
  | [] =>
      audit (#"no allowed send: targets; verb=" ++ ah_verb hdr ++ #" dropped") ;;
      set_state id TASK_FAILED ;;
      set_status id #"failed: no send: targets" ;;
      event id #"failed: no send: targets" ;;
      mret s
  | _ =>
      ignore (write_status root name #"processing") ;;
      set_state id TASK_DELEGATED ;;
      set_status id #"delegated" ;;
      audit (#"fanout begin verb=" ++ ah_verb hdr ++ #" bytes=" ++ fmt_d (ah_payload_len hdr) ++
             #" targets=" ++ fmt_d (blen targets) ++ #" task=" ++ id) ;;
      event id (#"delegating verb=" ++ ah_verb hdr ++ #" to " ++ fmt_d (blen targets) ++ #" target(s)") ;;
      r ← deliver id (ah_verb hdr) payload targets (Tally 0 0 0, rt_kernel s);
      let '(Tally sent skipped failed, k) := (r : tally * kstate) in
      let s := count_deliveries sent skipped (set_kernel k s) in
      (if sent =? 0 then
         set_state id TASK_FAILED ;;
         set_status id #"failed: no downstream accepted delegation" ;;
         event id #"no downstream accepted; task failed"
       else mret tt) ;;
      audit (#"fanout done sent=" ++ fmt_d sent ++ #" skipped=" ++ fmt_d skipped ++
             #" failed=" ++ fmt_d failed) ;;
      ignore (write_status root name #"idle") ;;
      mret s
  end.

(** The new task, or the reason it could not be made. *)
Definition new_task (m : message) (s : rt) : M ((errno + bytes) * rt) :=
  r ← attempt (task_alloc_id root name MAX_TASK_ID (rt_seq s));
  match r with
  | inl e => mret (inl e, s)
  | inr (id, t) =>
      let s := set_seq t s in
      let hdr := m_hdr m in
      r ← attempt (task_create root name id (ah_verb hdr) (Some (m_sender m))
                     (pi_pid (m_peer m)) (pi_uid (m_peer m)) (ah_reply_to hdr) (ah_task_id hdr)
                     (m_payload m));
      mret (match r with inl e => inl e | inr _ => inr id end, s)
  end.

Definition handle_message (caps : bytes) (m : message) (s : rt) : M rt :=
  let hdr := m_hdr m in
  close_client (m_client m) ;;
  if bytes_eqb (ah_verb hdr) #"result" then handle_result hdr (m_sender m) ;; mret s
  else
    r ← new_task m s;
    match r with
    | (inl e, s) => audit (#"task_create failed: " ++ strerror e) ;; mret s
    | (inr id, s) =>
        audit (#"task created " ++ id ++ #" verb=" ++ ah_verb hdr ++ #" from=" ++ m_sender m) ;;
        set_state id TASK_RUNNING ;;
        set_status id #"running" ;;
        event id #"running" ;;
        delegate caps id hdr (m_payload m) s
    end.

Definition snapshot_extra (s : rt) : bytes :=
  #"profile: " ++ profile_name (rt_cfg s) ++ nl ++
  #"dispatch: " ++ dispatch_name (dispatch (rt_cfg s)) ++ nl ++
  #"messages_total: " ++ fmt_d (rt_messages s) ++ nl ++
  #"last_verb: " ++ (match rt_last_verb s with [] => #"-" | v => v end) ++ nl ++
  #"deliveries_total: " ++ fmt_d (rt_delivered s) ++ nl ++
  #"deliveries_skipped: " ++ fmt_d (rt_skipped s) ++ nl.

(** One turn of [while (!shutdown_flag)]: [true] leaves the loop. *)
Definition fanout_turn (srv : server) (tk : tick) (s : rt) : M (bool * rt) :=
  r ← await_message root name start ppid snapshot_extra [] tk s;
  match r with
  | ((false, stop), s) => mret (stop, s)
  | ((true, _), s) =>
      r ← receive root name sys_accept srv s;
      match r with
      | (RxNone stop, s) => mret (stop, s)
      | (RxMsg m, s) =>
          caps ← load_caps root name;
          r ← admit_message root name caps m s;
          match r with
          | (None, s) => mret (false, s)
          | (Some _, s) => s ← handle_message caps m s; mret (false, s)
          end
      end
  end.

(** The loop over the ticks the environment provides. *)
Fixpoint fanout_loop (srv : server) (ticks : list tick) (s : rt) : M rt :=
  match ticks with
  | [] => mret s
  | tk :: ticks' =>
      if rt_shutdown s then mret s
      else
        r ← fanout_turn srv tk s;
        match r with
        | (true, s) => mret s
        | (false, s) => fanout_loop srv ticks' s
        end
  end.

Definition banner (cfg : profile_cfg_t) (tcfg : transport_cfg_t) (pid : Z) : bytes :=
  #"fanout-agent started pid=" ++ fmt_d pid ++ #" transport=" ++ transport_name (tc_kind tcfg) ++
  #" profile=" ++ profile_name cfg ++ #" dispatch=" ++ dispatch_name (dispatch cfg) ++
  #" idle_timeout=" ++ fmt_d (idle_timeout_sec cfg).

(** [main]: the exit code. *)
Definition fanout_main (cur : task) (garbage : profile_cfg_t) (k : kstate) (ticks : list tick) : M Z :=
  r ← runtime_start root name sys_bind cur garbage banner k;
  match r with
  | inl code => mret code
  | inr (srv, s) =>
      fanout_loop srv ticks s ;;
      runtime_stop root name #"fanout-agent" srv ;;
      mret 0
  end.
End fanout.
