(* ===== verification/FanoutSpec.v ===== *)
(** * The delegating runtime: properties

    The delegation targets against the policy text, the accounting of a
    delivery round, the completion rule for tasks, robustness and shutdown. *)

From S2P Require Import Prelude CLib Posix Names Common Broker Ipc Agentfs Profiles Tasks Enforcement Runtime Fanout.

(** ** The policy as written *)

(** The well-formed names of the [allow] (or [deny]) entries, in order. *)
Definition name_ok (t : bytes) : bool := (0 <? blen t) && (blen t <? MAX_NAME) && negb (first_is "*" t).
Definition listed (is_allow : bool) (lines : list bytes) : list bytes :=
  omap (λ l, match send_entry l with
             | Some (a, t) => if eqb a is_allow && name_ok t then Some t else None
             | None => None
             end) lines.
Definition denies_all (lines : list bytes) : bool :=
  existsb (λ l, match send_entry l with
                | Some (false, t) => bytes_eqb t #"*"
                | _ => false
                end) lines.

Lemma listed_app b l1 l2 : listed b (l1 ++ l2) = listed b l1 ++ listed b l2.
Proof. apply omap_app. Qed.

Lemma take_snoc_full {A} n (l : list A) x :
  take n (l ++ [x]) = if (length (take n l) <? n)%nat then take n l ++ [x] else take n l.
Proof.
  rewrite length_take. destruct (Nat.ltb_spec (Nat.min n (length l)) n).
  - rewrite !take_ge; [done|lia|rewrite length_app; simpl; lia].
  - rewrite take_app_le by lia. done.
Qed.

Lemma collect_lines ls :
  foldl collect_line (Collect [] [] false) ls =
  Collect (take MAX_TARGETS (listed true ls)) (take MAX_TARGETS (listed false ls)) (denies_all ls).
Proof.
  induction ls as [|l ls IH] using rev_ind; [done|].
  rewrite foldl_app, !listed_app. unfold denies_all. rewrite existsb_app. fold (denies_all ls).
  cbn [foldl existsb]. rewrite IH, orb_false_r. unfold collect_line.
  assert (∀ b, listed b [l] = match send_entry l with
            | Some (a, t) => if eqb a b && name_ok t then [t] else [] | None => [] end) as Hl.
  { intros b. unfold listed. cbn. destruct (send_entry l) as [[a t]|]; [|done]. by destruct (_ && _). }
  rewrite !Hl. generalize (listed true ls) (listed false ls) (denies_all ls). intros T N all.
  destruct (send_entry l) as [[a t]|]; [|by rewrite !app_nil_r, orb_false_r].
  fold (name_ok t). destruct (bytes_eqb t #"*") eqn:Et.
  { bool_simpl. subst t. destruct a; cbn; by rewrite !app_nil_r, ?orb_true_r, ?orb_false_r. }
  destruct a; cbn [andb negb eqb]; rewrite orb_false_r;
    destruct (name_ok t); rewrite ?app_nil_r, ?take_snoc_full; try done;
    by destruct (_ <? _)%nat.
Qed.

Lemma collect_send_targets_lines caps :
  collect_send_targets caps =
  if denies_all (text_lines caps) then []
  else filter (λ t, t ∉ take MAX_TARGETS (listed false (text_lines caps)))
              (take MAX_TARGETS (listed true (text_lines caps))).
Proof.
  unfold collect_send_targets. rewrite line_loop_spec by lia. by rewrite collect_lines.
Qed.

(** The line [agentctl deny <agent> send:<t>] writes. *)
Lemma send_entry_deny t : validate_name t = true → send_entry (#"deny send:" ++ t) = Some (false, t).
Proof.
  intros Ht. pose proof (safe_not_space t Ht) as HF. pose proof (safe_nonempty t Ht) as Hne.
  unfold send_entry. change (#"deny send:" ++ t) with (#"deny " ++ #"send:" ++ t).
  change (drop_while isspace (#"deny " ++ #"send:" ++ t)) with (#"deny " ++ #"send:" ++ t).
  assert (strip_prefix #"allow " (#"deny " ++ #"send:" ++ t) = None) as -> by done.
  rewrite strip_prefix_app. cbn [mbind option_bind fst snd].
  change (drop_while isspace (#"send:" ++ t)) with (#"send:" ++ t). rewrite strip_prefix_app.
  assert (rtrim isspace t = t) as Hr.
  { destruct t as [|c t _] using rev_ind; [done|]. apply Forall_app in HF as [_ HF].
    apply rtrim_id. by inversion HF. }
  destruct t as [|c t]; [done|]. by rewrite Hr.
Qed.

(** Robustness of the pieces. *)
Lemma total_handle_result root n hdr sender : total (handle_result root n hdr sender).
Proof. unfold handle_result, record_reply, note_reply, complete_task. totality. Qed.
Lemma total_deliver_one root n conn id v p t st : total (deliver_one root n conn id v p t st).
Proof. unfold deliver_one. totality. Qed.
#[export] Hint Resolve total_handle_result total_deliver_one : total.
Lemma total_deliver root n conn id v p ts st : total (deliver root n conn id v p ts st).
Proof. revert st. induction ts; simpl; totality. Qed.
#[export] Hint Resolve total_deliver : total.
Lemma total_fanout_message root n conn caps m s : total (handle_message root n conn caps m s).
Proof. unfold handle_message, new_task, delegate. totality. Qed.
#[export] Hint Resolve total_fanout_message : total.
Lemma total_fanout_turn root n st pp conn acc srv tk s : total (fanout_turn root n st pp conn acc srv tk s).
Proof. unfold fanout_turn. totality. Qed.
#[export] Hint Resolve total_fanout_turn : total.
Lemma total_fanout_loop root n st pp conn acc srv ticks s :
  total (fanout_loop root n st pp conn acc srv ticks s).
Proof. revert s. induction ticks; simpl; totality. Qed.
#[export] Hint Resolve total_fanout_loop : total.

Lemma fanout_message_down root n conn caps m s :
  post (λ s', downward s s') (handle_message root n conn caps m s).
Proof.
  unfold handle_message. apply post_then. intros _. destruct (bytes_eqb _ _); [postcond|].
  apply (post_bind (λ r, downward s r.2)); [unfold new_task; postcond|].
  intros [[e|id] s1] H1; [postcond|]. unfold delegate. postcond.
Qed.

Lemma fanout_turn_down root n st pp conn acc srv tk s :
  SigTerm ∈ tk_before tk ++ tk_during tk →
  post (λ r, rt_shutdown r.2 = true) (fanout_turn root n st pp conn acc srv tk s).
Proof.
  intros Hin. unfold fanout_turn. eapply post_bind; [apply await_down|].
  intros [[[] stop] s1] [_ H1]; specialize (H1 Hin); cbn in H1; [|postcond].
  eapply post_bind; [apply receive_down|]. intros [[stop'|m] s2] H2; [postcond|].
  apply post_then. intros caps. eapply post_bind; [apply admit_down|].
  intros [[[]|] s3] H3; [|postcond]. eapply post_bind; [apply fanout_message_down|].
  intros s4 H4. postcond.
Qed.

Lemma deliver_tally root n conn id v p ts st w r w' :
  deliver root n conn id v p ts st w = (inr r, w') →
  ta_sent r.1 + ta_skipped r.1 + ta_failed r.1 =
    ta_sent st.1 + ta_skipped st.1 + ta_failed st.1 + blen ts ∧
  ta_sent st.1 ≤ ta_sent r.1.
Proof.
  revert st w. induction ts as [|t ts IH]; intros [[a b c] k] w E.
  { cbv in E. simplify_eq. rewrite blen_nil. simpl. lia. }
  cbn [deliver] in E. rewrite bind_unfold in E.
  destruct (deliver_one _ _ _ _ _ _ t _ w) as [[e|st1] w1] eqn:E1; [done|].
  apply IH in E as [E Hs]. rewrite blen_cons, E.
  assert (ta_sent st1.1 + ta_skipped st1.1 + ta_failed st1.1 = a + b + c + 1 ∧ a ≤ ta_sent st1.1)
    as [Heq Hle]; [|cbn [fst ta_sent ta_skipped ta_failed]; lia].
  assert (post (λ r, ta_sent r.1 + ta_skipped r.1 + ta_failed r.1 = a + b + c + 1 ∧ a ≤ ta_sent r.1)
            (deliver_one root n conn id v p t (Tally a b c, k))) as HP; [|by eapply HP].
  unfold deliver_one. apply post_then. intros [[| |e] k1];
    repeat (apply post_then; intros ?); apply post_ret; cbn; lia.
Qed.

(** ** The completion rule

    The situation in which a [result] message is handled: the task's
    environment is sound, no system call fails, and the two logs written on
    the way are not symbolic links. *)

Section completion.
Context (root name id : bytes).

Definition at_base (r : bytes) : bytes := base_of root name ++ SLASH :: r.
Definition audit_path : bytes := leaf_path root name #"audit.log".
Definition pending_dir : bytes := leaf_path root name #"pending".
Definition events_path : bytes := task_path root name id #"events.log".
Definition state_path : bytes := task_path root name id #"state".

Record result_env (w : world) : Prop := {
  re_task : task_env root name id w;
  re_sched : w_sched w = [];
  re_audit : no_link (w_fs w) audit_path;
  re_events : no_link (w_fs w) events_path
}.

(** The paths the bookkeeping may change, besides the pending entry [P]. *)
Definition touched (P p : bytes) : Prop :=
  p = at_base #"pending" ∨ p = at_base #"audit.log" ∨ p = audit_path ∨ p = events_path ∨ p = P.

Record framed (P : bytes) (w w' : world) : Prop := {
  fr_sched : w_sched w' = [];
  fr_uid : w_uid w' = w_uid w;
  fr_fs : ∀ p, ¬ touched P p → w_fs w' !! p = w_fs w !! p;
  fr_audit : no_link (w_fs w) audit_path → no_link (w_fs w') audit_path;
  fr_events : no_link (w_fs w) events_path → no_link (w_fs w') events_path
}.

Lemma framed_trans P a b c : framed P a b → framed P b c → framed P a c.
Proof.
  intros [] []. split; [done|congruence| |auto|auto]. intros p Hp.
  by rewrite fr_fs1, fr_fs0.
Qed.

Lemma at_base_inj a b : at_base a = at_base b → a = b.
Proof. unfold at_base. intros H%app_inv_head. by injection H. Qed.
Lemma audit_at : audit_path = at_base #"data/audit.log".
Proof. reflexivity. Qed.
Lemma pending_at : pending_dir = at_base #"data/pending".
Proof. reflexivity. Qed.
Lemma task_at leaf : task_path root name id leaf = at_base (#"data/" ++ task_rel id leaf).
Proof. unfold task_path, leaf_path. by rewrite task_rel_class. Qed.

(** A pending entry of some task. *)
Definition entry_path (e : bytes) : bytes := pending_dir ++ SLASH :: e.
Lemma entry_at e : entry_path e = at_base (#"data/pending/" ++ e).
Proof. unfold entry_path. rewrite pending_at. unfold at_base. by rewrite <-app_assoc. Qed.

(** No extra path, or one pending entry. *)
Definition no_extra : bytes := at_base #"pending".
Definition ok_extra (P : bytes) : Prop := P = no_extra ∨ ∃ e, P = entry_path e.

Ltac apart := let Hp := fresh in intros Hp; apply at_base_inj in Hp; discriminate Hp.

Lemma config_untouched P : ok_extra P → ¬ touched P (base_of root name ++ #"/config").
Proof.
  change (base_of root name ++ #"/config") with (at_base #"config").
  intros HP. unfold touched. rewrite audit_at. unfold events_path. rewrite task_at.
  intros [H|[H|[H|[H|H]]]]; [revert H; apart..|].
  destruct HP as [->|[e ->]]; revert H; unfold no_extra; rewrite ?entry_at; apart.
Qed.

(** Neither the state file, nor its temporaries, nor the task's directory. *)
Lemma state_untouched P s : ok_extra P → ¬ touched P (state_path ++ s).
Proof.
  intros HP. unfold touched, state_path, events_path. rewrite task_path_app by done.
  intros [H|[H|[H|[H|H]]]]; [revert H; rewrite ?audit_at, ?entry_at, task_at; apart..| |].
  - by apply task_path_inj in H.
  - destruct HP as [->|[e ->]]; revert H; unfold no_extra; rewrite ?entry_at, task_at; apart.
Qed.
Lemma dir_untouched P : ok_extra P → ¬ touched P (task_path root name id []).
Proof.
  intros HP. unfold touched, events_path. rewrite audit_at, !task_at.
  intros [H|[H|[H|[H|H]]]]; [revert H; apart..| |].
  2:{ destruct HP as [->|[e ->]]; revert H; unfold no_extra; rewrite ?entry_at; apart. }
  apply at_base_inj, app_inv_head in H. unfold task_rel in H.
  by apply app_inv_head, app_inv_head in H.
Qed.

Lemma result_env_framed P w w' :
  ok_extra P → result_env w → framed P w w' → result_env w'.
Proof.
  intros HP [[? ? ? (m & u & Hc) ?] ? ? ?] []. split; [|done|auto|auto].
  split; [done..| |rewrite fr_sched0; apply not_elem_of_nil].
  exists m, u. rewrite <-Hc. apply fr_fs0. by apply config_untouched.
Qed.

(** The bookkeeping steps. *)
Lemma agent_path_framed P leaf w :
  ok_extra P → result_env w → leaf ∈ [ #"pending"; #"audit.log"] →
  ∃ w', agent_path root name leaf w = (inr (leaf_path root name leaf), w') ∧ framed P w w' ∧
    ∀ p, p ≠ at_base leaf → w_fs w' !! p = w_fs w !! p.
Proof.
  intros HP [[Hn Hi Hl (m & u & Hc) _] Hs Ha He] Hleaf.
  assert (blen leaf ≤ 9 ∧ touched P (at_base leaf) ∧
          at_base leaf ≠ audit_path ∧ at_base leaf ≠ events_path) as (Hl9 & Ht & Hna & Hne).
  { unfold touched, events_path. rewrite audit_at, task_at.
    apply elem_of_cons in Hleaf as [->|Hleaf]; [|apply list_elem_of_singleton in Hleaf as ->];
      (split; [by vm_compute|]); (split; [tauto|]); split; apart. }
  destruct (agent_path_quiet root name leaf w m u) as (w' & E & Hs' & _ & Hfr); [done|done|lia|done|].
  exists w'. split; [done|]. pose proof E as E'.
  eapply shrinks_run in E' as (_ & _ & Hu & _); [|shrink].
  split; [|exact Hfr]. split; [done|done| | |].
  - intros p Hp. apply Hfr. intros ->. by apply Hp.
  - intros H t' m' u'. rewrite Hfr by by apply not_eq_sym. apply H.
  - intros H t' m' u'. rewrite Hfr by by apply not_eq_sym. apply H.
Qed.

Lemma append_framed P path buf mode w r w' :
  path = audit_path ∨ path = events_path → result_env w →
  append_file path buf mode w = (r, w') → framed P w w'.
Proof.
  intros Hp [_ Hs Ha He] E. assert (no_link (w_fs w) path) as Hnl by (by destruct Hp as [->| ->]).
  pose proof (append_file_only _ _ _ _ _ _ Hnl E) as [Hfr Hnl'].
  pose proof E as E'. eapply shrinks_run in E' as (Hsuf & _ & Hu & _); [|shrink].
  rewrite Hs in Hsuf. apply suffix_nil_inv in Hsuf. split; [done|done| | |].
  - intros p Hnt. apply Hfr. intros ->. apply Hnt. unfold touched. tauto.
  - intros H. destruct (decide (path = audit_path)) as [<-|Hne]; [done|].
    intros t m u. rewrite Hfr by done. apply H.
  - intros H. destruct (decide (path = events_path)) as [<-|Hne]; [done|].
    intros t m u. rewrite Hfr by by apply not_eq_sym. apply H.
Qed.

Lemma audit_framed P msg w :
  ok_extra P → result_env w →
  ∃ w', Runtime.audit root name msg w = (inr tt, w') ∧ framed P w w'.
Proof.
  intros HP He. destruct (agent_path_framed P #"audit.log" w HP He) as (w1 & E1 & F1 & Hfr1); [set_solver|].
  pose proof (result_env_framed P w w1 HP He F1) as He1.
  unfold Runtime.audit, ignore. destruct (audit_log root name msg w) as [r w'] eqn:E.
  exists w'. split; [done|]. unfold audit_log in E. rewrite bind_unfold, E1 in E.
  unfold sys_time in E. rewrite !bind_gets in E.
  eapply framed_trans; [exact F1|]. eapply append_framed; [by left|done|exact E].
Qed.

Lemma event_framed P msg w :
  ok_extra P → result_env w →
  ∃ w', Runtime.event root name id msg w = (inr tt, w') ∧ framed P w w'.
Proof.
  intros HP He. unfold Runtime.event, ignore.
  destruct (task_append_event root name id msg w) as [r w'] eqn:E.
  exists w'. split; [done|]. unfold task_append_event in E. rewrite bind_unfold in E.
  pose proof (task_rel_len id #"events.log" (te_id _ _ _ _ (re_task _ He))) as Hl.
  change (blen #"events.log") with 10 in Hl.
  destruct (re_task _ He) as [Ha Hi Hb (m & u & Hc) _].
  rewrite (task_leaf_path_quiet root name id #"events.log" w m u) in E
    by (try apply He; done || lia).
  unfold sys_time in E. rewrite bind_gets in E. eapply append_framed; [by right|done|exact E].
Qed.

Lemma entry_untouched P e : ok_extra P → entry_path e ≠ P → ¬ touched P (entry_path e).
Proof.
  intros HP Hne. unfold touched, events_path. rewrite audit_at, entry_at, task_at.
  intros [H|[H|[H|[H|H]]]]; [revert H; apart..|]. apply Hne. by rewrite entry_at.
Qed.
Lemma pending_dir_untouched P : ok_extra P → ¬ touched P pending_dir.
Proof.
  intros HP. unfold touched, events_path. rewrite pending_at, audit_at, task_at.
  intros [H|[H|[H|[H|H]]]]; [revert H; apart..|].
  destruct HP as [->|[e ->]]; revert H; unfold no_extra; rewrite ?entry_at; apart.
Qed.
Lemma entry_no_extra e : entry_path e ≠ no_extra.
Proof. unfold no_extra. rewrite entry_at. apart. Qed.

(** The replying downstream's own entry is gone afterwards. *)
Lemma pending_remove_framed sender w :
  result_env w → validate_name sender = true →
  let e := id ++ #"." ++ sender in
  (∀ m u, w_fs w !! entry_path e ≠ Some (Node KDir m u)) →
  ∃ w', ignore (pending_remove root name id sender) w = (inr tt, w') ∧
    framed (entry_path e) w w' ∧ w_fs w' !! entry_path e = None.
Proof.
  intros He Hv e Hnd. assert (ok_extra (entry_path e)) as HP by (right; by exists e).
  destruct (agent_path_framed (entry_path e) #"pending" w HP He) as (w1 & E1 & F1 & Hfr1); [set_solver|].
  pose proof (validate_name_length sender Hv) as Hls.
  pose proof (te_id _ _ _ _ (re_task _ He)) as Hid. pose proof (task_validate_id_length _ Hid) as Hli.
  pose proof (te_len _ _ _ _ (re_task _ He)) as Hlb.
  assert (w_fs w1 !! entry_path e = w_fs w !! entry_path e) as Hsame.
  { apply Hfr1. rewrite entry_at. apart. }
  unfold ignore. destruct (pending_remove root name id sender w) as [r w'] eqn:E.
  exists w'. split; [done|]. unfold pending_remove, pending_path, pending_root in E.
  rewrite bind_assoc, bind_guard, Hid, Hv in E. cbn [andb] in E.
  rewrite bind_assoc, bind_unfold, E1, bind_of_option in E. fold pending_dir in E.
  change (pending_dir ++ _) with (entry_path e) in E. unfold snprintf_ok in E.
  assert (blen (entry_path e) < MAX_PATHBUF) as Hfit.
  { rewrite entry_at. unfold at_base, e. repeat first [rewrite blen_app | rewrite blen_cons].
    change (blen #"data/pending/") with 13. change (blen #".") with 1. unfold MAX_NAME in Hls. lia. }
  rewrite (proj2 (Z.ltb_lt _ _)), bind_attempt in E by done.
  unfold sys_unlink in E. rewrite sys_quiet, bind_gets, Hsame in E by apply F1.
  assert (w' = w1 ∧ w_fs w !! entry_path e = None ∨ w' = set_fs (delete (entry_path e)) w1) as Hw.
  { destruct (w_fs w !! entry_path e) as [[[|c|t] m u]|] eqn:Ef.
    - by destruct (Hnd m u).
    - right. by injection E as _ <-.
    - right. by injection E as _ <-.
    - left. split; [|done]. by injection E as _ <-. }
  destruct Hw as [[-> Hnone]| ->]; [by rewrite Hsame|]. split; [|apply lookup_delete_eq].
  eapply framed_trans; [exact F1|]. split; [apply F1|done| | |].
  - intros p Hp. apply lookup_delete_ne. intros <-. apply Hp. unfold touched. tauto.
  - intros H t m u. cbn. rewrite lookup_delete_ne; [apply H|]. rewrite entry_at, audit_at. apart.
  - intros H t m u. cbn. rewrite lookup_delete_ne; [apply H|].
    unfold events_path. rewrite entry_at, task_at. apart.
Qed.

(** The count reads the directory. *)
Lemma pending_count_framed P w m u :
  ok_extra P → result_env w → w_fs w !! pending_dir = Some (Node KDir m u) →
  ∃ n w', pending_count_for_task root name id w = (inr n, w') ∧ framed P w w' ∧
    (n = 0 ↔ ∀ e, is_Some (w_fs w !! entry_path e) → SLASH ∉ e → pending_matches id e = false).
Proof.
  intros HP He Hdir.
  destruct (agent_path_framed P #"pending" w HP He) as (w1 & E1 & F1 & Hfr1); [set_solver|].
  unfold pending_count_for_task, pending_root.
  rewrite bind_guard, (te_id _ _ _ _ (re_task _ He)), bind_unfold, E1, bind_attempt.
  unfold sys_readdir. rewrite sys_quiet by apply F1. rewrite bind_gets. fold pending_dir.
  assert (w_fs w1 !! pending_dir = Some (Node KDir m u)) as ->.
  { rewrite Hfr1; [done|]. rewrite pending_at. apart. }
  eexists _, w1. split; [reflexivity|]. split; [done|]. rewrite blen_zero.
  assert (∀ e, e ∈ entries (w_fs w1) pending_dir ↔ is_Some (w_fs w !! entry_path e) ∧ SLASH ∉ e) as Hent.
  { intros e. rewrite elem_of_entries. fold (entry_path e). rewrite Hfr1; [done|].
    rewrite entry_at. apart. }
  split.
  - intros Hnil e Hs Hsl. destruct (pending_matches id e) eqn:Em; [|done]. exfalso.
    assert (e ∈ ([] : list bytes)) as Hbad; [|by apply not_elem_of_nil in Hbad].
    rewrite <-Hnil. apply list_elem_of_filter. split; [done|]. by apply Hent.
  - intros H. destruct (filter _ _) as [|e es] eqn:Ef; [done|]. exfalso.
    assert (e ∈ e :: es) as Hin by by left. rewrite <-Ef in Hin.
    apply list_elem_of_filter in Hin as [Hm Hin].
    apply Hent in Hin as [Hs Hsl]. by rewrite (H e Hs Hsl) in Hm.
Qed.

(** Writing one of the task's one-line files. *)
Lemma text_env l w w' :
  l ∈ [ #"state"; #"updated_at"; #"status"] → result_env w → w_sched w' = [] →
  (∀ p, (∀ s, p ≠ task_path root name id l ++ s) → w_fs w' !! p = w_fs w !! p) → result_env w'.
Proof.
  intros Hl [[? ? ? (m & u & Hc) ?] ? Ha He] Hs Hfr.
  assert (l ≠ [] ∧ ∀ s, l ++ s ≠ #"events.log") as [Hl0 Hev].
  { repeat (apply elem_of_cons in Hl as [->|Hl]; [split; [done|intros s ?; discriminate]|]).
    by apply not_elem_of_nil in Hl. }
  assert (∀ r s, (∀ x, r ≠ #"data/tasks/" ++ x) → at_base r ≠ task_path root name id l ++ s) as Hap.
  { intros r s Hr Heq. rewrite task_at in Heq. unfold at_base in Heq. rewrite <-app_assoc in Heq.
    apply app_inv_head in Heq. injection Heq as Heq. unfold task_rel in Heq.
    apply (Hr ((id ++ (match l with [] => [] | _ => SLASH :: l end)) ++ s)).
    rewrite Heq. by rewrite <-!app_assoc. }
  split; [|done| |].
  - split; [done..| |rewrite Hs; apply not_elem_of_nil]. exists m, u. rewrite <-Hc. apply Hfr.
    intros s. apply (Hap #"config"). intros x. discriminate.
  - intros t m' u'. rewrite Hfr; [apply Ha|]. intros s. rewrite audit_at. apply Hap. intros x. discriminate.
  - intros t m' u'. rewrite Hfr; [apply He|]. intros s. unfold events_path.
    rewrite task_path_app by done. intros H. apply task_path_inj in H; [|done|by destruct l].
    by apply (Hev s).
Qed.

Lemma atomic_text_env l data w r w' :
  l ∈ [ #"state"; #"updated_at"; #"status"] → result_env w →
  atomic_write_file (task_path root name id l) data 384 w = (r, w') → result_env w'.
Proof.
  intros Hl He E. eapply text_env; [done|exact He| |].
  - eapply shrinks_quiet; [apply shrinks_atomic_write_file|apply He|exact E].
  - intros p Hp. eapply (confined_run (λ p, ∃ s, p = task_path root name id l ++ s)); [|exact E|].
    + apply confined_atomic_write_file; [by exists []; rewrite app_nil_r|].
      intros s. exists (#".tmp." ++ s). by rewrite app_assoc.
    + intros [s ->]. by apply (Hp s).
Qed.

Lemma atomic_text_entry l data mode w r w' e :
  atomic_write_file (task_path root name id l) data mode w = (r, w') →
  w_fs w' !! entry_path e = w_fs w !! entry_path e.
Proof.
  intros E. eapply (confined_run (λ p, ∃ s, p = task_path root name id l ++ s)); [|exact E|].
  - apply confined_atomic_write_file; [by exists []; rewrite app_nil_r|].
    intros s. exists (#".tmp." ++ s). by rewrite app_assoc.
  - intros [s H]. rewrite entry_at, task_at in H. unfold at_base in H. rewrite <-app_assoc in H.
    apply app_inv_head in H. discriminate H.
Qed.

Lemma leaf_quiet l w : result_env w → blen l ≤ 200 →
  task_leaf_path root name id l w = (inr (task_path root name id l), w).
Proof.
  intros [[? Hid ? (m & u & ?) _] ? _ _] Hl. pose proof (task_rel_len id l Hid).
  eapply task_leaf_path_quiet; [done..|lia|done].
Qed.

(** [task_set_state] succeeds and its effect on the state file. *)
Lemma set_state_quiet st w m u :
  result_env w → w_fs w !! task_path root name id [] = Some (Node KDir m u) →
  (∀ s, w_fs w !! ((state_path ++ #".tmp.") ++ s) = None) →
  (∀ m u, w_fs w !! state_path ≠ Some (Node KDir m u)) →
  ∃ w', Runtime.set_state root name id st w = (inr tt, w') ∧ result_env w' ∧
    (∀ e, w_fs w' !! entry_path e = w_fs w !! entry_path e) ∧
    w_fs w' !! state_path = Some (Node (KReg (task_state_name st ++ nl)) 384 (w_uid w)).
Proof.
  intros He Hdir Htmp Hnd. unfold Runtime.set_state, ignore, task_set_state, write_text_line.
  rewrite bind_assoc, bind_unfold, leaf_quiet by done.
  rewrite bind_assoc, bind_guard, (proj2 (Z.leb_le _ _)) by (by destruct st; vm_compute).
  rewrite bind_unfold. fold state_path.
  assert (state_path = task_path root name id [] ++ SLASH :: #"state") as Hsp.
  { unfold state_path. rewrite !task_at. unfold at_base, task_rel.
    repeat (rewrite <-?app_assoc; cbn [app]). done. }
  destruct (atomic_write_quiet state_path (task_state_name st ++ nl) 384 w) as (w1 & E1 & Hs1 & Hfs1).
  { apply He. }
  { pose proof (te_len _ _ _ _ (re_task _ He)). pose proof (te_id _ _ _ _ (re_task _ He)) as Hid.
    pose proof (task_rel_len id #"state" Hid) as Hl. change (blen #"state") with 5 in Hl.
    unfold state_path. rewrite task_at. unfold at_base. rewrite blen_app, blen_cons, blen_app.
    change (blen #"data/") with 5. lia. }
  { rewrite Hsp. set_solver. }
  { rewrite Hsp. unfold dirname. rewrite split_last_app by not_in_list. unfold is_dir.
    destruct (task_path root name id []) eqn:Et; [done|]. by rewrite Hdir. }
  { apply Htmp. }
  { done. }
  rewrite E1. pose proof E1 as He1. eapply atomic_text_env in He1; [|set_solver|done].
  unfold sys_time. rewrite bind_gets, bind_attempt, leaf_quiet by done. unfold ignore.
  destruct (atomic_write_file _ (iso_line _) 384 w1) as [r2 w2] eqn:E2.
  exists w2. split; [done|]. split; [eapply atomic_text_env in E2; [done|set_solver|done]|].
  split.
  { intros e. rewrite (atomic_text_entry _ _ _ _ _ _ e E2). by apply (atomic_text_entry _ _ _ _ _ _ e E1). }
  eapply (atomic_write_other root name id #"updated_at" #"state") in E2; [|done..].
  unfold state_path. rewrite E2. fold state_path. rewrite Hfs1. apply lookup_insert_eq.
Qed.

Lemma set_status_quiet v w :
  result_env w → ∃ w', Runtime.set_status root name id v w = (inr tt, w') ∧ result_env w' ∧
    (∀ e, w_fs w' !! entry_path e = w_fs w !! entry_path e) ∧
    w_fs w' !! state_path = w_fs w !! state_path.
Proof.
  intros He. unfold Runtime.set_status, ignore.
  destruct (task_set_status root name id v w) as [r w'] eqn:E. exists w'. split; [done|].
  unfold task_set_status, write_text_line in E.
  rewrite bind_unfold, leaf_quiet, bind_guard in E by done.
  destruct (_ <=? _); [|by simplify_eq].
  split; [eapply atomic_text_env in E; [done|set_solver|done]|].
  split; [intros e; by apply (atomic_text_entry _ _ _ _ _ _ e E)|].
  by eapply (atomic_write_other root name id #"status" #"state") in E.
Qed.

(** Replies to this task still awaited from others than [sender]. *)
Definition outstanding (sender : bytes) (fs : gmap bytes node) : Prop :=
  ∃ e, is_Some (fs !! entry_path e) ∧ (SLASH ∉ e) ∧ pending_matches id e = true ∧
       e ≠ id ++ #"." ++ sender.

Record result_ready (sender : bytes) (w : world) : Prop := {
  rr_env : result_env w;
  rr_sender : validate_name sender = true;
  rr_pending : ∃ m u, w_fs w !! pending_dir = Some (Node KDir m u);
  rr_entry : ∀ m u, w_fs w !! entry_path (id ++ #"." ++ sender) ≠ Some (Node KDir m u);
  rr_dir : ∃ m u, w_fs w !! task_path root name id [] = Some (Node KDir m u);
  rr_state : ∀ m u, w_fs w !! state_path ≠ Some (Node KDir m u);
  rr_tmp : ∀ s, w_fs w !! ((state_path ++ #".tmp.") ++ s) = None
}.

(** The bookkeeping of a reply: the sender's entry is removed, the others and
    the task's state stay, and the count is zero exactly when no other reply
    is outstanding. *)
Definition kept (p : bytes) : Prop :=
  p = state_path ∨ p = task_path root name id [] ∨ ∃ s, p = (state_path ++ #".tmp.") ++ s.
Lemma kept_untouched P p : ok_extra P → kept p → ¬ touched P p.
Proof.
  intros HP [->|[->|[s ->]]]; [|by apply dir_untouched|rewrite <-app_assoc; by apply state_untouched].
  rewrite <-(app_nil_r state_path). by apply state_untouched.
Qed.

Lemma note_reply_spec sender w :
  result_ready sender w →
  ∃ n w', note_reply root name id sender w = (inr n, w') ∧ result_env w' ∧
    w_fs w' !! entry_path (id ++ #"." ++ sender) = None ∧
    (∀ e, e ≠ id ++ #"." ++ sender → w_fs w' !! entry_path e = w_fs w !! entry_path e) ∧
    (∀ p, kept p → w_fs w' !! p = w_fs w !! p) ∧
    (n = 0 ↔ ¬ outstanding sender (w_fs w)).
Proof.
  intros [He Hv (pm & pu & Hpd) Hnd _ _ _]. unfold note_reply. set (e0 := id ++ #"." ++ sender) in *.
  assert (ok_extra (entry_path e0)) as HP by (right; by exists e0).
  assert (ok_extra no_extra) as HN by by left.
  destruct (pending_remove_framed sender w He Hv Hnd) as (w1 & E1 & F1 & Hgone).
  rewrite bind_unfold, E1, bind_attempt. fold e0 in F1, Hgone.
  pose proof (result_env_framed _ _ _ HP He F1) as He1.
  destruct (pending_count_framed _ w1 pm pu HN He1) as (n & w2 & E2 & F2 & Hn).
  { rewrite (fr_fs _ _ _ F1); [done|by apply pending_dir_untouched]. }
  rewrite E2. pose proof (result_env_framed _ _ _ HN He1 F2) as He2. cbv zeta.
  match goal with |- context [Runtime.audit root name ?m] =>
    destruct (audit_framed _ m w2 HN He2) as (w3 & E3 & F3) end.
  rewrite bind_unfold, E3. pose proof (result_env_framed _ _ _ HN He2 F3) as He3.
  match goal with |- context [Runtime.event root name id ?m ≫= _] =>
    destruct (event_framed _ m w3 HN He3) as (w4 & E4 & F4) end.
  rewrite bind_unfold, E4. pose proof (framed_trans _ _ _ _ (framed_trans _ _ _ _ F2 F3) F4) as F.
  exists n, w4. split; [done|]. split; [by eapply result_env_framed|].
  assert (∀ e, w_fs w4 !! entry_path e = w_fs w1 !! entry_path e) as Hent.
  { intros e. apply (fr_fs _ _ _ F). apply entry_untouched; [done|apply entry_no_extra]. }
  assert (∀ e, e ≠ e0 → w_fs w1 !! entry_path e = w_fs w !! entry_path e) as Hent1.
  { intros e Hne. apply (fr_fs _ _ _ F1). apply entry_untouched; [done|].
    unfold entry_path. intros H%app_inv_head. by injection H. }
  split; [by rewrite Hent|]. split; [intros e Hne; by rewrite Hent, Hent1|]. split.
  { intros p Hp. rewrite (fr_fs _ _ _ F), (fr_fs _ _ _ F1); [done|by apply kept_untouched..]. }
  rewrite Hn. split.
  - intros H (e & Hs & Hsl & Hm & Hne). rewrite <-Hent1 in Hs by done. by rewrite H in Hm.
  - intros H e Hs Hsl. destruct (pending_matches id e) eqn:Em; [|done]. exfalso. apply H.
    exists e. destruct (decide (e = e0)) as [->|Hne]; [rewrite Hgone in Hs; by destruct Hs|].
    by rewrite <-Hent1.
Qed.

Lemma complete_task_spec w m u :
  result_env w → w_fs w !! task_path root name id [] = Some (Node KDir m u) →
  (∀ s, w_fs w !! ((state_path ++ #".tmp.") ++ s) = None) →
  (∀ m u, w_fs w !! state_path ≠ Some (Node KDir m u)) →
  ∃ w', complete_task root name id w = (inr tt, w') ∧
    (∀ e, w_fs w' !! entry_path e = w_fs w !! entry_path e) ∧
    run (task_read_state root name id) w' = inr TASK_COMPLETED.
Proof.
  intros He Hdir Htmp Hns. assert (ok_extra no_extra) as HN by by left. unfold complete_task.
  destruct (set_state_quiet TASK_COMPLETED w m u) as (w5 & E5 & He5 & Hent5 & Hst5); [done..|].
  rewrite bind_unfold, E5.
  destruct (set_status_quiet #"completed" w5 He5) as (w6 & E6 & He6 & Hent6 & Hst6).
  rewrite bind_unfold, E6.
  destruct (event_framed _ #"completed (all downstreams replied)" w6 HN He6) as (w7 & E7 & F7).
  exists w7. split; [done|]. split.
  { intros e. rewrite (fr_fs _ _ _ F7) by (apply entry_untouched; [done|apply entry_no_extra]).
    by rewrite Hent6, Hent5. }
  pose proof (result_env_framed _ _ _ HN He6 F7) as He7.
  destruct (task_read_state_file root name id TASK_COMPLETED w7 384 (w_uid w)) as (w8 & E8 & _);
    [apply He7..| |by unfold run; rewrite E8].
  change (task_path root name id #"state") with state_path.
  rewrite (fr_fs _ _ _ F7), Hst6, Hst5; [done|]. apply kept_untouched; [done|by left].
Qed.
End completion.

(** ** Properties *)

(** The delegation targets are what the policy says.  The optimised
    single pass computes: nothing when some line is [deny send:*]; otherwise
    the first 16 well-formed [allow send:] names less the first 16 denied
    ones.  In particular at most 16 targets, each explicitly allowed, and none
    denied as long as the policy has at most 16 deny lines. *)
Theorem fanout_targets_spec (caps : bytes) :
  let ls := text_lines caps in
  let ts := collect_send_targets caps in
  ts = (if denies_all ls then []
        else filter (λ t, t ∉ take MAX_TARGETS (listed false ls)) (take MAX_TARGETS (listed true ls))) ∧
  (length ts ≤ MAX_TARGETS)%nat ∧
  ∀ t, t ∈ ts →
    t ∈ listed true ls ∧ denies_all ls = false ∧
    ((length (listed false ls) ≤ MAX_TARGETS)%nat → t ∉ listed false ls).
Proof.
  cbv zeta. split; [apply collect_send_targets_lines|]. rewrite collect_send_targets_lines.
  destruct (denies_all _); [split; [simpl; lia|by intros t Ht%not_elem_of_nil]|]. split.
  { etrans; [apply length_filter|]. rewrite length_take. lia. }
  intros t [Hd Ht]%list_elem_of_filter. split; [by eapply take_elem|]. split; [done|].
  intros Hl. by rewrite take_ge in Hd by lia.
Qed.

(** A seventeenth denial is ignored.  Once a policy has 16 well-formed
    [deny send:] lines, appending one more (what [agentctl deny] does) changes
    nothing, even when the name is an allowed target. *)
Theorem fanout_deny_overflow (caps t : bytes) :
  (MAX_TARGETS ≤ length (listed false (text_lines caps)))%nat →
  last caps = Some NL → validate_name t = true →
  collect_send_targets (caps ++ #"deny send:" ++ t ++ nl) = collect_send_targets caps.
Proof.
  intros Hn Hlast Ht. apply last_Some in Hlast as [c ->].
  rewrite !collect_send_targets_lines, <-app_assoc. change ([NL] ++ ?x) with (NL :: x).
  rewrite text_lines_app. set (ls := text_lines (c ++ [NL])) in *.
  pose proof (safe_no_nl t Ht) as Hnl.
  assert (text_lines (#"deny send:" ++ t ++ nl) = [ #"deny send:" ++ t]) as ->.
  { rewrite app_assoc. apply text_lines_cons. intros [Hin|Hin]%elem_of_app; [|done]. revert Hin. not_in_list. }
  rewrite !listed_app. assert (denies_all (ls ++ [ #"deny send:" ++ t]) = denies_all ls) as ->.
  { unfold denies_all. rewrite existsb_app. cbn [existsb]. rewrite send_entry_deny by done.
    assert (bytes_eqb t #"*" = false) as ->; [|by rewrite !orb_false_r].
    apply bytes_eqb_neq. intros ->. by vm_compute in Ht. }
  rewrite (take_app_le (listed false ls)) by done.
  assert (listed true [ #"deny send:" ++ t] = []) as ->; [|by rewrite app_nil_r].
  unfold listed. cbn [omap list_omap]. by rewrite send_entry_deny.
Qed.

(** C32: the completion rule.  In a quiet run, a [result] message for a task
    removes the sender's pending entry and nobody else's, and marks the task
    completed exactly when no other downstream is outstanding; otherwise the
    state file is untouched.  The rule asks nothing about the sender or the
    task's previous state: a task with no pending entries, even a failed one,
    is completed by a [result] from anyone. *)
Theorem fanout_result_spec root name hdr sender w :
  let id := ah_task_id hdr in
  result_ready root name id sender w →
  ∃ w', handle_result root name hdr sender w = (inr tt, w') ∧
    w_fs w' !! entry_path root name (id ++ #"." ++ sender) = None ∧
    (∀ e, e ≠ id ++ #"." ++ sender →
       w_fs w' !! entry_path root name e = w_fs w !! entry_path root name e) ∧
    (outstanding root name id sender (w_fs w) →
       w_fs w' !! state_path root name id = w_fs w !! state_path root name id) ∧
    (¬ outstanding root name id sender (w_fs w) →
       run (task_read_state root name id) w' = inr TASK_COMPLETED).
Proof.
  intros id [He Hv (pm & pu & Hpd) Hnd (dm & du & Hdir) Hns Htmp].
  assert (handle_result root name hdr sender = record_reply root name id sender) as ->.
  { pose proof (te_id _ _ _ _ (re_task _ _ _ _ He)) as H. unfold handle_result. fold id.
    destruct id; [by vm_compute in H|done]. }
  clearbody id. unfold record_reply.
  destruct (note_reply_spec root name id sender w) as (n & w1 & E1 & He1 & Hgone & Hent & Hkeep & Hout);
    [by split; eauto|]. rewrite bind_unfold, E1.
  destruct (n =? 0) eqn:En; bool_simpl.
  - destruct (complete_task_spec root name id w1 dm du He1) as (w2 & E2 & Hent2 & Hrd).
    { rewrite Hkeep; [done|right; by left]. }
    { intros s. rewrite Hkeep; [apply Htmp|right; right; by exists s]. }
    { intros m u. rewrite Hkeep; [apply Hns|by left]. }
    exists w2. rewrite E2, Hent2. split; [done|]. split; [done|].
    split; [intros e Hne; by rewrite Hent2, Hent|].
    split; [intros H; by apply Hout in H|done].
  - exists w1. split; [done|]. split; [done|]. split; [done|].
    split; [intros _; apply Hkeep; by left|]. intros H. by apply Hout in H.
Qed.

(** Agent [a] has delegated [t1] to [b] and [c]; [b] replies. *)
Definition demo_delegated : world :=
  set_fs (λ fs, <[ #"/r/agents/a/data/pending" := Node KDir 448 1000]>
                (<[ #"/r/agents/a/data/pending/t1.b" := Node (KReg []) 384 1000]>
                (<[ #"/r/agents/a/data/pending/t1.c" := Node (KReg []) 384 1000]> fs)))
         (set_sched [] demo_task_world).
Definition demo_hdr : agent_msg_hdr := AgentMsgHdr #"result" [] #"t1" 0.

(** No path of the file system starts with [p]. *)
Lemma fresh_prefix (fs : gmap bytes node) p :
  forallb (λ q, negb (has_prefix p q)) (map_to_list fs).*1 = true → ∀ s, fs !! (p ++ s) = None.
Proof.
  intros H s. destruct (fs !! (p ++ s)) as [n|] eqn:E; [|done]. exfalso.
  rewrite forallb_forall in H. specialize (H (p ++ s)). rewrite has_prefix_app in H.
  discriminate H. apply list_elem_of_In, list_elem_of_fmap. exists (p ++ s, n). split; [done|].
  by apply elem_of_map_to_list.
Qed.

Lemma fanout_result_spec_witness :
  ∃ w', handle_result #"/r" #"a" demo_hdr #"b" demo_delegated = (inr tt, w') ∧
    w_fs w' !! #"/r/agents/a/data/pending/t1.b" = None ∧
    w_fs w' !! #"/r/agents/a/data/tasks/t1/state" = None.
Proof.
  destruct (fanout_result_spec #"/r" #"a" demo_hdr #"b" demo_delegated) as (w' & E & H1 & _ & H2 & _).
  - split.
    + split; [|reflexivity|intros t m u; vm_compute; discriminate..].
      split; try (vm_compute; reflexivity); [exists 448, 1000; vm_compute; reflexivity|].
      apply not_elem_of_nil.
    + vm_compute. reflexivity.
    + exists 448, 1000. vm_compute. reflexivity.
    + intros m u. vm_compute. discriminate.
    + exists 448, 1000. vm_compute. reflexivity.
    + intros m u. vm_compute. discriminate.
    + apply fresh_prefix. vm_compute. reflexivity.
  - exists w'. split; [exact E|]. split; [exact H1|]. apply H2.
    exists #"t1.c". repeat split; [eexists; vm_compute; reflexivity|not_in_list|vm_compute; discriminate].
Defined.


Definition no_conn : bytes → M Z := λ _, throw ECONNREFUSED.
Definition no_bind : Z → bytes → M unit := λ _ _, mret tt.
Definition no_accept : Z → M (Z * peer_id_t) := λ _, throw EAGAIN.
Definition demo_rt : rt := Rt garbage_cfg false false false false 0 [] 0 0 0 [] (k0 ∅).


(** Every target is accounted for.  One delivery round visits each
    target once; under any failures it returns, and each target is counted as
    sent, skipped or failed. *)
Theorem fanout_accounting root name conn id verb payload targets k w :
  ∃ t k' w', deliver root name conn id verb payload targets (Tally 0 0 0, k) w = (inr (t, k'), w') ∧
    ta_sent t + ta_skipped t + ta_failed t = blen targets ∧ 0 ≤ ta_sent t.
Proof.
  destruct (total_deliver root name conn id verb payload targets (Tally 0 0 0, k) w)
    as ([t k'] & w' & E).
  exists t, k', w'. split; [done|]. apply deliver_tally in E. cbn in E. lia.
Qed.

Lemma fanout_deny_overflow_witness :
  let caps := concat ((λ c, #"deny send:" ++ [c] ++ nl) <$> #"abcdefghijklmnop") ++ #"allow send:x" ++ nl in
  collect_send_targets (caps ++ #"deny send:" ++ #"x" ++ nl) = [ #"x"].
Proof.
  intros caps. rewrite (fanout_deny_overflow caps #"x"); [vm_compute; reflexivity|..].
  - vm_compute. repeat constructor.
  - vm_compute. reflexivity.
  - vm_compute. reflexivity.
Defined.
