(* ===== verification/Reviewer.v ===== *)
(** * reviewer-agent.c: the reviewing runtime

    For every [review] message it counts suspicious patterns and changed lines
    of the payload, writes three artifacts, stores a summary as the task's
    result, and replies to the message's REPLY-TO. *)

From S2P Require Import Prelude CLib Posix Names Common Broker Ipc Agentfs Profiles Tasks Enforcement Runtime.

(** ** The analysis *)

Record pattern := Pattern { needle : bytes; sev : bytes }.
Definition PATTERNS : list pattern :=
  [Pattern #"TODO" #"low"; Pattern #"FIXME" #"low"; Pattern #"password" #"high";
   Pattern #"secret" #"high"; Pattern #"eval" #"med"; Pattern #"strcpy" #"high";
   Pattern #"gets" #"high"].

(** [for (i = 0; i + nl <= n; i++) if (memcmp(hay + i, needle, nl) == 0) count++]:
    [hay] is what is left from [i] on. *)
Fixpoint count_loop (hay needle : bytes) (count : Z) : Z :=
  let count := if (length needle <=? length hay)%nat
               then if bytes_eqb (take (length needle) hay) needle then count + 1 else count
               else count in
  match hay with
  | [] => count
  | _ :: hay' => count_loop hay' needle count
  end.
Definition count_pattern (hay needle : bytes) : Z :=
  if (length needle =? 0)%nat || (length hay <? length needle)%nat then 0
  else count_loop hay needle 0.

(** The byte loop of [count_diff]: [(added, removed)]. *)
Definition plus_header (p : bytes) : bool := has_prefix #"+++" p.
Definition minus_header (p : bytes) : bool := has_prefix #"---" p.
Fixpoint diff_loop (buf : bytes) (at_line_start : bool) (added removed : Z) : Z * Z :=
  match buf with
  | [] => (added, removed)
  | c :: buf' =>
      let '(added, removed) :=
        if at_line_start && negb (plus_header buf) && negb (minus_header buf) then
          if Ascii.eqb c "+" then (added + 1, removed)
          else if Ascii.eqb c "-" then (added, removed + 1) else (added, removed)
        else (added, removed) in
      diff_loop buf' (Ascii.eqb c NL) added removed
  end.
Definition count_diff (buf : bytes) : Z * Z := diff_loop buf true 0 0.

(** ** The artifacts

    [APP cap buf s]: the macro, [snprintf] at the end of a buffer of
    [cap] bytes. *)
Definition APP (cap : Z) (buf : option bytes) (s : bytes) : option bytes :=
  match buf with
  | Some b => if blen s <? cap - blen b then Some (b ++ s) else None
  | None => None
  end.

Definition md_row (p : pattern) (n : Z) : bytes :=
  #"| " ++ needle p ++ #" | " ++ fmt_d n ++ #" | " ++ sev p ++ #" |" ++ nl.
Definition is_high (p : pattern) : bool := bytes_eqb (sev p) #"high".
Definition sum_if (f : pattern → bool) (counts : list Z) : Z :=
  foldl (λ a (pn : pattern * Z), if f pn.1 then a + pn.2 else a) 0 (zip PATTERNS counts).

Definition review_md (plen added removed : Z) (counts : list Z) : option bytes :=
  let a := APP 65536 in
  let b := a (Some []) (#"# Review" ++ nl ++ nl) in
  let b := a b (#"- payload bytes: " ++ fmt_d plen ++ nl) in
  let b := a b (#"- lines added:   " ++ fmt_d added ++ nl) in
  let b := a b (#"- lines removed: " ++ fmt_d removed ++ nl ++ nl) in
  let b := a b (#"## Findings" ++ nl ++ nl) in
  let b := a b (#"| Pattern | Count | Severity |" ++ nl) in
  let b := a b (#"|---|---:|---|" ++ nl) in
  let b := foldl (λ b (pn : pattern * Z), a b (md_row pn.1 pn.2)) b (zip PATTERNS counts) in
  let b := a b (nl ++ #"## Summary" ++ nl ++ nl) in
  a b (fmt_d (sum_if (λ _, true) counts) ++ #" findings total; " ++
       fmt_d (sum_if is_high counts) ++ #" high-severity." ++ nl).

Definition json_item (first : bool) (p : pattern) (n : Z) : bytes :=
  (if first then [] else #"," ++ nl) ++ #"    {" ++ quoted #"pattern" ++ #":" ++ quoted (needle p) ++
  #"," ++ quoted #"count" ++ #":" ++ fmt_d n ++ #"," ++ quoted #"severity" ++ #":" ++
  quoted (sev p) ++ #"}".
Definition json_step (st : option bytes * bool) (pn : pattern * Z) : option bytes * bool :=
  if pn.2 =? 0 then st else (APP 4096 st.1 (json_item st.2 pn.1 pn.2), false).
Definition risks_json (added removed : Z) (counts : list Z) : option bytes :=
  let b := APP 4096 (Some []) (#"{" ++ nl ++ #"  " ++ quoted #"added" ++ #": " ++ fmt_d added ++
             #"," ++ nl ++ #"  " ++ quoted #"removed" ++ #": " ++ fmt_d removed ++ #"," ++ nl ++
             #"  " ++ quoted #"findings" ++ #": [" ++ nl) in
  let '(b, first) := foldl json_step (b, true) (zip PATTERNS counts) in
  APP 4096 b ((if first then [] else nl) ++ #"  ]" ++ nl ++ #"}" ++ nl).

Section reviewer.
Context (root name : bytes) (start ppid : Z) (sys_connect : bytes → M Z).
Context (sys_bind : Z → bytes → M unit) (sys_accept : Z → M (Z * peer_id_t)).

#[local] Abbreviation audit := (Runtime.audit root name).
#[local] Abbreviation set_state := (Runtime.set_state root name).
#[local] Abbreviation set_status := (Runtime.set_status root name).
#[local] Abbreviation event := (Runtime.event root name).

(** An overflowing [APP] returns -1 with [errno] as it was. *)
Definition write_review_md (id : bytes) (plen added removed : Z) (counts : list Z)
    (policy : artifact_policy_t) : M unit :=
  text ← of_option E0 (review_md plen added removed counts);
  task_write_artifact root name id #"review.md" text policy.
Definition write_risks_json (id : bytes) (added removed : Z) (counts : list Z)
    (policy : artifact_policy_t) : M unit :=
  text ← of_option E0 (risks_json added removed counts);
  task_write_artifact root name id #"risks.json" text policy.
Definition write_patch_suggestions (id payload : bytes) (policy : artifact_policy_t) : M unit :=
  task_write_artifact root name id #"patch-suggestions.diff" payload policy.

(** The three writes, in order, stopping at the first failure: its message
    and error. *)
Definition write_artifacts (id payload : bytes) (added removed : Z) (counts : list Z)
    (policy : artifact_policy_t) : M (option (bytes * errno)) :=
  r ← attempt (write_review_md id (blen payload) added removed counts policy);
  match r with
  | inl e => mret (Some (#"review.md", e))
  | inr _ =>
      r ← attempt (write_risks_json id added removed counts policy);
      match r with
      | inl e => mret (Some (#"risks.json", e))
      | inr _ =>
          r ← attempt (write_patch_suggestions id payload policy);
          mret (match r with inl e => Some (#"patch-suggestions", e) | inr _ => None end)
      end
  end.

(** Success and the summary, cut by [snprintf] at [summary_n]. *)
Definition handle_review (id payload : bytes) (policy : artifact_policy_t) (summary_n : nat)
    : M (bool * bytes) :=
  ignore (write_status root name #"processing") ;;
  event id (#"review begin policy=" ++ artifact_policy_name policy) ;;
  let '(added, removed) := count_diff payload in
  let counts := (λ p, count_pattern payload (needle p)) <$> PATTERNS in
  r ← write_artifacts id payload added removed counts policy;
  let findings := foldl Z.add 0 counts in
  let text := #"added=" ++ fmt_d added ++ #" removed=" ++ fmt_d removed ++ #" findings=" ++ fmt_d findings in
  res ← match r with
        | None =>
            audit (#"review done " ++ text) ;;
            event id (#"review done " ++ text) ;;
            mret (true, #"status: completed" ++ nl ++ #"added: " ++ fmt_d added ++ nl ++
                        #"removed: " ++ fmt_d removed ++ nl ++ #"findings: " ++ fmt_d findings ++ nl)
        | Some (what, e) =>
            audit (#"review error: " ++ what ++ #": " ++ strerror e) ;;
            mret (false, #"status: failed" ++ nl ++ #"reason: " ++ strerror e ++ nl)
        end;
  ignore (write_status root name #"idle") ;;
  mret (M:=M) (res.1 : bool, snprintf_trunc summary_n (res.2 : bytes)).

(** ** Handling one message *)

Definition run_task (id : bytes) (hdr : agent_msg_hdr) (payload : bytes) (cfg : profile_cfg_t)
    : M (bool * bytes) :=
  if bytes_eqb (ah_verb hdr) #"review" then handle_review id payload (artifact_policy cfg) 256
  else
    audit (#"unknown verb: " ++ ah_verb hdr) ;;
    event id #"unknown verb" ;;
    mret (false, snprintf_trunc 256 (#"status: failed" ++ nl ++ #"reason: unknown verb " ++
                                     ah_verb hdr ++ nl)).

Definition write_result (id summary : bytes) : M unit :=
  r ← attempt (agent_path root name (snprintf_trunc 64 (#"tasks/" ++ id ++ #"/result")));
  match r with
  | inr p => ignore (atomic_write_file p summary 384)
  | inl _ => mret tt
  end.

Definition finish_task (id : bytes) (ok : bool) : M unit :=
  if ok then
    set_state id TASK_COMPLETED ;; set_status id #"completed" ;; event id #"completed"
  else
    set_state id TASK_FAILED ;; set_status id #"failed" ;; event id #"failed".

(** The [result] reply, correlated by the sender's task id when it gave one. *)
Definition reply (id : bytes) (hdr : agent_msg_hdr) (summary : bytes) (s : rt) : M rt :=
  match ah_reply_to hdr with
  | [] => mret s
  | to =>
      let corr := match ah_task_id hdr with [] => id | t => t end in
      r ← send_to_agent_ex root sys_connect to #"result" [] corr summary (rt_kernel s);
      let '(res, k) := (r : send_res * kstate) in
      match res with
      | Sent =>
          audit (#"reply -> " ++ to ++ #" ok (task=" ++ corr ++ #")") ;;
          event id (#"reply sent -> " ++ to)
      | NoListener =>
          audit (#"reply -> " ++ to ++ #" skipped (no listener)") ;;
          event id (#"reply -> " ++ to ++ #" skipped")
      | SendFailed e =>
          audit (#"reply -> " ++ to ++ #" failed: " ++ strerror e) ;;
          event id (#"reply -> " ++ to ++ #" failed: " ++ strerror e)
      end ;;
      mret (set_kernel k s)
  end.

(** [true] leaves the loop (single-shot dispatch). *)
Definition handle_message (m : message) (s : rt) : M (bool * rt) :=
  let hdr := m_hdr m in
  r ← attempt (task_alloc_id root name MAX_TASK_ID (rt_seq s));
  r ← match r with
      | inl e => mret (inl e, s)
      | inr (id, t) =>
          r ← attempt (task_create root name id (ah_verb hdr) (Some (m_sender m))
                         (pi_pid (m_peer m)) (pi_uid (m_peer m)) (ah_reply_to hdr) (ah_task_id hdr)
                         (m_payload m));
          mret (match r with inl e => inl e | inr _ => inr id end, set_seq t s)
      end;
  match r with
  | (inl e, s) =>
      audit (#"task_create failed: " ++ strerror e) ;;
      close_client (m_client m) ;;
      mret (false, s)
  | (inr id, s) =>
      audit (#"task created " ++ id ++ #" verb=" ++ ah_verb hdr ++ #" from=" ++ m_sender m) ;;
      set_state id TASK_RUNNING ;;
      set_status id #"running" ;;
      event id #"running" ;;
      r ← run_task id hdr (m_payload m) (rt_cfg s);
      let '(ok, summary) := (r : bool * bytes) in
      write_result id summary ;;
      finish_task id ok ;;
      close_client (m_client m) ;;
      s ← reply id hdr summary s;
      if bool_decide (dispatch (rt_cfg s) = DISPATCH_SINGLE_SHOT) then
        audit (#"single-shot: task " ++ id ++ #" done, exiting") ;; mret (true, s)
      else mret (false, s)
  end.

Definition snapshot_extra (s : rt) : bytes :=
  #"profile: " ++ profile_name (rt_cfg s) ++ nl ++
  #"dispatch: " ++ dispatch_name (dispatch (rt_cfg s)) ++ nl ++
  #"artifact_policy: " ++ artifact_policy_name (artifact_policy (rt_cfg s)) ++ nl ++
  #"messages_total: " ++ fmt_d (rt_messages s) ++ nl ++
  #"last_verb: " ++ (match rt_last_verb s with [] => #"-" | v => v end) ++ nl ++
  #"last_message_at: " ++ (if rt_last_at s =? 0 then #"-" else stamp_iso (rt_last_at s)) ++ nl.

Definition reviewer_turn (srv : server) (tk : tick) (s : rt) : M (bool * rt) :=
  r ← await_message root name start ppid snapshot_extra #" (dispatch=single-shot)" tk s;
  match r with
  | ((false, stop), s) => mret (stop, s)
  | ((true, _), s) =>
      r ← receive root name sys_accept srv s;
      match r with
      | (RxNone stop, s) => mret (stop, s)
      | (RxMsg m, s) =>
          caps ← load_caps root name;
          r ← admit_message root name caps m s;
          match r with
          | (None, s) => mret (false, s)
          | (Some _, s) => handle_message m s
          end
      end
  end.

Fixpoint reviewer_loop (srv : server) (ticks : list tick) (s : rt) : M rt :=
  match ticks with
  | [] => mret s
  | tk :: ticks' =>
      if rt_shutdown s then mret s
      else
        r ← reviewer_turn srv tk s;
        match r with
        | (true, s) => mret s
        | (false, s) => reviewer_loop srv ticks' s
        end
  end.

Definition banner (cfg : profile_cfg_t) (tcfg : transport_cfg_t) (pid : Z) : bytes :=
  #"reviewer-agent started pid=" ++ fmt_d pid ++ #" transport=" ++ transport_name (tc_kind tcfg) ++
  #" profile=" ++ profile_name cfg ++ #" dispatch=" ++ dispatch_name (dispatch cfg) ++
  #" artifact_policy=" ++ artifact_policy_name (artifact_policy cfg) ++
  #" idle_timeout=" ++ fmt_d (idle_timeout_sec cfg).

Definition reviewer_main (cur : task) (garbage : profile_cfg_t) (k : kstate) (ticks : list tick) : M Z :=
  r ← runtime_start root name sys_bind cur garbage banner k;
  match r with
  | inl code => mret code
  | inr (srv, s) =>
      reviewer_loop srv ticks s ;;
      runtime_stop root name #"reviewer-agent" srv ;;
      mret 0
  end.
End reviewer.

(** ** Lemmas: counting *)

(** Occurrences, positions counted independently (overlaps included). *)
Definition occurs_at (needle hay : bytes) (i : nat) : bool := has_prefix needle (drop i hay).
Definition occurrences (needle hay : bytes) : list nat :=
  filter (λ i, occurs_at needle hay i = true) (seq 0 (length hay)).

Lemma take_eq_prefix (needle hay : bytes) :
  (length needle <=? length hay)%nat && bytes_eqb (take (length needle) hay) needle = has_prefix needle hay.
Proof.
  destruct (has_prefix needle hay) eqn:E.
  - apply has_prefix_spec in E as [r ->]. rewrite take_app_length, bytes_eqb_refl, andb_true_r.
    apply Nat.leb_le. rewrite length_app. lia.
  - apply andb_false_iff. right. apply bytes_eqb_neq. intros H.
    assert (has_prefix needle hay = true); [|congruence]. apply has_prefix_spec.
    exists (drop (length needle) hay). by rewrite <-H at 1; rewrite take_drop.
Qed.

Lemma count_loop_spec needle hay c :
  needle ≠ [] → count_loop hay needle c = c + blen (occurrences needle hay).
Proof.
  intros Hne. revert c. induction hay as [|x hay IH]; intros c.
  { destruct needle as [|a nd]; [done|]. change (occurrences (a :: nd) []) with (@nil nat).
    rewrite blen_nil. cbn. lia. }
  assert (blen (filter (λ i, occurs_at needle (x :: hay) i = true) (seq 1 (length hay))) =
          blen (occurrences needle hay)) as Hsh.
  { unfold occurrences. rewrite <-fmap_S_seq. generalize (seq 0 (length hay)) as l.
    induction l as [|i l IHl]; [done|]. rewrite fmap_cons, !filter_cons.
    unfold occurs_at in *. cbn [drop]. destruct (decide _); rewrite ?blen_cons; lia. }
  assert (blen (occurrences needle (x :: hay)) =
          (if has_prefix needle (x :: hay) then 1 else 0) + blen (occurrences needle hay)) as ->.
  { rewrite <-Hsh. unfold occurrences at 1. cbn [length seq]. rewrite filter_cons.
    change (occurs_at needle (x :: hay) 0) with (has_prefix needle (x :: hay)).
    destruct (has_prefix needle (x :: hay)); [rewrite decide_True, blen_cons by done|
      rewrite decide_False by done]; lia. }
  cbn [count_loop]. rewrite IH, <-take_eq_prefix.
  destruct (length needle <=? length (x :: hay))%nat; cbn [andb]; [|lia].
  destruct (bytes_eqb _ _); lia.
Qed.

Lemma count_pattern_spec hay needle :
  needle ≠ [] → count_pattern hay needle = blen (occurrences needle hay).
Proof.
  intros Hne. unfold count_pattern.
  rewrite (proj2 (Nat.eqb_neq _ _)) by by destruct needle. cbn [orb].
  destruct (length hay <? length needle)%nat eqn:E; [|by rewrite count_loop_spec].
  apply Nat.ltb_lt in E. symmetry. apply blen_zero. unfold occurrences.
  destruct (filter _ _) as [|i l] eqn:Ef; [done|]. exfalso.
  assert (i ∈ i :: l) as Hi by by left. rewrite <-Ef in Hi.
  apply list_elem_of_filter in Hi as [Hi _]. unfold occurs_at in Hi.
  apply has_prefix_spec in Hi as [r Hr]. apply (f_equal length) in Hr.
  rewrite length_drop, length_app in Hr. lia.
Qed.

(** Changed lines of a diff. *)
Definition is_added (l : bytes) : bool := has_prefix #"+" l && negb (has_prefix #"+++" l).
Definition is_removed (l : bytes) : bool := has_prefix #"-" l && negb (has_prefix #"---" l).
Definition count_lines (f : bytes → bool) (ls : list bytes) : Z := blen (filter (λ l, f l = true) ls).

Lemma diff_loop_rest l rest a r :
  NL ∉ l → diff_loop (l ++ rest) false a r = diff_loop rest false a r.
Proof.
  induction l as [|c l IH]; intros Hl; [done|]. apply not_elem_of_cons in Hl as [Hc Hl].
  cbn [app diff_loop andb]. rewrite (proj2 (Ascii.eqb_neq c NL)) by congruence. by apply IH.
Qed.

Lemma has_prefix_line (p l rest : bytes) :
  NL ∉ p → has_prefix p (l ++ NL :: rest) = has_prefix p l.
Proof.
  intros Hp. revert l. induction p as [|c p IH]; intros l; [done|].
  apply not_elem_of_cons in Hp as [Hc Hp]. unfold has_prefix, strip_prefix in *.
  destruct l as [|d l]; cbn [app].
  - by rewrite (proj2 (Ascii.eqb_neq c NL)) by congruence.
  - destruct (Ascii.eqb c d); [by apply IH|done].
Qed.

(** What the first byte of a line contributes. *)
Lemma diff_loop_line c l rest a r :
  NL ∉ c :: l → rest = [] ∨ (∃ t, rest = NL :: t) →
  diff_loop ((c :: l) ++ rest) true a r =
  diff_loop rest false (if is_added (c :: l) then a + 1 else a) (if is_removed (c :: l) then r + 1 else r).
Proof.
  intros Hl Hrest. apply not_elem_of_cons in Hl as [Hc Hl].
  assert (∀ p, NL ∉ p → has_prefix p ((c :: l) ++ rest) = has_prefix p (c :: l)) as HP.
  { intros p Hp. destruct Hrest as [->|[t ->]]; [by rewrite app_nil_r|by apply has_prefix_line]. }
  cbn [app diff_loop]. change (c :: l ++ rest) with ((c :: l) ++ rest). unfold plus_header, minus_header.
  rewrite !HP by not_in_list. rewrite (proj2 (Ascii.eqb_neq c NL)) by congruence.
  unfold is_added, is_removed.
  assert (∀ x, has_prefix [x] (c :: l) = Ascii.eqb x c) as H1.
  { intros x. unfold has_prefix, strip_prefix. by destruct (Ascii.eqb x c). }
  change #"+" with ["+"%char]. change #"-" with ["-"%char]. rewrite !H1.
  rewrite !(Ascii.eqb_sym _ c).
  destruct (Ascii.eqb c "+") eqn:Ep; [apply Ascii.eqb_eq in Ep as ->|].
  - change (has_prefix #"---" _) with false. change (Ascii.eqb "+" "-") with false. cbn [andb negb].
    destruct (has_prefix #"+++" _); cbn [andb negb]; by rewrite diff_loop_rest.
  - destruct (Ascii.eqb c "-") eqn:Em; cbn [andb].
    + apply Ascii.eqb_eq in Em as ->. change (has_prefix #"+++" _) with false. cbn [andb negb].
      destruct (has_prefix #"---" _); cbn [andb negb]; by rewrite diff_loop_rest.
    + destruct (_ && _); by rewrite diff_loop_rest.
Qed.

Lemma count_lines_cons f l ls : count_lines f (l :: ls) = (if f l then 1 else 0) + count_lines f ls.
Proof.
  unfold count_lines. rewrite filter_cons.
  destruct (f l); [rewrite decide_True, blen_cons by done|rewrite decide_False by done]; lia.
Qed.

Lemma diff_loop_lines buf a r :
  diff_loop buf true a r =
  (a + count_lines is_added (text_lines buf), r + count_lines is_removed (text_lines buf)).
Proof.
  remember (length buf) as n eqn:Hn. revert buf a r Hn.
  induction n as [n IH] using lt_wf_ind. intros buf a r Hn.
  destruct (split_at NL buf) as [[l rest]|] eqn:E.
  - apply split_at_Some in E as [-> Hl]. rewrite text_lines_cons, !count_lines_cons by done.
    rewrite length_app in Hn. cbn in Hn.
    assert (diff_loop (l ++ NL :: rest) true a r =
            diff_loop rest true (if is_added l then a + 1 else a) (if is_removed l then r + 1 else r)) as ->.
    { destruct l as [|c l]; [done|]. rewrite diff_loop_line by eauto. done. }
    rewrite (IH (length rest)) by lia. f_equal; destruct (is_added l), (is_removed l); lia.
  - apply split_at_None in E. destruct buf as [|c l]; [by rewrite !Z.add_0_r|].
    rewrite text_lines_last by done. rewrite <-(app_nil_r (c :: l)) at 1.
    rewrite diff_loop_line by auto. rewrite !count_lines_cons. cbn [diff_loop].
    change (count_lines _ []) with 0.
    f_equal; destruct (is_added (c :: l)), (is_removed (c :: l)); lia.
Qed.

(** ** Lemmas: the artifacts fit their buffers *)

Definition fits (n : Z) (o : option bytes) : Prop := ∃ b, o = Some b ∧ blen b ≤ n.

Lemma fits_APP cap n k o s : fits n o → blen s ≤ k → n + k < cap → fits (n + k) (APP cap o s).
Proof.
  intros (b & -> & Hb) Hs Hc. exists (b ++ s). unfold APP.
  rewrite (proj2 (Z.ltb_lt _ _)) by lia. split; [done|]. rewrite blen_app. lia.
Qed.
Lemma fits_nil : fits 0 (Some []).
Proof. by exists []. Qed.

(** A number of at most eight digits. *)
Definition small (n : Z) : Prop := 0 ≤ n < 100000000.
Lemma fmt_small n : small n → blen (fmt_d n) ≤ 8.
Proof.
  intros [H0 H]. unfold fmt_d. rewrite (proj2 (Z.ltb_ge _ _)) by lia.
  assert (length (dec n) ≤ 8)%nat; [|unfold blen; lia]. apply dec_length; [pow10; lia|lia].
Qed.

Definition short (p : pattern) : Prop := blen (needle p) ≤ 8 ∧ blen (sev p) ≤ 4.
Lemma patterns_short : Forall short PATTERNS.
Proof. repeat constructor; vm_compute; discriminate. Qed.

Lemma md_row_len p n : short p → small n → blen (md_row p n) ≤ 40.
Proof. intros [? ?] Hn%fmt_small. unfold md_row. fit_len. Qed.
Lemma json_item_len b p n : short p → small n → blen (json_item b p n) ≤ 100.
Proof. intros [? ?] Hn%fmt_small. unfold json_item, quoted. destruct b; fit_len. Qed.

Lemma zip_patterns counts pn :
  Forall small counts → pn ∈ zip PATTERNS counts → short pn.1 ∧ small pn.2.
Proof.
  intros Hc Hin. destruct pn as [p n].
  pose proof (elem_of_zip_l _ _ _ _ Hin) as Hp. pose proof (elem_of_zip_r _ _ _ _ Hin) as Hn.
  pose proof patterns_short as HP. rewrite Forall_forall in HP. rewrite Forall_forall in Hc.
  split; [by apply HP|by apply Hc].
Qed.

Lemma rows_fit l n o :
  (∀ pn, pn ∈ l → short pn.1 ∧ small pn.2) → fits n o → n + 40 * blen l < 65536 →
  fits (n + 40 * blen l) (foldl (λ b (pn : pattern * Z), APP 65536 b (md_row pn.1 pn.2)) o l).
Proof.
  revert n o. induction l as [|pn l IH]; intros n o Hl Ho Hn.
  { cbn [foldl]. change (blen (@nil (pattern * Z))) with 0. by replace (n + 40 * 0) with n by lia. }
  rewrite blen_cons in Hn |- *. cbn [foldl]. replace (n + 40 * (1 + blen l)) with (n + 40 + 40 * blen l) by lia.
  apply IH; [intros; apply Hl; by right| |lia]. apply fits_APP; [done| |pose proof (blen_nonneg l); lia].
  apply md_row_len; apply Hl; by left.
Qed.

Lemma items_fit l n o first :
  (∀ pn, pn ∈ l → short pn.1 ∧ small pn.2) → fits n o → n + 100 * blen l < 4096 →
  fits (n + 100 * blen l) (foldl json_step (o, first) l).1.
Proof.
  revert n o first. induction l as [|pn l IH]; intros n o first Hl Ho Hn.
  { cbn [foldl fst]. change (blen (@nil (pattern * Z))) with 0. by replace (n + 100 * 0) with n by lia. }
  rewrite blen_cons in Hn |- *. cbn [foldl].
  replace (n + 100 * (1 + blen l)) with (n + 100 + 100 * blen l) by lia.
  assert (fits (n + 100) (json_step (o, first) pn).1) as H1.
  { unfold json_step. cbn [fst snd]. destruct (pn.2 =? 0).
    - destruct Ho as (b & -> & Hb). exists b. split; [done|lia].
    - apply fits_APP; [done| |pose proof (blen_nonneg l); lia]. apply json_item_len; apply Hl; by left. }
  destruct (json_step (o, first) pn) as [o1 f1]. apply IH; [intros; apply Hl; by right|done|lia].
Qed.

Lemma zip_patterns_len (counts : list Z) : blen (zip PATTERNS counts) ≤ 7.
Proof. unfold blen. rewrite length_zip. change (length PATTERNS) with 7%nat. lia. Qed.

(** Walk a chain of [APP]s from the empty buffer. *)
Ltac chain_fits tac :=
  first [ apply fits_nil
        | eapply rows_fit; [tac|chain_fits tac|lia]
        | eapply (fits_APP _ _ 60); [chain_fits tac|fit_len|lia] ].

Lemma review_md_fits plen added removed counts :
  small plen → small added → small removed → Forall small counts →
  small (sum_if (λ _, true) counts) → small (sum_if is_high counts) →
  is_Some (review_md plen added removed counts).
Proof.
  intros Hp Ha Hr Hc Ht Hh. pose proof (zip_patterns_len counts) as Hz.
  pose proof (blen_nonneg (zip PATTERNS counts)).
  apply fmt_small in Hp, Ha, Hr, Ht, Hh. unfold review_md. cbv zeta.
  assert (∀ n o, fits n o → is_Some o) as HS by (intros n o (b & -> & _); done).
  eapply HS. chain_fits ltac:(intros pn; by apply zip_patterns).
Qed.

Lemma risks_json_fits added removed counts :
  small added → small removed → Forall small counts → is_Some (risks_json added removed counts).
Proof.
  intros Ha Hr Hc. pose proof (zip_patterns_len counts) as Hz.
  pose proof (blen_nonneg (zip PATTERNS counts)). apply fmt_small in Ha, Hr.
  unfold risks_json. cbv zeta.
  match goal with |- context [foldl json_step (?o, true) ?l] =>
    assert (fits (200 + 100 * blen l) (foldl json_step (o, true) l).1) as HF end.
  { apply items_fit; [intros pn; by apply zip_patterns| |lia].
    apply (fits_APP _ 0 200); [apply fits_nil|unfold quoted; fit_len|lia]. }
  destruct (foldl json_step _ _) as [o first]. cbn [fst] in HF.
  destruct (fits_APP 4096 _ 20 o ((if first then [] else nl) ++ #"  ]" ++ nl ++ #"}" ++ nl) HF)
    as (b & -> & _); [destruct first; fit_len|lia|done].
Qed.

(** ** Lemmas: bounds on the counts *)

Lemma text_lines_length buf : blen (text_lines buf) ≤ blen buf.
Proof.
  induction buf as [|c buf IH]; [done|]. rewrite blen_cons. cbn [text_lines].
  destruct (Ascii.eqb c NL); [rewrite blen_cons; lia|].
  destruct (text_lines buf) as [|l ls]; rewrite ?blen_cons, ?blen_nil in *; [|lia].
  pose proof (blen_nonneg buf). lia.
Qed.
Lemma count_lines_bound f ls : 0 ≤ count_lines f ls ≤ blen ls.
Proof.
  unfold count_lines, blen. pose proof (length_filter (λ l, f l = true) ls). lia.
Qed.
Lemma occurrences_bound needle hay : 0 ≤ blen (occurrences needle hay) ≤ blen hay.
Proof.
  unfold occurrences, blen. pose proof (length_filter (λ i, occurs_at needle hay i = true) (seq 0 (length hay))) as H.
  rewrite length_seq in H. lia.
Qed.

Definition pattern_counts (payload : bytes) : list Z :=
  (λ p, count_pattern payload (needle p)) <$> PATTERNS.
Lemma pattern_counts_eq payload :
  pattern_counts payload = (λ p, blen (occurrences (needle p) payload)) <$> PATTERNS.
Proof. unfold pattern_counts. cbn [fmap list_fmap PATTERNS needle]. by rewrite !count_pattern_spec. Qed.

Lemma foldl_sum_bound (f : pattern → bool) (l : list (pattern * Z)) a N :
  (∀ pn, pn ∈ l → 0 ≤ pn.2 ≤ N) → 0 ≤ a →
  0 ≤ foldl (λ a (pn : pattern * Z), if f pn.1 then a + pn.2 else a) a l ≤ a + N * blen l.
Proof.
  revert a. induction l as [|pn l IH]; intros a Hl Ha.
  { cbn [foldl]. change (blen (@nil (pattern * Z))) with 0. lia. }
  cbn [foldl]. rewrite blen_cons. pose proof (Hl pn ltac:(by left)).
  specialize (IH (if f pn.1 then a + pn.2 else a)).
  destruct (f pn.1); (destruct IH as [? ?]; [intros; apply Hl; by right|lia|split; [lia|nia]]).
Qed.

(** ** Lemmas: writing an artifact *)

Section artifact.
Context (root name id : bytes).

Definition artifact_path (base : bytes) : bytes := task_path root name id (#"artifacts/" ++ base).

(** What a write below the task directory leaves alone. *)
Lemma task_env_below l w r w' data mode :
  task_env root name id w → l ≠ [] →
  atomic_write_file (task_path root name id l) data mode w = (r, w') → task_env root name id w'.
Proof.
  intros [? ? ? (m & u & Hc) Hs] Hl E. pose proof E as E'.
  eapply shrinks_run in E' as [[pre Hp] _]; [|shrink]. split; [done..| |].
  - exists m, u. rewrite <-Hc.
    eapply (confined_run (λ p, ∃ s, p = task_path root name id l ++ s)); [|exact E|].
    + apply confined_atomic_write_file; [by exists []; rewrite app_nil_r|].
      intros s. exists (#".tmp." ++ s). by rewrite app_assoc.
    + intros [s H]. rewrite task_path_app in H by done. unfold task_path, leaf_path in H.
      rewrite task_rel_class in H. apply app_inv_head in H. discriminate H.
  - rewrite Hp in Hs. set_solver.
Qed.

Lemma write_artifact_env base data w r w' :
  task_env root name id w → task_validate_artifact_name base = true →
  task_write_artifact root name id base data ARTIFACT_OVERWRITE w = (r, w') →
  task_env root name id w' ∧
  (∀ b, b ≠ base → (∀ s, b ≠ base ++ #".tmp." ++ s) →
     w_fs w' !! artifact_path b = w_fs w !! artifact_path b) ∧
  match r with
  | inr _ => w_fs w' !! artifact_path base = Some (Node (KReg data) 384 (w_uid w)) ∧ w_uid w' = w_uid w
  | inl _ => True
  end.
Proof.
  intros He Hb E. unfold task_write_artifact in E.
  rewrite bind_guard, (te_id _ _ _ _ He), Hb in E. cbn [andb] in E.
  assert (blen base ≤ 127) as Hlen.
  { unfold task_validate_artifact_name, validate_path_component in Hb. repeat step_in Hb. bool_simpl. lia. }
  rewrite bind_of_option in E. unfold snprintf_ok in E. rewrite (proj2 (Z.ltb_lt _ _)) in E
    by (rewrite blen_app; change (blen #"artifacts/") with 10; lia).
  pose proof (task_rel_len id (#"artifacts/" ++ base) (te_id _ _ _ _ He)) as Hrel.
  rewrite blen_app in Hrel. change (blen #"artifacts/") with 10 in Hrel.
  destruct (task_leaf_path_env root name id (#"artifacts/" ++ base) w He) as (s & Hs & E1); [lia|].
  rewrite bind_unfold, E1 in E. pose proof (task_env_sched _ _ _ _ s He Hs) as He1.
  assert (#"artifacts/" ++ base ≠ []) as Hne0 by done.
  split; [exact (task_env_below _ _ _ _ _ _ He1 Hne0 E)|]. split.
  - intros b Hne Htmp. change (w_fs w) with (w_fs (set_sched s w)). unfold artifact_path.
    eapply atomic_write_other; [done|done| | |exact E].
    + by intros H%app_inv_head.
    + intros t H. rewrite <-!app_assoc in H. apply app_inv_head in H. by apply (Htmp t).
  - pose proof E as E'. eapply shrinks_run in E' as (_ & _ & Hu & _); [|shrink].
    apply atomic_write_file_inv in E. destruct r as [e|[]]; [done|]. destruct E as [_ ->].
    split; [apply lookup_insert_eq|done].
Qed.
End artifact.

(** ** Robustness of the pieces *)

Lemma total_write_artifacts root n id p a r c pol : total (write_artifacts root n id p a r c pol).
Proof. unfold write_artifacts. totality. Qed.
#[export] Hint Resolve total_write_artifacts : total.
Lemma total_handle_review root n id p pol k : total (handle_review root n id p pol k).
Proof. unfold handle_review. destruct (count_diff p). totality. Qed.
#[export] Hint Resolve total_handle_review : total.
Lemma total_run_task root n id hdr p cfg : total (run_task root n id hdr p cfg).
Proof. unfold run_task. totality. Qed.
Lemma total_reply root n conn id hdr t s : total (reply root n conn id hdr t s).
Proof. unfold reply. totality. Qed.
#[export] Hint Resolve total_run_task total_reply : total.
Lemma total_review_message root n conn m s : total (handle_message root n conn m s).
Proof. unfold handle_message, write_result, finish_task. totality. Qed.
#[export] Hint Resolve total_review_message : total.
Lemma total_reviewer_turn root n st pp conn acc srv tk s :
  total (reviewer_turn root n st pp conn acc srv tk s).
Proof. unfold reviewer_turn. totality. Qed.
#[export] Hint Resolve total_reviewer_turn : total.
Lemma total_reviewer_loop root n st pp conn acc srv ticks s :
  total (reviewer_loop root n st pp conn acc srv ticks s).
Proof. revert s. induction ticks; simpl; totality. Qed.
#[export] Hint Resolve total_reviewer_loop : total.

(** ** Properties *)

(** C34: the analysis counts what it reports.  The byte loop of [count_diff]
    is the line-based count of added and removed lines (diff file headers
    [+++]/[---] excluded), and each pattern count is the number of positions
    at which the pattern occurs. *)
Theorem reviewer_counts_spec (payload : bytes) :
  count_diff payload = (count_lines is_added (text_lines payload),
                        count_lines is_removed (text_lines payload)) ∧
  Forall (λ p, count_pattern payload (needle p) = blen (occurrences (needle p) payload)) PATTERNS.
Proof.
  split; [apply diff_loop_lines|]. repeat constructor; by apply count_pattern_spec.
Qed.

(** The report buffers are large enough.  For every payload the transport
    can deliver, neither [APP] chain overflows: both texts are complete. *)
Lemma artifacts_fit (payload : bytes) :
  blen payload ≤ MAX_PAYLOAD →
  let '(added, removed) := count_diff payload in
  is_Some (review_md (blen payload) added removed (pattern_counts payload)) ∧
  is_Some (risks_json added removed (pattern_counts payload)).
Proof.
  intros Hp. unfold count_diff. rewrite diff_loop_lines.
  pose proof (text_lines_length payload) as Hl. pose proof (blen_nonneg payload).
  pose proof (count_lines_bound is_added (text_lines payload)).
  pose proof (count_lines_bound is_removed (text_lines payload)).
  assert (∀ n, 0 ≤ n ≤ blen payload → small n) as Hs by (unfold small, MAX_PAYLOAD in *; lia).
  assert (∀ n, n ∈ pattern_counts payload → 0 ≤ n ≤ blen payload) as Hc.
  { rewrite pattern_counts_eq. intros n (p & -> & _)%list_elem_of_fmap. apply occurrences_bound. }
  assert (Forall small (pattern_counts payload)) as HF by (apply Forall_forall; auto).
  assert (∀ f, small (sum_if f (pattern_counts payload))) as Hsum.
  { intros f. unfold sum_if.
    pose proof (foldl_sum_bound f (zip PATTERNS (pattern_counts payload)) 0 (blen payload)) as HB.
    pose proof (zip_patterns_len (pattern_counts payload)).
    destruct HB as [? ?]; [|lia|].
    - intros [p n] Hin. apply Hc. by eapply elem_of_zip_r.
    - unfold small, MAX_PAYLOAD in *. split; [lia|nia]. }
  split; [apply review_md_fits|apply risks_json_fits]; auto; apply Hs; lia.
Qed.

Definition names : list bytes := [ #"review.md"; #"risks.json"; #"patch-suggestions.diff"].
Lemma artifact_names_apart base b :
  base ∈ names → b ∈ names → ∀ s, b ≠ base ++ #".tmp." ++ s.
Proof.
  intros Hb Hc s. repeat (apply elem_of_cons in Hb as [->|Hb]); [..|by apply elem_of_nil in Hb];
    repeat (apply elem_of_cons in Hc as [->|Hc]); try (by apply elem_of_nil in Hc); discriminate.
Qed.


Definition demo_review : world :=
  set_sched [Pass; Pass; Pass; Pass; Pass; Short 2; Fail EINTR]
    (set_fs (<[ #"/r/agents/a/data/tasks/t1/artifacts" := Node KDir 448 1000]>) demo_task_world).
