(* ===== verification/Agentctl.v ===== *)
(** * agentctl.c: the command line

    Every command of the operator's tool.  A command prints on the standard
    streams, works on the store through the functions of the other files, and
    ends with an exit code; it is a computation of the monad [Cli], whose state
    holds the two streams and the agentfs mount beside the world.  Writes to
    the standard streams succeed.

    A request to the daemon is a conversation with another process: [daemon]
    stands for what the other processes do while the client waits for an
    answer on a descriptor, [sys_connect] for [socket] and [connect],
    [sys_peercred] for [SO_PEERCRED].  [root] is the resolved data root. *)

From S2P Require Import Prelude CLib Posix Names Common Broker Ipc Agentfs Profiles Tasks Enforcement Lifecycle Runtime.

(** ** The monad *)

Record io := Io { io_out : bytes; io_err : bytes; io_kernel : kstate }.

(** [inl code] is an early [return code]. *)
Definition Cli (A : Type) : Type := io → world → (Z + A) * io * world.
#[export] Instance Cli_ret : MRet Cli := λ A a s w, (inr a, s, w).
#[export] Instance Cli_bind : MBind Cli := λ A B f m s w,
  match m s w with
  | (inr a, s', w') => f a s' w'
  | (inl code, s', w') => (inl code, s', w')
  end.

Definition exit_ {A} (code : Z) : Cli A := λ s w, (inl code, s, w).
(** [printf] and [fprintf(stderr, ...)]. *)
Definition say (t : bytes) : Cli unit := λ s w,
  (inr tt, Io (io_out s ++ t) (io_err s) (io_kernel s), w).
Definition warn (t : bytes) : Cli unit := λ s w,
  (inr tt, Io (io_out s) (io_err s ++ t) (io_kernel s), w).
(** A call whose result is examined, one whose result is dropped, and one
    whose failure ends the command. *)
Definition tryc {A} (m : M A) : Cli (errno + A) := λ s w, let '(r, w') := m w in (inr r, s, w').
Definition perform {A} (m : M A) : Cli unit := λ s w, let '(_, w') := m w in (inr tt, s, w').
Definition die {A} (msg : bytes) : Cli A := warn (msg ++ nl) ;; exit_ 1.
Definition need {A} (m : M A) (msg : errno → bytes) : Cli A :=
  r ← tryc m; match r with inr a => mret a | inl e => die (msg e) end.
Definition need_ {A} (m : M A) : Cli A :=
  r ← tryc m; match r with inr a => mret a | inl e => exit_ 1 end.
Definition expect (b : bool) (msg : bytes) : Cli unit := if b then mret tt else die msg.
(** A call that cannot fail, or whose failure reads as [a]. *)
Definition tryd {A} (a : A) (m : M A) : Cli A :=
  r ← tryc m; mret (match r with inr x => x | inl _ => a end).
(** A call on the agentfs mount. *)
Definition on_kernel {A} (m : kstate → M (A * kstate)) : Cli (errno + A) := λ s w,
  match m (io_kernel s) w with
  | (inr (a, k), w') => (inr (inr a), Io (io_out s) (io_err s) k, w')
  | (inl e, w') => (inr (inl e), s, w')
  end.
Fixpoint cfor_each {A} (l : list A) (f : A → Cli unit) : Cli unit :=
  match l with [] => mret tt | x :: l' => f x ;; cfor_each l' f end.
(** [for_each] with a state, for the listings that print a header before the
    first row. *)
Fixpoint cfold {A St} (f : St → A → Cli St) (st : St) (l : list A) : Cli St :=
  match l with [] => mret st | x :: l' => st ← f st x; cfold f st l' end.

(** The text before the first newline. *)
Definition first_line (s : bytes) : bytes := take_while (λ c, negb (Ascii.eqb c NL)) s.
Definition crlf (c : ascii) : bool := Ascii.eqb c NL || Ascii.eqb c CR.
Definition trim_nl_ (s : bytes) : bytes := rtrim crlf s.
Definition nl_or_sp (c : ascii) : bool := Ascii.eqb c NL || Ascii.eqb c SP.

(** ** create, set-goal, grant and deny *)

Section agentctl.
Context (root cwd : bytes) (garbage : profile_cfg_t).
Context (sys_connect : bytes → M Z) (sys_peercred : Z → M peer_id_t) (daemon : Z → M unit).

Definition auditc (name msg : bytes) : Cli unit := perform (audit_log root name msg).

Definition create_subdir (name leaf : bytes) : Cli unit :=
  p ← need_ (agent_path root name leaf);
  need (sys_mkdir p 448) (λ e, #"create: cannot create " ++ p ++ #": " ++ strerror e).
Definition create_file (name leaf : bytes) : Cli unit :=
  p ← need_ (agent_path root name leaf);
  need (sys_open_create p true 384) (λ e, #"create: cannot create " ++ p ++ #": " ++ strerror e) ;;
  perform sys_plain.
Definition write_profile (name profile : bytes) (msg : errno → bytes) : Cli unit :=
  path ← need_ (agent_path root name #"profile");
  line ← need_ (of_option ENAMETOOLONG (snprintf_ok 66 (profile ++ nl)));
  need (atomic_write_file path line 384) msg.

Definition cmd_create (name : bytes) (profile : option bytes) : Cli Z :=
  expect (validate_name name) #"create: invalid name" ;;
  expect (match profile with Some p => validate_name p | None => true end)
         #"create: invalid profile name" ;;
  need (ensure_dir (agent_root root) 448)
       (λ e, #"create: cannot prepare " ++ agent_root root ++ #": " ++ strerror e) ;;
  dir ← need_ (agent_dir root name);
  need (sys_mkdir dir 448) (λ e, #"create: cannot create " ++ dir ++ #": " ++ strerror e) ;;
  need (agent_ensure_layout root name)
       (λ e, #"create: cannot initialize agent layout: " ++ strerror e) ;;
  cfor_each [ #"artifacts"; #"outbox"] (create_subdir name) ;;
  cfor_each [ #"goal"; #"policy"; #"limits"; #"audit.log"] (create_file name) ;;
  write_profile name (match profile with Some (c :: p) => c :: p | _ => #"worker" end)
                (λ e, #"create: write profile: " ++ strerror e) ;;
  need (write_status root name #"created") (λ e, #"create: write status: " ++ strerror e) ;;
  auditc name #"agent created" ;;
  say (#"agent '" ++ name ++ #"' created at " ++ dir ++ nl) ;;
  mret 0.

Definition cmd_set_goal (name goal : bytes) : Cli Z :=
  path ← need (agent_path root name #"goal") (λ _, #"set-goal: invalid name");
  expect (blen goal + 2 <=? 4096) #"set-goal: goal too long (max 4094)" ;;
  need (atomic_write_file path (goal ++ nl) 384) (λ e, #"set-goal: " ++ strerror e) ;;
  auditc name (#"goal set: " ++ goal) ;;
  say (#"goal set for " ++ name ++ nl) ;;
  mret 0.

Definition cap_append (name kind cap : bytes) : Cli Z :=
  path ← need (agent_path root name #"policy") (λ _, kind ++ #": invalid name");
  line ← need (of_option ENAMETOOLONG (snprintf_ok 512 (kind ++ [SP] ++ cap ++ nl)))
              (λ _, kind ++ #": capability too long");
  need (append_file path line 384) (λ e, kind ++ #": " ++ strerror e) ;;
  auditc name (kind ++ [SP] ++ cap) ;;
  say (kind ++ [SP] ++ cap ++ #" -> " ++ name ++ nl) ;;
  mret 0.

(** ** set-limit: an upsert of its own over [neu[4096]] *)

(** [llen > keylen && p[keylen] == '=' && memcmp(p, kv, keylen) == 0] *)
Definition limit_matches (keylen : nat) (kv line : bytes) : bool :=
  (keylen <? length line)%nat && bool_decide (line !! keylen = Some "="%char) &&
  bytes_eqb (take keylen line) (take keylen kv).
Definition limit_print (neu kv : bytes) : option bytes :=
  if 4096 - blen neu <=? blen (kv ++ nl) then None else Some (neu ++ kv ++ nl).
Definition limit_step (keylen : nat) (kv : bytes) (st : option (bytes * bool)) (line : bytes)
  : option (bytes * bool) :=
  match st with
  | None => None
  | Some (neu, replaced) =>
      if limit_matches keylen kv line then
        match limit_print neu kv with Some neu => Some (neu, true) | None => None end
      else if 0 <? blen line then
        if 4096 <=? blen neu + blen line + 1 then None else Some (neu ++ line ++ nl, replaced)
      else st
  end.
Definition limit_rewrite (keylen : nat) (kv old : bytes) : option bytes :=
  match line_loop (limit_step keylen kv) (S (length old)) (Some ([], false)) old with
  | None => None
  | Some (neu, true) => Some neu
  | Some (neu, false) => limit_print neu kv
  end.
(** The old text; a file that cannot be opened or read counts as empty. *)
Definition limit_old (path : bytes) : M bytes :=
  fd ← attempt (sys_open_read path);
  match fd with
  | inl _ => mret []
  | inr q => r ← attempt (sys_read q 0 4095);
             ignore sys_plain ;;
             match r with inl _ => mret [] | inr d => mret d end
  end.

Definition cmd_set_limit (name kv : bytes) : Cli Z :=
  match split_at "=" kv with
  | None | Some ([], _) => die #"set-limit: expected KEY=VALUE (e.g. NOFILE=64)"
  | Some (key, _) =>
      path ← need (agent_path root name #"limits") (λ _, #"set-limit: invalid name");
      old ← tryd [] (limit_old path);
      neu ← need (of_option E0 (limit_rewrite (length key) kv (cstr old))) (λ _, #"set-limit: overflow");
      need (atomic_write_file path neu 384) (λ e, #"set-limit: " ++ strerror e) ;;
      auditc name (#"limit set: " ++ kv) ;;
      say (#"limit set: " ++ kv ++ #" (takes effect on next start)" ++ nl) ;;
      mret 0
  end.

(** ** Talking to the daemon *)

Definition agentd_is_alive : M bool :=
  p ← agentd_pid_path root;
  fd ← attempt (sys_open_read p);
  match fd with
  | inl _ => mret false
  | inr q =>
      r ← attempt (sys_read q 0 31);
      ignore sys_plain ;;
      match r with
      | inl _ | inr [] => mret false
      | inr buf => match parse_pid buf with Some pid => run_alive pid | None => mret false end
      end
  end.

(** One round per 50 ms. *)
Fixpoint status_rounds (n : nat) (path : bytes) : M bool :=
  match n with
  | O => mret false
  | S n' =>
      r ← attempt (read_small_file path 64);
      let moved := match r with
                   | inl _ => false
                   | inr s => let w := first_line (cstr s) in
                              negb (bytes_eqb w #"starting") && negb (bytes_eqb w #"created")
                   end in
      if moved then mret true else sys_nanosleep ;; status_rounds n' path
  end.
Definition wait_for_status_flip (name : bytes) (timeout_ms : nat) : M bool :=
  p ← attempt (agent_path root name #"status");
  match p with inl _ => mret false | inr p => status_rounds ((timeout_ms + 49) / 50) p end.

(** The result of a request: the response, an error, or no daemon.  An end of
    file leaves [errno] as it was, which reads as [E0]. *)
Inductive req_res := ReqOk (resp : bytes) | ReqFail (e : errno) | ReqNoDaemon (e : errno).

Definition control_token : M bytes :=
  p ← agentd_token_path root;
  buf ← read_small_file p 129;
  mret (take_while (λ c, negb (crlf c)) (cstr buf)).
Definition auth_line (token cmd_line : bytes) : bytes :=
  #"AUTH " ++ token ++ [SP] ++ cmd_line ++ nl.

(** What follows [connect], on the open descriptor. *)
Definition exchange (fd : Z) (cmd_line : bytes) (n : nat) : M bytes :=
  tok ← attempt control_token;
  match tok with
  | inl _ => ignore (sys_close fd) ;; throw EACCES
  | inr token =>
      match snprintf_ok 768 (auth_line token cmd_line) with
      | None => ignore (sys_close fd) ;; throw EOVERFLOW
      | Some buf =>
          w ← attempt (retry_eintr (sys_sendmsg fd buf []));
          match w with
          | inl e => ignore (sys_close fd) ;; throw e
          | inr _ =>
              ignore sys_plain ;;                    (* shutdown(fd, SHUT_WR) *)
              daemon fd ;;
              r ← attempt (sys_recvmsg fd (n - 1) 0);
              ignore (sys_close fd) ;;
              match r with
              | inl e => throw e
              | inr r => match rc_data r with
                         | [] => throw E0
                         | d => mret (cstr (rtrim crlf d))
                         end
              end
          end
      end
  end.
Definition agentd_request (cmd_line : bytes) (n : nat) : M req_res :=
  path ← agentd_sock_path root;
  c ← attempt (guard_ ENAMETOOLONG (blen path <? SUN_PATH_MAX) ;; sys_connect path);
  match c with
  | inl ENOENT => mret (ReqNoDaemon ENOENT)
  | inl ECONNREFUSED => mret (ReqNoDaemon ECONNREFUSED)
  | inl e => mret (ReqFail e)
  | inr fd =>
      r ← attempt (exchange fd cmd_line n);
      mret (match r with inr resp => ReqOk resp | inl e => ReqFail e end)
  end.

Definition agentd_issue_mailbox (target : bytes) : M Z :=
  path ← agentd_sock_path root;
  guard_ ENAMETOOLONG (blen path <? SUN_PATH_MAX) ;;
  fd ← sys_connect path;
  tok ← attempt control_token;
  match tok with
  | inl e => ignore (sys_close fd) ;; throw e
  | inr token =>
      match snprintf_ok 512 (auth_line token (#"issue " ++ target)) with
      | None => ignore (sys_close fd) ;; throw E0
      | Some req =>
          w ← attempt (retry_eintr (sys_sendmsg fd req []));
          match w with
          | inl e => ignore (sys_close fd) ;; throw e
          | inr _ =>
              daemon fd ;;
              r ← attempt (sys_recvmsg fd 255 (cmsg_room 1));
              ignore (sys_close fd) ;;
              match r with
              | inl e => throw e
              | inr r => match rc_data r, rc_fds r with
                         | [], _ => throw E0
                         | _, [] => throw EACCES
                         | _, issued :: _ => mret issued
                         end
              end
          end
      end
  end.

(** ** start, restart and the supervisor's settings *)

(** [strncmp(resp, "OK ", 3) == 0] after a successful request. *)
Definition demand_ok (what : bytes) (r : req_res) : Cli unit :=
  match r with
  | ReqOk resp =>
      if has_prefix #"OK " resp then mret tt
      else die (what ++ match resp with [] => strerror E0 | _ => resp end)
  | ReqFail e | ReqNoDaemon e => die (what ++ strerror e)
  end.

Definition start_via_daemon (name : bytes) : Cli Z :=
  r ← need_ (agentd_request (snprintf_trunc 256 (#"start " ++ name)) 256);
  demand_ok #"start: agentd: " r ;;
  up ← need_ (wait_for_status_flip name 3000);
  expect up (#"start: agentd did not bring " ++ name ++ #" up within 3s") ;;
  pid ← tryd 0 (read_pid_file root name);
  say (#"started " ++ name ++ #" pid=" ++ fmt_d pid ++ #" (via agentd)" ++ nl) ;;
  mret 0.
Definition start_direct (name runtime_path : bytes) (fs_override sc_override cg_override : Z) : Cli Z :=
  r ← need (spawn_agent_runtime root cwd garbage name runtime_path (Some #"direct")
              fs_override sc_override cg_override false false)
           (λ e, #"start: spawn: " ++ strerror e);
  let '(pid, _, _) := r in
  say (#"started " ++ name ++ #" pid=" ++ fmt_d pid ++ #" pgid=" ++ fmt_d pid ++
       #" (direct; no agentd)" ++ nl) ;;
  mret 0.

Definition cmd_start (name runtime_path : bytes) (fs_override sc_override cg_override : Z)
    (agentfs_mount : option bytes) : Cli Z :=
  dir ← need (agent_dir root name) (λ _, #"start: invalid name");
  need (sys_stat dir) (λ _, #"start: agent " ++ name ++ #" not created (run 'agentctl create " ++
                            name ++ #"')") ;;
  old ← tryc (read_pid_file root name);
  match old with
  | inr old =>
      alive ← need_ (run_alive old);
      expect (negb alive) (#"start: " ++ name ++ #" already running (pid " ++ fmt_d old ++ #")")
  | inl _ => mret tt
  end ;;
  runtime_abs ← need (sys_realpath runtime_path)
                     (λ e, #"start: realpath '" ++ runtime_path ++ #"': " ++ strerror e);
  need (sys_access_x runtime_abs)
       (λ e, #"start: '" ++ runtime_abs ++ #"' not executable: " ++ strerror e) ;;
  perform (write_agent_setting root name #"exec" runtime_path) ;;
  perform (write_agent_setting root name #"desired_state" #"running") ;;
  match agentfs_mount with
  | Some (c :: m) =>
      need (transport_write root name TRANSPORT_AGENTFS (c :: m))
           (λ e, #"start: cannot record transport: " ++ strerror e)
  | _ => mret tt
  end ;;
  daemon_up ← need_ agentd_is_alive;
  if (daemon_up : bool) then start_via_daemon name
  else start_direct name runtime_path fs_override sc_override cg_override.

Definition cmd_enable (name : bytes) (enable : bool) : Cli Z :=
  let word := if enable then #"enable" else #"disable" in
  expect (validate_name name) (word ++ #": invalid name") ;;
  need (write_agent_setting root name #"enabled" (if enable then #"yes" else #"no"))
       (λ e, word ++ #": " ++ strerror e) ;;
  auditc name (word ++ #" requested") ;;
  say (name ++ [SP] ++ word ++ #"d" ++ nl) ;;
  mret 0.

Definition cmd_set_restart_policy (name policy : bytes) : Cli Z :=
  expect (validate_name name) #"set-restart-policy: invalid name" ;;
  expect (bytes_eqb policy #"never" || bytes_eqb policy #"on-failure" || bytes_eqb policy #"always")
         #"set-restart-policy: expected never|on-failure|always" ;;
  need (write_agent_setting root name #"restart_policy" policy)
       (λ e, #"set-restart-policy: " ++ strerror e) ;;
  auditc name (#"restart_policy=" ++ policy) ;;
  say (#"restart_policy set to " ++ policy ++ nl) ;;
  mret 0.

Definition cmd_restart (name : bytes) : Cli Z :=
  expect (validate_name name) #"restart: invalid name" ;;
  r ← need_ (agentd_request (snprintf_trunc 256 (#"restart " ++ name)) 256);
  match r with
  | ReqOk resp => say (resp ++ nl) ;; mret (if first_is "O" resp then 0 else 1)
  | _ => die #"restart: no agentd running; use 'agentctl stop' + 'start'"
  end.

Definition cmd_daemon_shutdown : Cli Z :=
  r ← need_ (agentd_request #"shutdown" 256);
  match r with
  | ReqNoDaemon _ => die #"no agentd running"
  | ReqFail e => die (#"agentd: " ++ strerror e)
  | ReqOk resp => say (resp ++ nl) ;; mret 0
  end.

(** ** send *)

Definition verb_char (c : ascii) : bool :=
  isalnum c || Ascii.eqb c "_" || Ascii.eqb c "-" || Ascii.eqb c ".".

(** The [read] loop over standard input: [reads] are the results of the
    successive reads ([inr []] and the end of the list are end of file).  A
    read returns at most the room left; the rest stays readable. *)
Fixpoint read_stdin (reads : list (errno + bytes)) (payload : bytes) : errno + bytes * list (errno + bytes) :=
  if MAX_PAYLOAD <=? blen payload then inr (payload, reads)
  else match reads with
       | inl EINTR :: reads' => read_stdin reads' payload
       | inl e :: _ => inl e
       | inr [] :: _ | [] => inr (payload, [])
       | inr d :: reads' =>
           let room := Z.to_nat (MAX_PAYLOAD - blen payload) in
           if (length d <=? room)%nat then read_stdin reads' (payload ++ d)
           else inr (payload ++ take room d, inr (drop room d) :: reads')
       end.
(** The probe for one byte more. *)
Definition stdin_left (total : Z) (rest : list (errno + bytes)) : bool :=
  (total =? MAX_PAYLOAD) && match rest with inr (_ :: _) :: _ => true | _ => false end.

Definition deliver_message (name verb payload : bytes) : Cli send_res :=
  daemon_up ← need_ agentd_is_alive;
  if (daemon_up : bool) then
    capfd ← tryc (agentd_issue_mailbox name);
    match capfd with
    | inl e => mret (SendFailed e)
    | inr capfd =>
        r ← tryc (send_framed_message_ex capfd verb #"operator" [] payload);
        perform (sys_close capfd) ;;
        mret (match r with inr _ => Sent | inl e => SendFailed e end)
    end
  else
    r ← on_kernel (send_to_agent root sys_connect name verb payload);
    mret (match r with inr s => s | inl e => SendFailed e end).

Definition cmd_send (name verb : bytes) (stdin : list (errno + bytes)) : Cli Z :=
  expect (negb (bytes_eqb verb []) && (blen verb <? MAX_VERB)) #"send: invalid verb" ;;
  expect (forallb verb_char verb) #"send: verb has illegal char" ;;
  need (agent_path root name #"inbox") (λ _, #"send: invalid name") ;;
  pid ← tryc (read_pid_file root name);
  alive ← match pid with inr pid => need_ (run_alive pid) | inl _ => mret false end;
  expect alive (#"send: no live runtime for '" ++ name ++ #"' — did you 'agentctl start " ++ name ++ #"'?") ;;
  match read_stdin stdin [] with
  | inl e => die (#"send: read stdin: " ++ strerror e)
  | inr (payload, rest) =>
      expect (negb (stdin_left (blen payload) rest))
             (#"send: payload exceeds " ++ fmt_d MAX_PAYLOAD ++ #" bytes") ;;
      s ← deliver_message name verb payload;
      match s with
      | NoListener => die (#"send: no reader on inbox for '" ++ name ++ #"'")
      | SendFailed e => die (#"send: " ++ strerror e)
      | Sent =>
          auditc name (#"send verb=" ++ verb ++ #" len=" ++ fmt_d (blen payload)) ;;
          say (#"sent " ++ verb ++ #" (" ++ fmt_d (blen payload) ++ #" bytes) to " ++ name ++ nl) ;;
          mret 0
      end
  end.

(** ** tasks, task *)

(** The value of a task file up to its first newline. *)
Definition tasks_row_ (name : bytes) (header_printed : bool) (task_id : bytes) : Cli bool :=
  (if header_printed then mret tt
   else say (pad_right 24 #"TASK-ID" ++ [SP] ++ pad_right 10 #"STATE" ++ [SP] ++ #"VERB" ++ nl)) ;;
  st ← tryc (task_read_state root name task_id);
  v ← tryc (task_read_string root name task_id #"verb" 64);
  let state := match st with inr st => task_state_name st | inl _ => #"?" end in
  let verb := match v with inr v => first_line (cstr v) | inl _ => [] end in
  say (pad_right 24 task_id ++ [SP] ++ pad_right 10 state ++ [SP] ++
       match verb with [] => #"-" | _ => verb end ++ nl) ;;
  mret true.

Definition cmd_tasks (name : bytes) : Cli Z :=
  expect (validate_name name) #"tasks: invalid name" ;;
  ids ← need_ (task_ids root name);
  printed ← cfold (tasks_row_ name) false ids;
  (if (printed : bool) then mret tt else say (#"(no tasks)" ++ nl)) ;;
  mret 0.

(** The last [lines] lines: the scan from the end stops behind the newline
    that precedes them. *)
Fixpoint tail_loop (rbuf : bytes) (found lines : nat) (acc : bytes) : bytes :=
  match rbuf with
  | [] => acc
  | c :: r =>
      if Ascii.eqb c NL then
        if (lines <? S found)%nat then acc else tail_loop r (S found) lines (c :: acc)
      else tail_loop r found lines (c :: acc)
  end.
Definition tail_text (lines : nat) (buf : bytes) : bytes := tail_loop (reverse buf) 0 lines [].

(** The size [stat] reports; a directory's is the file system's block. *)
Definition st_size (n : node) : Z :=
  match n_kind n with KReg c => blen c | KLnk t => blen t | KDir => 4096 end.

(** The first [cap] bytes of a file that is open at [q]; nothing when it is
    empty or cannot be read. *)
Definition head_of (q : bytes) (cap : nat) : M bytes :=
  r ← attempt (sys_plain ;;                              (* fstat *)
               fs ← gets w_fs;
               let sz := Nat.min (length (file_content fs q)) cap in
               if (sz =? 0)%nat then mret [] else read_all q sz);
  ignore sys_plain ;;
  mret (match r with inr d => d | inl _ => [] end).

Definition task_field (name task_id field : bytes) : Cli unit :=
  r ← tryc (task_read_string root name task_id field 4096);
  match r with
  | inl _ => mret tt
  | inr buf =>
      match trim_nl_ (cstr buf) with
      | [] => mret tt
      | v => say (pad_right 10 field ++ #"  " ++ v ++ nl)
      end
  end.
Definition artifact_row (row : bytes → Z → bytes) (header path : bytes) (printed : bool) (e : bytes)
  : Cli bool :=
  if first_is "." e then mret printed
  else match snprintf_ok MAX_PATHBUF (path ++ SLASH :: e) with
       | None => mret printed
       | Some fp =>
           st ← tryc (sys_stat fp);
           match st with
           | inl _ => mret printed
           | inr st => (if printed then mret tt else say header) ;;
                       say (row e (st_size st)) ;; mret true
           end
       end.
Definition task_artifacts (name task_id : bytes) : Cli unit :=
  p ← tryc (agent_path root name (snprintf_trunc 256 (#"tasks/" ++ task_id ++ #"/artifacts")));
  match p with
  | inl _ => mret tt
  | inr path =>
      es ← tryc (sys_readdir path);
      match es with
      | inl _ => mret tt
      | inr es =>
          cfold (artifact_row (λ e sz, #"  " ++ pad_left 8 (fmt_d sz) ++ #"  " ++ e ++ nl)
                              (#"artifacts:" ++ nl) path) false es ;;
          mret tt
      end
  end.
Definition task_result (name task_id : bytes) : Cli unit :=
  r ← tryc (path ← agent_path root name (snprintf_trunc 64 (#"tasks/" ++ task_id ++ #"/result"));
            read_small_file path 4096);
  match r with
  | inl _ => mret tt
  | inr buf =>
      match cstr buf with
      | [] => mret tt
      | t => say (#"result:" ++ nl ++ t ++
                  if bool_decide (last t = Some NL) then [] else nl)
      end
  end.
Definition task_events (name task_id : bytes) : Cli unit :=
  p ← tryc (agent_path root name (snprintf_trunc 64 (#"tasks/" ++ task_id ++ #"/events.log")));
  match p with
  | inl _ => mret tt
  | inr path =>
      q ← tryc (sys_open_read path);
      match q with
      | inl _ => mret tt
      | inr q =>
          eb ← tryd [] (head_of q (Z.to_nat 65536));
          match eb with
          | [] => mret tt
          | _ => say (#"events (last 20):" ++ nl ++ tail_text 20 eb)
          end
      end
  end.

Definition task_fields : list bytes :=
  [ #"status"; #"verb"; #"sender"; #"sender_pid"; #"sender_uid"; #"reply_to"; #"incoming_task_id";
   #"created_at"; #"updated_at"].
Definition cmd_task (name task_id : bytes) : Cli Z :=
  expect (validate_name name) #"task: invalid agent name" ;;
  expect (task_validate_id task_id) #"task: invalid task id" ;;
  buf ← need (task_read_string root name task_id #"state" 4096)
             (λ _, #"task: no such task '" ++ task_id ++ #"' for agent '" ++ name ++ #"'");
  say (#"task:       " ++ task_id ++ nl ++ #"agent:      " ++ name ++ nl ++
       #"state:      " ++ trim_nl_ (cstr buf) ++ nl) ;;
  cfor_each task_fields (task_field name task_id) ;;
  task_artifacts name task_id ;;
  task_result name task_id ;;
  task_events name task_id ;;
  mret 0.

(** ** profiles and config *)

Definition profile_print_row (first : bool) (profile : bytes) : Cli bool :=
  (if first then mret tt else say (pad_right 16 #"PROFILE" ++ [SP] ++ #"PATH" ++ nl)) ;;
  p ← tryc (profile_locate profile MAX_PATHBUF);
  say (pad_right 16 profile ++ [SP] ++ match p with inr p => p | inl _ => #"(not found)" end ++ nl) ;;
  mret true.
Definition cmd_profiles : Cli Z :=
  ps ← need_ profile_list;
  first ← cfold profile_print_row false ps;
  if (first : bool) then mret 0
  else
    warn (#"no profile files found in any of:" ++ nl ++ #"  $AGENT_PROFILES_DIR (if set)" ++ nl ++
          #"  /usr/lib/agents/profiles" ++ nl ++ #"  /usr/local/lib/agents/profiles" ++ nl ++
          #"  ./profiles" ++ nl) ;;
    mret 1.

(** The loader's result does not carry [errno]; a file that vanished after it
    was located is what is left. *)
Definition cmd_show_profile (profile : bytes) : Cli Z :=
  expect (validate_name profile) #"show-profile: invalid name" ;;
  path ← need (profile_locate profile MAX_PATHBUF) (λ _, #"show-profile: '" ++ profile ++ #"' not found");
  r ← need_ (profile_load_by_name profile garbage);
  let '(ok, cfg) := (r : bool * profile_cfg_t) in
  expect ok (#"show-profile: load: " ++ strerror ENOENT) ;;
  say (#"profile:         " ++ profile_name cfg ++ nl ++
       #"source:          " ++ path ++ nl ++
       #"dispatch:        " ++ dispatch_name (dispatch cfg) ++ nl ++
       #"artifact_policy: " ++ artifact_policy_name (artifact_policy cfg) ++ nl ++
       #"idle_timeout:    " ++ fmt_d (idle_timeout_sec cfg) ++ nl ++
       #"---- raw ----" ++ nl ++ cstr (raw cfg)) ;;
  mret 0.

Definition cmd_set_profile (name profile : bytes) : Cli Z :=
  expect (validate_name name) #"set-profile: invalid agent name" ;;
  expect (validate_name profile) #"set-profile: invalid profile name" ;;
  write_profile name profile (λ e, #"set-profile: " ++ strerror e) ;;
  auditc name (#"profile set to " ++ profile ++ #" (takes effect on next start)") ;;
  say (#"profile set to " ++ profile ++ #" (takes effect on next start)" ++ nl) ;;
  mret 0.

Definition cmd_config (name kv : bytes) : Cli Z :=
  expect (validate_name name) #"config: invalid agent name" ;;
  expect (bool_decide ("="%char ∈ kv)) #"config: expected KEY=VALUE" ;;
  path ← need_ (agent_path root name #"config");
  need (kv_file_set path kv) (λ e, #"config: " ++ strerror e) ;;
  auditc name (#"config set: " ++ kv) ;;
  say (#"config set: " ++ kv ++ #" (takes effect on next start)" ++ nl) ;;
  mret 0.

(** ** ping

    [elapsed] is the printed difference of the two clock readings. *)

Definition connect_agent (target : bytes) : M (option Z) :=
  guard_ EINVAL (validate_name target) ;;
  r ← ipc_connect root sys_connect target;
  match r with
  | IPC_OK fd => mret (Some fd)
  | IPC_PEER_GONE => mret None
  | IPC_PROTO_VIOLATION => throw EPROTO
  end.

Definition ping_agentfs (name mount elapsed : bytes) : Cli Z :=
  r ← on_kernel (λ k, let '(r, k') := agentfs_send name #"ping" [] [] [] k in mret (r, k'));
  match r with
  | inr (inr (Some _)) =>
      say (#"agent=" ++ name ++ #" transport=agentfs send=" ++ elapsed ++ #"ms (no reply over agentfs)" ++ nl) ;;
      mret 0
  | inr (inr None) => die (#"ping: no inbox at " ++ mount ++ #"/agents/" ++ name ++ #"/inbox")
  | inr (inl e) | inl e => die (#"ping: " ++ strerror e)
  end.
Definition ping_uds (name elapsed : bytes) : Cli Z :=
  c ← tryc (connect_agent name);
  match c with
  | inr None => die (#"ping: no live runtime for '" ++ name ++ #"'")
  | inl e => die (#"ping: connect: " ++ strerror e)
  | inr (Some fd) =>
      peer ← tryd peer0 (sys_peercred fd);
      s ← tryc (send_framed_message fd #"ping" []);
      match s with
      | inl e =>
          warn (#"ping: send: " ++ strerror e ++ nl) ;; perform (sys_close fd) ;; mret 1
      | inr _ =>
          perform (daemon fd) ;;
          r ← tryc (retry_eintr (sys_recvmsg fd 127 0));
          perform (sys_close fd) ;;
          let head := #"agent=" ++ name ++ #" pid=" ++ fmt_d (pi_pid peer) ++ #" uid=" ++
                      fmt_d (pi_uid peer) ++ #" rtt=" ++ elapsed ++ #"ms " in
          let reply := match r with inr r => rc_data r | inl _ => [] end in
          say (head ++ match reply with
                       | [] => #"(no reply)"
                       | d => #"reply=" ++ quoted (first_line (cstr d))
                       end ++ nl) ;;
          mret 0
      end
  end.
Definition cmd_ping (name elapsed : bytes) : Cli Z :=
  dir ← need (agent_dir root name) (λ _, #"ping: invalid name");
  need (sys_stat dir) (λ _, #"ping: no agent at " ++ dir) ;;
  t ← tryc (transport_resolve root name);
  match t with
  | inr (TransportCfg TRANSPORT_AGENTFS mount) => ping_agentfs name mount elapsed
  | _ => ping_uds name elapsed
  end.

(** ** stop, kill

    [remove_tree] recurses on paths that get longer and are shorter than
    [MAX_PATHBUF], so [MAX_PATHBUF] levels are enough
    ([remove_tree_fuel]).  The result is [rc == 0] with the value [errno] has
    afterwards; [err] is its value before. *)

Definition seen (err : errno) (r : errno + unit) : bool * errno :=
  match r with inr _ => (true, err) | inl e => (false, e) end.
Definition both (a : bool * errno) (b : bool * errno) : bool * errno := (a.1 && b.1, b.2).

Section remove_children.
Context (remove_tree : bytes → errno → M (bool * errno)).
Definition remove_child (path e : bytes) (st : bool * errno) : M (bool * errno) :=
  if bytes_eqb e #"." || bytes_eqb e #".." then mret st
  else match snprintf_ok MAX_PATHBUF (path ++ SLASH :: e) with
       | None => mret (false, st.2)
       | Some p =>
           n ← attempt (sys_lstat p);
           match n with
           | inl er => mret (false, er)
           | inr (Node KDir _ _) => r ← remove_tree p st.2; mret (both st r)
           | inr _ => r ← attempt (sys_unlink p); mret (both st (seen st.2 r))
           end
       end.
Fixpoint remove_children (path : bytes) (es : list bytes) (st : bool * errno) : M (bool * errno) :=
  match es with
  | [] => mret st
  | e :: es' => st ← remove_child path e st; remove_children path es' st
  end.
End remove_children.

Fixpoint remove_tree_ (fuel : nat) (path : bytes) (err : errno) : M (bool * errno) :=
  match fuel with
  | O => mret (false, err)
  | S fuel' =>
      d ← attempt (sys_readdir path);
      match d with
      | inl ENOTDIR => r ← attempt (sys_unlink path); mret (seen ENOTDIR r)
      | inl ENOENT => r ← attempt (sys_unlink path); mret (seen ENOENT r)
      | inl e => mret (false, e)
      | inr es =>
          st ← remove_children (remove_tree_ fuel') path es (true, err);
          r ← attempt (sys_rmdir path);
          mret (both st (seen (snd st) r))
      end
  end.
Definition remove_tree (path : bytes) (err : errno) : M (bool * errno) :=
  remove_tree_ (Z.to_nat MAX_PATHBUF) path err.

(** [Some fd] for a pidfd, [None] for -1.  One round per 50 ms; [true] is the
    result 0. *)
Definition probe (pid : Z) (pidfd : option Z) : M (option bool) :=
  match pidfd with Some fd => lifecycle_pidfd_alive fd | None => mret None end.
Fixpoint gone_rounds (n : nat) (pid : Z) (pidfd : option Z) : M bool :=
  match n with
  | O => mret false
  | S n' =>
      sys_nanosleep ;;
      r ← probe pid pidfd;
      match r with
      | Some false => mret true
      | Some true => gone_rounds n' pid pidfd
      | None => a ← run_alive pid; if (a : bool) then gone_rounds n' pid pidfd else mret true
      end
  end.
Definition wait_pid_gone (pid : Z) (pidfd : option Z) (total_ms : nat) : M bool :=
  r ← probe pid pidfd;
  match r with
  | Some false => mret true
  | _ =>
      a ← run_alive pid;
      if (pid <=? 0) || negb (a : bool) then mret true
      else gone_rounds ((total_ms + 49) / 50) pid pidfd
  end.

(** Direct mode: the signal to the leader through a pidfd when one can be
    had, then to the group. *)
Definition signal_direct (word : bytes) (pid sig : Z) : Cli (option Z) :=
  pf ← tryc (lifecycle_pidfd_open pid);
  let pidfd := match pf with inr fd => Some fd | inl _ => None end in
  r ← tryc (match pidfd with Some fd => lifecycle_pidfd_signal fd sig | None => sys_kill pid sig end);
  match r with
  | inr _ | inl ESRCH => mret tt
  | inl e =>
      warn (word ++ #": " ++ (if pidfd is Some _ then #"pidfd_send_signal" else #"kill") ++ #": " ++
            strerror e ++ nl) ;;
      perform (close_opt pidfd) ;; exit_ 1
  end ;;
  perform (lifecycle_signal_group pid sig) ;;
  mret pidfd.

Definition stop_process (name : bytes) (pid : Z) : Cli unit :=
  daemon_up ← need_ agentd_is_alive;
  pidfd ← (if (daemon_up : bool) then
             r ← need_ (agentd_request (snprintf_trunc 256 (#"stop " ++ name)) 256);
             demand_ok #"stop: agentd: " r ;;
             mret None
           else signal_direct #"stop" pid SIGTERM);
  daemon_up ← need_ agentd_is_alive;
  (if (daemon_up : bool) then mret tt
   else
     gone ← need_ (wait_pid_gone pid pidfd 2000);
     if (gone : bool) then mret tt
     else
       warn (#"stop: pid " ++ fmt_d pid ++ #" still running after 2s; try 'agentctl kill " ++ name ++
             #"'" ++ nl) ;;
       perform (close_opt pidfd) ;; exit_ 1) ;;
  perform (close_opt pidfd) ;;
  daemon_up ← need_ agentd_is_alive;
  say (#"stopped " ++ name ++ #" (pid " ++ fmt_d pid ++ #")" ++
       (if (daemon_up : bool) then #" (via agentd)"
        else if (pidfd : option Z) is Some _ then #" (direct, pidfd)" else #" (direct)") ++ nl).

(** The clean-up, repeated at most twice when the directory was refilled
    meanwhile. *)
Fixpoint cleanup (attempts : nat) (dir : bytes) (err : errno) : M (bool * errno) :=
  r ← remove_tree dir err;
  match attempts, r with
  | S n, (false, ENOTEMPTY) => sys_nanosleep ;; cleanup n dir ENOTEMPTY
  | _, _ => mret r
  end.

Definition live_pid (name : bytes) : Cli (option Z) :=
  p ← tryc (read_pid_file root name);
  match p with
  | inl _ => mret None
  | inr pid => a ← need_ (run_alive pid); mret (if (a : bool) then Some pid else None)
  end.

Definition cmd_stop (name : bytes) : Cli Z :=
  dir ← need (agent_dir root name) (λ _, #"stop: invalid name");
  need (sys_stat dir) (λ _, #"stop: no agent at " ++ dir) ;;
  perform (write_agent_setting root name #"desired_state" #"stopped") ;;
  p ← live_pid name;
  match p with
  | Some pid => stop_process name pid
  | None => say (#"stopped " ++ name ++ #" (no live process)" ++ nl)
  end ;;
  r ← need_ (cleanup 2 dir E0);
  let '(ok, e) := (r : bool * errno) in
  expect ok (#"stop: cleanup " ++ dir ++ #": " ++ strerror e) ;;
  say (#"removed " ++ dir ++ nl) ;;
  mret 0.

(** [cgroup.kill] when the agent has a cgroup: the whole subtree at once. *)
Definition kill_cgroup (name : bytes) : Cli bool :=
  es ← tryc (enforcement_read_state root name);
  match es with
  | inr es =>
      if (cgroup_status es =? ENF_STATUS_ACTIVE) && negb (bytes_eqb (cgroup_path es) []) then
        r ← tryc (lifecycle_cgroup_kill (cgroup_path es));
        mret (match r with inr _ => true | inl _ => false end)
      else mret false
  | inl _ => mret false
  end.
Definition kill_process (name : bytes) (pid : Z) : Cli unit :=
  used_cgroup ← kill_cgroup name;
  pidfd ← (if (used_cgroup : bool) then mret None else signal_direct #"kill" pid SIGKILL);
  perform (wait_pid_gone pid pidfd 500) ;;
  perform (close_opt pidfd) ;;
  say (#"killed " ++ name ++ #" (pid " ++ fmt_d pid ++ #")" ++
       (if (used_cgroup : bool) then #" (cgroup.kill)"
        else if (pidfd : option Z) is Some _ then #" (pidfd)" else []) ++ nl).

Definition cmd_kill (name : bytes) : Cli Z :=
  dir ← need (agent_dir root name) (λ _, #"kill: invalid name");
  need (sys_stat dir) (λ _, #"kill: no agent at " ++ dir) ;;
  p ← live_pid name;
  match p with
  | Some pid => kill_process name pid
  | None => say (#"killed " ++ name ++ #" (no live process)" ++ nl)
  end ;;
  r ← need_ (remove_tree dir E0);
  let '(ok, e) := (r : bool * errno) in
  expect ok (#"kill: cleanup " ++ dir ++ #": " ++ strerror e) ;;
  say (#"removed " ++ dir ++ nl) ;;
  mret 0.

(** ** list, inspect, logs, artifacts *)

Definition list_status (name : bytes) : Cli bytes :=
  r ← tryc (p ← agent_path root name #"status"; read_small_file p 256);
  mret (match r with inr buf => take 31 (first_line (cstr buf)) | inl _ => #"?" end).
Definition list_row (printed_header : bool) (e : bytes) : Cli bool :=
  if first_is "." e || negb (validate_name e) then mret printed_header
  else match snprintf_ok MAX_PATHBUF (agent_root root ++ SLASH :: e) with
       | None => mret printed_header
       | Some dir =>
           st ← tryc (sys_stat dir);
           match st with
           | inr (Node KDir _ _) =>
               status ← list_status e;
               pid ← tryc (read_pid_file root e);
               alive ← match pid with inr pid => need_ (run_alive pid) | inl _ => mret false end;
               let row a b c d := pad_right 24 a ++ [SP] ++ pad_right 12 b ++ [SP] ++
                                  pad_right 8 c ++ [SP] ++ pad_right 5 d ++ nl in
               (if printed_header then mret tt
                else say (row #"NAME" #"STATUS" #"PID" #"ALIVE")) ;;
               say (row e status (match pid with inr pid => fmt_d pid | inl _ => #"-" end)
                        (if (alive : bool) then #"yes" else #"no")) ;;
               mret true
           | _ => mret printed_header
           end
       end.
Definition cmd_list : Cli Z :=
  es ← tryc (sys_readdir (agent_root root));
  match es with
  | inl ENOENT => mret 0
  | inl e => die (#"list: " ++ agent_root root ++ #": " ++ strerror e)
  | inr es =>
      printed ← cfold list_row false es;
      (if (printed : bool) then mret tt else say (#"(no agents)" ++ nl)) ;;
      mret 0
  end.

Definition AUDIT_TAIL_LINES : nat := 20.
Definition print_tail (path : bytes) (lines : nat) : Cli unit :=
  q ← tryc (sys_open_read path);
  match q with
  | inl _ => mret tt
  | inr q => buf ← tryd [] (head_of q (Z.to_nat 1048576)); say (tail_text lines buf)
  end.

(** [strstr]: the text from the first occurrence on. *)
Fixpoint strstr (hay needle : bytes) : option bytes :=
  if has_prefix needle hay then Some hay
  else match hay with [] => None | _ :: hay' => strstr hay' needle end.
Definition proc_line (buf key : bytes) : bytes :=
  match strstr buf key with
  | Some line => match split_at NL line with Some (l, _) => #"  " ++ l ++ nl | None => [] end
  | None => []
  end.
Definition print_proc_info (pid : Z) : Cli unit :=
  q ← tryc (sys_open_read (snprintf_trunc 64 (#"/proc/" ++ fmt_d pid ++ #"/status")));
  match q with
  | inl _ => say (#"  (unavailable)" ++ nl)
  | inr q =>
      r ← tryc (read_all q 4095);
      perform sys_plain ;;
      match r with
      | inl _ | inr [] => mret tt
      | inr buf => say (concat (proc_line (cstr buf) <$> [ #"State:"; #"VmRSS:"; #"Threads:"]))
      end
  end.

Definition caps_step (out line : bytes) : bytes :=
  match line with [] => out | _ => out ++ #"  " ++ line ++ nl end.
Definition print_caps_indented (buf : bytes) : bytes := line_loop caps_step (S (length buf)) [] buf.

Definition inspect_pid (pid : errno + Z) : Cli unit :=
  match pid with
  | inr pid =>
      a ← need_ (run_alive pid);
      say (#"pid:    " ++ fmt_d pid ++ #" (" ++ (if (a : bool) then #"alive" else #"dead") ++ #")" ++ nl)
  | inl _ => say (#"pid:    <none>" ++ nl)
  end.
Definition inspect_profile (name : bytes) : Cli unit :=
  cfg ← need_ (profile_load_for_agent root name garbage);
  say (#"profile: " ++ profile_name cfg ++ #" (dispatch=" ++ dispatch_name (dispatch cfg) ++
       #" artifact_policy=" ++ artifact_policy_name (artifact_policy cfg) ++
       #" idle_timeout=" ++ fmt_d (idle_timeout_sec cfg) ++ #")" ++ nl).
Definition inspect_enforcement (name : bytes) : Cli unit :=
  es ← tryc (enforcement_read_state root name);
  match es with
  | inl _ => mret tt
  | inr es =>
      say (#"enforcement:" ++ nl ++
           #"  landlock: " ++ enforce_status_word (landlock_status es) ++ #" (rules=" ++
           fmt_d (landlock_rules es) ++ #")" ++ nl ++
           #"  seccomp:  " ++ enforce_status_word (seccomp_status es) ++ nl ++
           #"  cgroup:   " ++ enforce_status_word (cgroup_status es) ++ nl ++
           (match cgroup_path es with [] => [] | p => #"  cgroup_path: " ++ p ++ nl end) ++
           (match reason es with [] => [] | r => #"  reason:      " ++ r ++ nl end))
  end.
Definition inspect_transport (name : bytes) : Cli unit :=
  t ← tryc (transport_resolve root name);
  match t with
  | inl _ => mret tt
  | inr t =>
      say (#"transport: " ++ transport_name (tc_kind t) ++
           (match tc_kind t with TRANSPORT_AGENTFS => #" mount=" ++ tc_mount t | _ => [] end) ++ nl)
  end.
(** A leaf of the agent, at most [n - 1] bytes, without the trailing [f]. *)
Definition inspect_leaf (name leaf : bytes) (n : nat) (f : ascii → bool) : M bytes :=
  p ← agent_path root name leaf; buf ← read_small_file p n; mret (rtrim f (cstr buf)).
Definition inspect_supervisor (name : bytes) : Cli unit :=
  sup ← tryd #"-" (read_agent_setting root name #"supervisor" 64);
  desired ← tryd #"-" (read_agent_setting root name #"desired_state" 64);
  policy ← tryd #"on-failure" (read_agent_setting root name #"restart_policy" 64);
  count ← tryd #"0" (read_agent_setting root name #"restart_count" 32);
  enabled ← tryd #"yes" (read_agent_setting root name #"enabled" 8);
  status ← tryd #"-" (inspect_leaf name #"status" 128 nl_or_sp);
  say (#"supervisor:" ++ nl ++ #"  mode=" ++ sup ++ nl ++ #"  enabled=" ++ enabled ++ nl ++
       #"  desired_state=" ++ desired ++ nl ++ #"  actual_state=" ++ snprintf_trunc 64 status ++ nl ++
       #"  restart_policy=" ++ policy ++ nl ++ #"  restart_count=" ++ count ++ nl).
Definition inspect_text (name leaf label : bytes) (f : ascii → bool) : Cli unit :=
  r ← tryc (inspect_leaf name leaf 4096 f);
  match r with inr t => say (label ++ t ++ nl) | inl _ => mret tt end.
Definition inspect_lines (name leaf : bytes) : Cli unit :=
  r ← tryc (inspect_leaf name leaf 4096 (λ _, false));
  match r with
  | inl _ | inr [] => mret tt
  | inr t => say (leaf ++ #":" ++ nl ++ print_caps_indented t)
  end.
Definition inspect_audit (name : bytes) : Cli unit :=
  say (#"audit (last 20):" ++ nl) ;;
  p ← tryc (agent_path root name #"audit.log");
  match p with inr p => print_tail p AUDIT_TAIL_LINES | inl _ => mret tt end.

Definition cmd_inspect (name : bytes) : Cli Z :=
  dir ← need (agent_dir root name) (λ _, #"inspect: invalid name");
  need (sys_stat dir) (λ _, #"inspect: no agent at " ++ dir) ;;
  say (#"agent:  " ++ name ++ nl ++ #"dir:    " ++ dir ++ nl) ;;
  pid ← tryc (read_pid_file root name);
  inspect_pid pid ;;
  inspect_profile name ;;
  inspect_enforcement name ;;
  inspect_transport name ;;
  inspect_supervisor name ;;
  inspect_text name #"status" #"status: " nl_or_sp ;;
  inspect_text name #"goal" #"goal:   " (λ c, Ascii.eqb c NL) ;;
  inspect_lines name #"policy" ;;
  inspect_lines name #"limits" ;;
  match pid with
  | inr pid =>
      a ← need_ (run_alive pid);
      if (0 <? pid) && (a : bool) then say (#"proc:" ++ nl) ;; print_proc_info pid else mret tt
  | inl _ => mret tt
  end ;;
  inspect_audit name ;;
  mret 0.

(** The copy loop; a [read] returns at least one byte before the end of the
    file. *)
Fixpoint logs_loop (fuel : nat) (q : bytes) (off : nat) : Cli Z :=
  match fuel with
  | O => mret 1
  | S fuel' =>
      r ← tryc (sys_read q off 4096);
      match r with
      | inl _ => mret 1
      | inr [] => mret 0
      | inr d => say d ;; logs_loop fuel' q (off + length d)
      end
  end.
Definition cmd_logs (name : bytes) : Cli Z :=
  path ← need (agent_path root name #"audit.log") (λ _, #"logs: invalid name");
  q ← need (sys_open_read path) (λ e, #"logs: " ++ strerror e);
  fs ← need_ (gets w_fs);
  rc ← logs_loop (S (length (file_content fs q))) q 0;
  perform sys_plain ;;
  mret rc.

Definition artifacts_for_task_ (name : bytes) (header_printed : bool) (task_id : bytes) : Cli bool :=
  p ← tryc (agent_path root name (snprintf_trunc 64 (#"tasks/" ++ task_id ++ #"/artifacts")));
  match p with
  | inl _ => mret header_printed
  | inr dir =>
      es ← tryc (sys_readdir dir);
      match es with
      | inl _ => mret header_printed
      | inr es =>
          let row a b c := pad_right 24 a ++ [SP] ++ pad_left 9 b ++ #"  " ++ c ++ nl in
          cfold (artifact_row (λ e sz, row task_id (fmt_d sz) e) (row #"TASK-ID" #"BYTES" #"FILE") dir)
                header_printed es
      end
  end.
Definition cmd_artifacts (name : bytes) : Cli Z :=
  expect (validate_name name) #"artifacts: invalid name" ;;
  ids ← need_ (task_ids root name);
  printed ← cfold (artifacts_for_task_ name) false ids;
  (if (printed : bool) then mret tt else say (#"(no artifacts)" ++ nl)) ;;
  mret 0.

(** ** The dispatcher *)

Definition usage_lines : list bytes :=
  [ #"usage: agentctl <command> [args]";
   #"  create        <name> [--profile <p>]";
   #"  set-goal      <name> " ++ [QUOTE] ++ #"<goal>" ++ [QUOTE];
   #"  grant         <name> <capability>";
   #"  deny          <name> <capability>";
   #"  set-limit     <name> KEY=VALUE     (CPU|AS|NOFILE|FSIZE; via setrlimit)";
   #"  set-profile   <name> <profile>     (writes <root>/agents/<name>/profile)";
   #"  config        <name> KEY=VALUE     (per-agent override; KEYs as in profile)";
   #"  profiles                            (list available profiles)";
   #"  show-profile  <profile>             (print effective profile contents)";
   #"  start         <name> --exec <path>";
   #"                  [--enforce-fs|--no-enforce-fs]";
   #"                  [--seccomp minimal|off]";
   #"                  [--cgroup|--no-cgroup]";
   #"                  [--agentfs <mountpoint>]   # use kernel mailbox";
   #"  send          <name> <verb>         (UDS, reads stdin)";
   #"  ping          <name>                (UDS, prints authenticated peer + RTT)";
   #"  list                                (all agents under the data root)";
   #"  inspect       <name>";
   #"  logs          <name>";
   #"  artifacts     <name>                (across all tasks)";
   #"  tasks         <name>                (list this agent's tasks)";
   #"  task          <name> <task-id>      (detailed task inspection)";
   #"  stop          <name>                (SIGTERM, wait, remove dir)";
   #"  kill          <name>                (SIGKILL, remove dir)";
   #"  restart       <name>                (via agentd; same fork lineage)";
   #"  enable        <name>                (agentd will keep it running)";
   #"  disable       <name>                (agentd will stop it)";
   #"  set-restart-policy <name> <p>       (never|on-failure|always)";
   #"  daemon-shutdown                     (tell agentd to exit)"].
Definition usage : Cli Z := warn (concat ((λ l, l ++ nl) <$> usage_lines)) ;; mret 2.

(** The options of [create] and [start]; [None] is a usage error.  An option
    that takes a value and is the last word counts as a plain word. *)
Fixpoint parse_create (args : list bytes) (agent_name profile : option bytes)
  : option (option bytes * option bytes) :=
  match args with
  | [] => Some (agent_name, profile)
  | a :: rest =>
      let plain := match agent_name with
                   | None => parse_create rest (Some a) profile
                   | Some _ => None
                   end in
      match rest with
      | v :: rest' => if bytes_eqb a #"--profile" then parse_create rest' agent_name (Some v) else plain
      | [] => plain
      end
  end.

Record start_opts := StartOpts {
  so_name : option bytes;
  so_rpath : option bytes;
  so_fs : Z;
  so_sc : Z;
  so_cg : Z;
  so_mount : option bytes
}.
Definition start_opts0 : start_opts := StartOpts None None (-1) (-1) (-1) None.
(** The options without a value. *)
Definition start_flag (a : bytes) (o : start_opts) : option start_opts :=
  let '(StartOpts n r fs sc cg m) := o in
  if bytes_eqb a #"--enforce-fs" then Some (StartOpts n r 1 sc cg m)
  else if bytes_eqb a #"--no-enforce-fs" then Some (StartOpts n r 0 sc cg m)
  else if bytes_eqb a #"--cgroup" then Some (StartOpts n r fs sc 1 m)
  else if bytes_eqb a #"--no-cgroup" then Some (StartOpts n r fs sc 0 m)
  else match n with None => Some (StartOpts (Some a) r fs sc cg m) | Some _ => None end.
(** The options with one: [None] when [a] is not such an option, [Some None]
    for a value that is refused. *)
Definition start_value (a v : bytes) (o : start_opts) : option (option start_opts) :=
  let '(StartOpts n r fs sc cg m) := o in
  if bytes_eqb a #"--exec" || bytes_eqb a #"--runtime" then Some (Some (StartOpts n (Some v) fs sc cg m))
  else if bytes_eqb a #"--seccomp" then
    Some (if bytes_eqb v #"minimal" then Some (StartOpts n r fs 1 cg m)
          else if bytes_eqb v #"off" then Some (StartOpts n r fs 0 cg m) else None)
  else if bytes_eqb a #"--agentfs" then Some (Some (StartOpts n r fs sc cg (Some v)))
  else None.
Fixpoint parse_start (args : list bytes) (o : start_opts) : option start_opts :=
  match args with
  | [] => Some o
  | a :: rest =>
      let flag := match start_flag a o with Some o => parse_start rest o | None => None end in
      match rest with
      | v :: rest' =>
          match start_value a v o with
          | Some (Some o) => parse_start rest' o
          | Some None => None
          | None => flag
          end
      | [] => flag
      end
  end.

(** The command a command line names; [None] is a usage error. *)
Inductive command :=
| CmdCreate (name : bytes) (profile : option bytes)
| CmdProfiles | CmdShowProfile (profile : bytes) | CmdSetProfile (name profile : bytes)
| CmdConfig (name kv : bytes) | CmdSetGoal (name goal : bytes)
| CmdGrant (name cap : bytes) | CmdDeny (name cap : bytes) | CmdSetLimit (name kv : bytes)
| CmdStart (name rpath : bytes) (fs sc cg : Z) (mount : option bytes)
| CmdSend (name verb : bytes) | CmdPing (name : bytes) | CmdList | CmdInspect (name : bytes)
| CmdLogs (name : bytes) | CmdArtifacts (name : bytes) | CmdTasks (name : bytes)
| CmdTask (name task_id : bytes) | CmdStop (name : bytes) | CmdKill (name : bytes)
| CmdEnable (name : bytes) (enable : bool) | CmdSetRestartPolicy (name policy : bytes)
| CmdRestart (name : bytes) | CmdDaemonShutdown.

Definition arity0 (args : list bytes) (c : command) : option command :=
  match args with [] => Some c | _ => None end.
Definition arity1 (args : list bytes) (c : bytes → command) : option command :=
  match args with [a] => Some (c a) | _ => None end.
Definition arity2 (args : list bytes) (c : bytes → bytes → command) : option command :=
  match args with [a; b] => Some (c a b) | _ => None end.

Definition parse_command (cmd : bytes) (args : list bytes) : option command :=
  if bytes_eqb cmd #"create" then
    match parse_create args None None with
    | Some (Some n, p) => Some (CmdCreate n p)
    | _ => None
    end
  else if bytes_eqb cmd #"profiles" then arity0 args CmdProfiles
  else if bytes_eqb cmd #"show-profile" then arity1 args CmdShowProfile
  else if bytes_eqb cmd #"set-profile" then arity2 args CmdSetProfile
  else if bytes_eqb cmd #"config" then arity2 args CmdConfig
  else if bytes_eqb cmd #"set-goal" then arity2 args CmdSetGoal
  else if bytes_eqb cmd #"grant" then arity2 args CmdGrant
  else if bytes_eqb cmd #"deny" then arity2 args CmdDeny
  else if bytes_eqb cmd #"set-limit" then arity2 args CmdSetLimit
  else if bytes_eqb cmd #"start" then
    match parse_start args start_opts0 with
    | Some (StartOpts (Some n) (Some r) fs sc cg m) => Some (CmdStart n r fs sc cg m)
    | _ => None
    end
  else if bytes_eqb cmd #"send" then arity2 args CmdSend
  else if bytes_eqb cmd #"ping" then arity1 args CmdPing
  else if bytes_eqb cmd #"list" then arity0 args CmdList
  else if bytes_eqb cmd #"inspect" then arity1 args CmdInspect
  else if bytes_eqb cmd #"logs" then arity1 args CmdLogs
  else if bytes_eqb cmd #"artifacts" then arity1 args CmdArtifacts
  else if bytes_eqb cmd #"tasks" then arity1 args CmdTasks
  else if bytes_eqb cmd #"task" then arity2 args CmdTask
  else if bytes_eqb cmd #"stop" then arity1 args CmdStop
  else if bytes_eqb cmd #"kill" then arity1 args CmdKill
  else if bytes_eqb cmd #"enable" then arity1 args (λ n, CmdEnable n true)
  else if bytes_eqb cmd #"disable" then arity1 args (λ n, CmdEnable n false)
  else if bytes_eqb cmd #"set-restart-policy" then arity2 args CmdSetRestartPolicy
  else if bytes_eqb cmd #"restart" then arity1 args CmdRestart
  else if bytes_eqb cmd #"daemon-shutdown" then arity0 args CmdDaemonShutdown
  else None.

Definition run_command (stdin : list (errno + bytes)) (elapsed : bytes) (c : command) : Cli Z :=
  match c with
  | CmdCreate n p => cmd_create n p
  | CmdProfiles => cmd_profiles
  | CmdShowProfile p => cmd_show_profile p
  | CmdSetProfile n p => cmd_set_profile n p
  | CmdConfig n kv => cmd_config n kv
  | CmdSetGoal n g => cmd_set_goal n g
  | CmdGrant n cap => cap_append n #"allow" cap
  | CmdDeny n cap => cap_append n #"deny" cap
  | CmdSetLimit n kv => cmd_set_limit n kv
  | CmdStart n r fs sc cg m => cmd_start n r fs sc cg m
  | CmdSend n v => cmd_send n v stdin
  | CmdPing n => cmd_ping n elapsed
  | CmdList => cmd_list
  | CmdInspect n => cmd_inspect n
  | CmdLogs n => cmd_logs n
  | CmdArtifacts n => cmd_artifacts n
  | CmdTasks n => cmd_tasks n
  | CmdTask n t => cmd_task n t
  | CmdStop n => cmd_stop n
  | CmdKill n => cmd_kill n
  | CmdEnable n b => cmd_enable n b
  | CmdSetRestartPolicy n p => cmd_set_restart_policy n p
  | CmdRestart n => cmd_restart n
  | CmdDaemonShutdown => cmd_daemon_shutdown
  end.

(** [argv] without the program's name. *)
Definition agentctl_main (argv : list bytes) (stdin : list (errno + bytes)) (elapsed : bytes) : Cli Z :=
  need_ refuse_root ;;
  match argv with
  | [] => usage
  | cmd :: args =>
      match parse_command cmd args with
      | None => usage
      | Some c => run_command stdin elapsed c
      end
  end.

(** The exit code. *)
Definition exit_code_of (r : Z + Z) : Z := match r with inl c | inr c => c end.
End agentctl.
