(* ===== verification/AgentctlSpec.v ===== *)
(** * agentctl: properties of the command line

    What the commands guarantee: removal of an agent's tree, creation,
    isolation of agents from each other, the upsert of [set-limit], the tail
    of a log, the payload read from standard input, and the two compositions
    with the daemon (a granted capability is allowed by the broker, a request
    authenticates and brings back the daemon's answer). *)

From S2P Require Import Prelude CLib Posix Names Common Broker Ipc Agentfs Profiles Tasks Enforcement Lifecycle Agentd AgentdSpec Runtime Agentctl.

(** ** Removing a tree *)

Lemma subtree_child d e p : subtree (d ++ SLASH :: e) p = true → subtree d p = true.
Proof. apply subtree_trans, below_subtree. Qed.

Lemma confined_remove_children rt path es st :
  (∀ p err, subtree path p = true → confined (λ q, subtree path q = true) (rt p err)) →
  confined (λ q, subtree path q = true) (remove_children rt path es st).
Proof.
  intros Hrt. revert st. induction es as [|e es IH]; intros st; cbn [remove_children]; [confine|].
  apply confined_bind; [|auto]. unfold remove_child. apply confined_if; [confine|].
  destruct (snprintf_ok _ _) as [p|] eqn:E; [|confine]. apply snprintf_ok_Some in E as [-> _].
  pose proof (below_subtree path e) as Hp.
  apply confined_bind; [confine|]. intros [er|[[] m u]]; [confine|..];
    (apply confined_bind; [|intros; confine]); [by apply Hrt|..];
    apply confined_attempt, confined_unlink; done.
Qed.
Lemma confined_remove_tree n path err :
  confined (λ q, subtree path q = true) (remove_tree_ n path err).
Proof.
  revert path err. induction n as [|n IH]; intros path err; cbn [remove_tree_]; [confine|].
  apply confined_bind; [confine|]. intros [e|es].
  - destruct e; confine; apply confined_unlink, subtree_refl.
  - apply confined_bind.
    + apply confined_remove_children. intros p er Hp w q Hq. apply (IH p er w q).
      intros Hs. apply Hq. by eapply subtree_trans.
    + intros st. confine. apply confined_rmdir, subtree_refl.
Qed.

(** The recursion never meets its fuel. *)
Lemma remove_tree_fuel n n' path err w :
  blen path < MAX_PATHBUF → MAX_PATHBUF - blen path ≤ Z.of_nat n →
  MAX_PATHBUF - blen path ≤ Z.of_nat n' →
  remove_tree_ n path err w = remove_tree_ n' path err w.
Proof.
  revert n' path err w. induction n as [|n IH]; intros n' path err w Hl Hn Hn'; [lia|].
  destruct n' as [|n']; [lia|]. cbn [remove_tree_]. rewrite !bind_attempt.
  destruct (sys_readdir path w) as [[e|es] w1]; [by destruct e|].
  assert (∀ st w, remove_children (remove_tree_ n) path es st w =
                  remove_children (remove_tree_ n') path es st w) as Hc.
  { induction es as [|e es IHes]; intros st w2; cbn [remove_children]; [done|].
    rewrite !bind_unfold. assert (remove_child (remove_tree_ n) path e st w2 =
                                  remove_child (remove_tree_ n') path e st w2) as ->.
    { unfold remove_child. destruct (_ || _); [done|].
      destruct (snprintf_ok _ _) as [p|] eqn:E; [|done]. apply snprintf_ok_Some in E as [-> Hp].
      rewrite !bind_attempt. destruct (sys_lstat _ w2) as [[er|[[] m u]] w3]; try done.
      pose proof (blen_nonneg e).
      rewrite !bind_unfold, (IH n'); [done|done|..]; rewrite blen_app, blen_cons; lia. }
    destruct (remove_child _ _ _ _ _) as [[]]; [done|apply IHes]. }
  by rewrite !bind_unfold, Hc.
Qed.

(** A tree the code can walk: every entry has a directory above it, is not
    [.] or [..], and its path fits the buffer. *)
Definition walkable (fs : gmap bytes node) (d : bytes) : Prop :=
  ∀ q e, subtree d q = true → SLASH ∉ e → is_Some (fs !! (q ++ SLASH :: e)) →
    (∃ m u, fs !! q = Some (Node KDir m u)) ∧ e ≠ #"." ∧ e ≠ #".." ∧
    blen (q ++ SLASH :: e) < MAX_PATHBUF.

Lemma walkable_above fs d p r :
  walkable fs d → subtree d p = true → is_Some (fs !! (p ++ SLASH :: r)) →
  ∃ m u, fs !! p = Some (Node KDir m u).
Proof.
  intros Hw Hp. remember (length r) as n eqn:Hn.
  revert r Hn. induction (lt_wf n) as [n _ IH]. intros r -> Hr.
  destruct (decide (SLASH ∈ r)) as [Hin|Hni]; [|by destruct (Hw p r Hp Hni Hr)].
  apply list_elem_of_split_r in Hin as (r1 & e & -> & He).
  assert (p ++ SLASH :: r1 ++ SLASH :: e = (p ++ SLASH :: r1) ++ SLASH :: e) as Heq
    by by rewrite <-app_assoc.
  rewrite Heq in Hr. destruct (Hw (p ++ SLASH :: r1) e) as [(m & u & Hk) _]; [|done|done|].
  { eapply subtree_trans; [exact Hp|apply below_subtree]. }
  apply (IH (length r1)) with (r := r1); [rewrite length_app; simpl; lia|done|by rewrite Hk].
Qed.

Lemma subtree_siblings d e e' :
  SLASH ∉ e → SLASH ∉ e' → e ≠ e' → subtree (d ++ SLASH :: e) (d ++ SLASH :: e') = false.
Proof.
  intros He He' Hne. apply not_true_iff_false. rewrite subtree_prefix. intros [H|[r H]].
  - apply app_inv_head in H. congruence.
  - rewrite <-app_assoc in H. apply app_inv_head in H. injection H as ->.
    apply He'. apply elem_of_app. right. by left.
Qed.

(** Removing part of a walkable tree leaves a walkable tree. *)
Lemma walkable_minus fs fs' d t :
  walkable fs d → (∀ p, fs' !! p = if subtree t p then None else fs !! p) → walkable fs' d.
Proof.
  intros Hw Hfs q e Hq He Hin. rewrite Hfs in Hin.
  destruct (subtree t (q ++ SLASH :: e)) eqn:Et; [by destruct Hin|].
  destruct (Hw q e Hq He Hin) as ((m & u & Hk) & Hrest). split; [|done]. exists m, u.
  rewrite Hfs. destruct (subtree t q) eqn:Eq; [|done].
  by rewrite (subtree_trans _ _ _ Eq (below_subtree _ _)) in Et.
Qed.
Lemma walkable_below fs d p : walkable fs d → subtree d p = true → walkable fs p.
Proof. intros Hw Hp q e Hq. apply Hw. by eapply subtree_trans. Qed.

(** What is left after some children were removed. *)
Definition gone (d : bytes) (es : list bytes) (p : bytes) : bool :=
  existsb (λ e, subtree (d ++ SLASH :: e) p) es.
Lemma gone_cons d e es p : gone d (e :: es) p = subtree (d ++ SLASH :: e) p || gone d es p.
Proof. reflexivity. Qed.
Lemma gone_sibling d es e :
  SLASH ∉ e → Forall (λ x, SLASH ∉ x) es → e ∉ es → gone d es (d ++ SLASH :: e) = false.
Proof.
  intros He. induction es as [|x es IH]; intros HF Hni; [done|]. apply not_elem_of_cons in Hni as [? ?].
  inversion HF; subst. rewrite gone_cons, subtree_siblings, IH; done.
Qed.

(** One child of a walkable directory, when the recursive call removes trees. *)
Definition removes (rt : bytes → errno → M (bool * errno)) (d : bytes) : Prop :=
  ∀ p err w, subtree d p = true → p ≠ d → blen p < MAX_PATHBUF → w_sched w = [] → walkable (w_fs w) p →
    (∃ m u, w_fs w !! p = Some (Node KDir m u)) →
    ∃ err' w', rt p err w = (inr (true, err'), w') ∧ w_sched w' = [] ∧
      ∀ q, w_fs w' !! q = if subtree p q then None else w_fs w !! q.

Lemma remove_child_quiet rt d e st w :
  removes rt d → st.1 = true → w_sched w = [] → walkable (w_fs w) d → SLASH ∉ e →
  is_Some (w_fs w !! (d ++ SLASH :: e)) →
  ∃ err' w', remove_child rt d e st w = (inr (true, err'), w') ∧ w_sched w' = [] ∧
    ∀ q, w_fs w' !! q = if subtree (d ++ SLASH :: e) q then None else w_fs w !! q.
Proof.
  intros Hrt Hst Hs Hw He Hin.
  destruct (Hw d e (subtree_refl d) He Hin) as (_ & Hd1 & Hd2 & Hlen). destruct Hin as [nd Hnd].
  unfold remove_child. rewrite (proj2 (bytes_eqb_neq e #".")), (proj2 (bytes_eqb_neq e #"..")) by done. cbn [orb].
  unfold snprintf_ok. rewrite (proj2 (Z.ltb_lt _ _)) by done. rewrite bind_attempt.
  unfold sys_lstat. rewrite sys_quiet, bind_gets, Hnd by done. cbn [of_option].
  assert (d ++ SLASH :: e ≠ d) as Hne.
  { intros H. apply (f_equal length) in H. rewrite length_app in H. simpl in H. lia. }
  pose proof (below_subtree d e) as Hsub.
  destruct nd as [k m u]. destruct st as [ok err]. cbn [fst snd] in *. subst ok.
  assert ((∃ m u, w_fs w !! (d ++ SLASH :: e) = Some (Node KDir m u)) ∨ k ≠ KDir) as [HD|HD].
  { destruct k; [left; eauto|by right|by right]. }
  - destruct HD as (m' & u' & HD). rewrite HD in Hnd. injection Hnd as <- <- <-. cbv [mret M_ret].
    rewrite bind_unfold.
    destruct (Hrt (d ++ SLASH :: e) err w) as (err' & w' & -> & Hs' & Hfs); try done;
      [by eapply walkable_below|by eauto|]. exists err', w'. by split.
  - assert (sys_unlink (d ++ SLASH :: e) w = (inr tt, set_fs (delete (d ++ SLASH :: e)) w)) as Hu.
    { unfold sys_unlink. rewrite sys_quiet, bind_gets, Hnd by done. by destruct k. }
    exists err, (set_fs (delete (d ++ SLASH :: e)) w).
    split; [destruct k; [done|..]; cbv [mret M_ret]; rewrite bind_attempt, Hu; done|].
    split; [done|]. intros q. simpl. destruct (subtree (d ++ SLASH :: e) q) eqn:Eq.
    + apply subtree_prefix in Eq as [->|[r ->]]; [by rewrite lookup_delete_eq|].
      rewrite lookup_delete_ne by (intros H; apply (f_equal length) in H;
        rewrite !length_app in H; simpl in H; lia).
      destruct (w_fs w !! ((d ++ SLASH :: e) ++ SLASH :: r)) eqn:Er; [|done]. exfalso.
      destruct (walkable_above (w_fs w) d (d ++ SLASH :: e) r Hw Hsub) as (m' & u' & HK); [by rewrite Er|].
      rewrite Hnd in HK. congruence.
    + apply lookup_delete_ne. intros <-. by rewrite subtree_refl in Eq.
Qed.

Lemma remove_children_quiet rt d es st w :
  removes rt d → st.1 = true → w_sched w = [] → walkable (w_fs w) d →
  NoDup es → Forall (λ e, (SLASH ∉ e) ∧ is_Some (w_fs w !! (d ++ SLASH :: e))) es →
  ∃ err' w', remove_children rt d es st w = (inr (true, err'), w') ∧ w_sched w' = [] ∧
    ∀ q, w_fs w' !! q = if gone d es q then None else w_fs w !! q.
Proof.
  intros Hrt. revert st w. induction es as [|e es IH]; intros st w Hst Hs Hw Hnd HF.
  { exists st.2, w. split; [|by split]. destruct st as [ok err]. simpl in *. by subst. }
  apply NoDup_cons in Hnd as [Hni Hnd]. apply Forall_cons in HF as [[He Hex] HF].
  destruct (remove_child_quiet rt d e st w) as (err1 & w1 & E1 & Hs1 & Hfs1); try done.
  cbn [remove_children]. rewrite bind_unfold, E1.
  destruct (IH (true, err1) w1) as (err2 & w2 & E2 & Hs2 & Hfs2); try done.
  - by eapply walkable_minus.
  - apply Forall_forall. intros x Hx. rewrite Forall_forall in HF. destruct (HF x Hx) as [Hsx Hxx].
    split; [done|]. rewrite Hfs1, subtree_siblings; try done. by intros ->.
  - exists err2, w2. split; [done|]. split; [done|]. intros q. rewrite Hfs2, gone_cons, Hfs1.
    by destruct (subtree _ q), (gone d es q).
Qed.

Lemma NoDup_entries fs d : NoDup (entries fs d).
Proof.
  unfold entries. pose proof (NoDup_fst_map_to_list fs) as Hnd. revert Hnd.
  generalize ((map_to_list fs).*1) as l. induction l as [|x l IH]; [constructor|].
  intros [Hx Hl]%NoDup_cons. cbn [omap list_omap]. destruct (strip_prefix _ x) as [r|] eqn:Ex; [|by apply IH].
  destruct (bool_decide (SLASH ∈ r)); [by apply IH|].
  constructor; [|by apply IH]. intros (y & Hy & Ey)%list_elem_of_omap.
  destruct (strip_prefix _ y) as [r'|] eqn:Ey'; [|done]. destruct (bool_decide _); [done|].
  apply strip_prefix_Some in Ex as ->. apply strip_prefix_Some in Ey' as ->. by simplify_eq.
Qed.

Lemma first_component r : ∃ e s, (SLASH ∉ e) ∧ (r = e ∨ r = e ++ SLASH :: s).
Proof.
  destruct (decide (SLASH ∈ r)) as [(e & s & -> & He)%list_elem_of_split_l|].
  - exists e, s. split; [done|by right].
  - exists r, []. split; [done|by left].
Qed.

Lemma remove_tree_quiet n d err w :
  blen d < MAX_PATHBUF → MAX_PATHBUF - blen d ≤ Z.of_nat n → w_sched w = [] →
  walkable (w_fs w) d → (∃ m u, w_fs w !! d = Some (Node KDir m u)) →
  ∃ err' w', remove_tree_ n d err w = (inr (true, err'), w') ∧ w_sched w' = [] ∧
    ∀ q, w_fs w' !! q = if subtree d q then None else w_fs w !! q.
Proof.
  revert d err w. induction n as [|n IH]; intros d err w Hl Hn Hs Hw (m & u & Hd); [lia|].
  cbn [remove_tree_]. rewrite bind_attempt. unfold sys_readdir. rewrite sys_quiet, bind_gets, Hd by done.
  cbv [mret M_ret].
  destruct (remove_children_quiet (remove_tree_ n) d (entries (w_fs w) d) (true, err) w)
    as (err1 & w1 & E1 & Hs1 & Hfs1); try done.
  { intros p er w2 Hp Hne Hlp Hs2 Hw2 Hk. apply IH; try done.
    apply subtree_prefix in Hp as [->|[r ->]]; [done|]. pose proof (blen_nonneg r).
    rewrite blen_app, blen_cons in *. lia. }
  { apply NoDup_entries. }
  { apply Forall_forall. intros e [? ?]%elem_of_entries. done. }
  assert (∀ q, gone d (entries (w_fs w) d) q = true → below d q = true) as Hgb.
  { intros q (e & _ & Hq)%existsb_exists. apply subtree_prefix in Hq as [->|[r ->]];
      apply has_prefix_spec; rewrite <-?app_assoc; eexists; rewrite <-app_assoc; done. }
  assert (∀ q, below d q = true → w_fs w1 !! q = None) as Hbelow.
  { intros q Hq. rewrite Hfs1. destruct (gone _ _ q) eqn:Eg; [done|].
    destruct (w_fs w !! q) eqn:Eq; [|done]. exfalso. apply has_prefix_spec in Hq as [r ->].
    rewrite <-app_assoc in Eq, Eg. cbn [app] in Eq, Eg.
    destruct (first_component r) as (e & s & He & Hr).
    assert (is_Some (w_fs w !! (d ++ SLASH :: e))) as Hex.
    { destruct Hr as [->| ->]; [by rewrite Eq|].
      destruct (walkable_above (w_fs w) d (d ++ SLASH :: e) s Hw) as (m1 & u1 & ->); [apply below_subtree| |done].
      rewrite <-app_assoc. cbn [app]. by rewrite Eq. }
    assert (e ∈ entries (w_fs w) d) as Hin by by apply elem_of_entries.
    rewrite <-not_true_iff_false in Eg. apply Eg. apply existsb_exists. exists e.
    split; [by apply list_elem_of_In|]. apply subtree_prefix. destruct Hr as [->| ->]; [by left|].
    right. exists s. by rewrite <-app_assoc. }
  assert (w_fs w1 !! d = Some (Node KDir m u)) as Hd1.
  { rewrite Hfs1. destruct (gone _ _ d) eqn:Eg; [|done]. exfalso. apply Hgb, has_prefix_spec in Eg as [r Hr].
    apply (f_equal length) in Hr. rewrite !length_app in Hr. simpl in Hr. lia. }
  rewrite bind_unfold, E1, bind_attempt. unfold sys_rmdir. rewrite sys_quiet, bind_gets, Hd1 by done.
  assert (existsb (below d) (map_to_list (w_fs w1)).*1 = false) as ->.
  { apply not_true_iff_false. intros (q & Hq & Hb)%existsb_exists. apply list_elem_of_In in Hq.
    apply list_elem_of_fmap in Hq as ([q' nd] & -> & Hin). apply elem_of_map_to_list in Hin.
    by rewrite Hbelow in Hin. }
  exists err1, (set_fs (delete d) w1). split; [done|]. split; [done|]. intros q. cbn [w_fs set_fs].
  destruct (decide (q = d)) as [->|Hne]; [by rewrite lookup_delete_eq, subtree_refl|].
  rewrite lookup_delete_ne by done. unfold subtree. rewrite (proj2 (bytes_eqb_neq q d)) by done. cbn [orb].
  destruct (below d q) eqn:Eb; [by apply Hbelow|]. rewrite Hfs1. destruct (gone _ _ q) eqn:Eg; [|done].
  by rewrite (Hgb q Eg) in Eb.
Qed.

(** ** The tail of a log *)

Lemma tail_loop_line r found lines acc l :
  NL ∉ l → tail_loop (reverse l ++ r) found lines acc = tail_loop r found lines (l ++ acc).
Proof.
  intros Hl. revert acc. induction l as [|c l IH] using rev_ind; intros acc; [done|].
  apply not_elem_of_app in Hl as [Hl Hc]. rewrite reverse_snoc. cbn [app tail_loop].
  rewrite (proj2 (Ascii.eqb_neq c NL)) by (intros ->; apply Hc; by left).
  rewrite IH by done. by rewrite <-app_assoc.
Qed.
Lemma tail_loop_lines ls found lines acc :
  Forall (λ l, NL ∉ l) ls → (found ≤ lines)%nat →
  tail_loop (reverse (unlines ls)) found lines acc =
  unlines (drop (length ls - (lines - found)) ls) ++ acc.
Proof.
  revert found acc. induction ls as [|l ls IH] using rev_ind; intros found acc HF Hf; [done|].
  apply Forall_app in HF as [HF [Hl _]%Forall_cons].
  rewrite unlines_app, unlines_one, reverse_app, reverse_app. cbn [reverse rev_append app].
  change (reverse nl) with nl. rewrite <-app_assoc. unfold nl at 1. cbn [app tail_loop].
  rewrite Ascii.eqb_refl, length_app. cbn [length].
  destruct (lines <? S found)%nat eqn:El.
  - apply Nat.ltb_lt in El. rewrite drop_ge; [done|]. rewrite length_app. cbn [length]. lia.
  - apply Nat.ltb_ge in El. rewrite tail_loop_line, IH by (done || lia).
    rewrite drop_app_le by lia. replace (length ls + 1 - (lines - found))%nat
      with (length ls - (lines - S found))%nat by lia.
    rewrite unlines_app, unlines_one, <-!app_assoc. done.
Qed.

(** ** Running a command *)

Lemma cbind_unfold {A B} (m : Cli A) (f : A → Cli B) s w :
  (m ≫= f) s w = match m s w with
                 | (inr a, s', w') => f a s' w'
                 | (inl code, s', w') => (inl code, s', w')
                 end.
Proof. reflexivity. Qed.
Lemma cbind_tryc {A B} (m : M A) (f : errno + A → Cli B) s w r w' :
  m w = (r, w') → (tryc m ≫= f) s w = f r s w'.
Proof. intros E. rewrite cbind_unfold. unfold tryc. by rewrite E. Qed.
Lemma cbind_need {A B} (m : M A) msg (f : A → Cli B) s w r w' :
  m w = (r, w') →
  (need m msg ≫= f) s w = match r with
                          | inr a => f a s w'
                          | inl e => (inl 1, Io (io_out s) (io_err s ++ msg e ++ nl) (io_kernel s), w')
                          end.
Proof. intros E. rewrite cbind_unfold. unfold need. rewrite (cbind_tryc _ _ _ _ _ _ E). by destruct r. Qed.
Lemma cbind_need_ {A B} (m : M A) (f : A → Cli B) s w r w' :
  m w = (r, w') →
  (need_ m ≫= f) s w = match r with inr a => f a s w' | inl e => (inl 1, s, w') end.
Proof. intros E. rewrite cbind_unfold. unfold need_. rewrite (cbind_tryc _ _ _ _ _ _ E). by destruct r. Qed.
Lemma cbind_expect {B} b msg (f : unit → Cli B) s w :
  (expect b msg ≫= f) s w =
  if b then f tt s w else (inl 1, Io (io_out s) (io_err s ++ msg ++ nl) (io_kernel s), w).
Proof. by destruct b. Qed.
Lemma cbind_tryd {A B} (a : A) (m : M A) (f : A → Cli B) s w r w' :
  m w = (r, w') → (tryd a m ≫= f) s w = f (match r with inr x => x | inl _ => a end) s w'.
Proof. intros E. rewrite cbind_unfold. unfold tryd. by rewrite (cbind_tryc _ _ _ _ _ _ E). Qed.
Lemma cbind_perform {A B} (m : M A) (f : unit → Cli B) s w :
  (perform m ≫= f) s w = f tt s (m w).2.
Proof. rewrite cbind_unfold. unfold perform. by destruct (m w). Qed.
Lemma cbind_say {B} t (f : unit → Cli B) s w :
  (say t ≫= f) s w = f tt (Io (io_out s ++ t) (io_err s) (io_kernel s)) w.
Proof. reflexivity. Qed.

Lemma sys_plain_quiet w : w_sched w = [] → sys_plain w = (inr tt, w).
Proof. intros Hs. unfold sys_plain. by rewrite sys_quiet. Qed.
Lemma head_of_quiet q cap w :
  w_sched w = [] → ∃ w', head_of q cap w = (inr (take cap (file_content (w_fs w) q)), w') ∧
    w_sched w' = [] ∧ w_fs w' = w_fs w.
Proof.
  intros Hs. unfold head_of. rewrite bind_attempt, bind_unfold, sys_plain_quiet by done.
  cbv beta iota zeta. rewrite bind_gets.
  set (c := file_content (w_fs w) q).
  assert (∃ w1, (if (Nat.min (length c) cap =? 0)%nat then mret [] else read_all q (Nat.min (length c) cap)) w =
                (inr (take cap c), w1) ∧ w_sched w1 = [] ∧ w_fs w1 = w_fs w) as (w1 & E1 & Hs1 & Hf1).
  { destruct (Nat.min (length c) cap =? 0)%nat eqn:E0.
    - apply Nat.eqb_eq in E0. exists w. split; [|done].
      assert (take cap c = []) as ->; [|done]. apply length_zero_iff_nil. rewrite length_take. lia.
    - destruct (read_all_spec q (Nat.min (length c) cap) w) as (r & w1 & E & Hf & Hsf & Hr).
      rewrite Hs in *. apply suffix_nil_inv in Hsf. destruct r as [e|d];
        [destruct Hr as [_ Hr]; by apply not_elem_of_nil in Hr|].
      exists w1. rewrite E, Hr. fold c. split; [|done]. do 2 f_equal.
      destruct (decide (length c ≤ cap)%nat); [by rewrite Nat.min_l, firstn_all, take_ge by lia|].
      by rewrite Nat.min_r by lia. }
  rewrite E1, bind_ignore, sys_plain_quiet by done. by exists w1.
Qed.

(** ** The upsert of [set-limit] *)

Lemma limit_matches_eq key v line :
  limit_matches (length key) (key ++ "="%char :: v) line = kv_line_matches key line.
Proof.
  unfold limit_matches, kv_line_matches. rewrite take_app_length.
  apply eq_true_iff_eq. rewrite !andb_true_iff, Nat.ltb_lt, bool_decide_eq_true, bytes_eqb_eq, has_prefix_spec.
  split.
  - intros [[_ Hc] Hk]. exists (drop (S (length key)) line).
    rewrite <-app_assoc. change (#"=" ++ ?x) with ("="%char :: x). rewrite <-Hk at 1.
    rewrite <-(take_drop_middle _ _ _ Hc) at 1. done.
  - intros [r ->]. rewrite <-app_assoc. split; [split|].
    + rewrite length_app. change (#"=" ++ r) with ("="%char :: r). cbn [length]. lia.
    + by rewrite lookup_app_r, Nat.sub_diag by lia.
    + by rewrite take_app_length.
Qed.
Lemma limit_print_eq neu kv : limit_print neu kv = kv_append 4096 neu kv.
Proof.
  unfold limit_print, kv_append. rewrite blen_app. change (blen nl) with 1.
  destruct (4096 - blen neu <=? blen kv + 1) eqn:E1, (blen neu + blen kv + 1 <? 4096) eqn:E2;
    bool_simpl; try done; lia.
Qed.
Lemma limit_step_eq key v st line :
  limit_step (length key) (key ++ "="%char :: v) st line = kv_step key (key ++ "="%char :: v) st line.
Proof.
  destruct st as [[neu rep]|]; [|done]. cbn [limit_step kv_step].
  rewrite limit_matches_eq, limit_print_eq. destruct (kv_line_matches key line); [done|].
  destruct line as [|c line]; [done|]. rewrite (proj2 (Z.ltb_lt _ _)) by (rewrite blen_cons; pose proof (blen_nonneg line); lia).
  unfold kv_append. destruct (4096 <=? _) eqn:E1, (_ <? 4096) eqn:E2; bool_simpl; try done; lia.
Qed.
Lemma limit_rewrite_eq key v old :
  limit_rewrite (length key) (key ++ "="%char :: v) old = kv_rewrite key (key ++ "="%char :: v) old.
Proof.
  unfold limit_rewrite, kv_rewrite. rewrite !line_loop_spec by lia.
  assert (∀ ls st, foldl (limit_step (length key) (key ++ "="%char :: v)) st ls =
                   foldl (kv_step key (key ++ "="%char :: v)) st ls) as ->.
  { induction ls as [|l ls IH]; intros st; [done|]. cbn [foldl]. by rewrite limit_step_eq, IH. }
  destruct (foldl _ _ _) as [[neu []]|]; [done| |done]. apply limit_print_eq.
Qed.

(** ** Standard input *)

(** All the input, when reading it meets no error but interruptions. *)
Fixpoint stdin_text (reads : list (errno + bytes)) : errno + bytes :=
  match reads with
  | inl EINTR :: reads' => stdin_text reads'
  | inl e :: _ => inl e
  | inr [] :: _ | [] => inr []
  | inr d :: reads' => match stdin_text reads' with inr t => inr (d ++ t) | inl e => inl e end
  end.
Lemma stdin_text_head reads t :
  stdin_text reads = inr t →
  match t with
  | [] => match reads with inr (_ :: _) :: _ => False | _ => True end
  | _ => (∃ c d reads', reads = inr (c :: d) :: reads') ∨ ∃ reads', reads = inl EINTR :: reads'
  end.
Proof.
  destruct reads as [|[e|[|c d]] reads]; cbn [stdin_text]; intros H; simplify_eq; try done.
  - destruct t; [done|]. destruct e; try done. by right; eexists.
  - destruct (stdin_text reads); simplify_eq. cbn [app]. left. by eexists _, _, _.
Qed.

Lemma read_stdin_spec reads acc t :
  stdin_text reads = inr t → blen acc ≤ MAX_PAYLOAD →
  ∃ rest, read_stdin reads acc = inr (take (Z.to_nat MAX_PAYLOAD) (acc ++ t), rest) ∧
    (stdin_left (blen (take (Z.to_nat MAX_PAYLOAD) (acc ++ t))) rest = true → MAX_PAYLOAD < blen (acc ++ t)) ∧
    (MAX_PAYLOAD < blen (acc ++ t) →
       stdin_left (blen (take (Z.to_nat MAX_PAYLOAD) (acc ++ t))) rest = true ∨
       ∃ rest', rest = inl EINTR :: rest').
Proof.
  assert (0 ≤ MAX_PAYLOAD) as HM by done.
  revert acc t. induction reads as [|r reads IH]; intros acc t Ht Hacc.
  { cbn in Ht. simplify_eq. rewrite app_nil_r. rewrite take_ge by (unfold blen in *; lia).
    exists []. split; [by cbn [read_stdin]; destruct (_ <=? _)|]. split; [|intros; exfalso; lia].
    unfold stdin_left. by rewrite andb_false_r. }
  unfold read_stdin; fold read_stdin. destruct (MAX_PAYLOAD <=? blen acc) eqn:Em.
  { assert (blen acc = MAX_PAYLOAD) as Ha by lia.
    rewrite take_app_le, take_ge by (unfold blen in *; lia). exists (r :: reads). split; [done|].
    apply stdin_text_head in Ht. unfold stdin_left. rewrite Ha, Z.eqb_refl, blen_app, Ha. cbn [andb].
    destruct t as [|c t]; [|rewrite blen_cons; pose proof (blen_nonneg t)].
    - split; [by destruct r as [|[]]|]. change (blen (@nil ascii)) with 0. intros; exfalso; lia.
    - split; [lia|]. intros _. destruct Ht as [(x & d & rs & [= -> ->])|(rs & [= -> ->])]; [by left|].
      right. by exists rs. }
  destruct r as [e|[|x d]]; cbn [stdin_text] in Ht.
  - destruct e; try done. by apply IH.
  - simplify_eq. rewrite app_nil_r, take_ge by (unfold blen in *; lia). exists []. split; [done|].
    unfold stdin_left. rewrite andb_false_r. split; [done|intros; exfalso; lia].
  - destruct (stdin_text reads) as [|t'] eqn:Et; simplify_eq. bool_simpl.
    remember (Z.to_nat (MAX_PAYLOAD - blen acc)) as room eqn:Hroom.
    destruct (length (x :: d) <=? room)%nat eqn:El.
    + apply Nat.leb_le in El. change (x :: d ++ t') with ((x :: d) ++ t'). rewrite app_assoc. apply IH; [done|].
      rewrite blen_app. unfold blen in *; lia.
    + apply Nat.leb_gt in El. change (x :: d ++ t') with ((x :: d) ++ t').
      assert (take (Z.to_nat MAX_PAYLOAD) (acc ++ (x :: d) ++ t') = acc ++ take room (x :: d)) as ->.
      { rewrite take_app_ge by (unfold blen in *; lia). f_equal.
        replace (Z.to_nat MAX_PAYLOAD - length acc)%nat with room by (unfold blen in *; lia).
        rewrite take_app_le by lia. done. }
      eexists. split; [done|]. split; intros H.
      * rewrite !blen_app. unfold blen in *; lia.
      * left. unfold stdin_left. assert (blen (acc ++ take room (x :: d)) = MAX_PAYLOAD) as ->.
        { rewrite blen_app. unfold blen. rewrite length_take. unfold blen in *; lia. }
        rewrite Z.eqb_refl. destruct (drop room (x :: d)) as [|y ys] eqn:Ed; [|done].
        apply (f_equal length) in Ed. rewrite length_drop in Ed. cbn [length] in *. lia.
Qed.

(** ** Which paths a command may change *)

Section process_frames.
Context (S : bytes → Prop).
Lemma confined_install o : confined S (install o).
Proof. unfold install. confine; by apply confined_modify. Qed.
Lemma confined_install_all os : confined S (install_all os).
Proof. induction os; cbn [install_all]; confine; first [done|apply confined_install]. Qed.
Lemma confined_close fd : confined S (sys_close fd).
Proof. unfold sys_close. confine; by apply confined_modify. Qed.
Lemma confined_sendmsg fd d fds : confined S (sys_sendmsg fd d fds).
Proof. unfold sys_sendmsg. confine; by apply confined_modify. Qed.
Lemma confined_recvmsg fd n k : confined S (sys_recvmsg fd n k).
Proof. unfold sys_recvmsg. confine; first [by apply confined_modify|apply confined_install_all]. Qed.
Lemma confined_retry {A} (m : M A) : confined S m → confined S (retry_eintr m).
Proof.
  intros Hm. unfold retry_eintr. confine. generalize (Datatypes.S (length a)) as n.
  induction n as [|n IH]; cbn [eintr_loop]; [confine|]. apply confined_bind; [by apply confined_attempt|].
  intros [[]|x]; try done; confine.
Qed.
Lemma confined_nanosleep : confined S sys_nanosleep.
Proof. intros w p _. unfold sys_nanosleep. by destruct (w_exits w). Qed.
Lemma confined_kill pid sig : confined S (sys_kill pid sig).
Proof. unfold sys_kill. confine; by apply confined_modify. Qed.
Lemma confined_killpg pid sig : confined S (sys_killpg pid sig).
Proof. unfold sys_killpg. confine; by apply confined_modify. Qed.
Lemma confined_run_alive pid : confined S (run_alive pid).
Proof. unfold run_alive. confine; apply confined_kill. Qed.
Lemma confined_pidfd_open pid : confined S (lifecycle_pidfd_open pid).
Proof. unfold lifecycle_pidfd_open, sys_pidfd_open. confine; apply confined_install. Qed.
Lemma confined_pidfd_signal fd sig : confined S (sys_pidfd_send_signal fd sig).
Proof. unfold sys_pidfd_send_signal. confine; by apply confined_modify. Qed.
Lemma confined_close_opt fd : confined S (close_opt fd).
Proof. unfold close_opt. confine; apply confined_close. Qed.
End process_frames.
#[export] Hint Resolve confined_install confined_close confined_sendmsg confined_recvmsg confined_retry
  confined_nanosleep confined_kill confined_killpg confined_run_alive confined_pidfd_open
  confined_pidfd_signal confined_close_opt confined_read_small_file : confine.

Lemma confined_lifecycle_signal S fd sig : confined S (lifecycle_pidfd_signal fd sig).
Proof. unfold lifecycle_pidfd_signal. confine. Qed.
Lemma confined_probe S pid fd : confined S (probe pid fd).
Proof. unfold probe, lifecycle_pidfd_alive. confine. Qed.
#[export] Hint Resolve confined_lifecycle_signal confined_probe : confine.
Lemma confined_wait S pid fd ms : confined S (wait_pid_gone pid fd ms).
Proof.
  unfold wait_pid_gone. confine;
    (generalize ((ms + 49) / 50)%nat as n; induction n as [|n IH]; cbn [gone_rounds]; confine).
Qed.
Lemma confined_cgroup_kill S p : confined S (lifecycle_cgroup_kill p).
Proof. unfold lifecycle_cgroup_kill. confine; by apply confined_modify. Qed.
#[export] Hint Resolve confined_wait confined_cgroup_kill : confine.

Definition cconfined {A} (S : bytes → Prop) (c : Cli A) : Prop :=
  ∀ s w p, ¬ S p → w_fs (c s w).2 !! p = w_fs w !! p.

Section cli_frames.
Context (S : bytes → Prop).
Lemma cconfined_ret {A} (a : A) : cconfined S (mret a).
Proof. by intros s w p. Qed.
Lemma cconfined_exit {A} code : cconfined S (@exit_ A code).
Proof. by intros s w p. Qed.
Lemma cconfined_say t : cconfined S (say t).
Proof. by intros s w p. Qed.
Lemma cconfined_warn t : cconfined S (warn t).
Proof. by intros s w p. Qed.
Lemma cconfined_bind {A B} (m : Cli A) (f : A → Cli B) :
  cconfined S m → (∀ a, cconfined S (f a)) → cconfined S (m ≫= f).
Proof.
  intros Hm Hf s w p Hp. rewrite cbind_unfold. specialize (Hm s w p Hp).
  destruct (m s w) as [[[code|a] s'] w']; simpl in *; [done|]. by rewrite (Hf a s' w' p Hp).
Qed.
Lemma cconfined_tryc {A} (m : M A) : confined S m → cconfined S (tryc m).
Proof. intros Hm s w p Hp. specialize (Hm w p Hp). unfold tryc. by destruct (m w). Qed.
Lemma cconfined_perform {A} (m : M A) : confined S m → cconfined S (perform m).
Proof. intros Hm s w p Hp. specialize (Hm w p Hp). unfold perform. by destruct (m w). Qed.
Lemma cconfined_die {A} msg : cconfined S (@die A msg).
Proof. by intros s w p. Qed.
Lemma cconfined_need {A} (m : M A) msg : confined S m → cconfined S (need m msg).
Proof.
  intros Hm. apply cconfined_bind; [by apply cconfined_tryc|].
  intros []; [apply cconfined_die|apply cconfined_ret].
Qed.
Lemma cconfined_need_ {A} (m : M A) : confined S m → cconfined S (need_ m).
Proof.
  intros Hm. apply cconfined_bind; [by apply cconfined_tryc|].
  intros []; [apply cconfined_exit|apply cconfined_ret].
Qed.
Lemma cconfined_expect b msg : cconfined S (expect b msg).
Proof. destruct b; [apply cconfined_ret|apply cconfined_die]. Qed.
Lemma cconfined_if {A} (b : bool) (c1 c2 : Cli A) :
  cconfined S c1 → cconfined S c2 → cconfined S (if b then c1 else c2).
Proof. by destruct b. Qed.
End cli_frames.

Create HintDb cconfine.
#[export] Hint Resolve cconfined_ret cconfined_exit cconfined_say cconfined_warn cconfined_die
  cconfined_expect : cconfine.
Ltac cconfine_step :=
  match goal with
  | |- cconfined _ (mbind _ _) => apply cconfined_bind
  | |- cconfined _ (if _ then _ else _) => apply cconfined_if
  | |- cconfined _ (match ?x with _ => _ end) => destruct x
  | |- cconfined _ (let _ := _ in _) => cbv zeta
  | |- cconfined _ (tryc _) => apply cconfined_tryc
  | |- cconfined _ (perform _) => apply cconfined_perform
  | |- cconfined _ (need _ _) => apply cconfined_need
  | |- cconfined _ (need_ _) => apply cconfined_need_
  | |- ∀ _, cconfined _ _ => intros ?
  | |- cconfined _ _ => progress eauto with cconfine nocore
  | |- confined _ _ => progress confine
  end.
Ltac cconfine := repeat cconfine_step.

Lemma confined_is_alive root S : confined S (agentd_is_alive root).
Proof. unfold agentd_is_alive, agentd_pid_path, root_child_path. confine. Qed.
Lemma confined_enf_read root name : confined (in_agent root name) (enforcement_read_state root name).
Proof. unfold enforcement_read_state. confine. Qed.
#[export] Hint Resolve confined_is_alive confined_enf_read : confine.

Section frames.
Context (root name : bytes) (sys_connect : bytes → M Z) (daemon : Z → M unit).
Context (Hconn : ∀ p, confined (in_agent root name) (sys_connect p))
        (Hdaemon : ∀ fd, confined (in_agent root name) (daemon fd)).
Hint Resolve Hconn Hdaemon : confine.

Lemma confined_request cmd n : confined (in_agent root name) (agentd_request root sys_connect daemon cmd n).
Proof.
  unfold agentd_request, exchange, agentd_sock_path, control_token, agentd_token_path, root_child_path.
  confine.
Qed.
Hint Resolve confined_request : confine.

Lemma cconfined_signal word pid sig : cconfined (in_agent root name) (signal_direct word pid sig).
Proof. unfold signal_direct, lifecycle_signal_group. cconfine. Qed.
Lemma cconfined_demand what r : cconfined (in_agent root name) (demand_ok what r).
Proof. unfold demand_ok. cconfine. Qed.
Hint Resolve cconfined_signal cconfined_demand : cconfine.
Lemma cconfined_stop_process pid :
  cconfined (in_agent root name) (stop_process root sys_connect daemon name pid).
Proof. unfold stop_process. cconfine. Qed.
Lemma cconfined_live_pid : cconfined (in_agent root name) (live_pid root name).
Proof. unfold live_pid. cconfine. Qed.
Lemma cconfined_kill_process pid : cconfined (in_agent root name) (kill_process root name pid).
Proof. unfold kill_process, kill_cgroup. cconfine. Qed.
Hint Resolve cconfined_stop_process cconfined_live_pid cconfined_kill_process : cconfine.

Lemma confined_remove_agent err : confined (in_agent root name) (remove_tree (base_of root name) err).
Proof. apply confined_remove_tree. Qed.
Lemma confined_cleanup n err : confined (in_agent root name) (cleanup n (base_of root name) err).
Proof.
  revert err. induction n as [|n IH]; intros err; cbn [cleanup];
    (apply confined_bind; [apply confined_remove_agent|]); intros [[] []]; confine.
Qed.

Lemma cconfined_at_dir {B} msg (f : bytes → Cli B) :
  cconfined (in_agent root name) (f (base_of root name)) →
  cconfined (in_agent root name) (need (agent_dir root name) msg ≫= f).
Proof.
  intros Hf s w p Hp. destruct (agent_dir root name w) as [r w'] eqn:E.
  rewrite (cbind_need _ _ _ _ _ _ _ E). apply agent_dir_inv in E as [-> Hd].
  destruct r as [e|d]; [done|]. destruct (Hd d eq_refl) as [-> _]. by apply Hf.
Qed.
Lemma cconfined_stop : cconfined (in_agent root name) (cmd_stop root sys_connect daemon name).
Proof. apply cconfined_at_dir. cconfine. apply confined_cleanup. Qed.
Lemma cconfined_kill : cconfined (in_agent root name) (cmd_kill root name).
Proof. apply cconfined_at_dir. cconfine. apply confined_remove_agent. Qed.
End frames.

(** ** A command that ends with 0 *)

Lemma cbind_inr {A B} (m : Cli A) (f : A → Cli B) s w b s' w' :
  (m ≫= f) s w = (inr b, s', w') →
  ∃ a s1 w1, m s w = (inr a, s1, w1) ∧ f a s1 w1 = (inr b, s', w').
Proof. rewrite cbind_unfold. destruct (m s w) as [[[code|a] s1] w1]; [done|]. by eauto. Qed.
Lemma need_inr {A} (m : M A) msg s w a s' w' :
  need m msg s w = (inr a, s', w') → m w = (inr a, w') ∧ s' = s.
Proof. unfold need, tryc. rewrite cbind_unfold. destruct (m w) as [[e|x] w1]; [done|]. intros H. by inversion H. Qed.
Lemma need__inr {A} (m : M A) s w a s' w' :
  need_ m s w = (inr a, s', w') → m w = (inr a, w') ∧ s' = s.
Proof. unfold need_, tryc. rewrite cbind_unfold. destruct (m w) as [[e|x] w1]; [done|]. intros H. by inversion H. Qed.

Lemma unlink_gone p w w' : sys_unlink p w = (inr tt, w') → w_fs w' !! p = None.
Proof.
  intros [(e & s & ? & _)|(s & _ & E)]%sys_inv; [done|]. rewrite bind_gets in E.
  destruct (w_fs _ !! p) as [[[] m u]|]; try done; injection E as <-; apply lookup_delete_eq.
Qed.
Lemma rmdir_gone p w w' : sys_rmdir p w = (inr tt, w') → w_fs w' !! p = None.
Proof.
  intros [(e & s & ? & _)|(s & _ & E)]%sys_inv; [done|]. rewrite bind_gets in E.
  destruct (w_fs _ !! p) as [[[] m u]|]; try done. destruct (existsb _ _); [done|].
  injection E as <-; apply lookup_delete_eq.
Qed.
Lemma remove_tree_true n d err w err' w' :
  remove_tree_ n d err w = (inr (true, err'), w') → w_fs w' !! d = None.
Proof.
  destruct n as [|n]; cbn [remove_tree_]; [done|]. rewrite bind_attempt.
  destruct (sys_readdir d w) as [[e|es] w1].
  - assert (∀ e0, (attempt (sys_unlink d) ≫= λ r, mret (seen e0 r)) w1 = (inr (true, err'), w') →
                  w_fs w' !! d = None) as Hu.
    { intros e0. rewrite bind_attempt. destruct (sys_unlink d w1) as [[er|[]] w2] eqn:E; intros H; inversion H.
      subst. by eapply unlink_gone. }
    destruct e; try done; apply Hu.
  - rewrite bind_unfold. destruct (remove_children _ _ _ _ w1) as [[e|st] w2]; [done|].
    rewrite bind_attempt. destruct (sys_rmdir d w2) as [[er|[]] w3] eqn:E; intros H; inversion H; subst.
    + cbn in H1. by rewrite andb_false_r in H1.
    + by eapply rmdir_gone.
Qed.
Lemma cleanup_true n d err w err' w' :
  cleanup n d err w = (inr (true, err'), w') → w_fs w' !! d = None.
Proof.
  revert err w. induction n as [|n IH]; intros err w; cbn [cleanup]; rewrite bind_unfold;
    destruct (remove_tree d err w) as [[e|[ok er]] w1] eqn:E; try done.
  - intros H. inversion H; subst. by eapply remove_tree_true.
  - assert (mret (M:=M) (ok, er) w1 = (inr (true, err'), w') → w_fs w' !! d = None) as Hd.
    { intros H. inversion H; subst. by eapply remove_tree_true. }
    destruct ok; [exact Hd|]. destruct er; try exact Hd. rewrite bind_unfold.
    destruct (sys_nanosleep w1) as [[e'|[]] w2]; [done|]. apply IH.
Qed.
Lemma nothing_left fs d p :
  walkable fs d → fs !! d = None → subtree d p = true → fs !! p = None.
Proof.
  intros Hw Hd [->|[r ->]]%subtree_prefix; [done|]. destruct (fs !! (d ++ SLASH :: r)) eqn:E; [|done].
  destruct (walkable_above fs d d r Hw (subtree_refl d)) as (m & u & H); congruence || by rewrite E.
Qed.

Lemma stop_gone root conn dm name s w s' w' :
  cmd_stop root conn dm name s w = (inr 0, s', w') → w_fs w' !! base_of root name = None.
Proof.
  intros H. unfold cmd_stop in H. apply cbind_inr in H as (d & s1 & w1 & [Hd ->]%need_inr & H).
  apply agent_dir_base in Hd as ->. do 4 apply cbind_inr in H as (? & ? & ? & _ & H).
  apply cbind_inr in H as ([ok e] & s2 & w2 & [Hc ->]%need__inr & H). rewrite cbind_expect in H.
  destruct ok; [|done]. rewrite cbind_say in H. inversion H; subst. by eapply cleanup_true.
Qed.
Lemma kill_gone root name s w s' w' :
  cmd_kill root name s w = (inr 0, s', w') → w_fs w' !! base_of root name = None.
Proof.
  intros H. unfold cmd_kill in H. apply cbind_inr in H as (d & s1 & w1 & [Hd ->]%need_inr & H).
  apply agent_dir_base in Hd as ->. do 3 apply cbind_inr in H as (? & ? & ? & _ & H).
  apply cbind_inr in H as ([ok e] & s2 & w2 & [Hc ->]%need__inr & H). rewrite cbind_expect in H.
  destruct ok; [|done]. rewrite cbind_say in H. inversion H; subst. by eapply remove_tree_true.
Qed.

(** ** Creating over an existing agent *)

Lemma ensure_dir_keeps p mode w r w' q x :
  ensure_dir p mode w = (r, w') → w_fs w !! q = Some x → w_fs w' !! q = Some x.
Proof.
  unfold ensure_dir. rewrite bind_attempt. intros E Hq.
  destruct (sys_mkdir p mode w) as [r1 w1] eqn:E1.
  assert (w_fs w1 !! q = Some x) as Hq1.
  { apply sys_inv in E1 as [(e & s & _ & -> & _)|(s & _ & E1)]; [done|].
    rewrite !bind_gets in E1. cbn [w_fs set_sched] in E1.
    destruct (w_fs w !! p) eqn:Ep; [by inversion E1|]. destruct (is_dir _ _); [|by inversion E1].
    inversion E1; subst. simpl. rewrite lookup_insert_ne; [done|]. intros ->. congruence. }
  destruct r1 as [e|[]]; [|unfold mret, M_ret in E; by simplify_eq]. rewrite <-Hq1. f_equal.
  destruct e; try (unfold throw in E; by simplify_eq). eapply confined_none; [|exact E]. confine.
Qed.

Lemma mkdir_existing p mode w n :
  w_fs w !! p = Some n → ∃ e w', sys_mkdir p mode w = (inl e, w') ∧ w_fs w' = w_fs w.
Proof.
  intros Hp. destruct (sys_mkdir p mode w) as [r w'] eqn:E.
  apply sys_inv in E as [(e & s & -> & -> & _)|(s & _ & E)]; [by exists e, (set_sched s w)|].
  rewrite !bind_gets in E. cbn [w_fs set_sched] in E. rewrite Hp in E. inversion E; subst. by eexists _, _.
Qed.

(** ** Granting a capability, as the broker sees it *)

Lemma append_file_quiet path buf mode w c m u :
  w_sched w = [] → w_fs w !! path = Some (Node (KReg c) m u) →
  ∃ w', append_file path buf mode w = (inr tt, w') ∧ w_sched w' = [] ∧
    w_fs w' !! path = Some (Node (KReg (c ++ buf)) m u) ∧
    ∀ p, p ≠ path → w_fs w' !! p = w_fs w !! p.
Proof.
  intros Hs Hp. destruct (append_file path buf mode w) as [r w'] eqn:E. pose proof E as E'.
  assert (no_link (w_fs w) path) as Hnl by (intros t m' u'; congruence).
  apply append_file_only in E' as [Hfr _]; [|done].
  assert (w_sched w' = []) as Hs' by (eapply shrinks_quiet; [|exact Hs|exact E]; shrink).
  unfold append_file in E. rewrite bind_unfold in E. unfold sys_open_create in E.
  rewrite sys_quiet in E by done. rewrite !bind_gets in E. cbv zeta in E.
  rewrite (follow_reg _ _ _ _ _ _ Hp), Hp, bind_modify in E. cbv [mret M_ret] in E.
  set (w1 := set_fs _ w) in E.
  assert (w_fs w1 !! path = Some (Node (KReg c) m u)) as Hp1 by apply lookup_insert_eq.
  destruct (write_all_quiet path buf w1 _ _ _ Hs Hp1) as (w2 & E2 & Hs2).
  destruct (write_all_spec path buf w1 _ _ _ Hp1) as (k & r2 & w2' & E2' & Hp2 & Hk).
  rewrite E2 in E2'. injection E2' as <- <-. rewrite bind_attempt, E2, sys_plain_quiet in E by done.
  injection E as <- <-. exists w2. rewrite take_ge in Hp2 by done. done.
Qed.

Record policy_env (root name c : bytes) (w : world) : Prop := {
  pe_sched : w_sched w = [];
  pe_name : validate_name name = true;
  pe_len : blen (base_of root name) + 24 < MAX_PATHBUF;
  pe_config : ∃ m u, w_fs w !! (base_of root name ++ #"/config") = Some (Node KDir m u);
  pe_policy : ∃ m u, w_fs w !! leaf_path root name #"policy" = Some (Node (KReg c) m u);
  pe_audit : no_link (w_fs w) (leaf_path root name #"audit.log")
}.

(** The paths the commands touch on the way are none of these. *)
Lemma base_below_ne root name a b : a ≠ b → base_of root name ++ SLASH :: a ≠ base_of root name ++ SLASH :: b.
Proof. intros Hne H%app_inv_head. congruence. Qed.

Lemma policy_env_path root name c leaf w :
  policy_env root name c w → blen leaf ≤ 9 → leaf ≠ #"config" → (SLASH ∉ leaf) →
  ∃ w', agent_path root name leaf w = (inr (leaf_path root name leaf), w') ∧ policy_env root name c w'.
Proof.
  intros [Hs Hv Hl (m & u & Hc) (m' & u' & Hp) Ha] Hlen Hne Hsl.
  destruct (agent_path_quiet root name leaf w m u) as (w1 & E & Hs1 & _ & Hfr); [done|done|lia|done|].
  exists w1. split; [done|].
  assert (∀ k e, (SLASH ∉ e) → k ++ SLASH :: e ≠ leaf) as Hdeep.
  { intros k e _ <-. apply Hsl, elem_of_app. right. by left. }
  split; [done|done|done| | |].
  - exists m, u. rewrite Hfr; [done|]. apply (base_below_ne root name #"config"). done.
  - exists m', u'. rewrite Hfr; [done|]. apply base_below_ne. apply (Hdeep #"config" #"policy"). not_in_list.
  - intros t m2 u2. rewrite Hfr; [apply Ha|]. apply base_below_ne. apply (Hdeep #"data" #"audit.log"). not_in_list.
Qed.

Lemma policy_env_audit root name c msg w :
  policy_env root name c w → policy_env root name c (audit_log root name msg w).2.
Proof.
  intros He. unfold audit_log. rewrite bind_unfold.
  destruct (policy_env_path root name c #"audit.log" w He) as (w1 & -> & [Hs Hv Hl (m & u & Hc) (m' & u' & Hp) Ha]);
    [done|done|not_in_list|].
  rewrite bind_unfold. cbn [sys_time gets]. rewrite bind_gets. unfold sys_time, gets. cbv beta iota.
  destruct (append_file _ _ _ w1) as [r w2] eqn:E. cbn [snd].
  assert (w_sched w2 = []) as Hs2 by (eapply shrinks_quiet; [|exact Hs|exact E]; shrink).
  apply append_file_only in E as [Hfr Hnl]; [|done].
  split; [done..| | |done].
  - exists m, u. rewrite Hfr; [done|]. by apply (base_below_ne root name #"config").
  - exists m', u'. rewrite Hfr; [done|]. by apply base_below_ne.
Qed.

Lemma policy_env_append root name c line mode w :
  policy_env root name c w →
  ∃ w', append_file (leaf_path root name #"policy") line mode w = (inr tt, w') ∧
    policy_env root name (c ++ line) w'.
Proof.
  intros [Hs Hv Hl (m & u & Hc) (m' & u' & Hp) Ha].
  destruct (append_file_quiet _ line mode w _ _ _ Hs Hp) as (w' & E & Hs' & Hp' & Hfr).
  exists w'. split; [done|]. split; [done..| |by eauto|].
  - exists m, u. rewrite Hfr; [done|]. by apply (base_below_ne root name #"config").
  - intros t m2 u2. rewrite Hfr; [apply Ha|]. by apply base_below_ne.
Qed.

Lemma cap_append_env root name kind cap c s w :
  policy_env root name c w → blen kind + blen cap + 2 < 512 →
  ∃ s' w', cap_append root name kind cap s w = (inr 0, s', w') ∧
    policy_env root name (c ++ kind ++ [SP] ++ cap ++ nl) w'.
Proof.
  intros He Hlen. unfold cap_append.
  destruct (policy_env_path root name c #"policy" w He) as (w1 & E1 & He1); [done|done|not_in_list|].
  rewrite (cbind_need _ _ _ _ _ _ _ E1).
  assert (of_option ENAMETOOLONG (snprintf_ok 512 (kind ++ [SP] ++ cap ++ nl)) w1 =
          (inr (kind ++ [SP] ++ cap ++ nl), w1)) as E2.
  { unfold snprintf_ok. rewrite (proj2 (Z.ltb_lt _ _)); [done|].
    rewrite !blen_app. change (blen [SP]) with 1. change (blen nl) with 1. lia. }
  rewrite (cbind_need _ _ _ _ _ _ _ E2).
  destruct (policy_env_append root name c (kind ++ [SP] ++ cap ++ nl) 384 w1 He1) as (w2 & E3 & He2).
  rewrite (cbind_need _ _ _ _ _ _ _ E3). unfold auditc. rewrite cbind_perform, cbind_say.
  eexists _, _. split; [done|]. by apply policy_env_audit.
Qed.

Lemma take_policy (c : bytes) : blen c < 8192 → take (8192 - 1) c = c.
Proof.
  intros H. apply take_ge, Nat2Z.inj_le. fold (blen c).
  replace (Z.of_nat (8192 - 1)) with 8191 by (vm_compute; reflexivity). lia.
Qed.
Lemma load_patterns_env root name c w :
  policy_env root name c w → NUL ∉ c → blen c < 8192 →
  ∃ w', load_allow_patterns root name 8192 32 w = (inr (allow_patterns 32 c), w').
Proof.
  intros He Hnul Hlen. unfold load_allow_patterns. rewrite bind_attempt, bind_unfold.
  destruct (policy_env_path root name c #"policy" w He) as (w1 & -> & [Hs _ _ _ (m & u & Hp) _]);
    [done|done|not_in_list|].
  destruct (read_small_file_spec _ 8192 w1 _ _ _ Hp) as (r & w2 & E & _ & Hr); [done|]. rewrite E.
  destruct r as [e|d]; [rewrite Hs in Hr; by apply not_elem_of_nil in Hr|].
  rewrite take_policy in Hr by done. subst d. exists w2.
  by rewrite cstr_id, take_policy by done.
Qed.

Definition clean_cap (cap : bytes) : bool :=
  match cap, last cap with
  | a :: _, Some z => negb (is_blank a) && negb (is_blank z)
  | _, _ => false
  end && bool_decide (NL ∉ cap) && bool_decide (NUL ∉ cap).

Lemma allow_line_grant cap : clean_cap cap = true → allow_line (#"allow " ++ cap) = Some cap.
Proof.
  unfold clean_cap. intros [[H _]%andb_true_iff _]%andb_true_iff. unfold allow_line.
  change (drop_while is_blank (#"allow " ++ cap)) with (#"allow " ++ cap). rewrite strip_prefix_app.
  destruct cap as [|a cap]; [done|]. destruct (last (a :: cap)) as [z|] eqn:Ez; [|done].
  apply andb_true_iff in H as [Ha Hz]. apply negb_true_iff in Ha, Hz.
  rewrite drop_while_id by done. apply last_Some in Ez as [q Hq]. rewrite Hq, rtrim_id by done.
  rewrite <-Hq. done.
Qed.
Lemma allow_line_deny cap : allow_line (#"deny " ++ cap) = None.
Proof. reflexivity. Qed.

Lemma allow_patterns_snoc c line :
  (c = [] ∨ last c = Some NL) → NL ∉ line →
  allow_patterns 32 (c ++ line ++ nl) = pattern_step 32 (allow_patterns 32 c) line.
Proof.
  intros Hc Hnl. unfold allow_patterns. rewrite !line_loop_spec by lia.
  assert (text_lines (line ++ nl) = [line]) as Hl by by apply text_lines_cons.
  assert (text_lines (c ++ line ++ nl) = text_lines c ++ [line]) as ->.
  { destruct Hc as [->|[q ->]%last_Some]; [done|]. rewrite <-app_assoc. change ([NL] ++ ?x) with (NL :: x).
    by rewrite text_lines_app, Hl. }
  by rewrite foldl_app.
Qed.

Lemma check_self ps cap : cap ≠ [] → broker_policy_check cap (ps ++ [cap]) = true.
Proof.
  intros Hne. induction ps as [|p ps IH]; cbn [app broker_policy_check].
  - assert (pattern_match cap cap = true) as ->; [|done]. apply pattern_match_spec.
    destruct (decide (last cap = Some "*"%char)) as [[q Hq]%last_Some|]; [|by left].
    right. exists q, #"*". split; [exact Hq|exact Hq].
  - rewrite IH. by destruct (pattern_match p cap).
Qed.


(** ** Properties *)



(** Creating an agent never overwrites one.  When the directory exists the
    command fails with exit code 1, prints nothing on standard output, and
    keeps every existing path as it is, under every schedule. *)
Theorem create_exclusive root name profile s w n :
  w_fs w !! base_of root name = Some n →
  ∃ s' w', cmd_create root name profile s w = (inl 1, s', w') ∧ io_out s' = io_out s ∧
    ∀ p x, w_fs w !! p = Some x → w_fs w' !! p = Some x.
Proof.
  intros Hn. unfold cmd_create. rewrite cbind_expect.
  destruct (validate_name name) eqn:Hv; [|by eexists _, _].
  rewrite cbind_expect. destruct (match profile with Some p => _ | None => _ end); [|by eexists _, _].
  destruct (ensure_dir (agent_root root) 448 w) as [r w1] eqn:E1.
  rewrite (cbind_need _ _ _ _ _ _ _ E1).
  assert (∀ p x, w_fs w !! p = Some x → w_fs w1 !! p = Some x) as Hk1
    by (intros p x; by eapply ensure_dir_keeps).
  destruct r as [e|[]]; [by eexists _, _|].
  destruct (agent_dir root name w1) as [r w2] eqn:E2. rewrite (cbind_need_ _ _ _ _ _ _ E2).
  apply agent_dir_inv in E2 as [-> Hd]. destruct r as [e|d]; [by eexists _, _|].
  destruct (Hd d eq_refl) as [-> _].
  destruct (mkdir_existing (base_of root name) 448 w1 n (Hk1 _ _ Hn)) as (e & w3 & E3 & Hf3).
  rewrite (cbind_need _ _ _ _ _ _ _ E3). eexists _, _. split; [done|]. split; [done|].
  intros p x Hp. rewrite Hf3. by apply Hk1.
Qed.

(** [set-limit] and [config] are one upsert.  The loop [set-limit] carries
    itself has the same effect on the limits file, and the same failures, as
    [kv_file_set] on it, from any state of the file and under any schedule. *)
Theorem set_limit_is_kv_set root name kv key v s w path w1 :
  split_at "=" kv = Some (key, v) → key ≠ [] →
  agent_path root name #"limits" w = (inr path, w1) →
  match kv_file_set path kv w1 with
  | (inr _, w2) =>
      cmd_set_limit root name kv s w =
        (inr 0, Io (io_out s ++ #"limit set: " ++ kv ++ #" (takes effect on next start)" ++ nl)
                   (io_err s) (io_kernel s),
         (audit_log root name (#"limit set: " ++ kv) w2).2)
  | (inl _, w2) => ∃ s', cmd_set_limit root name kv s w = (inl 1, s', w2)
  end.
Proof.
  intros Hkv Hne Hp. apply split_at_Some in Hkv as Hkv'. destruct Hkv' as [-> Hk].
  unfold cmd_set_limit, kv_file_set. rewrite Hkv. destruct key as [|k0 key]; [done|].
  set (kk := k0 :: key) in *. rewrite (cbind_need _ _ _ _ _ _ _ Hp).
  destruct (limit_old path w1) as [r w2] eqn:E2. rewrite (cbind_tryd _ _ _ _ _ _ _ E2).
  unfold limit_old in E2. rewrite bind_attempt in E2. rewrite bind_attempt.
  destruct (sys_open_read path w1) as [ro w1o] eqn:Eo. rewrite bind_unfold, E2.
  destruct r as [e|old].
  { exfalso. destruct ro as [e'|q]; [done|]. rewrite bind_attempt in E2.
    destruct (sys_read q 0 4095 w1o) as [rr w1r]. rewrite bind_ignore in E2. by destruct rr. }
  rewrite limit_rewrite_eq, bind_of_option.
  destruct (kv_rewrite kk (kk ++ "="%char :: v) (cstr old)) as [neu|] eqn:Er; cbn [of_option].
  - rewrite (cbind_need _ _ _ _ w2 (inr neu) w2) by done.
    destruct (atomic_write_file path neu 384 w2) as [[e|[]] w3] eqn:Ea;
      rewrite (cbind_need _ _ _ _ _ _ _ Ea); [by eexists|].
    unfold auditc. by rewrite cbind_perform, cbind_say.
  - rewrite (cbind_need _ _ _ _ w2 (inl E0) w2) by done. by eexists.
Qed.

(** The audit tail.  With no failing call [inspect] prints the last
    [lines] complete lines of what it read, and any unfinished line after
    them.  It reads the first MiB of the log: beyond that size the lines shown
    are not the newest ones. *)
Theorem print_tail_spec path lines s w c m u ls r :
  w_sched w = [] → w_fs w !! path = Some (Node (KReg c) m u) →
  take (Z.to_nat 1048576) c = unlines ls ++ r → Forall (λ l, NL ∉ l) ls → NL ∉ r →
  ∃ w', print_tail path lines s w =
    (inr tt, Io (io_out s ++ unlines (drop (length ls - lines) ls) ++ r) (io_err s) (io_kernel s), w') ∧
    w_fs w' = w_fs w.
Proof.
  intros Hs Hp Hc HF Hr. unfold print_tail.
  assert (sys_open_read path w = (inr path, w)) as E1.
  { unfold sys_open_read. rewrite sys_quiet, bind_gets by done. cbv zeta.
    by rewrite (follow_reg _ _ _ _ _ _ Hp), Hp. }
  rewrite (cbind_tryc _ _ _ _ _ _ E1).
  destruct (head_of_quiet path (Z.to_nat 1048576) w Hs) as (w' & E2 & _ & Hf).
  rewrite (cbind_tryd _ _ _ _ _ _ _ E2). exists w'. split; [|done]. unfold say.
  assert (file_content (w_fs w) path = c) as -> by (unfold file_content; by rewrite Hp).
  rewrite Hc. unfold tail_text. rewrite reverse_app, tail_loop_line, tail_loop_lines by (done || lia).
  by rewrite app_nil_r, Nat.sub_0_r.
Qed.

(** What [send] sends.  From an input that reads without error the payload
    is at most [MAX_PAYLOAD] bytes, a prefix of the input, and the whole input
    unless the probe for one byte more was interrupted; a longer input is
    refused otherwise, and an input that fits never is. *)
Theorem send_payload_complete reads t :
  stdin_text reads = inr t →
  ∃ payload rest, read_stdin reads [] = inr (payload, rest) ∧
    blen payload ≤ MAX_PAYLOAD ∧ payload = take (Z.to_nat MAX_PAYLOAD) t ∧
    (blen t ≤ MAX_PAYLOAD → payload = t ∧ stdin_left (blen payload) rest = false) ∧
    (MAX_PAYLOAD < blen t →
       stdin_left (blen payload) rest = true ∨ ∃ rest', rest = inl EINTR :: rest').
Proof.
  intros Ht. assert (0 ≤ MAX_PAYLOAD) as HM by done.
  destruct (read_stdin_spec reads [] t Ht) as (rest & E & H1 & H2); [done|]. cbn [app] in *.
  eexists _, rest. split; [done|].
  split; [unfold blen; rewrite length_take; lia|]. split; [done|]. split; [|done].
  intros Hl. split; [apply take_ge; unfold blen in Hl; lia|].
  apply not_true_iff_false. intros H. apply H1 in H. lia.
Qed.

(** ** Witnesses *)

Definition walkable_check (fs : gmap bytes node) (d : bytes) : bool :=
  forallb (λ p, negb (below d p) ||
    match split_last SLASH p with
    | Some (q, e) => match fs !! q with Some (Node KDir _ _) => true | _ => false end &&
                     negb (bytes_eqb e #".") && negb (bytes_eqb e #"..") && (blen p <? MAX_PATHBUF)
    | None => false
    end) (map_to_list fs).*1.
Lemma walkable_check_ok fs d : walkable_check fs d = true → walkable fs d.
Proof.
  intros Hc q e Hq He [n Hn]. unfold walkable_check in Hc. rewrite forallb_forall in Hc.
  specialize (Hc (q ++ SLASH :: e)). rewrite split_last_app in Hc by done.
  assert (below d (q ++ SLASH :: e) = true) as Hb.
  { apply has_prefix_spec. apply subtree_prefix in Hq as [->|[r ->]].
    - exists e. by rewrite <-app_assoc.
    - exists (r ++ SLASH :: e). rewrite <-!app_assoc. done. }
  rewrite Hb in Hc. cbn [negb orb] in Hc.
  assert (q ++ SLASH :: e ∈ (map_to_list fs).*1) as Hin.
  { apply list_elem_of_fmap. exists (q ++ SLASH :: e, n). split; [done|]. by apply elem_of_map_to_list. }
  apply list_elem_of_In in Hin. apply Hc in Hin. rewrite !andb_true_iff in Hin.
  destruct Hin as [[[Hd H1] H2] H3]. apply negb_true_iff in H1, H2.
  apply bytes_eqb_neq in H1, H2. apply Z.ltb_lt in H3.
  destruct (fs !! q) as [[[] m u]|]; try done. by split; [eauto|].
Qed.

Definition io0 : io := Io [] [] (k0 ∅).



Lemma create_exclusive_witness :
  ∃ s' w', cmd_create #"/r" #"a" None io0 demo_faulty = (inl 1, s', w') ∧
    w_fs w' !! #"/r/agents/a/config" = Some (Node KDir 448 1000).
Proof.
  destruct (create_exclusive #"/r" #"a" None io0 demo_faulty (Node KDir 448 1000)) as (s' & w' & E & _ & H);
    [vm_compute; reflexivity|].
  exists s', w'. split; [exact E|]. apply H. vm_compute. reflexivity.
Defined.

Lemma set_limit_is_kv_set_witness :
  ∃ s' w', cmd_set_limit #"/r" #"a" #"CPU=5" io0 demo_world = (inr 0, s', w') ∧
    w_fs w' !! #"/r/agents/a/config/limits" = Some (Node (KReg #"CPU=5
") 384 1000).
Proof.
  destruct (agent_path #"/r" #"a" #"limits" demo_world) as [r w1] eqn:E1.
  assert (r = inr #"/r/agents/a/config/limits") as ->
    by (vm_compute in E1; injection E1 as <- _; vm_compute; reflexivity).
  pose proof (set_limit_is_kv_set #"/r" #"a" #"CPU=5" #"CPU" #"5" io0 demo_world _ w1
                eq_refl ltac:(done) E1) as H.
  vm_compute in E1. injection E1 as <-.
  destruct (kv_file_set _ _ _) as [r w2] eqn:E2 in H. vm_compute in E2. injection E2 as <- <-.
  eexists _, _. split; [exact H|]. vm_compute. reflexivity.
Defined.

Definition demo_policy : world :=
  set_fs (<[ #"/r/agents/a/config/policy" := Node (KReg #"allow mailbox.send:b
") 384 1000]>) demo_world.

Lemma print_tail_spec_witness :
  ∃ w', print_tail #"/r/agents/a/config/policy" 20 io0 demo_policy =
          (inr tt, Io #"allow mailbox.send:b
" [] (k0 ∅), w') ∧ w_fs w' = w_fs demo_policy.
Proof.
  apply (print_tail_spec #"/r/agents/a/config/policy" 20 io0 demo_policy #"allow mailbox.send:b
" 384 1000 [ #"allow mailbox.send:b"] []).
  - reflexivity.
  - vm_compute. reflexivity.
  - reflexivity.
  - repeat constructor. not_in_list.
  - by intros ?%elem_of_nil.
Defined.

Lemma send_payload_complete_witness :
  ∃ payload rest, read_stdin [inr #"ab"; inl EINTR; inr #"c"] [] = inr (payload, rest) ∧ payload = #"abc".
Proof.
  destruct (send_payload_complete [inr #"ab"; inl EINTR; inr #"c"] #"abc") as (p & rest & E & _ & _ & H & _);
    [reflexivity|].
  exists p, rest. split; [exact E|]. apply H. vm_compute. discriminate.
Defined.
