(* ===== verification/Control.v ===== *)
(** * The control socket from end to end

    agentctl's [agentd_request] against agentd's [serve_one_connection]: the
    client connects, presents the token it reads from the token file, and
    prints what the daemon answers.  The two processes share the world; the
    daemon runs ([daemon_serves]) while the client waits. *)

From S2P Require Import Prelude CLib Posix Names Common Broker Ipc Agentfs Profiles Tasks Enforcement Lifecycle Agentd AgentdSpec Runtime Agentctl AgentctlSpec.

(** The daemon, in state [d], accepts the connection behind [srv] and serves
    it: one read delivers the request. *)
Definition serves (root cwd : bytes) (garbage : profile_cfg_t) (d : dstate) (cn : connection) : M unit :=
  λ w, let '(_, _, w') := serve_one_connection root cwd garbage cn d w in (inr tt, w').
Definition daemon_serves (root cwd : bytes) (garbage : profile_cfg_t) (d : dstate) (srv : Z)
    (creds : errno + Z * Z) (fd : Z) : M unit :=
  r ← attempt (sys_recvmsg srv 1023 0);
  serves root cwd garbage d
    (Connection srv creds (match r with inr r => [inr (rc_data r)] | inl e => [inl e] end)).

(** ** Reading when no call fails *)

Lemma read_all_same fuel q off n acc w :
  w_sched w = [] → (read_all_loop fuel q off n acc w).2 = w.
Proof.
  intros Hs. revert off acc. induction fuel as [|fuel IH]; intros off acc; cbn [read_all_loop]; [done|].
  destruct (off <? n)%nat; [|done]. rewrite bind_attempt.
  assert (sys_read q off (n - off) w = (inr (take (n - off) (drop off (file_content (w_fs w) q))), w)) as ->.
  { unfold sys_read. rewrite bind_unfold. unfold pop. by rewrite Hs. }
  cbv iota beta. destruct (take _ _); [done|apply IH].
Qed.
Lemma read_small_quiet path n w c m u :
  w_sched w = [] → w_fs w !! path = Some (Node (KReg c) m u) → n ≠ 0%nat →
  read_small_file path n w = (inr (take (n - 1) c), w).
Proof.
  intros Hs Hp Hn. destruct (read_small_file_spec path n w c m u Hp Hn) as (r & w' & E & _ & Hr).
  destruct r as [e|d]; [rewrite Hs in Hr; by apply not_elem_of_nil in Hr|]. subst d. rewrite E. f_equal.
  unfold read_small_file in E. rewrite bind_guard, (proj2 (Nat.eqb_neq n 0)) in E by done. cbn [negb] in E.
  rewrite bind_unfold in E. unfold sys_open_read in E. rewrite sys_quiet, bind_gets in E by done. cbv zeta in E.
  rewrite (follow_reg _ _ _ _ _ _ Hp), Hp in E. cbv [mret M_ret] in E. rewrite bind_attempt in E.
  destruct (read_all path (n - 1) w) as [r w1] eqn:Er.
  assert (w1 = w) as ->.
  { unfold read_all in Er. rewrite !bind_gets in Er.
    match type of Er with read_all_loop ?f ?q ?o ?k ?a _ = _ =>
      pose proof (read_all_same f q o k a w Hs) as H end. by rewrite Er in H. }
  rewrite bind_ignore, sys_plain_quiet in E by done. destruct r; by inversion E.
Qed.

Lemma take_while_ext {A} (f g : A → bool) l : (∀ x, f x = g x) → take_while f l = take_while g l.
Proof. intros H. induction l as [|x l IH]; [done|]. cbn [take_while]. by rewrite H, IH. Qed.
Lemma take_while_elem {A} (f : A → bool) l x : x ∈ take_while f l → f x = true.
Proof. intros Hx. pose proof (take_while_Forall f l) as HF. rewrite Forall_forall in HF. by apply HF. Qed.
Lemma token_of_clean buf : (NL ∉ token_of buf) ∧ (NUL ∉ token_of buf).
Proof.
  unfold token_of. split.
  - intros H%take_while_elem. done.
  - pose proof (cstr_nul_free buf) as Hn. intros H. apply Hn. revert H.
    generalize (cstr buf) as l. intros l. induction l as [|x l IH]; cbn [take_while]; [done|].
    destruct (_ && _); [|by intros ?%elem_of_nil]. intros [->|H]%elem_of_cons; [by left|right; auto].
Qed.

(** ** The exchange *)

Section exchange.
Context (root cwd : bytes) (garbage : profile_cfg_t) (d : dstate).
Context (fd srv e : Z) (creds : errno + Z * Z) (buf cmd : bytes).
Let token : bytes := token_of (take 128 buf).
Let line : bytes := auth_line token cmd.

(** A fresh connection between the two ends, and a readable token file. *)
Record connected (w : world) : Prop := {
  cd_sched : w_sched w = [];
  cd_fd : w_fds w !! fd = Some (FdSock e);
  cd_srv : w_fds w !! srv = Some (FdSock (peer_end e));
  cd_ne : fd ≠ srv;
  cd_inq : default [] (w_inq w !! peer_end e) = [];
  cd_path : blen (root ++ #"/agentd.token") < MAX_PATHBUF;
  cd_token : ∃ m u, w_fs w !! (root ++ #"/agentd.token") = Some (Node (KReg buf) m u);
  cd_creds : match creds with inr (_, u) => u = 0 ∨ u = w_uid w | inl _ => True end
}.

(** The world in which the daemon handles the request. *)
Definition asked (w : world) : world :=
  set_inq (<[peer_end e := []]>)
    (push_trace (EvSend e (Packet line [])) (set_inq (enqueue (peer_end e) (Packet line [])) w)).

Lemma token_path_quiet w :
  connected w → agentd_token_path root w = (inr (root ++ #"/agentd.token"), w).
Proof.
  intros Hc. unfold agentd_token_path, root_child_path, snprintf_ok.
  change (SLASH :: #"agentd.token") with #"/agentd.token".
  by rewrite (proj2 (Z.ltb_lt _ _)) by apply (cd_path w Hc).
Qed.
Lemma control_token_quiet w : connected w → control_token root w = (inr token, w).
Proof.
  intros Hc. unfold control_token. rewrite bind_unfold, token_path_quiet by done.
  destruct (cd_token w Hc) as (m & u & Ht).
  rewrite bind_unfold, (read_small_quiet _ _ _ _ _ _ (cd_sched w Hc) Ht) by done.
  cbv [mret M_ret]. do 2 f_equal. apply take_while_ext. intros x. unfold crlf.
  by destruct (Ascii.eqb x CR), (Ascii.eqb x NL).
Qed.

Lemma asked_connected w : connected w → connected (asked w).
Proof.
  intros [Hs Hf Hv Hn Hq Hp Ht Hc]. split; try done. cbn [asked w_inq set_inq push_trace].
  by rewrite lookup_insert_eq.
Qed.

Lemma read_request_one l : l ≠ [] → NL ∈ l → blen l < 1023 → read_request [inr l] [] = l.
Proof.
  intros Hne Hnl Hlen. cbn [read_request]. destruct l as [|c l]; [done|]. cbn [app].
  change (1023 <=? length (@nil ascii))%nat with false. cbv iota.
  rewrite take_ge by (unfold blen in Hlen; cbn [length] in *; lia).
  by rewrite bool_decide_eq_true_2.
Qed.

(** The daemon's side: the request authenticates and its answer goes back. *)
Lemma serve_quiet w rc resp d' w3 :
  connected w → SP ∉ token → NL ∉ cmd → NUL ∉ cmd → blen line < 768 →
  strip_prefix #"issue " cmd = None → blen resp < 511 →
  handle_command root cwd garbage 512 cmd d (asked w) = (rc, resp, d', w3) →
  serve_one_connection root cwd garbage (Connection srv creds [inr line]) d (asked w) =
  (tt, d', (sys_close srv (sys_sendmsg srv (resp ++ nl) [] w3).2).2).
Proof.
  intros Hc Hsp Hnl Hnul Hlen Hiss Hresp HK. pose proof (asked_connected w Hc) as Ha.
  destruct (token_of_clean (take 128 buf)) as [Htn Ht0]. fold token in Htn, Ht0.
  assert (take_while (λ c, negb (Ascii.eqb c NL)) (cstr line) = #"AUTH " ++ token ++ SP :: cmd) as Hcut.
  { rewrite cstr_id.
    - unfold line, auth_line. change ([SP] ++ ?x) with (SP :: x).
      replace (#"AUTH " ++ token ++ SP :: cmd ++ nl) with ((#"AUTH " ++ token ++ SP :: cmd) ++ nl)
        by by rewrite <-!app_assoc.
      rewrite take_while_app; [by rewrite app_nil_r|]. apply Forall_forall. intros x Hx.
      apply negb_true_iff, Ascii.eqb_neq. intros ->. revert Hx. rewrite !elem_of_app, elem_of_cons.
      intros [H|[H|[H|H]]]; try done. revert H. not_in_list.
    - unfold line, auth_line. rewrite !not_elem_of_app. repeat split; try done; not_in_list. }
  assert (authenticate token (#"AUTH " ++ token ++ SP :: cmd) = Some cmd) as Hau
    by by apply authenticate_spec.
  assert (NL ∈ line) as Hin.
  { unfold line, auth_line. rewrite !elem_of_app. do 4 right. by left. }
  assert (read_request [inr line] [] = line) as Hread.
  { apply read_request_one; [|done|lia]. intros H. rewrite H in Hin. by apply elem_of_nil in Hin. }
  unfold serve_one_connection. rewrite dbind_unfold. cbn [cn_creds cn_reads cn_fd].
  unfold Agentd.total at 1. unfold gets at 1. cbv beta iota.
  assert (match creds with
          | inr (_, u) => negb (u =? 0) && negb (u =? w_uid (asked w))
          | inl _ => false
          end = false) as ->.
  { pose proof (cd_creds _ Ha) as Hcr. destruct creds as [|[pid u]]; [done|].
    destruct Hcr as [->| ->]; [done|]. by rewrite Z.eqb_refl, andb_false_r. }
  cbv zeta iota. rewrite Hread. destruct line as [|c0 l0] eqn:El; [by apply elem_of_nil in Hin|].
  rewrite Hcut, dbind_unfold. unfold respond. rewrite dbind_unfold. unfold try at 1.
  rewrite bind_unfold, token_path_quiet by done. destruct (cd_token _ Ha) as (m & u & Ht).
  rewrite (read_small_quiet _ 129 _ _ _ _ (cd_sched _ Ha) Ht) by done.
  change (129 - 1)%nat with 128%nat. fold token. cbv iota beta. rewrite Hau, Hiss.
  rewrite dbind_unfold. rewrite HK. cbv [mret D_ret]. cbv iota beta.
  rewrite (proj2 (Z.ltb_lt _ _)) by done. rewrite dbind_unfold. unfold run_.
  destruct (sys_sendmsg srv (resp ++ nl) [] w3) as [r1 w4]. cbn [snd].
  by destruct (sys_close srv w4).
Qed.
End exchange.

(** What the daemon's handler must leave alone for its answer to arrive: the
    two ends of the connection and the client's empty queue. *)
Record undisturbed (fd srv e : Z) (w : world) : Prop := {
  un_sched : w_sched w = [];
  un_fd : w_fds w !! fd = Some (FdSock e);
  un_srv : w_fds w !! srv = Some (FdSock (peer_end e));
  un_inq : default [] (w_inq w !! e) = []
}.

Definition answer_clean (resp : bytes) : bool :=
  match last resp with Some c => negb (crlf c) | None => false end && bool_decide (NUL ∉ resp).

(** The last leg: the answer is queued, the daemon closes, the client reads. *)
Lemma answer_arrives fd srv e resp w3 :
  undisturbed fd srv e w3 → fd ≠ srv → blen resp < 254 →
  ∃ w5, sys_recvmsg fd 255 0 (sys_close srv (sys_sendmsg srv (resp ++ nl) [] w3).2).2 =
    (inr (Recvd (resp ++ nl) [] false false), w5) ∧ w_sched w5 = [].
Proof.
  intros [Hs Hf Hv Hq] Hne Hlen.
  assert (sys_sendmsg srv (resp ++ nl) [] w3 =
          (inr tt, push_trace (EvSend (peer_end e) (Packet (resp ++ nl) []))
                     (set_inq (enqueue e (Packet (resp ++ nl) [])) w3))) as ->.
  { unfold sys_sendmsg. rewrite sys_quiet, bind_gets, Hv by done.
    change (mapM _ []) with (Some (@nil fdobj)). cbv iota. rewrite bind_modify, peer_peer. done. }
  cbn [snd]. set (w4 := push_trace _ _).
  assert (sys_close srv w4 = (inr tt, set_fds (delete srv) w4)) as ->.
  { unfold sys_close. rewrite bind_unfold. unfold pop. cbn [w4 w_sched push_trace set_inq]. by rewrite Hs. }
  cbn [snd]. set (w5 := set_fds _ w4).
  assert (default [] (w_inq w5 !! e) = [Packet (resp ++ nl) []]) as HQ.
  { cbn [w5 w_inq set_fds w4 push_trace set_inq]. unfold enqueue. by rewrite lookup_insert_eq, Hq. }
  assert (w_fds w5 !! fd = Some (FdSock e)) as HF.
  { cbn [w5 w_fds set_fds w4 push_trace set_inq]. by rewrite lookup_delete_ne. }
  unfold sys_recvmsg. rewrite sys_quiet by done. rewrite !bind_gets, HF, HQ, bind_modify.
  cbn [pk_data pk_fds take install_all]. rewrite bind_ret.
  rewrite take_ge by (rewrite length_app; unfold blen in Hlen; cbn [length nl]; lia).
  rewrite (proj2 (Nat.ltb_ge _ _)) by (rewrite length_app; unfold blen in Hlen; cbn [length nl]; lia).
  eexists. split; [done|]. done.
Qed.

Lemma answer_trim resp : answer_clean resp = true → cstr (rtrim crlf (resp ++ nl)) = resp.
Proof.
  unfold answer_clean. intros [H1 H2]%andb_true_iff. bool_simpl.
  destruct (last resp) as [c|] eqn:El; [|done]. apply negb_true_iff in H1.
  apply last_Some in El as [q ->]. rewrite rtrim_app by (by repeat constructor).
  rewrite rtrim_id by done. by apply cstr_id.
Qed.

(** C3: a request reaches the daemon's handler and its answer comes back.
    Over a connected control socket, with no failing call, the line the client
    builds from the token file authenticates at the daemon (same file, same
    uid), [handle_command] runs on exactly the command, and the client's
    result is its answer. *)
Theorem control_round_trip root cwd garbage d conn fd srv e creds buf cmd w w1 path rc resp d' w3 :
  connected root fd srv e creds buf w1 →
  agentd_sock_path root w = (inr path, w) → blen path < SUN_PATH_MAX → conn path w = (inr fd, w1) →
  SP ∉ token_of (take 128 buf) → NL ∉ cmd → NUL ∉ cmd → strip_prefix #"issue " cmd = None →
  blen (auth_line (token_of (take 128 buf)) cmd) < 768 →
  handle_command root cwd garbage 512 cmd d (asked e buf cmd w1) = (rc, resp, d', w3) →
  undisturbed fd srv e w3 → blen resp < 254 → answer_clean resp = true →
  run (agentd_request root conn (daemon_serves root cwd garbage d srv creds) cmd 256) w = inr (ReqOk resp).
Proof.
  intros Hc Hpath Hplen Hconn Hsp Hnl Hnul Hiss Hlen HK Hu Hrl Hra.
  unfold run, agentd_request. rewrite bind_unfold, Hpath, bind_attempt, bind_guard.
  rewrite (proj2 (Z.ltb_lt _ _)), Hconn, bind_attempt by done.
  assert (∃ w6, exchange root (daemon_serves root cwd garbage d srv creds) fd cmd 256 w1 = (inr resp, w6))
    as [w6 ->]; [|done].
  unfold exchange. rewrite bind_attempt, (control_token_quiet _ _ _ _ _ _ _ Hc).
  unfold snprintf_ok. rewrite (proj2 (Z.ltb_lt _ _)) by done. set (line := auth_line _ _) in *.
  pose proof Hc as [Hs Hf Hv Hne Hq _ _ _]. rewrite bind_attempt.
  assert (retry_eintr (sys_sendmsg fd line []) w1 =
          (inr tt, push_trace (EvSend e (Packet line []))
                     (set_inq (enqueue (peer_end e) (Packet line [])) w1))) as ->.
  { unfold sys_sendmsg. rewrite retry_quiet; rewrite ?bind_gets, ?Hf; done. }
  set (w2 := push_trace _ _). rewrite bind_ignore, sys_plain_quiet by done. cbn [snd].
  assert (sys_recvmsg srv 1023 0 w2 = (inr (Recvd line [] false false), asked e buf cmd w1)) as HR.
  { assert (default [] (w_inq w2 !! peer_end e) = [Packet line []]) as HQ.
    { cbn [w_inq w2 push_trace set_inq]. unfold enqueue. by rewrite lookup_insert_eq, Hq. }
    unfold sys_recvmsg. rewrite sys_quiet, !bind_gets by done. change (w_fds w2) with (w_fds w1).
    rewrite Hv, HQ, bind_modify. cbn [pk_data pk_fds take install_all].
    rewrite bind_ret, take_ge by (unfold blen in Hlen; lia).
    rewrite (proj2 (Nat.ltb_ge _ _)) by (unfold blen in Hlen; lia). done. }
  rewrite bind_unfold. unfold daemon_serves at 1. rewrite bind_attempt, HR. unfold serves.
  cbn [rc_data].
  pose proof (serve_quiet root cwd garbage d fd srv e creds buf cmd w1 rc resp d' w3 Hc Hsp Hnl Hnul
                Hlen Hiss ltac:(lia) HK) as HS. fold line in HS. rewrite HS.
  change (256 - 1)%nat with 255%nat.
  rewrite bind_attempt. destruct (answer_arrives fd srv e resp w3 Hu Hne Hrl) as (w5 & -> & Hs5).
  rewrite bind_ignore. cbn [rc_data]. pose proof (answer_trim resp Hra) as Ht.
  destruct (resp ++ nl); [by destruct resp|]. rewrite Ht. by eexists.
Qed.

(** A daemon with an empty table asked for the status of agent ["a"]. *)
Definition demo_control : world :=
  exec sys_socketpair
    (set_fs (<[ #"/r/agentd.token" := Node (KReg #"0123abcd
") 384 1000]>) demo_world).
Lemma control_round_trip_witness :
  run (agentd_request #"/r" (λ _, mret 0) (daemon_serves #"/r" #"/" garbage_cfg dstate0 1 (inr (7, 1000)))
         #"status a" 256) demo_control = inr (ReqOk #"OK desired=stopped actual=stopped pid=0 restarts=0").
Proof.
  eapply (control_round_trip #"/r" #"/" garbage_cfg dstate0 (λ _, mret 0) 0 1 0 (inr (7, 1000)) #"0123abcd
" #"status a" demo_control demo_control).
  - split; try (vm_compute; reflexivity); [done| |by right].
    exists 384, 1000. vm_compute. reflexivity.
  - vm_compute. reflexivity.
  - vm_compute. reflexivity.
  - reflexivity.
  - vm_compute. not_in_list.
  - not_in_list.
  - not_in_list.
  - reflexivity.
  - vm_compute. reflexivity.
  - vm_compute. reflexivity.
  - split; vm_compute; reflexivity.
  - vm_compute. reflexivity.
  - vm_compute. reflexivity.
Defined.
