(* ===== verification/BrokerClients.v ===== *)
(** * examples/: the broker's test clients, run against the broker

    broker-test.c (asks for a channel and sends one message on it),
    broker-fault.c (malformed requests, too many descriptors, oversized frames)
    and broker-concurrency.c (eight processes that ask at once).  They are the
    executable statements of what the broker promises; here they run against
    the models of agentd and of the library, and their exit codes are theorems.

    A client is a computation of [Cli]; [daemon] is what the daemon does while
    the client waits on descriptor 3, [cwd] the working directory.  The two
    processes share the world, as in [Control]. *)

From S2P Require Import Prelude CLib Posix Names Common Broker Ipc Agentfs Profiles Tasks Enforcement Lifecycle Agentd AgentdSpec BrokerSpec Runtime Agentctl AgentctlSpec Control.

(** ** [recv] and the end of a connection *)

(** Some process, or a packet on its way, still holds an end of the channel. *)
Definition holds (e : Z) (os : list fdobj) : bool := bool_decide (FdSock e ∈ os).
Definition end_open (e : Z) (w : world) : bool :=
  holds e (map_to_list (w_fds w)).*2 ||
  existsb (λ q : Z * list packet, existsb (λ p, holds e (pk_fds p)) q.2) (map_to_list (w_inq w)).

(** [recv(fd, buf, cap, 0)]: descriptors of the packet are dropped; [[]] is the
    end of the connection, when nothing is queued and the other end is
    closed everywhere. *)
Definition sys_recv (fd : Z) (cap : nat) : M bytes :=
  sys (fds ← gets w_fds; inq ← gets w_inq;
       match fds !! fd with
       | Some (FdSock e) =>
           match default [] (inq !! e) with
           | [] => open ← gets (end_open (peer_end e)); if (open : bool) then throw EAGAIN else mret []
           | p :: q => modify (set_inq (<[e := q]>)) ;; mret (take cap (pk_data p))
           end
       | _ => throw EBADF
       end).

Definition BROKER_FD : Z := 3.
Definition contains (hay needle : bytes) : bool := bool_decide (is_Some (strstr hay needle)).
Definition perror (what : bytes) (e : errno) : Cli unit := warn (what ++ #": " ++ strerror e ++ nl).

(** One [read] of a small file of the working directory; [None] when there is
    nothing to read.  [trimmed] cuts the trailing newlines and spaces. *)
Definition read_leaf (path : bytes) (cap : nat) : M (option bytes) :=
  r ← attempt (sys_open_read path);
  match r with
  | inl _ => mret None
  | inr q =>
      d ← attempt (sys_read q 0 cap);
      ignore sys_plain ;;
      match d with
      | inl _ | inr [] => mret None
      | inr data => mret (Some data)
      end
  end.
Definition trimmed (data : bytes) : bytes := cstr (rtrim nl_or_sp data).

Section clients.
Context (root cwd : bytes) (daemon : M unit).

(** ** broker-test *)

(** The request.  [send] is given the length [snprintf] computed, so a target
    that does not fit sends what lies behind the buffer, [stack]. *)
Definition test_request (target : bytes) : bytes :=
  #"VERB request" ++ nl ++ #"CAP mailbox.send:" ++ target ++ nl ++ #"REASON F4-test" ++ nl ++ nl.
Definition sent_request (stack target : bytes) : bytes :=
  let text := test_request target in
  if blen text <? 256 then text else take (length text) (take 255 text ++ NUL :: stack).

(** The token of the answer: what follows [TOKEN ] on its line. *)
Definition answer_token (tcap : nat) (buf : bytes) : bytes :=
  match strstr buf #"TOKEN " with
  | Some t => take (tcap - 1) (take_while (λ c, negb (Ascii.eqb c NL)) (drop 6 t))
  | None => []
  end.

(** [None] is the result [-1]. *)
Definition request_and_recv (stack target : bytes) (tcap : nat) : Cli (option (Z * bytes)) :=
  r ← tryc (sys_sendmsg BROKER_FD (sent_request stack target) []);
  match r with
  | inl e => perror #"broker request send" e ;; mret None
  | inr _ =>
      perform daemon ;;
      r ← tryc (retry_eintr (sys_recvmsg BROKER_FD 511 (cmsg_room 1)));
      match r with
      | inl e => perror #"broker recvmsg" e ;; mret None
      | inr (Recvd [] _ _ _) => perror #"broker recvmsg" E0 ;; mret None
      | inr (Recvd data fds _ _) =>
          let buf := cstr data in
          match fds with
          | [] => warn (#"broker denied or no fd in response: " ++ buf ++ nl) ;; mret None
          | issued :: _ => mret (Some (issued, answer_token tcap buf))
          end
      end
  end.

(** Where the target is named: the file, else the environment. *)
Definition test_target : M (option bytes) :=
  d ← read_leaf (cwd ++ #"/broker-target") 63;
  match d with
  | Some data => match trimmed data with
                 | [] => sys_getenv #"BROKER_TARGET"
                 | t => mret (Some t)
                 end
  | None => sys_getenv #"BROKER_TARGET"
  end.

(** The part of [main] after the target is known. *)
Definition test_session (stack self target : bytes) : Cli Z :=
  r ← request_and_recv stack target 32;
  match r with
  | None => warn (#"broker-test: cap acquisition failed" ++ nl) ;; mret 1
  | Some (fd, token) =>
      warn (#"broker-test: got cap fd=" ++ fmt_d fd ++ #" token=" ++ token ++ nl) ;;
      match snprintf_ok 128 (#"hi from " ++ self ++ nl) with
      | None => perform (sys_close fd) ;; mret 1
      | Some payload =>
          s ← tryc (send_framed_message_ex fd #"hello" self #"broker-f4" payload);
          match s with
          | inl e => perror #"send on issued fd" e ;; perform (sys_close fd) ;; mret 1
          | inr _ =>
              perform (sys_close fd) ;;
              perform (sys_close BROKER_FD) ;;
              warn (#"broker-test: done" ++ nl) ;; mret 0
          end
      end
  end.

Definition broker_test_main (stack : bytes) (argv : list bytes) : Cli Z :=
  match argv with
  | [] => warn (#"broker-test: missing <name>" ++ nl) ;; mret 2
  | self :: _ =>
      perform (write_status root self #"idle") ;;
      t ← tryd None test_target;
      match t with
      | None | Some [] =>
          warn (#"broker-test: target required (broker-target file or BROKER_TARGET env)" ++ nl) ;; mret 2
      | Some target =>
          test_session stack self target
      end
  end.

(** ** broker-fault *)

Definition is_broker_runtime : M bool :=
  fds ← gets w_fds; mret (match fds !! BROKER_FD with Some (FdSock _) => true | _ => false end).

Definition bad_request : bytes := #"not-a-verb foo" ++ nl ++ #"blah blah" ++ nl ++ nl.
Definition ok_request : bytes := #"VERB request" ++ nl ++ #"CAP mailbox.send:nonexistent" ++ nl ++ nl.
Definition says (t : bytes) : Cli unit := warn (#"broker-fault malformed: " ++ t ++ nl).

Definition run_malformed : Cli Z :=
  r ← tryc (sys_sendmsg BROKER_FD bad_request []);
  match r with
  | inl e => says (#"send: " ++ strerror e) ;; mret 1
  | inr _ =>
      perform daemon ;;
      r ← tryc (sys_recv BROKER_FD 511);
      match r with
      | inl _ => says #"channel closed (n=-1)" ;; mret 2
      | inr [] => says #"channel closed (n=0)" ;; mret 2
      | inr data =>
          let buf := cstr data in
          if negb (contains buf #"VERB denied") then says (#"unexpected response: " ++ buf) ;; mret 3
          else if negb (contains buf #"malformed") then says (#"response missing reason: " ++ buf) ;; mret 4
          else
            r ← tryc (sys_sendmsg BROKER_FD ok_request []);
            match r with
            | inl e => says (#"2nd send: " ++ strerror e) ;; mret 5
            | inr _ =>
                perform daemon ;;
                r ← tryc (sys_recv BROKER_FD 511);
                match r with
                | inl _ => says #"2nd recv n=-1; channel closed" ;; mret 6
                | inr [] => says #"2nd recv n=0; channel closed" ;; mret 6
                | inr data =>
                    let buf := cstr data in
                    if negb (contains buf #"VERB denied")
                    then says (#"2nd response unexpected: " ++ buf) ;; mret 7
                    else says #"OK" ;; mret 0
                end
            end
      end
  end.

Definition many (t : bytes) : Cli unit := warn (#"broker-fault many-fds: " ++ t ++ nl).

(** [fcntl(source_fd, F_DUPFD_CLOEXEC, 0)], [n] times. *)
Fixpoint dup_fds (n : nat) (acc : list Z) : M (list Z) :=
  match n with
  | O => mret acc
  | S n' => k ← sys (install FdOther); dup_fds n' (acc ++ [k])
  end.

Definition run_many_fds : Cli Z :=
  q ← tryc (sys_open_read (cwd ++ #"/broker-fault-mode"));
  match q with
  | inl e => many (#"open source: " ++ strerror e) ;; mret 1
  | inr _ =>
      ks ← tryc (dup_fds 8 []);
      match ks with
      | inl e => many (#"dup: " ++ strerror e) ;; perform sys_plain ;; mret 1
      | inr ks =>
          perform sys_plain ;;
          s ← tryc (sys_sendmsg BROKER_FD (#"VERB request" ++ nl ++ #"CAP mailbox.send:peer" ++ nl ++ nl) ks);
          match s with
          | inl e => many (#"sendmsg: " ++ strerror e) ;; mret 2
          | inr _ =>
              cfor_each ks (λ k, perform (sys_close k)) ;;
              perform daemon ;;
              r ← tryc (sys_recv BROKER_FD 64);
              match r with
              | inr [] => many #"OK (channel closed by broker)" ;; mret 0
              | inr data => many (#"expected EOF, got n=" ++ fmt_d (blen data)) ;; mret 3
              | inl _ => many #"expected EOF, got n=-1" ;; mret 3
              end
          end
      end
  end.

(** The names in /proc/self/fd and what they link to, both from the kernel. *)
Context (proc_fd : errno + list bytes) (proc_link : bytes → errno + bytes).

Definition fdtable_line (name : bytes) : bytes :=
  match name with
  | "."%char :: _ => []
  | _ =>
      match snprintf_ok 256 (#"/proc/self/fd/" ++ name) with
      | None => []
      | Some path =>
          let link := match proc_link path with inr l => take 255 l | inl _ => [] end in
          fmt_d (atoi name) ++ #" " ++ cstr link ++ nl
      end
  end.
Definition run_fdtable : Cli Z :=
  match proc_fd with
  | inl e => warn (#"broker-fault fdtable: " ++ strerror e ++ nl) ;; mret 1
  | inr names =>
      q ← tryc (sys_open_create (cwd ++ #"/fdtable") true 438);
      match q with
      | inl _ => mret 1
      | inr q => perform (write_all q (concat (fdtable_line <$> names))) ;; mret 0
      end
  end.

(** [connect] is given the path; [mem] tells whether [malloc] succeeds. *)
Context (sys_connect : bytes → M Z) (mem : bool).

Definition OVERSIZED : Z := 2097152.
Definition oversized_frame : bytes :=
  #"VERB review" ++ nl ++ #"LEN " ++ fmt_d OVERSIZED ++ nl ++ nl ++
  replicate (Z.to_nat OVERSIZED) "x"%char.

Definition run_oversized (target : bytes) : Cli Z :=
  let path := snprintf_trunc 256 (#"/tmp/agents/" ++ target ++ #"/agent.sock") in
  s ← tryc sys_plain;
  match s with
  | inl e => perror #"socket" e ;; mret 1
  | inr _ =>
      if SUN_PATH_MAX <=? blen path then warn (#"socket path too long" ++ nl) ;; mret 1
      else
        c ← tryc (sys_connect path);
        match c with
        | inl e => perror #"connect" e ;; mret 1
        | inr fd =>
            perform sys_plain ;;
            if negb mem then perform (sys_close fd) ;; mret 1
            else
              s ← tryc (sys_sendmsg fd oversized_frame []);
              perform (sys_close fd) ;;
              match s with
              | inl e =>
                  warn (#"broker-fault oversized: kernel refused send (" ++ strerror e ++
                        #"); MSG_TRUNC path unreachable in this configuration" ++ nl) ;; mret 0
              | inr _ =>
                  warn (#"broker-fault oversized: sent " ++ fmt_d (blen oversized_frame) ++ #" bytes" ++ nl) ;;
                  mret 0
              end
        end
  end.

Definition fault_usage : Cli unit :=
  warn (#"broker-fault — security test tool." ++ nl ++
        #"  As runtime (fd 3 = broker channel):" ++ nl ++
        #"    BROKER_FAULT_MODE=malformed | many-fds | fdtable" ++ nl ++
        #"  Standalone:" ++ nl ++
        #"    broker-fault oversized <target>" ++ nl).

Definition fault_mode : M bytes :=
  d ← read_leaf (cwd ++ #"/broker-fault-mode") 31;
  match from_option trimmed [] d with
  | [] => env ← sys_getenv #"BROKER_FAULT_MODE"; mret (snprintf_trunc 32 (default [] env))
  | m => mret m
  end.

Definition broker_fault_main (argv : list bytes) : Cli Z :=
  b ← tryd false is_broker_runtime;
  if (b : bool) then
    mode ← tryd [] fault_mode;
    match mode with
    | [] => warn (#"broker-fault: mode not set (drop a value into broker-fault-mode in the agent dir)" ++ nl) ;;
            mret 2
    | _ =>
        if bytes_eqb mode #"malformed" then run_malformed
        else if bytes_eqb mode #"many-fds" then run_many_fds
        else if bytes_eqb mode #"fdtable" then run_fdtable
        else warn (#"broker-fault: unknown mode " ++ mode ++ nl) ;; mret 2
    end
  else
    match argv with
    | [] => fault_usage ;; mret 2
    | cmd :: rest =>
        if bytes_eqb cmd #"oversized" then
          match rest with
          | [target] => run_oversized target
          | _ => fault_usage ;; mret 2
          end
        else fault_usage ;; mret 2
    end.

(** ** broker-concurrency *)

Definition WORKERS : nat := 8.

(** A worker's exit code. *)
Definition worker (target : bytes) : M Z :=
  r ← attempt (ipc_connect root sys_connect target);
  match r with
  | inr (IPC_OK fd) => ignore (sys_close fd) ;; mret 0
  | _ => mret 10
  end.

Definition failed_wait (r : errno + exit_status) : bool :=
  match r with inr (Exited 0) => false | _ => true end.

Definition concurrency_target (data : bytes) : bytes :=
  take_while (λ c, negb (Ascii.eqb c CR || nl_or_sp c)) (cstr data).

(** [forks] and [waits] are the results of the calls to [fork] and [wait], the
    latter of children that run [worker] on the target. *)
Definition broker_concurrency_main (forks : list bool) (waits : bytes → list (errno + exit_status))
    (argv : list bytes) : M Z :=
  match argv with
  | [self] =>
      d ← read_leaf (cwd ++ #"/broker-target") 63;
      match d with
      | None => mret 2
      | Some data =>
          ignore (write_status root self #"idle") ;;
          if negb (forallb id (take WORKERS forks)) then mret 1
          else mret (if existsb failed_wait (take WORKERS (waits (concurrency_target data))) then 1 else 0)
      end
  | _ => mret 2
  end.
End clients.

(** ** A client connected to the daemon *)

(** The daemon serves the channel of slot [i] once. *)
Definition broker_turn (root : bytes) (ent : bool * list (errno + bytes)) (i : nat) (d : dstate) : M unit :=
  λ w, let '(_, _, w') := broker_handle_event root ent i d w in (inr tt, w').

Section session.
Context (root : bytes) (ent : bool * list (errno + bytes)) (i : nat) (m : managed) (e : Z) (d : dstate).
Let token : option bytes := broker_make_token (fst ent) (snd ent).

(** Descriptor 3 of the client and the broker descriptor of its slot are the
    two ends of one idle channel. *)
Record linked (w : world) : Prop := {
  lk_sched : w_sched w = [];
  lk_slot : g_agents d !! i = Some m;
  lk_fd : w_fds w !! BROKER_FD = Some (FdSock e);
  lk_srv : w_fds w !! broker_fd m = Some (FdSock (peer_end e));
  lk_in : default [] (w_inq w !! peer_end e) = [];
  lk_out : default [] (w_inq w !! e) = [];
  lk_inboxes : inboxes_open d w
}.

(** The request is on its way, and taken by the daemon. *)
Definition requested (data : bytes) (w : world) : world :=
  push_trace (EvSend e (Packet data [])) (set_inq (enqueue (peer_end e) (Packet data [])) w).
Definition taken (data : bytes) (w : world) : world :=
  set_inq (<[peer_end e := []]>) (requested data w).

Definition ask_verdict (ps : list bytes) (data : bytes) (w : world) : verdict :=
  broker_verdict ps (g_agents d) (listening (w_fds w) (w_procs w)) token data.

Lemma ask data ps w :
  linked w → data ≠ [] → blen data ≤ BROKER_MSG_MAX →
  run (load_allow_patterns root (m_name m) 8192 32) (taken data w) = inr ps →
  sys_sendmsg BROKER_FD data [] w = (inr tt, requested data w) ∧
  ∃ n w', broker_turn root ent i d (requested data w) = (inr tt, w') ∧ (w_uniq w ≤ n)%nat ∧
    answered (verdict_queues m (peer_end e) (2 * Z.of_nat n) (w_uid w) (ask_verdict ps data w)
      (inbox_end (w_fds w)) (<[peer_end e := []]> (enqueue (peer_end e) (Packet data []) (w_inq w)))) w w'.
Proof.
  intros [Hs Hi Hf Hv Hq _ Ho] Hne Hlen Hps. split; [by apply sendmsg_quiet|]. unfold broker_turn.
  rewrite (handle_plain root ent i m (peer_end e) data [] d); [|done..| |done|done].
  2:{ cbn. unfold enqueue. by rewrite lookup_insert_eq, Hq. }
  destruct (serve_verdict root ent m (peer_end e) data ps d (taken data w)) as (n & w' & E & Hn & Ha);
    [done..|]. change (set_inq _ _) with (taken data w). rewrite E.
  exists n, w'. split; [done|]. split; [exact Hn|]. destruct Ha. by split.
Qed.

(** The answer is the only packet at the client's end, when the verdict's
    target is not the client's own channel. *)
Definition not_self (v : verdict) (w : world) : Prop :=
  match v_deliver v with
  | Some dst => peer_end (inbox_end (w_fds w) dst) ≠ e ∧ peer_end (inbox_end (w_fds w) dst) ≠ peer_end e
  | None => True
  end.
Lemma answer_queued n uid v data w :
  linked w → not_self v w →
  let inq := verdict_queues m (peer_end e) n uid v (inbox_end (w_fds w))
               (<[peer_end e := []]> (enqueue (peer_end e) (Packet data []) (w_inq w))) in
  default [] (inq !! e) = [Packet (v_reply v) (if v_channel v then [FdSock n] else [])] ∧
  default [] (inq !! peer_end e) = [].
Proof.
  intros Hl Hself inq. unfold inq, verdict_queues. clear inq. pose proof (peer_ne e) as Hpe.
  rewrite peer_peer, enqueue_eq, enqueue_ne by done.
  pose proof (lk_out w Hl) as Hout. unfold not_self in Hself.
  set (q0 := <[peer_end e := []]> _).
  assert (default [] (q0 !! e) = [] ∧ default [] (q0 !! peer_end e) = []) as [H1 H2].
  { unfold q0. by rewrite lookup_insert_ne, enqueue_ne, lookup_insert_eq by done. }
  destruct (v_deliver v) as [dst|]; [|by rewrite H1, H2].
  destruct Hself as [Hs1 Hs2]. rewrite !enqueue_ne by done. by rewrite H1, H2.
Qed.

Lemma recv_first fd cap x p q w :
  w_sched w = [] → w_fds w !! fd = Some (FdSock x) → default [] (w_inq w !! x) = p :: q →
  sys_recv fd cap w = (inr (take cap (pk_data p)), set_inq (<[x := q]>) w).
Proof. intros Hs Hf Hq. unfold sys_recv. by rewrite sys_quiet, !bind_gets, Hf, Hq, bind_modify. Qed.

(** A request that is refused: the client reads the refusal, and the channel is
    idle again. *)
Lemma refused_round data w :
  linked w → data ≠ [] → blen data ≤ BROKER_MSG_MAX →
  (∀ ps, ∃ cap reason, ask_verdict ps data w = refuse cap reason ∧ blen (denied_text cap reason) ≤ 511) →
  ∃ ps cap reason wa w1 w2, ask_verdict ps data w = refuse cap reason ∧
    sys_sendmsg BROKER_FD data [] w = (inr tt, wa) ∧ broker_turn root ent i d wa = (inr tt, w1) ∧
    sys_recv BROKER_FD 511 w1 = (inr (denied_text cap reason), w2) ∧
    linked w2 ∧ w_fds w2 = w_fds w ∧ w_procs w2 = w_procs w.
Proof.
  intros Hl Hne Hlen Hv.
  destruct (shrinks_patterns_inr root (m_name m) 8192 32 (taken data w)) as (ps & wp & Hps).
  destruct (Hv ps) as (cap & reason & Ev & Hlr).
  destruct (ask data ps w Hl Hne Hlen) as (E1 & n & w1 & E2 & _ & Ha); [unfold run; by rewrite Hps|].
  rewrite Ev in Ha.
  destruct (answer_queued (2 * Z.of_nat n) (w_uid w) (refuse cap reason) data w Hl I) as [Hq1 Hq2].
  destruct Ha as [Hs Hf Hp Hu _ _ Hinq]. rewrite <-Hinq in Hq1, Hq2.
  destruct Hl as [_ Hi Hfd Hsv _ _ Ho].
  assert (sys_recv BROKER_FD 511 w1 = (inr (denied_text cap reason), set_inq (<[e := []]>) w1)) as E3.
  { erewrite recv_first; [|done|by rewrite Hf|exact Hq1]. cbn [pk_data v_reply refuse].
    rewrite take_ge; [done|]. unfold blen in Hlr. lia. }
  exists ps, cap, reason, (requested data w), w1, (set_inq (<[e := []]>) w1). split_and!; [done|done|done|done| |done|done].
  split; cbn; [done|done|by rewrite Hf|by rewrite Hf| | |].
  - rewrite lookup_insert_ne by (intros H; by destruct (peer_ne e)). done.
  - by rewrite lookup_insert_eq.
  - intros dst Hin Hused H0. cbn. rewrite Hf. by apply Ho.
Qed.
End session.

(** ** One framed message when no call fails *)

Definition framed (msg : ipc_msg_t) (hdr : bytes) : packet := Packet (hdr ++ im_payload msg) [].

Lemma send_message_quiet fd x verb reply_to task_id payload hdr w :
  let msg := IpcMsg verb reply_to task_id payload [] in
  w_sched w = [] → w_fds w !! fd = Some (FdSock x) → blen payload ≤ IPC_MSG_HARD_CAP →
  blen verb < MAX_VERB → build_header false msg IPC_HEADER_HEADROOM = inr hdr →
  send_framed_message_ex fd verb reply_to task_id payload w =
  (inr tt, push_trace (EvSend x (framed msg hdr)) (set_inq (enqueue (peer_end x) (framed msg hdr)) w)).
Proof.
  intros msg Hs Hf Hp Hv Hh. pose proof (build_header_bytes _ _ _ _ [] Hh) as (Hne & _ & _).
  cbn [im_verb msg] in Hne. unfold send_framed_message_ex. rewrite !bind_guard.
  rewrite (proj2 (Z.leb_le _ _)) by done. rewrite (proj2 (bytes_eqb_neq _ _)), (proj2 (Z.ltb_lt _ _)) by done.
  cbn [negb andb]. rewrite bind_unfold. unfold ipc_send. fold msg. rewrite Hh, !bind_guard.
  cbn [im_payload im_fds msg]. rewrite (proj2 (Z.leb_le _ IPC_MSG_HARD_CAP)) by done.
  change (blen (@nil Z) <=? IPC_MAX_FDS) with true. cbv iota.
  unfold IPC_SEND_RETRIES. cbn [send_attempts]. rewrite bind_attempt.
  by rewrite (send_retry_quiet _ _ _ x []).
Qed.

Lemma read_message_quiet fd x msg hdr q w :
  w_sched w = [] → w_fds w !! fd = Some (FdSock x) → default [] (w_inq w !! x) = framed msg hdr :: q →
  build_header false msg IPC_HEADER_HEADROOM = inr hdr → msg_ok msg = true →
  blen (im_payload msg) ≤ IPC_MSG_HARD_CAP →
  read_message fd w =
  (inr (AgentMsgHdr (snprintf_trunc 64 (im_verb msg)) (snprintf_trunc 64 (im_reply_to msg))
          (snprintf_trunc 32 (im_task_id msg)) (blen (im_payload msg)), im_payload msg),
   set_inq (<[x := q]>) w).
Proof.
  intros Hs Hf Hq Hh Hok Hp. pose proof (build_header_bytes _ _ _ _ (im_payload msg) Hh) as (_ & Hlen & Hb).
  unfold read_message. rewrite bind_unfold. unfold ipc_recv at 1. rewrite bind_guard.
  change (IPC_MSG_DEFAULT_CAP <=? IPC_BUF_CAP) with true. cbv iota. rewrite bind_unfold.
  erewrite recv_retry_quiet; [|done|eapply recvmsg_plain; [done|exact Hf|exact Hq|]].
  - cbn [rc_data rc_fds rc_trunc rc_ctrunc orb]. pose proof (parse_built _ _ _ _ [] Hh Hok Hp) as Hpb.
    destruct (hdr ++ im_payload msg) as [|c t] eqn:Ed; [unfold header_lines in Hb; discriminate Hb|].
    by rewrite Hpb.
  - rewrite length_app. unfold IPC_BUF_CAP, IPC_MSG_HARD_CAP, IPC_HEADER_HEADROOM, blen in *. lia.
Qed.

(** ** Properties *)

(** The request of broker-test, as the broker parses it. *)
Lemma test_request_parses target :
  validate_name target = true →
  broker_parse (test_request target) =
  Some (BrokerMsg BROKER_VERB_REQUEST (#"mailbox.send:" ++ target) [] #"F4-test" []).
Proof.
  intros Hv. pose proof (validate_name_length target Hv) as Hlen.
  assert (wire_value BROKER_CAP_MAX (#"mailbox.send:" ++ target) = true) as Hw.
  { unfold wire_value. rewrite blen_app. change (blen #"mailbox.send:") with 13.
    unfold MAX_NAME, BROKER_CAP_MAX in *.
    rewrite (proj2 (Z.eqb_neq _ _)), (proj2 (Z.ltb_lt _ _)) by lia. cbn [negb andb first_is app].
    rewrite !bool_decide_eq_false_2; [done|..];
      [change ("m"%char :: ?x) with (#"mailbox.send:" ++ target);
       rewrite not_elem_of_app; (split; [not_in_list|])..].
    - by apply (safe_no_nul (v:=validate_name)).
    - by apply (safe_no_nl (v:=validate_name)). }
  match goal with |- broker_parse ?b = _ =>
    change b with (header_bytes [ #"VERB request"; #"CAP " ++ #"mailbox.send:" ++ target;
                                  #"REASON " ++ #"F4-test"] []) end.
  unfold broker_parse. erewrite broker_parse_header.
  3:{ rewrite (broker_lines_cons _ _ _ (ParseSt (Some BROKER_VERB_REQUEST) None None None None))
        by reflexivity.
      erewrite broker_lines_cons by by apply broker_line_cap.
      by erewrite broker_lines_cons by by apply broker_line_reason. }
  - done.
  - repeat constructor; try done; try (eapply wire_header_line; [done|done|]); set_solver.
Qed.

Lemma denied_says cap reason : contains (cstr (denied_text cap reason)) #"VERB denied" = true.
Proof.
  unfold contains, cstr, denied_text. rewrite take_while_app by (by repeat constructor).
  apply bool_decide_eq_true_2. cbn [app strstr]. by eexists.
Qed.

(** C22: the contract broker-fault checks.  However the daemon's table, its
    policy files and its entropy look, a request that does not parse is answered
    with a denial that names the reason and the channel stays usable: the tool's
    second, well-formed request for an agent that cannot be reached is answered
    too, and the tool ends with 0. *)
Theorem malformed_survives root ent i m e d s w :
  linked i m e d w →
  match agent_named #"nonexistent" (g_agents d) with
  | Some dst => listening (w_fds w) (w_procs w) dst = false
  | None => True
  end →
  ∃ s' w', run_malformed (broker_turn root ent i d) s w = (inr 0, s', w') ∧ linked i m e d w'.
Proof.
  intros Hl Hno.
  assert (∀ ps, ask_verdict ent d ps bad_request w = refuse #"?" #"malformed-request") as Hbad by done.
  destruct (refused_round root ent i m e d bad_request w Hl) as
    (ps & cap & reason & wa & w1 & w2 & Ev & E1 & E2 & E3 & Hl2 & Hf2 & Hp2); [done|done| |].
  { intros ps. eexists _, _. split; [apply Hbad|done]. }
  rewrite Hbad in Ev. apply (f_equal v_reply) in Ev.
  change (denied_text #"?" #"malformed-request" = denied_text cap reason) in Ev. rewrite <-Ev in E3.
  destruct (refused_round root ent i m e d ok_request w2 Hl2) as
    (ps2 & cap2 & reason2 & wb & w3 & w4 & Ev2 & E4 & E5 & E6 & Hl4 & _ & _); [done|done| |].
  { intros ps2. unfold ask_verdict, broker_verdict.
    assert (broker_parse ok_request = Some (BrokerMsg BROKER_VERB_REQUEST #"mailbox.send:nonexistent" [] [] []))
      as -> by (vm_compute; reflexivity).
    destruct (negb _); [by eexists _, _|]. change (strip_prefix #"mailbox.send:" #"mailbox.send:nonexistent") with (Some #"nonexistent").
    cbv iota.
    rewrite Hf2, Hp2. destruct (agent_named _ _) as [dst|]; [rewrite Hno|]; by eexists _, _. }
  unfold run_malformed. rewrite (cbind_tryc _ _ _ _ _ _ E1), cbind_perform, E2. cbn [snd].
  rewrite (cbind_tryc _ _ _ _ _ _ E3).
  assert (contains (cstr (denied_text #"?" #"malformed-request")) #"malformed" = true) as Hm
    by (vm_compute; reflexivity).
  pose proof (denied_says #"?" #"malformed-request") as Hd.
  destruct (denied_text #"?" #"malformed-request") as [|c t] eqn:Et; [discriminate Et|]. clear Et.
  cbv zeta. rewrite Hd, Hm. cbn [negb].
  rewrite (cbind_tryc _ _ _ _ _ _ E4), cbind_perform, E5. cbn [snd].
  rewrite (cbind_tryc _ _ _ _ _ _ E6). pose proof (denied_says cap2 reason2) as Hd2.
  destruct (denied_text cap2 reason2) as [|c2 t2] eqn:Et2; [discriminate Et2|]. clear Et2.
  cbv zeta. rewrite Hd2. cbn [negb]. unfold says. rewrite cbind_unfold. unfold warn.
  by eexists _, _.
Qed.

(** *** From one agent to another through the broker *)

Section delivery.
Context (root : bytes) (ent : bool * list (errno + bytes)) (i : nat) (m : managed) (e : Z) (d : dstate).
Context (c target tok : bytes) (dst : managed).

(** The requester's policy file holds [c], which allows the target; the target
    listens, and its process reads its inbox on descriptor 4. *)
Record deliverable (w : world) : Prop := {
  dv_linked : linked i m e d w;
  dv_policy : policy_env root (m_name m) c w;
  dv_clean : NUL ∉ c;
  dv_short : blen c < 8192;
  dv_allowed : broker_policy_check (#"mailbox.send:" ++ target) (allow_patterns 32 c) = true;
  dv_token : broker_make_token (fst ent) (snd ent) = Some tok;
  dv_name : validate_name target = true;
  dv_named : agent_named target (g_agents d) = Some dst;
  dv_listens : listening (w_fds w) (w_procs w) dst = true;
  dv_inbox : w_fds w !! INBOX_FD_SLOT = Some (FdSock (peer_end (inbox_end (w_fds w) dst)));
  dv_empty : default [] (w_inq w !! peer_end (inbox_end (w_fds w) dst)) = [];
  dv_apart : inbox_end (w_fds w) dst ≠ e ∧ inbox_end (w_fds w) dst ≠ peer_end e;
  dv_ends : ∀ fd x, w_fds w !! fd = Some (FdSock x) → 0 ≤ x < 2 * Z.of_nat (w_uniq w);
  dv_unused : ∀ x, 2 * Z.of_nat (w_uniq w) ≤ x → w_inq w !! x = None
}.

(** The first half: the requester holds one end, the other waits at the target
    with the requester's identity; nothing else has changed. *)
Lemma request_granted stack s w :
  deliverable w →
  let a := fd_alloc (w_fds w) in let y := peer_end (inbox_end (w_fds w) dst) in
  ∃ n t w2, request_and_recv (broker_turn root ent i d) stack target 32 s w = (inr (Some (a, t)), s, w2) ∧
    (w_uniq w ≤ n)%nat ∧ w_sched w2 = [] ∧
    w_fds w2 = <[a := FdSock (2 * Z.of_nat n)]> (w_fds w) ∧
    default [] (w_inq w2 !! y) = [Packet (meta_text (m_name m) (m_pid m) (w_uid w)) [FdSock (2 * Z.of_nat n + 1)]] ∧
    w_inq w2 !! (2 * Z.of_nat n + 1) = None.
Proof.
  intros [Hl Hpol Hnul Hlen Hal Htok Hv Hnm Hls Hin Hem [Ha1 Ha2] Hends Hun] a y.
  pose proof (validate_name_length target Hv) as Htl.
  assert (blen (test_request target) < 256) as Hrl by (unfold test_request, MAX_NAME in *; fit_len).
  assert (sent_request stack target = test_request target) as Hreq.
  { unfold sent_request. cbv zeta. by rewrite (proj2 (Z.ltb_lt _ _)). }
  assert (run (load_allow_patterns root (m_name m) 8192 32) (taken e (test_request target) w) =
          inr (allow_patterns 32 c)) as Hps.
  { destruct (load_patterns_env root (m_name m) c (taken e (test_request target) w)) as (wp & E);
      [destruct Hpol; by split|done|done|]. unfold run. by rewrite E. }
  assert (ask_verdict ent d (allow_patterns 32 c) (test_request target) w =
          Verdict (issued_text (#"mailbox.send:" ++ target) tok) true (Some dst)) as Ev.
  { unfold ask_verdict, broker_verdict. rewrite test_request_parses, Hal by done. cbn [negb].
    by rewrite strip_prefix_app, Hnm, Hls, Htok. }
  destruct (ask root ent i m e d (test_request target) (allow_patterns 32 c) w Hl) as (E1 & n & w1 & E2 & Hn & Ha);
    [done|unfold BROKER_MSG_MAX; lia|exact Hps|]. rewrite Ev in Ha.
  assert (∀ x, peer_end x = e → x = peer_end e) as Hinj by (intros x <-; by rewrite peer_peer).
  destruct (answer_queued i m e d (2 * Z.of_nat n) (w_uid w)
              (Verdict (issued_text (#"mailbox.send:" ++ target) tok) true (Some dst))
              (test_request target) w Hl) as [Hq _].
  { split; [intros H; by apply Ha2, Hinj|]. intros H%(f_equal peer_end). rewrite !peer_peer in H. done. }
  destruct Ha as [Hs Hf Hp Hu _ _ Hinq]. rewrite <-Hinq in Hq. cbn [v_reply v_channel] in Hq.
  set (resp := issued_text _ tok) in *.
  assert (blen resp ≤ 511) as Hresp.
  { destruct (broker_make_token_spec _ _ _ Htok) as (_ & Htl' & _).
    unfold resp, issued_text, MAX_NAME, BROKER_TOKEN_LEN in *. fit_len. }
  assert (sys_recvmsg BROKER_FD 511 (cmsg_room 1) w1 =
    (inr (Recvd resp [a] false false),
     set_fds (<[a := FdSock (2 * Z.of_nat n)]>) (set_inq (<[e := []]>) w1))) as E3.
  { unfold a. rewrite <-Hf. apply recvmsg_one; [done| |exact Hq|unfold blen in Hresp; lia|vm_compute; lia].
    rewrite Hf. by apply Hl. }
  unfold request_and_recv. rewrite Hreq, (cbind_tryc _ _ _ _ _ _ E1), cbind_perform, E2. cbn [snd].
  rewrite (cbind_tryc _ _ _ _ _ _ (recv_retry_quiet _ _ _ _ _ _ Hs E3)).
  destruct resp as [|c0 r0] eqn:Er; [discriminate Er|]. cbv zeta.
  pose proof (Hends _ _ (lk_fd _ _ _ _ _ Hl)). pose proof (Hends _ _ (lk_srv _ _ _ _ _ Hl)).
  pose proof (Hends _ _ Hin) as Hyb. fold y in Hyb, Hin, Hem.
  assert (y ≠ e) as Hye by (intros H'; by apply Ha2, Hinj).
  assert (y ≠ peer_end e) as Hyp by (intros H'%(f_equal peer_end); unfold y in H'; by rewrite !peer_peer in H').
  eexists n, _, _. split; [reflexivity|]. cbn. rewrite Hf, Hinq. unfold verdict_queues. cbn [v_deliver].
  rewrite peer_peer. split_and!; [done|done|done| |].
  - rewrite lookup_insert_ne, enqueue_ne by done. fold y. rewrite enqueue_eq.
    rewrite lookup_insert_ne, enqueue_ne by done. by rewrite Hem.
  - fold y. rewrite lookup_insert_ne, !enqueue_ne, lookup_insert_ne, enqueue_ne by lia. apply Hun. lia.
Qed.
End delivery.

Definition hello (self : bytes) : ipc_msg_t :=
  IpcMsg #"hello" self #"broker-f4" (#"hi from " ++ self ++ nl) [].
Lemma opt_header_len key v : blen (opt_header key v) ≤ blen key + blen v + 1.
Proof. unfold opt_header, nl. destruct v; solve_len. Qed.
Lemma hello_ok self :
  validate_name self = true → blen self < MAX_NAME →
  (∃ hdr, build_header false (hello self) IPC_HEADER_HEADROOM = inr hdr) ∧ msg_ok (hello self) = true ∧
  blen (im_payload (hello self)) < 128.
Proof.
  intros Hv Hl. unfold MAX_NAME in Hl. split_and!.
  - unfold build_header, hello. cbn [im_verb im_reply_to im_task_id im_payload].
    destruct #"hello" as [|a l] eqn:Eh; [discriminate Eh|]. rewrite <-Eh.
    match goal with |- context [if ?b then _ else _] => assert (b = true) as -> end; [|by eexists].
    apply Z.ltb_lt. pose proof (opt_header_len #"REPLY-TO " self) as H1.
    pose proof (opt_header_len #"TASK-ID " #"broker-f4") as H2.
    change (blen #"REPLY-TO ") with 9 in H1. change (blen #"TASK-ID ") with 8 in H2.
    change (blen #"broker-f4") with 9 in H2. unfold IPC_HEADER_HEADROOM. fit_len.
  - unfold msg_ok, hello, text_ok. cbn [im_verb im_reply_to im_task_id].
    change (negb (first_is SP #"hello") && _ && _) with true.
    change (negb (first_is SP #"broker-f4") && _ && _) with true. cbn [andb].
    rewrite andb_true_r, !bool_decide_eq_false_2; cbn [negb]; rewrite ?andb_true_r;
      [|by apply (safe_no_nul (v:=validate_name))|by apply (safe_no_nl (v:=validate_name))].
    pose proof (safe_not_space self Hv) as HF. destruct self as [|x self]; [done|]. inversion HF; subst.
    cbn [first_is]. destruct (Ascii.eqb x SP) eqn:E; [|done]. bool_simpl. done.
  - unfold hello. cbn [im_payload]. fit_len.
Qed.

(** The second half: the requester sends its message and closes both
    descriptors. *)
Lemma session_sends root ent i m e d c target tok dst stack self s w :
  deliverable root ent i m e d c target tok dst w → validate_name self = true → blen self < MAX_NAME →
  let y := peer_end (inbox_end (w_fds w) dst) in
  ∃ n hdr s' w', test_session (broker_turn root ent i d) stack self target s w = (inr 0, s', w') ∧
    build_header false (hello self) IPC_HEADER_HEADROOM = inr hdr ∧
    w_sched w' = [] ∧ w_fds w' = delete BROKER_FD (w_fds w) ∧
    default [] (w_inq w' !! y) = [Packet (meta_text (m_name m) (m_pid m) (w_uid w)) [FdSock (2 * Z.of_nat n + 1)]] ∧
    default [] (w_inq w' !! (2 * Z.of_nat n + 1)) = [framed (hello self) hdr] ∧
    y ≠ 2 * Z.of_nat n + 1.
Proof.
  intros Hd Hv Hl y. destruct (hello_ok self Hv Hl) as ((hdr & Hh) & _ & Hpl).
  destruct (request_granted root ent i m e d c target tok dst stack s w Hd)
    as (n & t & w2 & E & Hn & Hs & Hf & Hy & Hz). fold y in Hy.
  pose proof (dv_ends _ _ _ _ _ _ _ _ _ _ _ Hd _ _ (dv_inbox _ _ _ _ _ _ _ _ _ _ _ Hd)) as Hyb. fold y in Hyb.
  set (a := fd_alloc (w_fds w)) in *. assert (w_fds w !! a = None) as Ha by apply fd_alloc_fresh.
  unfold test_session. rewrite cbind_unfold, E. rewrite cbind_unfold. unfold warn at 1. unfold snprintf_ok.
  cbn [hello im_payload] in Hpl. rewrite (proj2 (Z.ltb_lt _ _)) by done.
  erewrite (cbind_tryc (send_framed_message_ex _ _ _ _ _));
    [|apply send_message_quiet with (x := 2 * Z.of_nat n) (hdr := hdr);
      [done|by rewrite Hf, lookup_insert_eq|unfold IPC_MSG_HARD_CAP; lia|done|exact Hh]].
  cbv iota beta. rewrite !cbind_perform. rewrite (close_quiet a) by done. cbn [snd].
  rewrite (close_quiet BROKER_FD) by done. cbn [snd]. rewrite cbind_unfold. unfold warn.
  eexists n, hdr, _, _. split; [reflexivity|]. split; [exact Hh|]. cbn. rewrite Hf, peer_even by lia.
  split_and!; [done| | | |lia].
  - rewrite delete_insert_id by done. done.
  - rewrite enqueue_ne by lia. exact Hy.
  - rewrite enqueue_eq, Hz. done.
Qed.

Lemma meta_length sender pid uid :
  blen sender < MAX_NAME → 0 ≤ pid < 2147483648 → 0 ≤ uid < 4294967296 →
  (length (meta_text sender pid uid) ≤ 255)%nat.
Proof.
  intros Hs Hp Hu. apply Nat2Z.inj_le. fold (blen (meta_text sender pid uid)).
  assert (∀ n, 0 ≤ n < 4294967296 → blen (fmt_d n) ≤ 10) as Hd.
  { intros n Hn. unfold fmt_d. rewrite (proj2 (Z.ltb_ge _ _)) by lia.
    assert (length (dec n) ≤ 10)%nat; [|unfold blen; lia]. apply dec_length; [pow10; lia|lia]. }
  pose proof (Hd pid ltac:(lia)). pose proof (Hd uid Hu). unfold meta_text, MAX_NAME in *. fit_len.
Qed.

(** C2: a message from one agent to another, end to end.  When the requester's
    policy allows the target and the target listens, the client's session ends
    with 0 and the target then accepts a connection whose peer is the
    requester's slot name, pid and uid, whatever name the client itself uses,
    and reads from it exactly the client's message: verb, reply address, task id
    and payload.  The new descriptor is the only one that is left of the
    exchange: neither the requester nor the daemon keeps an end of the channel. *)
Theorem brokered_message_delivered root ent i m e d c target tok dst stack self s w :
  deliverable root ent i m e d c target tok dst w → validate_name self = true → blen self < MAX_NAME →
  blen (m_name m) < MAX_NAME → 0 ≤ m_pid m < 2147483648 → 0 ≤ w_uid w < 4294967296 →
  ∃ s' w1 k x w2 w3, test_session (broker_turn root ent i d) stack self target s w = (inr 0, s', w1) ∧
    ipc_accept_inbox w1 = (inr (Some (k, PeerId (m_pid m) (w_uid w) 0 (m_name m))), w2) ∧
    w_fds w2 = <[k := FdSock x]> (delete BROKER_FD (w_fds w)) ∧
    read_message k w2 =
      (inr (AgentMsgHdr #"hello" self #"broker-f4" (blen (#"hi from " ++ self ++ nl)),
            #"hi from " ++ self ++ nl), w3).
Proof.
  intros Hd Hv Hl Hml Hp Hu. destruct (hello_ok self Hv Hl) as (_ & Hok & Hpl).
  destruct (session_sends root ent i m e d c target tok dst stack self s w Hd Hv Hl)
    as (n & hdr & s' & w1 & E & Hh & Hs & Hf & Hy & Hz & Hne).
  pose proof (pe_name _ _ _ _ (dv_policy _ _ _ _ _ _ _ _ _ _ _ Hd)) as Hmn.
  set (meta := meta_text _ _ _) in *. set (y := peer_end _) in *. set (z := 2 * Z.of_nat n + 1) in *.
  assert (w_fds w1 !! INBOX_FD_SLOT = Some (FdSock y)) as Hfd.
  { rewrite Hf, lookup_delete_ne by done. apply Hd. }
  assert (ipc_accept_inbox w1 =
    (inr (Some (fd_alloc (w_fds w1), PeerId (m_pid m) (w_uid w) 0 (m_name m))),
     set_fds (<[fd_alloc (w_fds w1) := FdSock z]>) (set_inq (<[y := []]>) w1))) as Ea.
  { unfold ipc_accept_inbox. rewrite bind_unfold. erewrite recv_retry_quiet; [|done|].
    2:{ apply recvmsg_one with (e := y) (data := meta) (q := []); [done|done|exact Hy| |vm_compute; lia].
        by apply meta_length. }
    cbn [rc_data rc_fds rc_trunc rc_ctrunc orb]. pose proof (parse_meta_text _ _ _ Hmn Hml Hp Hu) as Hpm.
    fold meta in Hpm. destruct meta as [|c0 t0] eqn:Em; [discriminate Em|].
    by rewrite bind_ignore, sys_plain_quiet, Hpm by done. }
  eexists s', w1, _, z, _, _. split; [exact E|]. split; [exact Ea|]. split; [cbn; by rewrite Hf|].
  erewrite (read_message_quiet _ z (hello self) hdr []); [| |apply lookup_insert_eq| |exact Hh|exact Hok|].
  - cbn [hello im_verb im_reply_to im_task_id im_payload]. unfold snprintf_trunc.
    rewrite (take_ge self) by (unfold MAX_NAME, blen in Hl; lia). reflexivity.
  - done.
  - cbn. by rewrite lookup_insert_ne.
  - unfold IPC_MSG_HARD_CAP. lia.
Qed.

(** *** Too many descriptors *)

Lemma dup_quiet n acc w :
  w_sched w = [] →
  dup_fds n acc w = match install_all (replicate n FdOther) w with
                    | (inr ks, w') => (inr (acc ++ ks), w')
                    | (inl e, w') => (inl e, w')
                    end.
Proof.
  revert acc w. induction n as [|n IH]; intros acc w Hs.
  { cbn [dup_fds replicate install_all]. cbv [mret M_ret]. by rewrite app_nil_r. }
  cbn [dup_fds replicate install_all]. rewrite !bind_unfold, sys_quiet by done.
  destruct (install FdOther w) as [[er|k] w1] eqn:E; [done|].
  assert (w_sched w1 = []) as Hs1.
  { unfold install in E. rewrite bind_gets in E. cbv zeta in E. rewrite bind_modify in E.
    cbv [mret M_ret] in E. by simplify_eq. }
  rewrite IH, bind_unfold by done. destruct (install_all _ w1) as [[er|ks] w2]; [done|].
  cbv [mret M_ret]. by rewrite <-app_assoc.
Qed.

(** Closing a list of descriptors. *)
Lemma close_list_quiet ks s w :
  w_sched w = [] →
  ∃ fds', cfor_each ks (λ k, perform (sys_close k)) s w = (inr tt, s, set_fds (λ _, fds') w) ∧
    ∀ k, fds' !! k = if bool_decide (k ∈ ks) then None else w_fds w !! k.
Proof.
  revert w. induction ks as [|k ks IH]; intros w Hs.
  { exists (w_fds w). split; [by destruct w|]. intros k. by rewrite bool_decide_eq_false_2 by apply not_elem_of_nil. }
  cbn [cfor_each]. rewrite cbind_perform, close_quiet by done. cbn [snd].
  destruct (IH (set_fds (delete k) w) Hs) as (fds' & E & Hf). exists fds'. split; [exact E|].
  intros k'. rewrite Hf. cbn. destruct (decide (k' = k)) as [->|Hne].
  - rewrite lookup_delete_eq, (bool_decide_eq_true_2 (k ∈ k :: ks)) by by left. by case_bool_decide.
  - rewrite lookup_delete_ne by done. case_bool_decide as H1; case_bool_decide as H2; [done|set_solver..|done].
Qed.

(** A packet with more descriptors than fit: the kernel installs the first four
    and the daemon drops the channel. *)
Lemma turn_ctrunc root ent i m eb p q d w :
  w_sched w = [] → g_agents d !! i = Some m → w_fds w !! broker_fd m = Some (FdSock eb) →
  default [] (w_inq w !! eb) = p :: q → pk_data p ≠ [] → (4 < length (pk_fds p))%nat →
  ∃ ks fds' w', broker_turn root ent i d w = (inr tt, w') ∧ w_sched w' = [] ∧
    w_inq w' = <[eb := q]> (w_inq w) ∧ w_fds w' = delete (broker_fd m) fds' ∧
    Forall2 (λ k o, fds' !! k = Some o ∧ w_fds w !! k = None) ks (take 4 (pk_fds p)) ∧
    ∀ k, k ∉ ks → fds' !! k = w_fds w !! k.
Proof.
  intros Hs Hi Hb Hq Hne H4.
  destruct (install_all_spec (take 4 (pk_fds p)) (set_inq (<[eb := q]>) w)) as (ks & fds' & Ei & HF & Ho).
  set (w1 := set_fds (λ _, fds') (set_inq (<[eb := q]>) w)) in *.
  assert (retry_eintr (sys_recvmsg (broker_fd m) 512 4) w =
    (inr (Recvd (take 512 (pk_data p)) ks (512 <? length (pk_data p))%nat true), w1)) as Er.
  { apply recv_retry_quiet; [done|]. unfold sys_recvmsg.
    rewrite sys_quiet, !bind_gets, Hb, Hq, bind_modify, bind_unfold, Ei by done.
    cbv [mret M_ret]. by rewrite (proj2 (Nat.ltb_lt 4 _)). }
  assert (answered (w_inq w1) w1 w1) as Ha by by split.
  unfold broker_turn, broker_handle_event. rewrite dbind_slot, Hi. change (default zero_slot (Some m)) with m.
  rewrite dbind_unfold. unfold try. rewrite Er.
  destruct (take 512 (pk_data p)) as [|c0 t0] eqn:Et; [by destruct (pk_data p)|]. rewrite orb_true_r.
  rewrite dbind_unfold.
  match goal with |- context [daemon_log root ?t _ _] =>
    destruct (after_answer (daemon_log root t) (w_inq w1) d w1 w1) as (w2 & -> & Ha2); [dkeep|exact Ha|] end.
  cbv iota beta. rewrite dbind_unfold. match goal with |- context [Agentd.audit root ?x ?t _ _] =>
    destruct (after_answer (Agentd.audit root x t) (w_inq w1) d w1 w2) as (w3 & -> & Ha3); [dkeep|exact Ha2|] end.
  unfold drop_channel. rewrite dbind_slot, Hi. change (default zero_slot (Some m)) with m.
  rewrite dbind_unfold. unfold run_. destruct Ha3 as [Hs3 Hf3 _ _ _ _ Hq3]. rewrite close_quiet by done.
  exists ks, fds', (set_fds (delete (broker_fd m)) w3). split_and!; [done|done|done| |exact HF|exact Ho].
  cbn. by rewrite Hf3.
Qed.

(** Nobody but the daemon's slot holds the far end of the channel. *)
Record sole_holder (m : managed) (e : Z) (w : world) : Prop := {
  so_fds : ∀ fd, w_fds w !! fd = Some (FdSock (peer_end e)) → fd = broker_fd m;
  so_inq : ∀ x q p, w_inq w !! x = Some q → p ∈ q → FdSock (peer_end e) ∉ pk_fds p
}.

Lemma end_closed x w :
  (∀ fd, w_fds w !! fd ≠ Some (FdSock x)) →
  (∀ k q p, w_inq w !! k = Some q → p ∈ q → FdSock x ∉ pk_fds p) → end_open x w = false.
Proof.
  intros Hf Hq. unfold end_open. apply orb_false_iff. split.
  - unfold holds. apply bool_decide_eq_false_2. intros ([fd o] & Heq & Hin)%list_elem_of_fmap.
    apply elem_of_map_to_list in Hin. cbn in Heq. subst o. by destruct (Hf fd).
  - apply not_true_iff_false. rewrite existsb_exists. intros ([k q] & Hin & H). apply list_elem_of_In in Hin.
    apply elem_of_map_to_list in Hin. apply existsb_exists in H as (p & Hp & H). apply list_elem_of_In in Hp.
    unfold holds in H. apply bool_decide_eq_true in H. cbn in *. by eapply Hq.
Qed.

Definition eight : packet :=
  Packet (#"VERB request" ++ nl ++ #"CAP mailbox.send:peer" ++ nl ++ nl) (replicate 8 FdOther).

(** The client's part: its request is queued with eight descriptors, and its
    own table is as before. *)
Lemma many_fds_sends daemon e cwd content mode uid s w :
  w_sched w = [] → w_fds w !! BROKER_FD = Some (FdSock e) →
  w_fs w !! (cwd ++ #"/broker-fault-mode") = Some (Node (KReg content) mode uid) →
  ∃ w3, w_sched w3 = [] ∧ w_fds w3 = w_fds w ∧ w_inq w3 = enqueue (peer_end e) eight (w_inq w) ∧
    run_many_fds cwd daemon s w =
    (perform daemon ;;
     r ← tryc (sys_recv BROKER_FD 64);
     match r with
     | inr [] => many #"OK (channel closed by broker)" ;; mret 0
     | inr data => many (#"expected EOF, got n=" ++ fmt_d (blen data)) ;; mret 3
     | inl _ => many #"expected EOF, got n=-1" ;; mret 3
     end) s w3.
Proof.
  intros Hs Hf Hfile.
  destruct (install_all_spec (replicate 8 FdOther) w) as (ks & fds1 & Ei & HF & Ho).
  set (wd := set_fds (λ _, fds1) w) in *.
  assert (∀ k, k ∈ ks → w_fds w !! k = None) as Hfresh.
  { intros k [j Hj]%list_elem_of_lookup. by destruct (Forall2_lookup_l _ _ _ _ _ HF Hj) as (o & _ & _ & ?). }
  assert (BROKER_FD ∉ ks) as H3 by (intros H%Hfresh; congruence).
  assert (sys_open_read (cwd ++ #"/broker-fault-mode") w = (inr (cwd ++ #"/broker-fault-mode"), w)) as E0.
  { unfold sys_open_read. rewrite sys_quiet, bind_gets by done. cbv zeta.
    by rewrite (follow_reg _ _ _ _ _ _ Hfile), Hfile. }
  assert (dup_fds 8 [] w = (inr ks, wd)) as E1 by (rewrite dup_quiet, Ei by done; done).
  assert (sys_sendmsg BROKER_FD (pk_data eight) ks wd =
          (inr tt, push_trace (EvSend e eight) (set_inq (enqueue (peer_end e) eight) wd))) as E2.
  { apply sendmsg_quiet; [done|cbn; by rewrite Ho|]. apply mapM_Some_2.
    eapply Forall2_impl; [exact HF|]. by intros k o [? _]. }
  unfold run_many_fds. rewrite (cbind_tryc _ _ _ _ _ _ E0), (cbind_tryc _ _ _ _ _ _ E1).
  rewrite cbind_perform, sys_plain_quiet by done. cbn [snd]. rewrite (cbind_tryc _ _ _ _ _ _ E2), cbind_unfold.
  set (w2 := push_trace _ _). destruct (close_list_quiet ks s w2) as (fds2 & -> & Hf2); [done|].
  assert (fds2 = w_fds w) as ->.
  { apply map_eq. intros k. rewrite Hf2. case_bool_decide as Hk; [by rewrite Hfresh|]. by apply Ho. }
  by exists (set_fds (λ _, w_fds w) w2).
Qed.

(** C21: too many descriptors.  A request with eight descriptors, twice what the
    daemon's control buffer holds, ends the channel: broker-fault reads the end
    of the connection and exits with 0.  The four descriptors that did fit stay
    open in the daemon for good. *)
Theorem many_fds_closes root ent i m e d cwd content mode uid s w :
  linked i m e d w → sole_holder m e w →
  w_fs w !! (cwd ++ #"/broker-fault-mode") = Some (Node (KReg content) mode uid) →
  ∃ s' w' ks, run_many_fds cwd (broker_turn root ent i d) s w = (inr 0, s', w') ∧
    w_fds w' !! broker_fd m = None ∧ length ks = 4%nat ∧
    Forall (λ k, w_fds w !! k = None ∧ w_fds w' !! k = Some FdOther) ks.
Proof.
  intros Hl [Hsf Hsq] Hfile. pose proof Hl as [Hs Hi Hf Hv Hin Hout _]. pose proof (peer_ne e) as Hpe.
  destruct (many_fds_sends (broker_turn root ent i d) e cwd content mode uid s w Hs Hf Hfile)
    as (w3 & Hs3 & Hf3 & Hq3 & ->).
  destruct (turn_ctrunc root ent i m (peer_end e) eight [] d w3) as (k4 & fds' & w4 & E4 & Hs4 & Hq4 & Hf4 & HF4 & Ho4);
    [done|done|by rewrite Hf3|by rewrite Hq3, enqueue_eq, Hin|done|cbn; lia|]. rewrite Hf3 in HF4, Ho4.
  assert (∀ k, k ∈ k4 → w_fds w !! k = None ∧ fds' !! k = Some FdOther) as Hk4.
  { intros k [j Hj]%list_elem_of_lookup. destruct (Forall2_lookup_l _ _ _ _ _ HF4 Hj) as (o & Hj' & ? & ?).
    change (take 4 (pk_fds eight)) with (replicate 4 FdOther) in Hj'.
    by apply lookup_replicate in Hj' as [-> _]. }
  assert ((broker_fd m ∉ k4) ∧ BROKER_FD ∉ k4) as [Hb4 H34].
  { split; intros H; apply Hk4 in H as [H _]; congruence. }
  assert (broker_fd m ≠ BROKER_FD) as Hb3 by congruence.
  rewrite cbind_perform, E4. cbn [snd].
  assert (sys_recv BROKER_FD 64 w4 = (inr [], w4)) as E5.
  { unfold sys_recv. rewrite sys_quiet, !bind_gets, Hf4, lookup_delete_ne, Ho4, Hf, Hq4, Hq3 by done.
    rewrite lookup_insert_ne, enqueue_ne, Hout, bind_gets by done. rewrite end_closed; [done| |].
    - intros fd. rewrite Hf4. intros [Hne H]%lookup_delete_Some.
      destruct (decide (fd ∈ k4)) as [[_ Hk]%Hk4|Hk]; [congruence|]. rewrite Ho4 in H by done. by apply Hne, eq_sym, Hsf.
    - intros k q p. rewrite Hq4, Hq3. intros [[_ <-]|[Hne H]]%lookup_insert_Some; [by intros ?%not_elem_of_nil|].
      rewrite enqueue_ne in H by done. by apply Hsq with (x := k). }
  rewrite (cbind_tryc _ _ _ _ _ _ E5), cbind_unfold. unfold many, warn.
  eexists _, w4, k4. split_and!; [reflexivity|rewrite Hf4; apply lookup_delete_eq|by apply Forall2_length in HF4|].
  apply Forall_forall. intros k Hk. destruct (Hk4 k Hk). rewrite Hf4, lookup_delete_ne by (by intros <-). done.
Qed.

(** *** Oversized frames and concurrent requests *)

#[global] Opaque oversized_frame.
Lemma oversized_len : IPC_BUF_CAP < blen oversized_frame.
Proof.
  with_strategy transparent [oversized_frame] unfold oversized_frame. rewrite !blen_app.
  assert (blen (replicate (Z.to_nat OVERSIZED) "x"%char) = OVERSIZED) as ->.
  { unfold blen. rewrite length_replicate. unfold OVERSIZED. lia. }
  change (blen (#"VERB review")) with 11. unfold IPC_BUF_CAP, IPC_MSG_HARD_CAP, IPC_HEADER_HEADROOM, OVERSIZED.
  solve_len.
Qed.

(** When the kernel does queue the tool's 2 MiB frame, its receiver reports a
    protocol violation and delivers nothing. *)
Lemma oversized_rejected sys_connect target fd b e s w w1 :
  let path := snprintf_trunc 256 (#"/tmp/agents/" ++ target ++ #"/agent.sock") in
  w_sched w = [] → blen path < SUN_PATH_MAX → sys_connect path w = (inr fd, w1) → w_sched w1 = [] →
  w_fds w1 !! fd = Some (FdSock e) → w_fds w1 !! b = Some (FdSock (peer_end e)) → fd ≠ b →
  default [] (w_inq w1 !! peer_end e) = [] →
  ∃ s' w2 w3, run_oversized sys_connect true target s w = (inr 0, s', w2) ∧
    ipc_recv b IPC_BUF_CAP w2 = (inr IPC_PROTO_VIOLATION, w3).
Proof.
  intros path Hs Hp Hc Hs1 Hf Hb Hne Hq. unfold run_oversized. fold path. cbv zeta.
  rewrite (cbind_tryc _ _ _ _ _ _ (sys_plain_quiet w Hs)). rewrite (proj2 (Z.leb_gt _ _)) by done.
  rewrite (cbind_tryc _ _ _ _ _ _ Hc), cbind_perform, sys_plain_quiet by done. cbn [negb snd].
  rewrite (cbind_tryc _ _ _ _ _ _ (sendmsg_quiet fd oversized_frame [] e [] w1 Hs1 Hf eq_refl)).
  rewrite cbind_perform, close_quiet, cbind_unfold by done. unfold warn. cbn [snd].
  set (w2 := set_fds _ _).
  destruct (ipc_recv_truncated b IPC_BUF_CAP (peer_end e) (Packet oversized_frame []) [] w2)
    as (ks & w3 & E & _); [done|cbn; by rewrite lookup_delete_ne|cbn; by rewrite enqueue_eq, Hq|done| | |].
  - intros H. pose proof oversized_len as Hl. cbn in H. by rewrite H in Hl.
  - left. apply oversized_len.
  - by eexists _, w2, w3.
Qed.

(** The eight workers: the program ends with 0 exactly when every fork
    succeeded and every worker exited with 0, that is got its descriptor. *)
Lemma workers_counted root cwd forks waits self data w w1 :
  length forks = WORKERS → read_leaf (cwd ++ #"/broker-target") 63 w = (inr (Some data), w1) →
  run (broker_concurrency_main root cwd forks waits [self]) w = inr 0 ↔
  Forall (λ b, b = true) forks ∧
  Forall (λ r, r = inr (Exited 0)) (take WORKERS (waits (concurrency_target data))).
Proof.
  intros Hn Hr. unfold run, broker_concurrency_main. rewrite bind_unfold, Hr, bind_ignore.
  rewrite take_ge by lia. destruct (forallb id forks) eqn:Ef; cbn [negb].
  - rewrite forallb_forall in Ef.
    assert (Forall (λ b, b = true) forks) as HF by (apply Forall_forall; intros b Hb; by apply Ef, list_elem_of_In).
    destruct (existsb failed_wait _) eqn:Ew; cbn; split; try done.
    + intros [_ HW]. apply existsb_exists in Ew as (r & Hr' & Hf). apply list_elem_of_In in Hr'.
      rewrite Forall_forall in HW. by rewrite (HW r Hr') in Hf.
    + intros _. split; [done|]. apply Forall_forall. intros r Hr'.
      destruct (failed_wait r) eqn:Er; [|by destruct r as [|[[]|]]].
      enough (existsb failed_wait (take WORKERS (waits (concurrency_target data))) = true) by congruence.
      apply existsb_exists. exists r. by rewrite <-list_elem_of_In.
  - cbn. split; [done|]. intros [HF _]. rewrite Forall_forall in HF.
    enough (forallb id forks = true) by congruence. apply forallb_forall. intros b Hb. by apply HF, list_elem_of_In.
Qed.

(** ** Witnesses *)

(** The daemon of [demo_daemon] with agent ["a"], whose descriptor 3 is its
    broker channel, and agent ["b"], whose descriptor 4 is its inbox. *)
Definition demo_session : world :=
  World (<[ #"/r/agents/a/config/policy" := Node (KReg (#"allow mailbox.send:b" ++ nl)) 384 1000]>
           (<[ #"/w/broker-fault-mode" := Node (KReg (#"many-fds" ++ nl)) 384 1000]> demo_fs))
        [] 1788350400 100 1000 ∅ 50
        (list_to_map [(3, FdSock 11); (4, FdSock 41); (5, FdSock 10); (6, FdSock 20); (7, FdSock 30);
                      (8, FdSock 40)])
        ∅ (list_to_map [(201, PLive); (202, PLive)]) [] [].

Lemma demo_linked : linked 0 (demo_slot #"a" 201 5 6) 11 demo_daemon demo_session.
Proof.
  split; try (vm_compute; reflexivity). intros m Hm Hu H0. unfold demo_daemon in Hm. cbn [g_agents] in Hm.
  repeat (apply elem_of_cons in Hm as [->|Hm]; [vm_compute; reflexivity|]).
  apply elem_of_replicate in Hm as [-> _]. discriminate Hu.
Qed.
Lemma demo_fds_cases fd x :
  w_fds demo_session !! fd = Some (FdSock x) →
  (fd, x) ∈ [(3, 11); (4, 41); (5, 10); (6, 20); (7, 30); (8, 40)].
Proof.
  intros H. cbn [w_fds demo_session list_to_map foldr fst snd] in H.
  repeat (apply lookup_insert_Some in H as [[<- [= <-]]|[_ H]]; [set_solver|]). by apply lookup_empty_Some in H.
Qed.
Lemma demo_deliverable :
  deliverable #"/r" demo_entropy 0 (demo_slot #"a" 201 5 6) 11 demo_daemon (#"allow mailbox.send:b" ++ nl) #"b"
    #"30313233" (demo_slot #"b" 202 7 8) demo_session.
Proof.
  split; try (vm_compute; reflexivity); [exact demo_linked| |not_in_list|by split|].
  - split; try (vm_compute; reflexivity); [by exists 448, 1000|by exists 384, 1000|].
    intros t m u. vm_compute. discriminate.
  - intros fd x H%demo_fds_cases. set_solver by lia.
Qed.

Lemma malformed_survives_witness :
  ∃ s' w', run_malformed (broker_turn #"/r" demo_entropy 0 demo_daemon) io0 demo_session = (inr 0, s', w') ∧
    w_fds w' !! BROKER_FD = Some (FdSock 11).
Proof.
  destruct (malformed_survives #"/r" demo_entropy 0 (demo_slot #"a" 201 5 6) 11 demo_daemon io0 demo_session)
    as (s' & w' & E & Hl); [exact demo_linked|vm_compute; exact I|].
  exists s', w'. split; [exact E|]. apply (lk_fd _ _ _ _ _ Hl).
Defined.

Lemma brokered_message_delivered_witness :
  ∃ s' w1 k w2 w3,
    test_session (broker_turn #"/r" demo_entropy 0 demo_daemon) [] #"a" #"b" io0 demo_session = (inr 0, s', w1) ∧
    ipc_accept_inbox w1 = (inr (Some (k, PeerId 201 1000 0 #"a")), w2) ∧
    read_message k w2 = (inr (AgentMsgHdr #"hello" #"a" #"broker-f4" 10, #"hi from a" ++ nl), w3).
Proof.
  destruct (brokered_message_delivered #"/r" demo_entropy 0 (demo_slot #"a" 201 5 6) 11 demo_daemon
    (#"allow mailbox.send:b" ++ nl) #"b" #"30313233" (demo_slot #"b" 202 7 8) [] #"a" io0 demo_session)
    as (s' & w1 & k & x & w2 & w3 & E1 & E2 & _ & E3).
  - exact demo_deliverable.
  - vm_compute. reflexivity.
  - vm_compute. reflexivity.
  - vm_compute. reflexivity.
  - vm_compute. split; [discriminate|reflexivity].
  - vm_compute. split; [discriminate|reflexivity].
  - exists s', w1, k, w2, w3. split; [exact E1|]. split; [exact E2|exact E3].
Defined.

Lemma many_fds_closes_witness :
  ∃ s' w' ks, run_many_fds #"/w" (broker_turn #"/r" demo_entropy 0 demo_daemon) io0 demo_session = (inr 0, s', w') ∧
    length ks = 4%nat ∧ Forall (λ k, w_fds w' !! k = Some FdOther) ks.
Proof.
  destruct (many_fds_closes #"/r" demo_entropy 0 (demo_slot #"a" 201 5 6) 11 demo_daemon #"/w"
    (#"many-fds" ++ nl) 384 1000 io0 demo_session) as (s' & w' & ks & E & _ & Hl & HF).
  - exact demo_linked.
  - split.
    + intros fd H%demo_fds_cases. change (peer_end 11) with 10 in H. set_solver by lia.
    + intros x q p H. change (w_inq demo_session) with (∅ : gmap Z (list packet)) in H. by rewrite lookup_empty in H.
  - vm_compute. reflexivity.
  - exists s', w', ks. split; [exact E|]. split; [exact Hl|]. eapply Forall_impl; [exact HF|]. by intros k [_ ?].
Defined.
