(* ===== verification/Psa.v ===== *)
(** * psa.c: the process listing

    One row per agent, joined from the agent's files and [/proc].  The
    columns computed in floating point are treated in two ways: the memory
    column divides by powers of two, which is exact, so its digits are computed
    here ([fixed]); the CPU column is the argument [cpu_text], the printed
    percentage as a function of the uptime text, the ticks used, the start
    time and the clock rate. *)

From S2P Require Import Prelude CLib Posix Names Common Broker Ipc Agentfs Profiles Tasks Enforcement Lifecycle Runtime Agentctl AgentctlSpec.

Definition GOAL_DISPLAY : nat := 40.
Definition STATE_DISPLAY : nat := 8.
Definition NAME_DISPLAY : nat := 18.
Definition PROFILE_DISPLAY : nat := 10.
Definition PLANNER_DISPLAY : nat := 12.

Record agent_row := AgentRow {
  r_name : bytes;
  r_pid : Z;
  r_state : bytes;
  r_cpu : option bytes;          (** [cpu_pct], printed; none for -1 *)
  r_mem_kb : Z;
  r_profile : bytes;
  r_planner : bytes;
  r_total : Z;
  r_active : Z;
  r_fs : bytes;
  r_sc : bytes;
  r_cg : bytes;
  r_sup : bytes;
  r_ipc : bytes;
  r_restarts : Z;
  r_goal : bytes
}.

(** ** /proc *)

Definition map_state_char (c : ascii) (n : nat) : bytes :=
  snprintf_trunc n
    (if Ascii.eqb c "R" then #"running" else if Ascii.eqb c "S" then #"sleep"
     else if Ascii.eqb c "D" then #"iowait" else if Ascii.eqb c "T" then #"stopped"
     else if Ascii.eqb c "t" then #"traced" else if Ascii.eqb c "Z" then #"zombie"
     else if Ascii.eqb c "X" then #"dead" else if Ascii.eqb c "I" then #"idle"
     else #"?" ++ [c]).

(** [sscanf] of white space and [k] numbers, of which the last is kept. *)
Fixpoint scan_skip (k : nat) (s : bytes) : option (Z * bytes) :=
  match scan_long (scan_ws s) with
  | None => None
  | Some (v, rest) => match k with O => Some (v, rest) | S k' => scan_skip k' rest end
  end.

Record proc_stat := ProcStat { ps_state : ascii; ps_utime : Z; ps_stime : Z; ps_start : Z; ps_rss : Z }.
(** The fields after the last [')']: state, then the 14th, 15th, 22nd and
    24th of the line. *)
Definition parse_stat (buf : bytes) : option proc_stat :=
  match split_last ")" (cstr buf) with
  | None => None
  | Some (_, after) =>
      match drop 1 after with
      | [] => None
      | c :: s =>
          match scan_skip 10 s with
          | None => None
          | Some (utime, s) =>
              match scan_skip 0 s with
              | None => None
              | Some (stime, s) =>
                  match scan_skip 6 s with
                  | None => None
                  | Some (start, s) =>
                      match scan_skip 1 s with
                      | None => None
                      | Some (rss, _) => Some (ProcStat c utime stime start rss)
                      end
                  end
              end
          end
      end
  end.

(** One [read] of a file of [/proc]. *)
Definition read_proc (path : bytes) (n : nat) : M bytes :=
  q ← sys_open_read path;
  r ← attempt (sys_read q 0 n);
  ignore sys_plain ;;
  match r with inl e => throw e | inr [] => throw EIO | inr d => mret d end.

Section psa.
Context (root : bytes) (garbage : profile_cfg_t).
(** [sysconf(_SC_CLK_TCK)] and [sysconf(_SC_PAGESIZE)]. *)
Context (clk_tck pagesize : Z) (cpu_text : bytes → Z → Z → Z → bytes).

Definition read_uptime_seconds : M bytes := d ← read_proc #"/proc/uptime" 63; mret (cstr d).

(** State, CPU and memory columns. *)
Definition fill_proc_info (pid : Z) : M (bytes * option bytes * Z) :=
  buf ← read_proc (snprintf_trunc 64 (#"/proc/" ++ fmt_d pid ++ #"/stat")) 4095;
  match parse_stat buf with
  | None => throw EIO
  | Some ps =>
      let ticks := if clk_tck <=? 0 then 100 else clk_tck in
      let pagesz := if pagesize <=? 0 then 4096 else pagesize in
      u ← attempt read_uptime_seconds;
      mret (map_state_char (ps_state ps) 16,
            match u with
            | inr up => Some (cpu_text up (ps_utime ps + ps_stime ps) (ps_start ps) ticks)
            | inl _ => None
            end,
            Z.quot (ps_rss ps * pagesz) 1024)
  end.

(** ** One agent *)

Definition read_goal_first_line (name : bytes) (n : nat) : M bytes :=
  r ← attempt (p ← agent_path root name #"goal"; read_small_file p 512);
  mret (match r with
        | inr buf => cstr (take (n - 1) (take_while (λ c, negb (Ascii.eqb c NL)) buf))
        | inl _ => []
        end).

Definition enf_mark (status : Z) (active : bytes) : bytes :=
  if status =? ENF_STATUS_ACTIVE then active
  else if status =? ENF_STATUS_UNAVAILABLE then #"??" else #"-".

Definition row_state (name : bytes) : M bytes :=
  r ← attempt (p ← agent_path root name #"status"; read_small_file p 64);
  mret (match r with inr buf => take 15 (first_line (cstr buf)) | inl _ => #"-" end).
(** Pid, state, CPU and memory. *)
Definition row_process (name state : bytes) : M (Z * bytes * option bytes * Z) :=
  p ← attempt (read_pid_file root name);
  match p with
  | inl _ => mret (0, state, None, -1)
  | inr pid =>
      alive ← run_alive pid;
      if (alive : bool) then
        r ← attempt (fill_proc_info pid);
        mret (match r with
              | inr (st, cpu, mem) => (pid, st, cpu, mem)
              | inl _ => (pid, #"gone", None, -1)
              end)
      else mret (pid, #"dead", None, -1)
  end.

Definition collect_row (name : bytes) : M agent_row :=
  state ← row_state name;
  r ← row_process name state;
  let '(pid, state, cpu, mem) := (r : Z * bytes * option bytes * Z) in
  goal ← read_goal_first_line name (GOAL_DISPLAY + 4);
  cfg ← profile_load_for_agent root name garbage;
  total ← task_count_total root name;
  active ← task_count_active root name;
  es ← attempt (enforcement_read_state root name);
  sup ← attempt (read_agent_setting root name #"supervisor" 32);
  rst ← attempt (read_agent_setting root name #"restart_count" 32);
  t ← attempt (transport_resolve root name);
  let mark f a := match es with inr es => enf_mark (f es) a | inl _ => #"-" end in
  mret (AgentRow (take 63 name) pid state cpu mem
          (snprintf_trunc 64 (profile_name cfg)) (snprintf_trunc 16 (dispatch_name (dispatch cfg)))
          total active (mark landlock_status #"LL") (mark seccomp_status #"min")
          (mark cgroup_status #"yes")
          (match sup with inr s => take 7 s | inl _ => #"-" end)
          (match t with inr t => snprintf_trunc 8 (transport_name (tc_kind t)) | inl _ => #"-" end)
          (match rst with inr s => atoi s | inl _ => 0 end)
          goal).
End psa.

(** ** Formatting *)

(** [%.<digits>f] of [num / den], for a quotient that is exact in binary:
    round to nearest, ties to even. *)
Definition round_div (num den : Z) : Z :=
  let q := num / den in
  let r := 2 * (num mod den) in
  if r <? den then q else if den <? r then q + 1 else if Z.even q then q else q + 1.
Definition fixed (digits : nat) (num den : Z) : bytes :=
  let p := 10 ^ Z.of_nat digits in
  let v := round_div (num * p) den in
  fmt_d (v / p) ++ #"." ++ fmt_0d digits (v mod p).

Definition format_mem (kb : Z) (n : nat) : bytes :=
  snprintf_trunc n
    (if kb <? 0 then #"-"
     else if kb <? 1024 then fmt_d kb ++ #"kB"
     else if kb <? 1024 * 1024 then fixed 1 kb 1024 ++ #"MB"
     else fixed 2 kb (1024 * 1024) ++ #"GB").

Definition truncate_to (s : bytes) (max : nat) : bytes :=
  if (max <? length s)%nat && (3 <=? max)%nat then take (max - 3) s ++ #"..." else s.

Definition row_line (name pid state cpu mem prof tasks active fs sc cg ipc sup rst goal : bytes) : bytes :=
  pad_right NAME_DISPLAY name ++ [SP] ++ pad_left 6 pid ++ [SP] ++ pad_right STATE_DISPLAY state ++ [SP] ++
  pad_left 6 cpu ++ [SP] ++ pad_left 7 mem ++ #"  " ++ pad_right PROFILE_DISPLAY prof ++ [SP] ++
  pad_left 5 tasks ++ [SP] ++ pad_left 6 active ++ #"  " ++ pad_right 3 fs ++ [SP] ++ pad_right 3 sc ++
  [SP] ++ pad_right 3 cg ++ #"  " ++ pad_right 7 ipc ++ [SP] ++ pad_right 6 sup ++ [SP] ++
  pad_left 4 rst ++ #"  " ++ goal ++ nl.
Definition print_header : bytes :=
  row_line #"NAME" #"PID" #"STATE" #"CPU" #"MEM" #"PROFILE" #"TASKS" #"ACTIVE" #"FS" #"SC" #"CG" #"IPC"
           #"SUP" #"RST" #"GOAL".

Definition dash (s : bytes) : bytes := match s with [] => #"-" | _ => s end.
Definition print_row (r : agent_row) : bytes :=
  row_line (truncate_to (r_name r) NAME_DISPLAY)
    (if 0 <? r_pid r then snprintf_trunc 16 (fmt_d (r_pid r)) else #"-")
    (r_state r) (snprintf_trunc 16 (default #"-" (r_cpu r))) (format_mem (r_mem_kb r) 16)
    (truncate_to (dash (r_profile r)) PROFILE_DISPLAY)
    (snprintf_trunc 12 (fmt_d (r_total r))) (snprintf_trunc 12 (fmt_d (r_active r)))
    (r_fs r) (r_sc r) (r_cg r) (r_ipc r) (r_sup r) (snprintf_trunc 12 (fmt_d (r_restarts r)))
    (truncate_to (snprintf_trunc (GOAL_DISPLAY + 1) (dash (r_goal r))) GOAL_DISPLAY).

Section psa_main.
Context (root : bytes) (garbage : profile_cfg_t).
Context (clk_tck pagesize : Z) (cpu_text : bytes → Z → Z → Z → bytes).

Definition psa_row (printed : bool) (e : bytes) : Cli bool :=
  if first_is "." e || negb (validate_name e) then mret printed
  else match snprintf_ok MAX_PATHBUF (agent_root root ++ SLASH :: e) with
       | None => mret printed
       | Some dir =>
           st ← tryc (sys_stat dir);
           match st with
           | inr (Node KDir _ _) =>
               (if printed then mret tt else say print_header) ;;
               r ← need_ (collect_row root garbage clk_tck pagesize cpu_text e);
               say (print_row r) ;;
               mret true
           | _ => mret printed
           end
       end.
Definition psa_main (argv : list bytes) : Cli Z :=
  match argv with
  | _ :: _ => warn (#"usage: psa" ++ nl) ;; mret 2
  | [] =>
      es ← tryc (sys_readdir (agent_root root));
      match es with
      | inl ENOENT => say (#"(no agents)" ++ nl) ;; mret 0
      | inl e => warn (#"psa: " ++ agent_root root ++ #": " ++ strerror e ++ nl) ;; mret 1
      | inr es =>
          printed ← cfold psa_row false es;
          (if (printed : bool) then mret tt else say (#"(no agents)" ++ nl)) ;;
          mret 0
      end
  end.
End psa_main.

(** ** /proc/<pid>/stat is read whatever the command name is *)

(** The line as the kernel writes it: the command name is any text the
    process chose, parentheses and spaces included. *)
Definition stat_fields (vs : list Z) : bytes := concat (map (λ v, SP :: fmt_d v) vs).
Definition stat_line (pid : Z) (comm : bytes) (c : ascii) (vs : list Z) (rest : bytes) : bytes :=
  fmt_d pid ++ #" (" ++ comm ++ #") " ++ c :: stat_fields vs ++ rest.
Definition is_long (v : Z) : Prop := LONG_MIN ≤ v ≤ LONG_MAX.
Definition no_digit_first (r : bytes) : Prop := match r with [] => True | c :: _ => isdigit c = false end.

Lemma strtol_fmt_d v r : is_long v → no_digit_first r → strtol (fmt_d v ++ r) = StrtolRes v r true false.
Proof.
  unfold is_long, LONG_MIN. intros Hv Hr. unfold fmt_d. destruct (v <? 0) eqn:E; bool_simpl.
  2:{ apply strtol_dec; [lia|done]. }
  pose proof (dec_digits (- v) ltac:(lia)) as HF. pose proof (dec_nonempty (- v)) as Hne.
  assert (digits_val (dec (- v)) = - v) as Hd by (apply dec_val; unfold LONG_MAX in *; lia).
  unfold strtol. cbn [app drop_while]. change (isspace "-") with false. cbn match.
  change (Ascii.eqb "-" "-") with true. cbn match. cbn beta iota zeta.
  rewrite take_while_app, drop_while_all by done.
  assert (take_while isdigit r = [] ∧ drop_while isdigit r = r) as [-> ->]
    by (destruct r as [|x r]; [done|cbn in *; by rewrite Hr]).
  rewrite app_nil_r, Hd. destruct (dec (- v)); [done|].
  rewrite (proj2 (Z.ltb_ge LONG_MAX _)), (proj2 (Z.ltb_ge _ LONG_MIN)) by (unfold LONG_MIN in *; lia).
  by rewrite Z.opp_involutive.
Qed.

Lemma fmt_d_head v : is_long v → ∃ x s, fmt_d v = x :: s ∧ isspace x = false.
Proof.
  intros Hv. unfold fmt_d. destruct (v <? 0) eqn:E; bool_simpl; [by eexists _, _|].
  pose proof (dec_digits v E) as HF. pose proof (dec_nonempty v).
  destruct (dec v) as [|x s]; [done|]. inversion HF. eauto using isdigit_not_space.
Qed.
Lemma fmt_d_chars v x : x ∈ fmt_d v → is_long v → isdigit x = true ∨ x = "-"%char.
Proof.
  unfold fmt_d. intros Hx Hv. destruct (v <? 0) eqn:E; bool_simpl.
  - apply elem_of_cons in Hx as [->|Hx]; [by right|left].
    pose proof (dec_digits (- v) ltac:(lia)) as HF. rewrite Forall_forall in HF. by apply HF.
  - left. pose proof (dec_digits v E) as HF. rewrite Forall_forall in HF. by apply HF.
Qed.

Lemma scan_field v r : is_long v → no_digit_first r → scan_long (scan_ws (SP :: fmt_d v ++ r)) = Some (v, r).
Proof.
  intros Hv Hr. unfold scan_ws. cbn [drop_while]. change (isspace SP) with true. cbn match.
  destruct (fmt_d_head v Hv) as (x & s & E & Hx). pose proof (strtol_fmt_d v r Hv Hr) as Hs.
  rewrite E in Hs |- *. cbn [app] in *. rewrite drop_while_id by done. unfold scan_long. by rewrite Hs.
Qed.
Lemma no_digit_fields vs r : no_digit_first r → no_digit_first (stat_fields vs ++ r).
Proof. by destruct vs. Qed.
Lemma scan_skip_fields k vs v r : length vs = k → Forall is_long (vs ++ [v]) → no_digit_first r →
  scan_skip k (stat_fields (vs ++ [v]) ++ r) = Some (v, r).
Proof.
  intros <- HF Hr. induction vs as [|u vs IH]; cbn [app] in *; inversion HF; subst.
  - unfold stat_fields. cbn [map concat app length scan_skip]. rewrite app_nil_r. cbn [app].
    by rewrite scan_field.
  - change (stat_fields (u :: vs ++ [v])) with ((SP :: fmt_d u) ++ stat_fields (vs ++ [v])).
    rewrite <-app_assoc. cbn [app length scan_skip].
    rewrite scan_field by (done || by apply no_digit_fields). by apply IH.
Qed.
Lemma stat_fields_app vs us : stat_fields (vs ++ us) = stat_fields vs ++ stat_fields us.
Proof. unfold stat_fields. by rewrite map_app, concat_app. Qed.
Lemma stat_fields_chars vs x : Forall is_long vs → x ∈ stat_fields vs →
  isdigit x = true ∨ x = "-"%char ∨ x = SP.
Proof.
  induction 1 as [|v vs Hv _ IH]; [by intros ?%elem_of_nil|].
  change (stat_fields (v :: vs)) with (SP :: fmt_d v ++ stat_fields vs).
  intros [->|[Hx|Hx]%elem_of_app]%elem_of_cons; [tauto| |tauto].
  destruct (fmt_d_chars v x Hx Hv); tauto.
Qed.

(** The state, CPU times, start time and resident size psa shows are the
    fields 3, 14, 15, 22 and 24 of the kernel's line, for every command name:
    one that contains spaces, parentheses or text that looks like the rest of
    a line does not shift a field. *)
Theorem psa_stat_round_trip pid comm c us utime stime ws start vsize rss rest :
  is_long pid → NUL ∉ comm ++ c :: rest → c ≠ ")"%char → (")"%char ∉ rest) → no_digit_first rest →
  length us = 10%nat → length ws = 6%nat →
  Forall is_long (us ++ [utime; stime] ++ ws ++ [start; vsize; rss]) →
  parse_stat (stat_line pid comm c (us ++ [utime; stime] ++ ws ++ [start; vsize; rss]) rest) =
    Some (ProcStat c utime stime start rss).
Proof.
  intros Hpid Hnul Hc Hrest Hd Lu Lw HF. unfold parse_stat, stat_line.
  set (vs := us ++ _) in *.
  assert (∀ x, x ∈ stat_fields vs → x ≠ NUL ∧ x ≠ ")"%char) as Hvs.
  { intros x Hx. destruct (stat_fields_chars vs x HF Hx) as [H|[->| ->]]; [|done..].
    split; by apply (class_ne isdigit). }
  rewrite cstr_id.
  2:{ rewrite elem_of_app, elem_of_cons in Hnul.
      rewrite !elem_of_app, elem_of_cons, elem_of_app. intros [Hx|[Hx|[Hx|[Hx|[Hx|[Hx|Hx]]]]]].
      - by destruct (fmt_d_chars pid NUL Hx Hpid).
      - revert Hx. not_in_list.
      - tauto.
      - revert Hx. not_in_list.
      - tauto.
      - by apply Hvs in Hx as [].
      - tauto. }
  replace (fmt_d pid ++ #" (" ++ comm ++ #") " ++ c :: stat_fields vs ++ rest)
    with ((fmt_d pid ++ #" (" ++ comm) ++ ")"%char :: (SP :: c :: stat_fields vs ++ rest))
    by (by rewrite <-!app_assoc).
  rewrite split_last_app.
  2:{ rewrite !elem_of_cons, elem_of_app. intros [?|[?|[Hx|?]]]; [done..| |done]. by apply Hvs in Hx as []. }
  cbn [drop]. unfold vs in *. clear vs Hvs.
  replace (us ++ [utime; stime] ++ ws ++ [start; vsize; rss])
    with ((us ++ [utime]) ++ [stime] ++ (ws ++ [start]) ++ [vsize; rss]) in *
    by (by rewrite <-!app_assoc).
  rewrite !stat_fields_app, <-!app_assoc. rewrite !Forall_app in HF.
  destruct HF as ((?&?)&?&(?&?)&?).
  rewrite app_assoc, <-stat_fields_app, scan_skip_fields
    by (done || by apply Forall_app || by repeat apply no_digit_fields).
  rewrite (scan_skip_fields 0 [] stime) by (done || by repeat apply no_digit_fields).
  rewrite app_assoc, <-stat_fields_app, scan_skip_fields
    by (done || by apply Forall_app || by repeat apply no_digit_fields).
  by rewrite (scan_skip_fields 1 [vsize] rss).
Qed.
Lemma psa_stat_round_trip_witness :
  parse_stat (stat_line 42 #"x) S 1 (2" "R" ([1; 42; 42; 0; -1; 4194304; 7; 0; 0; 0] ++ [150; 25] ++
    [0; 0; 20; 0; 1; 0] ++ [9000; 12345678; 640]) #" 18446744073709551615 1") =
  Some (ProcStat "R" 150 25 9000 640).
Proof.
  assert (∀ b v, b = true → b = (LONG_MIN <=? v) && (v <=? LONG_MAX) → is_long v) as HL.
  { intros b v -> H. symmetry in H. bool_simpl. by split. }
  apply psa_stat_round_trip; [by eapply HL|not_in_list|done|not_in_list|done|done|done|].
  repeat (constructor; [by eapply HL|]). constructor.
Defined.

(** ** The listing *)

Lemma total_task_ids root name : total (task_ids root name).
Proof. unfold task_ids. totality. Qed.
#[export] Hint Resolve total_task_ids : total.
Lemma total_collect root g ck pg cpu e : total (collect_row root g ck pg cpu e).
Proof.
  unfold collect_row, row_state, row_process, read_goal_first_line, run_alive, task_count_total,
    task_count_active. totality; apply total_count_ids; unfold inc_active; totality.
Qed.

Lemma collect_name root g ck pg cpu e : post (λ r, r_name r = take 63 e) (collect_row root g ck pg cpu e).
Proof.
  unfold collect_row. postcond; done.
Qed.

Section listing.
Context (root : bytes) (garbage : profile_cfg_t) (clk_tck pagesize : Z) (cpu_text : bytes → Z → Z → Z → bytes).
Let row := psa_row root garbage clk_tck pagesize cpu_text.

Definition some_rows (rows : list agent_row) : bool := match rows with [] => false | _ => true end.
Definition listing (printed : bool) (rows : list agent_row) : bytes :=
  (if negb printed && some_rows rows then print_header else []) ++ concat (map print_row rows).

(** The outcome of walking entries: it returns, nothing is reported on the
    error stream, and the text printed is a listing of rows whose names are
    among [names], in their order. *)
Definition lists (printed : bool) (names : list bytes) (s : io) (res : (Z + bool) * io * world) : Prop :=
  ∃ rows s' w', res = (inr (printed || some_rows rows), s', w') ∧
    io_out s' = io_out s ++ listing printed rows ∧ io_err s' = io_err s ∧
    map r_name rows `sublist_of` names.
Definition row_names (es : list bytes) : list bytes :=
  map (take 63) (filter (λ e, validate_name e = true) es).

Lemma lists_nothing printed names s w : lists printed names s (inr printed, s, w).
Proof.
  exists [], s, w. unfold listing. cbn. rewrite orb_false_r, andb_false_r, app_nil_r.
  split_and!; [done..|]. apply sublist_nil_l.
Qed.
Lemma row_lists printed e s w : lists printed (row_names [e]) s (row printed e s w).
Proof.
  unfold row, psa_row. destruct (first_is "." e); [apply lists_nothing|].
  destruct (validate_name e) eqn:Hv; [|apply lists_nothing]. cbn [orb negb].
  destruct (snprintf_ok _ _) as [dir|]; [|apply lists_nothing].
  destruct (sys_stat dir w) as [r w1] eqn:E. rewrite (cbind_tryc _ _ _ _ _ _ E).
  destruct r as [|[[] ? ?]]; try apply lists_nothing.
  destruct (total_collect root garbage clk_tck pagesize cpu_text e w1) as (r & w2 & Er).
  pose proof (collect_name _ _ _ _ _ _ _ _ _ Er) as Hn. exists [r].
  destruct printed.
  - rewrite cbind_unfold. cbv [mret Cli_ret]. cbn beta iota.
    rewrite (cbind_need_ _ _ _ _ _ _ Er), cbind_say. eexists _, _. split; [reflexivity|].
    unfold listing, row_names. cbn. rewrite Hv. cbn. by rewrite app_nil_r, Hn.
  - rewrite cbind_say, (cbind_need_ _ _ _ _ _ _ Er), cbind_say. eexists _, _. split; [reflexivity|].
    unfold listing, row_names. rewrite filter_cons_True by done.
    cbn -[print_header]. by rewrite app_nil_r, <-app_assoc, Hn.
Qed.
Lemma walk_lists printed es s w : lists printed (row_names es) s (cfold row printed es s w).
Proof.
  revert printed s w. induction es as [|e es IH]; intros printed s w; [apply lists_nothing|].
  cbn [cfold]. rewrite cbind_unfold.
  destruct (row_lists printed e s w) as (rows & s1 & w1 & -> & O1 & E1 & H1).
  destruct (IH (printed || some_rows rows) s1 w1) as (rows2 & s2 & w2 & -> & O2 & E2 & H2).
  exists (rows ++ rows2), s2, w2. split_and!.
  - by destruct printed, rows.
  - rewrite O2, O1, <-app_assoc. f_equal. unfold listing. rewrite map_app, concat_app.
    destruct printed, rows; done || (cbn -[print_header print_row]; by rewrite <-?app_assoc).
  - congruence.
  - rewrite map_app. change (e :: es) with ([e] ++ es). unfold row_names in *.
    rewrite filter_app, map_app. by apply sublist_app.
Qed.
End listing.

(** Whatever calls fail and whatever the agents' files hold, psa ends: with
    one line per listed agent under one header, every line made of the fields
    of one row, or with the no-agents line, exit code 0 and no diagnostics; with exit code 1
    only when the agents directory exists and cannot be read. *)
Theorem psa_listing root garbage clk_tck pagesize cpu_text s w :
  ∃ code s' w', psa_main root garbage clk_tck pagesize cpu_text [] s w = (inr code, s', w') ∧
  match (sys_readdir (agent_root root) w).1 with
  | inr es => code = 0 ∧ io_err s' = io_err s ∧
      ∃ rows, map r_name rows `sublist_of` row_names es ∧
        io_out s' = io_out s ++ if some_rows rows then print_header ++ concat (map print_row rows)
                                else #"(no agents)" ++ nl
  | inl ENOENT => code = 0 ∧ io_err s' = io_err s ∧ io_out s' = io_out s ++ #"(no agents)" ++ nl
  | inl _ => code = 1 ∧ io_out s' = io_out s
  end.
Proof.
  unfold psa_main. destruct (sys_readdir (agent_root root) w) as [r w1] eqn:E.
  rewrite (cbind_tryc _ _ _ _ _ _ E). cbn [fst].
  destruct r as [e|es]; [destruct e; (eexists _, _, _; split; [reflexivity|]; done)|].
  rewrite cbind_unfold.
  destruct (walk_lists root garbage clk_tck pagesize cpu_text false es s w1)
    as (rows & s1 & w2 & -> & O1 & E1 & H1). unfold listing in O1. cbn [negb andb orb] in *.
  destruct (some_rows rows) eqn:R.
  - eexists _, _, _. split; [reflexivity|]. split_and!; [done..|]. exists rows. by rewrite R.
  - eexists _, _, _. split; [reflexivity|]. split_and!; [done..|]. exists rows. rewrite R.
    split; [done|]. destruct rows; [|done]. cbn in *. by rewrite O1, app_nil_r.
Qed.

(** The goal column is cut by its buffer before the ellipsis is considered, so
    a long goal is shown without one. *)
Lemma psa_goal_not_elided r : ∃ p,
  print_row r = p ++ take GOAL_DISPLAY (dash (r_goal r)) ++ nl.
Proof.
  assert (truncate_to (snprintf_trunc (GOAL_DISPLAY + 1) (dash (r_goal r))) GOAL_DISPLAY =
          take GOAL_DISPLAY (dash (r_goal r))) as E.
  { unfold truncate_to, snprintf_trunc. change (GOAL_DISPLAY + 1 - 1)%nat with GOAL_DISPLAY.
    rewrite (proj2 (Nat.ltb_ge _ _)); [done|]. rewrite length_take. lia. }
  unfold print_row, row_line. rewrite E, !app_assoc, <-(app_assoc _ _ nl). by eexists.
Qed.
