(* ===== verification/Platform.v ===== *)
(** * The builds for other platforms, and the remaining small calls

    The branches the preprocessor selects where Linux's facilities are missing:
    peer credentials (common.c, ipc.c), enforcement (enforcement.c), process
    information (psa.c, agentctl.c).  What a foreign library call returns is an
    argument.  Also the signal set-up of the runtimes and two helpers of
    common.c that nothing else here calls.

    The main theorem is that Landlock and seccomp are never over-reported: a
    status of ACTIVE means that the restriction was installed, on every build.
    The cgroup status has no such guarantee ([cgroup_overreported]). *)

From S2P Require Import Prelude CLib Posix Names Common Broker Ipc Agentfs Profiles Tasks Enforcement Lifecycle Runtime Agentctl.

Inductive platform := Linux | Apple | OtherOS.

(** ** Peer credentials *)

(** The kernel's answers: [SO_PEERCRED], [getpeereid], [LOCAL_PEERPID]. *)
Record cred_answers := CredAnswers {
  ca_peercred : errno + Z * Z * Z;
  ca_peereid : errno + Z * Z;
  ca_peerpid : errno + Z
}.

Definition get_peer_creds (os : platform) (c : cred_answers) : errno + peer_id_t :=
  match os with
  | Linux => match ca_peercred c with
             | inl e => inl e
             | inr (pid, uid, gid) => inr (PeerId pid uid gid [])
             end
  | Apple => match ca_peereid c with
             | inl e => inl e
             | inr (uid, gid) =>
                 inr (PeerId (match ca_peerpid c with inr pid => if 0 <? pid then pid else 0 | inl _ => 0 end)
                             uid gid [])
             end
  | OtherOS => inl ENOTSUP
  end.

(** [None] is the result [-1]; the out parameter is zeroed first. *)
Definition read_peer_creds (os : platform) (c : cred_answers) : option peer_id_t :=
  match os with
  | Linux => match ca_peercred c with
             | inr (pid, uid, gid) => Some (PeerId pid uid gid [])
             | inl _ => None
             end
  | Apple => match ca_peereid c with
             | inl _ => None
             | inr (uid, gid) =>
                 Some (PeerId (match ca_peerpid c with inr pid => pid | inl _ => 0 end) uid gid [])
             end
  | OtherOS => Some peer0
  end.

(** The two functions agree where the kernel's process ids are positive,
    except on an unknown platform: there one fails and the other reports
    success with uid 0. *)
Lemma creds_agree os c :
  os ≠ OtherOS → match ca_peerpid c with inr pid => 0 < pid | inl _ => True end →
  read_peer_creds os c = match get_peer_creds os c with inr p => Some p | inl _ => None end.
Proof.
  intros Hos Hp. destruct os; [| |done]; cbn.
  - by destruct (ca_peercred c) as [e|[[pid uid] gid]].
  - destruct (ca_peereid c) as [e|[uid gid]]; [done|]. destruct (ca_peerpid c) as [e|pid]; [done|].
    by rewrite (proj2 (Z.ltb_lt _ _)).
Qed.
Lemma creds_other c :
  get_peer_creds OtherOS c = inl ENOTSUP ∧ pi_uid <$> read_peer_creds OtherOS c = Some 0.
Proof. done. Qed.

(** ** Descriptor flags *)

Definition FD_CLOEXEC : Z := 1.
Definition O_NONBLOCK : Z := 2048.
Section flags.
(** [fcntl] reading and setting the flags of the descriptor. *)
Context (getfd getfl : M Z) (setfd setfl : Z → M unit).
Definition set_cloexec : M unit := f ← getfd; setfd (Z.lor f FD_CLOEXEC).
Definition set_nonblock : M unit := f ← getfl; setfl (Z.lor f O_NONBLOCK).
End flags.

(** ** Enforcement *)

(** Linux without the Landlock headers. *)
Definition landlock_apply_nohdr (st : enforcement_state_t) : enforcement_state_t * option ruleset :=
  (set_reason #"kernel headers lack <linux/landlock.h>"
     (set_landlock ENF_STATUS_UNAVAILABLE (landlock_rules st) st), None).

Section stubs.
Context (root : bytes).

Definition landlock_wanted (spec : enforcement_spec_t) : bool :=
  match fs_mode spec with ENFORCE_FS_LANDLOCK => true | ENFORCE_FS_OFF => false end.
Definition seccomp_wanted (spec : enforcement_spec_t) : bool :=
  match sc_mode spec with SECCOMP_MINIMAL => true | SECCOMP_OFF => false end.
Definition unavailable_if (b : bool) : Z := if b then ENF_STATUS_UNAVAILABLE else ENF_STATUS_INACTIVE.

Definition stub_state (spec : enforcement_spec_t) : enforcement_state_t :=
  EnforcementState (unavailable_if (landlock_wanted spec)) 0 (unavailable_if (seccomp_wanted spec))
    (unavailable_if (cgroup_on spec)) []
    (if landlock_wanted spec || seccomp_wanted spec || cgroup_on spec
     then #"unsupported on this platform" else []).
Definition enforcement_parent_setup_other (name : bytes) (spec : enforcement_spec_t)
  : M (enforcement_state_t * (errno + unit)) :=
  r ← attempt (write_state_file root name (stub_state spec)); mret (stub_state spec, r).
Definition enforcement_parent_attach_other (st : enforcement_state_t) (pid : Z) : M unit := mret tt.
Definition enforcement_child_apply_other (name : bytes) (st : enforcement_state_t)
  : M (restrictions * (errno + unit)) :=
  r ← attempt (write_state_file root name st); mret (Restrictions st None None, r).
End stubs.

(** ** Process information *)

Definition map_apple_state (s : Z) (n : nat) : bytes :=
  snprintf_trunc n
    (if s =? 1 then #"idle" else if s =? 2 then #"running" else if s =? 3 then #"sleep"
     else if s =? 4 then #"stopped" else if s =? 5 then #"zombie" else "?"%char :: fmt_d s).
(** The state column, and the result [-1]. *)
Definition fill_proc_info_other (pid : Z) : bytes * Z := (snprintf_trunc 16 #"?", -1).
Definition print_proc_info_other (pid : Z) : Cli unit := say (#"  (unavailable)" ++ nl).

(** ** Signals of a runtime *)

Inductive signo := SIGHUP | SIGINT | SIGPIPE | SIGTERM | SIGUSR1 | SIGUSR2.
#[export] Instance signo_eq_dec : EqDecision signo.
Proof. solve_decision. Defined.
Inductive sighandler := SIG_DFL | SIG_IGN | Handler (h : signal_t).

(** The table of dispositions after [sigaction] of one signal. *)
Definition sigaction (sg : signo) (h : sighandler) (tbl : signo → sighandler) : signo → sighandler :=
  λ sg', if bool_decide (sg' = sg) then h else tbl sg'.
Definition runtime_install_signals (tbl : signo → sighandler) : signo → sighandler :=
  let tbl := sigaction SIGTERM (Handler SigTerm) tbl in
  let tbl := sigaction SIGINT (Handler SigTerm) tbl in
  let tbl := sigaction SIGHUP (Handler SigHup) tbl in
  let tbl := sigaction SIGUSR1 (Handler SigUsr1) tbl in
  let tbl := sigaction SIGUSR2 (Handler SigUsr2) tbl in
  sigaction SIGPIPE SIG_IGN tbl.

(** What the delivery of a signal does to a process with the flags [s]: [None]
    when its default action ends it, as that of each of these six does. *)
Definition deliver_signal (tbl : signo → sighandler) (s : rt) (sg : signo) : option rt :=
  match tbl sg with
  | SIG_DFL => None
  | SIG_IGN => Some s
  | Handler h => Some (Runtime.on_signal s h)
  end.

(** ** Helpers of common.c *)

(** [read_line_fd]: each element is the result of one [read] of one byte,
    [None] at end of file.  The list running out is [None]: the call still
    waits. *)
Fixpoint read_line_loop (room : nat) (acc : bytes) (reads : list (errno + option ascii))
  : option (errno + bytes) :=
  match room with
  | O => Some (inl EMSGSIZE)
  | S room' =>
      match reads with
      | [] => None
      | inl e :: _ => Some (inl e)
      | inr None :: _ => Some (inl E0)
      | inr (Some c) :: reads' =>
          if Ascii.eqb c NL then Some (inr acc) else read_line_loop room' (acc ++ [c]) reads'
      end
  end.
Definition read_line_fd (n : nat) (reads : list (errno + option ascii)) : option (errno + bytes) :=
  if (n =? 0)%nat then Some (inl EINVAL) else read_line_loop (n - 1) [] reads.

Definition agentctl_root_validate_ownership : M unit := root ← agentctl_root; validate_root_ownership_path root.

(** ** Theorems *)

(** After the set-up no signal of the table ends the runtime, and a
    termination request is a flag. *)
Lemma signals_installed tbl s sg :
  ∃ s', deliver_signal (runtime_install_signals tbl) s sg = Some s' ∧
        (sg = SIGTERM ∨ sg = SIGINT → rt_shutdown s' = true).
Proof. destruct sg; eexists; (split; [reflexivity|intros [E|E]]); by try discriminate E. Qed.

Definition typed (s : bytes) : list (errno + option ascii) := (λ c, inr (Some c)) <$> s.
Lemma read_line_loop_typed l acc room rest :
  NL ∉ l → read_line_loop room acc (typed (l ++ NL :: rest)) =
           Some (if (length l <? room)%nat then inr (acc ++ l) else inl EMSGSIZE).
Proof.
  revert acc room. induction l as [|c l IH]; intros acc room Hnl; destruct room as [|room]; try done.
  - cbn. by rewrite app_nil_r.
  - apply not_elem_of_cons in Hnl as [Hc Hnl]. unfold typed. rewrite fmap_app, fmap_cons.
    cbn [app read_line_loop]. destruct (Ascii.eqb_spec c NL) as [->|_]; [done|].
    rewrite <- fmap_app. fold (typed (l ++ NL :: rest)). rewrite IH, <- app_assoc by done. done.
Qed.
(** A line is returned when it leaves room for its newline and a NUL, so one
    byte of the buffer is never used. *)
Lemma read_line_typed n l rest :
  NL ∉ l → (0 < n)%nat →
  read_line_fd n (typed (l ++ NL :: rest)) =
  Some (if (length l + 1 <? n)%nat then inr l else inl EMSGSIZE).
Proof.
  intros Hl Hn. unfold read_line_fd. destruct (Nat.eqb_spec n 0); [lia|].
  rewrite read_line_loop_typed by done.
  destruct (Nat.ltb_spec (length l) (n - 1)), (Nat.ltb_spec (length l + 1) n); done || lia.
Qed.

(** *** Enforcement is reported as it was applied *)

(** A computation that returns under every schedule, with a result in [P]. *)
Definition yields {A} (P : A → Prop) (m : M A) : Prop := ∀ w, ∃ a w', m w = (inr a, w') ∧ P a.

Lemma yields_ret {A} (P : A → Prop) a : P a → yields P (mret a).
Proof. intros H w. by exists a, w. Qed.
Lemma yields_bind {A B} (P : A → Prop) (Q : B → Prop) (m : M A) f :
  yields P m → (∀ a, P a → yields Q (f a)) → yields Q (m ≫= f).
Proof. intros Hm Hf w. rewrite bind_unfold. destruct (Hm w) as (a & w' & -> & Ha). by apply Hf. Qed.
Lemma yields_attempt {A B} (Q : B → Prop) (m : M A) f :
  (∀ r, yields Q (f r)) → yields Q (attempt m ≫= f).
Proof. intros Hf w. rewrite bind_attempt. destruct (m w) as [r w']. apply Hf. Qed.
Lemma yields_ignore {A B} (Q : B → Prop) (m : M A) (f : unit → M B) :
  yields Q (f tt) → yields Q (ignore m ≫= f).
Proof. intros Hf w. rewrite bind_ignore. apply Hf. Qed.

(** One step of a computation whose every failing call is caught. *)
Ltac yield_step :=
  first [ apply yields_attempt; intros [?|?] | apply yields_ignore
        | match goal with |- yields _ (match ?x with _ => _ end) => destruct x end ].

(** The Landlock half of the state and the ruleset in force say the same. *)
Definition landlock_honest (st : enforcement_state_t) (ll : option ruleset) : Prop :=
  match ll with
  | Some rs => landlock_status st = ENF_STATUS_ACTIVE ∧ landlock_rules st = blen (rs_rules rs)
  | None => landlock_status st ≠ ENF_STATUS_ACTIVE
  end.
Definition seccomp_honest (st : enforcement_state_t) (sc : option (list sock_filter)) : Prop :=
  is_Some sc ↔ seccomp_status st = ENF_STATUS_ACTIVE.

Section honest.
Context (root : bytes) (NR : bytes → option Z) (arch : Z).

Lemma add_path_rules_yields reqs c : yields (λ _, True) (add_path_rules c reqs).
Proof.
  revert c. induction reqs as [|[p a] reqs IH]; intros c; [by apply yields_ret|].
  apply yields_bind with (λ _, True); [|intros c' _; apply IH].
  unfold add_path_rule. repeat yield_step; by apply yields_ret.
Qed.

Lemma landlock_yields abi name rt caps st :
  landlock_status st ≠ ENF_STATUS_ACTIVE →
  yields (λ '(st', ll), landlock_honest st' ll ∧ seccomp_status st' = seccomp_status st)
         (landlock_apply_linux root abi name rt caps st).
Proof.
  intros Hst. unfold landlock_apply_linux. repeat yield_step; try (by apply yields_ret).
  apply yields_bind with (λ _, True).
  { unfold landlock_requests. repeat yield_step; by apply yields_ret. }
  intros reqs _. eapply yields_bind; [apply add_path_rules_yields|]. intros rules _.
  repeat yield_step; by apply yields_ret.
Qed.

Lemma seccomp_yields st :
  seccomp_status st ≠ ENF_STATUS_ACTIVE →
  yields (λ '(st', sc), seccomp_honest st' sc ∧ landlock_status st' = landlock_status st ∧
                        landlock_rules st' = landlock_rules st ∧ (sc = None ∨ sc = Some (sc_filter NR arch)))
         (seccomp_apply_linux NR arch st).
Proof.
  intros Hst. unfold seccomp_apply_linux, seccomp_honest.
  repeat yield_step; apply yields_ret; (split; [|naive_solver]); split; naive_solver.
Qed.

Lemma landlock_honest_mono st st' ll :
  landlock_status st' = landlock_status st → landlock_rules st' = landlock_rules st →
  landlock_honest st ll → landlock_honest st' ll.
Proof. unfold landlock_honest. by intros -> ->. Qed.


(** The builds without the facilities never report it. *)
Lemma stubs_honest name spec w :
  (enforcement_parent_setup_other root name spec w).1 =
    inr (stub_state spec, (write_state_file root name (stub_state spec) w).1) ∧
  landlock_honest (stub_state spec) None ∧ seccomp_honest (stub_state spec) None ∧
  cgroup_status (stub_state spec) ≠ ENF_STATUS_ACTIVE.
Proof.
  split. { unfold enforcement_parent_setup_other. rewrite bind_attempt. by destruct (write_state_file _ _ _ w). }
  unfold stub_state, unavailable_if, seccomp_honest, landlock_honest. cbn.
  destruct (landlock_wanted spec), (seccomp_wanted spec), (cgroup_on spec);
    (split_and!; [done|split; [by intros []|done]|done]).
Qed.
Lemma nohdr_honest st : landlock_honest (landlock_apply_nohdr st).1 (landlock_apply_nohdr st).2.
Proof. done. Qed.
End honest.


(** A limit that could not be written (here because the memory controller is
    not enabled, so the directory has no [memory.max]) leaves the cgroup
    "active"; only the reason tells. *)
Lemma cgroup_overreported :
  ∃ st w', cgroup_setup_linux #"a" (EnforcementSpec ENFORCE_FS_OFF SECCOMP_OFF true 1000000 0 [])
             inactive_state (set_fs <[ #"/sys/fs/cgroup" := Node KDir 493 0]> demo_world) = (inr st, w') ∧
    cgroup_status st = ENF_STATUS_ACTIVE ∧ reason st = #"memory.max: No such file or directory".
Proof. eexists _, _. split_and!; vm_compute; reflexivity. Qed.
