(* ===== verification/AgentfsModule.v ===== *)
(** * kernel/agentfs.c: loading, mounting and unloading; the developer tools

    The module's life around the state of [Agentfs]: [agentfs_init] and
    [agentfs_exit], the superblocks of its mounts with their trees, and the
    global [g_agents_dentry] that new agents are added under.  On top of it the
    tools agentfs-register, agentfs-send and agentfs-read of kernel/.

    A superblock's tree is the dentries under its [/agents]; unmounting frees
    it ([kill_litter_super]).  The kernel unloads the module only when nothing
    is mounted ([.owner = THIS_MODULE]).  A tool's [open] resolves a path to
    the file of the tree with exactly that name. *)

From S2P Require Import Prelude CLib Posix Names Common Broker Ipc Agentfs Profiles Tasks Enforcement Lifecycle Runtime Agentctl.

Definition REAPER_INTERVAL_MS : Z := 2000.

Record modstate := ModState {
  ms_loaded : bool;                       (** the filesystem type is registered *)
  ms_reaper : bool;                       (** the reaper is queued *)
  ms_trees : gmap Z (list dentry);        (** mounted superblocks *)
  ms_agents_dentry : option Z;            (** [g_agents_dentry]: its superblock *)
  ms_next_sb : Z;
  ms_k : kstate
}.
Definition mod0 (alive : gset Z) : modstate := ModState false false ∅ None 0 (k0 alive).

(** ** Load and unload *)

Definition agentfs_init (wq_ok : bool) (reg : errno + unit) (m : modstate) : (errno + unit) * modstate :=
  if negb wq_ok then (inl ENOMEM, m)
  else match reg with
       | inl e => (inl e, m)                       (* the work queue is destroyed again *)
       | inr _ => (inr tt, ModState true true (ms_trees m) (ms_agents_dentry m) (ms_next_sb m) (ms_k m))
       end.

(** An agent on its way out: what a reader that was asleep finds. *)
Definition exit_agent (a : agent) : agent :=
  if a_dead a then Agent (a_name a) (a_addr a) None (a_uid a) (a_gid a) (a_pid a) true (a_inbox a) (a_outbox a)
  else Agent (a_name a) (a_addr a) None (a_uid a) (a_gid a) (a_pid a) true
             (mailbox_drain_locked (a_inbox a)) (mailbox_drain_locked (a_outbox a)).
Definition agentfs_exit (m : modstate) : list agent * modstate :=
  (exit_agent <$> k_agents (ms_k m),
   ModState false false (ms_trees m) (ms_agents_dentry m) (ms_next_sb m)
            (KState [] (k_dentries (ms_k m)) (k_alive (ms_k m)) (k_next (ms_k m)))).

(** ** Mounting *)

(** The allocations: root inode, root dentry, the register file, the agents
    directory.  The last two are both tried before either is checked. *)
Record super_allocs := SuperAllocs { sa_root : bool; sa_dentry : bool; sa_register : bool; sa_agents : bool }.
Definition agentfs_fill_super (al : super_allocs) : errno + unit :=
  if negb (sa_root al) then inl ENOMEM
  else if negb (sa_dentry al) then inl ENOMEM
  else if negb (sa_register al) then inl ENOMEM
  else if negb (sa_agents al) then inl ENOMEM
  else inr tt.
Definition agentfs_do_mount (al : super_allocs) (m : modstate) : (errno + Z) * modstate :=
  match agentfs_fill_super al with
  | inl e => (inl e, m)
  | inr _ =>
      let sb := ms_next_sb m in
      (inr sb, ModState (ms_loaded m) (ms_reaper m) (<[sb := []]> (ms_trees m)) (Some sb) (sb + 1) (ms_k m))
  end.
(** [kill_litter_super]; [g_agents_dentry] keeps its value. *)
Definition unmount (sb : Z) (m : modstate) : modstate :=
  ModState (ms_loaded m) (ms_reaper m) (delete sb (ms_trees m)) (ms_agents_dentry m) (ms_next_sb m) (ms_k m).

(** ** Registering through a mount *)

Definition with_tree (ds : list dentry) (k : kstate) : kstate :=
  KState (k_agents k) ds (k_alive k) (k_next k).

(** The result of a call, or an access to freed memory. *)
Inductive kres (A : Type) := Done (r : errno + A) | Oops.
Arguments Done {A}. Arguments Oops {A}.

(** A write to a register file.  Only a new agent's tree touches
    [g_agents_dentry]; [k_next] tells that one was allocated. *)
Definition module_register (cur : task) (data : bytes) (alloc_ok : bool) (fail_at : option nat)
    (m : modstate) : kres Z * modstate :=
  let tree := ms_agents_dentry m ≫= λ sb, ms_trees m !! sb in
  let k := with_tree (default [] tree) (ms_k m) in
  let '(r, k') := register_write cur data true alloc_ok fail_at k in
  if negb (k_next k' =? k_next k) && bool_decide (tree = None) then (Oops, m)
  else
    (Done r,
     ModState (ms_loaded m) (ms_reaper m)
       (match ms_agents_dentry m, tree with
        | Some sb, Some _ => <[sb := k_dentries k']> (ms_trees m)
        | _, _ => ms_trees m
        end) (ms_agents_dentry m) (ms_next_sb m) (with_tree [] k')).

(** ** The tools *)

(** What a process printed and its exit code. *)
Record proc_out := ProcOut { po_code : Z; po_out : bytes; po_err : bytes }.
Definition fails (msg : bytes) : proc_out := ProcOut 1 [] (msg ++ nl).

Section tools.
(** The mount point and its superblock, and the name the tool was called by. *)
Context (mnt : bytes) (sb : Z) (argv0 : bytes).

Definition tree_path (d : dentry) : bytes :=
  mnt ++ #"/agents/" ++ d_dir d ++ SLASH :: d_file d.
Definition open_file (path : bytes) (m : modstate) : option Z :=
  tree ← ms_trees m !! sb;
  d_agent <$> find (λ d, bytes_eqb (tree_path d) path) tree.
Definition inbox_path (mount name : bytes) : option bytes :=
  snprintf_ok 256 (mount ++ #"/agents/" ++ name ++ #"/inbox").

Definition agentfs_register_tool (cur : task) (argv : list bytes) (alloc_ok : bool) (fail_at : option nat)
    (m : modstate) : option proc_out * modstate :=
  match argv with
  | [] => (Some (ProcOut 2 [] (#"usage: " ++ argv0 ++ #" <name> [mount=/mnt/agentfs]" ++ nl)), m)
  | name :: rest =>
      let mount := match rest with x :: _ => x | [] => #"/mnt/agentfs" end in
      match snprintf_ok 256 (mount ++ #"/register") with
      | None => (Some (fails #"mount path too long"), m)
      | Some path =>
          if negb (bytes_eqb path (mnt ++ #"/register") && bool_decide (is_Some (ms_trees m !! sb)))
          then (Some (fails (#"open " ++ path ++ #": " ++ strerror ENOENT)), m)
          else
            match module_register cur name alloc_ok fail_at m with
            | (Oops, m') => (None, m')
            | (Done (inl e), m') => (Some (fails (#"write: " ++ strerror e)), m')
            | (Done (inr _), m') =>
                (* it sleeps until a signal arrives, then ends *)
                (Some (ProcOut 0 (#"agentfs: registered '" ++ name ++ #"' pid=" ++ fmt_d (t_id cur) ++ nl ++
                                  #"agentfs: sleeping; signal me to unregister" ++ nl ++
                                  #"agentfs: exiting; owner task_struct will trigger cleanup" ++ nl) []), m')
            end
      end
  end.

Definition agentfs_send_tool (argv : list bytes) (stdin : list (errno + bytes)) (alloc_ok : bool)
    (m : modstate) : proc_out * modstate :=
  match argv with
  | [] => (ProcOut 2 [] (#"usage: " ++ argv0 ++ #" <name> [mount=/mnt/agentfs]" ++ nl), m)
  | name :: rest =>
      let mount := match rest with x :: _ => x | [] => #"/mnt/agentfs" end in
      match read_stdin stdin [] with
      | inl e => (fails (#"read stdin: " ++ strerror e), m)
      | inr (buf, left_) =>
          if stdin_left (blen buf) left_
          then (fails (#"send: payload exceeds " ++ fmt_d MAX_PAYLOAD ++ #" bytes"), m)
          else match inbox_path mount name with
               | None => (fails #"path too long", m)
               | Some path =>
                   match open_file path m ≫= λ addr, find (λ a, a_addr a =? addr) (k_agents (ms_k m)) with
                   | None => (fails (#"open " ++ path ++ #": " ++ strerror ENOENT), m)
                   | Some a =>
                       let '(r, a') := mailbox_write a MBOX_INBOX buf alloc_ok true in
                       match r with
                       | inl e => (fails (#"write: " ++ strerror e), m)
                       | inr n =>
                           (ProcOut 0 [] (#"sent " ++ fmt_d n ++ #" bytes to " ++ name ++ nl),
                            ModState (ms_loaded m) (ms_reaper m) (ms_trees m) (ms_agents_dentry m) (ms_next_sb m)
                              (set_agents (upd_agent (a_addr a) (λ _, a')) (ms_k m)))
                       end
                   end
               end
      end
  end.

(** [None] while the tool sleeps in [read]. *)
Definition READ_BUF : Z := 1048576.
Record read_opts := ReadOpts { ro_name : option bytes; ro_mount : bytes; ro_nonblock : bool }.
Definition read_arg (o : option read_opts) (arg : bytes) : option read_opts :=
  o ← o;
  if bytes_eqb arg #"--nonblock" then Some (ReadOpts (ro_name o) (ro_mount o) true)
  else match strip_prefix #"mount=" arg with
       | Some p => Some (ReadOpts (ro_name o) p (ro_nonblock o))
       | None => match ro_name o with
                 | None => Some (ReadOpts (Some arg) (ro_mount o) (ro_nonblock o))
                 | Some _ => None
                 end
       end.
Definition agentfs_read_tool (argv : list bytes) (m : modstate) : option proc_out * modstate :=
  let usage := ProcOut 2 [] (#"usage: " ++ argv0 ++ #" <name> [--nonblock]" ++ nl) in
  match foldl read_arg (Some (ReadOpts None #"/mnt/agentfs" false)) argv with
  | Some (ReadOpts (Some name) mount nonblock) =>
      match inbox_path mount name with
      | None => (Some (fails #"path too long"), m)
      | Some path =>
          match open_file path m ≫= λ addr, find (λ a, a_addr a =? addr) (k_agents (ms_k m)) with
          | None => (Some (fails (#"open " ++ path ++ #": " ++ strerror ENOENT)), m)
          | Some a =>
              let '(r, a') := mailbox_read a MBOX_INBOX (Z.to_nat READ_BUF) nonblock true in
              let m' := ModState (ms_loaded m) (ms_reaper m) (ms_trees m) (ms_agents_dentry m) (ms_next_sb m)
                          (set_agents (upd_agent (a_addr a) (λ _, a')) (ms_k m)) in
              match r with
              | RdSleep => (None, m)
              | RdErr e => (Some (fails (#"read: " ++ strerror e)), m')
              | RdEOF => (Some (ProcOut 0 [] (#"(EOF — agent dead or queue drained)" ++ nl)), m')
              | RdData d => (Some (ProcOut 0 d []), m')
              end
          end
      end
  | _ => (Some usage, m)
  end.
End tools.

(** ** Registering and the mounts *)

Lemma register_write_scan cur data aok fail k :
  (register_write cur data true aok fail k).2 =
    (if blen data =? 0 then k else
     let namebuf := take 63 data in
     let name := match last namebuf with
                 | Some c => if Ascii.eqb c NL then take (length namebuf - 1) namebuf else namebuf
                 | None => namebuf
                 end in
     if agentfs_valid_name name then (agentfs_register cur name aok fail k).2 else k).
Proof.
  unfold register_write. destruct (blen data =? 0); [done|]. cbv zeta. cbn [negb].
  destruct (agentfs_valid_name _); [|done]. by destruct (agentfs_register _ _ _ _ _) as [[] ?].
Qed.

(** With one mount at a time: mounting when nothing is mounted, unmounting,
    registering, and every step of the mounted state. *)
Inductive mod_step : modstate → modstate → Prop :=
| mod_mount al sb m m' : ms_trees m = ∅ → agentfs_do_mount al m = (inr sb, m') → mod_step m m'
| mod_unmount sb m : mod_step m (unmount sb m)
| mod_register cur data aok fail r m m' :
    ms_trees m ≠ ∅ → module_register cur data aok fail m = (Done r, m') → mod_step m m'
| mod_kernel m k' : kstep (ms_k m) k' →
    mod_step m (ModState (ms_loaded m) (ms_reaper m) (ms_trees m) (ms_agents_dentry m) (ms_next_sb m) k').

(** While something is mounted, [g_agents_dentry] is in it. *)
Definition dentry_live (m : modstate) : Prop :=
  ms_trees m = ∅ ∨ ∃ sb tree, ms_agents_dentry m = Some sb ∧ ms_trees m = {[sb := tree]}.

Lemma mod_step_live m m' : mod_step m m' → dentry_live m → dentry_live m'.
Proof.
  destruct 1 as [al sb m m' He E|sb m|cur data aok fail r m m' Hne E|m k' Hk]; intros [H|(s & t & Hd & Ht)].
  1,2: unfold agentfs_do_mount in E; destruct (agentfs_fill_super al); [done|]; injection E as <- <-;
       right; exists (ms_next_sb m), []; cbn; by rewrite He.
  - left. cbn. rewrite H. apply delete_empty.
  - cbn. destruct (decide (sb = s)) as [->|Hn].
    + left. cbn. rewrite Ht. apply delete_singleton_eq.
    + right. exists s, t. cbn. rewrite Ht. split; [done|]. by apply delete_singleton_ne.
  - done.
  - unfold module_register in E. rewrite Hd, Ht in E. cbn [mbind option_bind] in E.
    rewrite lookup_singleton_eq in E. cbn [default from_option id] in E.
    destruct (register_write _ _ _ _ _ _) as [r' k2]. rewrite bool_decide_eq_false_2, andb_false_r in E by done.
    injection E as _ <-. right. exists s, (k_dentries k2). split; [done|]. cbn. apply insert_singleton_eq.
  - by left.
  - right. by exists s, t.
Qed.

(** Two mounts; the newer one is unmounted while the older is in use. *)
Definition all_allocs : super_allocs := SuperAllocs true true true true.
Definition demo_two_mounts : modstate :=
  unmount 1 (agentfs_do_mount all_allocs (agentfs_do_mount all_allocs (mod0 {[7]})).2).2.

(** C40: registration and the mounts.  As long as at most one superblock is
    mounted at a time, over every sequence of mounts, unmounts, registrations,
    messages and process deaths, a registration through a mount never follows
    a dangling [g_agents_dentry].  With two mounts it does: after the newer
    one is gone, registering through the older one reaches freed memory. *)
Theorem register_mount_discipline alive :
  (∀ m cur data aok fail, rtc mod_step (mod0 alive) m → ms_trees m ≠ ∅ →
     ∃ r m', module_register cur data aok fail m = (Done r, m')) ∧
  (is_Some (ms_trees demo_two_mounts !! 0) ∧
   (module_register (Task 7 1000 1000) #"a" true None demo_two_mounts).1 = Oops).
Proof.
  split; [|split; [by eexists; vm_compute|vm_compute; reflexivity]].
  intros m cur data aok fail Hr Hne.
  assert (dentry_live m) as Hl.
  { revert m Hr Hne. intros m Hr _. revert m Hr. apply (rtc_ind_r dentry_live); [by left|].
    intros a b _ Hs. by apply mod_step_live. }
  destruct Hl as [|(s & t & Hd & Ht)]; [done|]. unfold module_register. rewrite Hd, Ht.
  cbn [mbind option_bind]. rewrite lookup_singleton_eq. cbn [default from_option id].
  destruct (register_write _ _ _ _ _ _) as [r' k2]. rewrite bool_decide_eq_false_2, andb_false_r by done.
  by eexists _, _.
Qed.

(** Recycling the slot of a dead agent builds no tree: after an unmount and a
    new mount the agent is registered without an inbox. *)
Lemma recycled_without_tree :
  let m1 := (module_register (Task 7 1000 1000) #"a" true None
               (agentfs_do_mount all_allocs (mod0 {[7]})).2).2 in
  let dead := ModState true true ∅ (ms_agents_dentry m1) (ms_next_sb m1)
                (KState (k_agents (ms_k m1)) [] {[8]} (k_next (ms_k m1))) in
  let m2 := (agentfs_do_mount all_allocs dead).2 in
  let '(r, m3) := module_register (Task 8 1000 1000) #"a" true None m2 in
  r = Done (inr 1) ∧ open_file #"/mnt/agentfs" 1 #"/mnt/agentfs/agents/a/inbox" m3 = None.
Proof. vm_compute. by split. Qed.

(** ** The tools *)

Lemma find_upd addr a a' (l : list agent) :
  find (λ a, a_addr a =? addr) l = Some a → a_addr a' = addr →
  find (λ a, a_addr a =? addr) (upd_agent addr (λ _, a') l) = Some a'.
Proof.
  intros Hf Ha. induction l as [|b l IH]; [done|]. cbn [find upd_agent fmap list_fmap] in *.
  destruct (a_addr b =? addr) eqn:E; [|rewrite E; by apply IH].
  by rewrite Ha, Z.eqb_refl.
Qed.

(** What agentfs-send took from its input is what agentfs-read prints. *)
Lemma tools_round_trip mnt sb argv0 name stdin buf rest aok m msg m' path addr a :
  agentfs_send_tool mnt sb argv0 [name; mnt] stdin aok m = (ProcOut 0 [] msg, m') →
  read_stdin stdin [] = inr (buf, rest) → buf ≠ [] →
  inbox_path mnt name = Some path → open_file mnt sb path m = Some addr →
  find (λ a, a_addr a =? addr) (k_agents (ms_k m)) = Some a → mb_messages (a_inbox a) = [] →
  strip_prefix #"mount=" name = None → name ≠ #"--nonblock" → blen buf ≤ READ_BUF →
  ∃ m'', agentfs_read_tool mnt sb argv0 [name; #"mount=" ++ mnt; #"--nonblock"] m' =
         (Some (ProcOut 0 buf []), m'').
Proof.
  intros Hs Hr Hne Hp Ho Hf He Hn1 Hn2 Hlen. unfold agentfs_send_tool in Hs. rewrite Hr in Hs.
  destruct (stdin_left _ _); [done|]. rewrite Hp, Ho in Hs. cbn [mbind option_bind] in Hs. rewrite Hf in Hs.
  destruct (mailbox_write a MBOX_INBOX buf aok true) as [[e|n] a'] eqn:Ew; [done|].
  injection Hs as <- <-.
  assert (a_addr a = addr) as Ha by (apply find_some in Hf as [_ Hx]; by bool_simpl).
  assert (mb_messages (a_inbox a') = [buf] ∧ a_addr a' = addr) as [Hm Ha'].
  { unfold mailbox_write in Ew. destruct (blen buf =? 0) eqn:Ez.
    { bool_simpl. destruct buf; [done|]. rewrite blen_cons in Ez. pose proof (blen_nonneg buf). lia. }
    repeat (case_match; [done|]). injection Ew as <- <-. cbn. by rewrite He. }
  assert (foldl read_arg (Some (ReadOpts None #"/mnt/agentfs" false)) [name; #"mount=" ++ mnt; #"--nonblock"] =
          Some (ReadOpts (Some name) mnt true)) as Eo.
  { cbn [foldl]. unfold read_arg at 3. cbn [mbind option_bind ro_name ro_mount ro_nonblock].
    by rewrite (proj2 (bytes_eqb_neq name #"--nonblock")), Hn1. }
  unfold agentfs_read_tool. rewrite Eo, Hp.
  change (open_file mnt sb path (ModState _ _ (ms_trees m) _ _ _)) with (open_file mnt sb path m).
  rewrite Ho. cbn [mbind option_bind ms_k set_agents k_agents]. rewrite Ha, (find_upd addr a a') by done.
  unfold mailbox_read. cbn [agent_mailbox]. rewrite Hm, take_ge; [by eexists|]. unfold blen in Hlen. lia.
Qed.
